(* ===== verification/_CoqProject ===== *)
-Q . S2P
Prelude.v
Bytes.v
ByteArray.v
ByteArrayCodec.v
Timer.v
Thread.v
Locks.v
Fiber.v
Scheduler.v
IOManager.v
IoWait.v
IOLife.v
Util.v
UtilSystem.v
Config.v
Log.v
LogEvent.v
LogConfig.v
Address.v
Hook.v
Http.v
HttpDfa.v
HttpParser.v
HttpClientDfa.v
HttpClientParser.v
Stream.v
StreamArray.v
Socket.v
TcpServer.v
Servlet.v
HttpServer.v
HttpExchange.v
Connection.v
Settings.v
