(* ===== verification/Prelude.v ===== *)
(** * A model of the megalo server framework

    megalo is a C++ framework for servers on Linux: fibers under a scheduler
    with several threads, an I/O manager on epoll with timers, system calls
    hooked so that blocking code yields instead, and on top of them sockets,
    streams, a TCP server and an HTTP server with servlets; beside them byte
    arrays, configuration and logging.  This library models its C++ sources,
    src/megalo/, as functions the kernel evaluates and proves what makes them correct.

    ** Layers

    - [Prelude]: the monad of state, exceptions and faults, machine integers,
      lists addressed by offsets, sorted containers.  [Bytes]: buffers, memory
      images of integers, byte order (endian.h).
    - [ByteArray], [ByteArrayCodec] (bytearray.cc): the chain of nodes and the
      typed reads and writes over it.
    - [Timer] (timer.cc), [Thread] and [Locks] (thread.cc, thread.h), [Fiber] (fiber.cc), [Scheduler]
      (scheduler.cc), [IOManager] (iomanager.cc): the runtime.  The I/O manager is written
      over the class [SchedulerOps], which [Scheduler] implements, and holds the timers of [Timer].
      [IoWait] composes them for fibers that wait for a descriptor or a timeout, [IOLife] for
      the life of a manager with its threads, from the constructor to the destructor.
    - [Util] and [UtilSystem] (util.cc), [Config] (config.h, config.cc), [Log], [LogEvent], [LogConfig]
      (log.h, log.cc): strings, the registry of configuration variables, loggers, log lines as the
      macros make them, the definitions of loggers as a
      variable, read from and written to YAML, and the listener through which that variable
      reconfigures them.  [Settings] (http_parser.cc, hook.cc) has the limits and the timeout
      that follow variables.
    - [Address] (address.cc), [Hook] (fd_manager.cc, hook.cc), [Socket] (socket.cc):
      network addresses, the hooked calls over what they need of the kernel and of the I/O
      manager, and the socket class, whose calls are all hooked ones.
    - [Http] (http/http.cc), [HttpDfa] and [HttpParser] (http11_parser.rl.cc,
      http_parser.cc), [HttpClientDfa] and [HttpClientParser]
      (httpclient_parser.rl.cc, http_parser.cc): messages, the compiled Ragel
      machines with their actions and assertions, and the parser objects.
    - [Stream], [StreamArray] (stream.cc, socket_stream.cc), [TcpServer] (tcp_server.cc),
      [Servlet] (http/servlet.cc), [HttpServer] (http/http_session.cc,
      http/http_server.cc): streams over the class [StreamOps] with the laws
      [StreamLaws], a server that accepts on several sockets, the
      dispatch of requests, and sessions over any stream.  [HttpExchange] joins the ends:
      what a client writes, a server answers and the client reads.  [Connection] is the stream the
      server really has, a [SocketStream] over a [Socket] over the hooked calls, with the
      laws of a stream proved from what the kernel and the I/O manager promise ([NetLaws]).

    ** Conventions

    Definitions carry the names of the functions, methods and members they model; a
    method of a class is a definition of its file.  State is a record per class;
    objects reached by pointers live in a store and a pointer is an address or an
    index.  An operation is a value of [M S A]: it returns, throws a C++
    exception ([Throw], with the state at the throw), or does something undefined
    ([Crash]: a failed assertion, a null pointer, memory out of bounds, signed overflow, an
    indeterminate value).  Machine integers are [Z] with explicit wrapping ([u32], [i64]).
    Memory that the code leaves uninitialised, the clock, the addresses [new]
    returns and the results of system calls are arguments.

    What the source does not contain is a parameter, with its documented
    behaviour as a hypothesis or a class of laws where a proof needs it: the C
    library ([getaddrinfo], [inet_pton], [fnmatch], [strftime], [vasprintf]), the place of an element in a
    hash table, yaml-cpp, [boost::lexical_cast],
    the kernel.  Each class of laws has an instance, so the hypotheses can hold.

    Threads are interleaved at the points where another thread can observe or
    change shared state.  Where the code holds one mutex throughout an operation,
    the operation is one step; where it does not ([Scheduler::run], [addEvent],
    [startAccept], [CASLock::lock], [Thread::run]) the pieces are the steps of a relation
    with a program counter.  Memory is sequentially consistent.

    Loops that are not structural take fuel and end in [Crash Diverges] without
    it.  The callers inside the model pass enough, and the theorems say so by having no
    crash in their conclusion: loops over bytes get one more than the number of bytes, since
    every round takes at least one; a varint gets its number of groups; the walk over
    a YAML document gets its depth; a call that is repeated after waiting gets more than
    the number of repetitions the environment promises.

    ** What is proved

    - Data: [ByteArray.refines_abstract_buffer] (every run of operations behaves
      as an abstract buffer), [ByteArrayCodec.codec_round_trip],
      [StreamArray.array_transfers], [Address.v6_text_round_trip],
      [Config.lexical_round_trip]; also [Util.url_round_trip].
    - Runtime: the invariants [Timer.timer_operations_safe],
      [IOManager.io_operations_safe]; no task is lost or run twice
      ([Scheduler.scheduler_conserves_tasks]), workers drain the queue and leave
      ([worker_drains_and_exits]), and a manager stops with nothing pending and returns its
      descriptors ([IOLife.manager_life]); timers fire when due, once, and not
      when cancelled, and their arrival wakes the idle loop ([listExpiredCb_spec],
      [cancelled_timer_never_fires], [no_missed_wakeup]); the life of an
      event ([event_life]), a round of [idle] ([idle_round_spec]); a waiting fiber is woken
      once, by its event or by its timeout ([IoWait.woken_once]); context switches pair
      up ([Fiber.fiber_round_trip]); mutual exclusion ([Thread.caslock_excludes],
      [Locks.lock_guards_exclude]) and the handshake of the thread constructor
      ([Thread.thread_handshake]).
    - Transparency: a hooked call returns what the blocking call would
      ([Hook.do_io_spec]), and [fcntl] hides that descriptors are non-blocking
      ([Hook.fcntl_transparent]).
    - HTTP: the machines accept what is written and give its parts
      ([HttpParser.request_parsed], [HttpClientParser.response_parsed]), printing and
      parsing are inverse, [recvRequest] assembles a request whatever the segmentation of its body
      ([HttpServer.recv_request_spec]), a conversation is answered
      request by request, dispatch refines the history of registrations, and a page reaches
      the client that asked for it ([HttpExchange.page_served]), also when the calls of the server
      would block and are waited for by the hooks ([Connection.page_over_hooks]).
    - Servers: a socket never loses its descriptor ([Socket.socket_life]), [bind] is
      all or nothing, [stop] closes everything and its fibers end ([TcpServer]).
    - Configuration and logging: loading a document, well-typedness of the registry, patterns,
      reconfiguration, routing; a log line has one outcome in whatever order its operands are
      evaluated ([LogEvent.macro_is_log_macro]); after any sequence of loads the loggers are those of the
      definitions in force ([LogConfig.definitions_in_force]), and the settings are those of their variables
      ([Settings.settings_in_force]).

    The principal ones carry the labels C1, C2, ...; examples beside them show behaviour that
    is not intended, on concrete inputs.

    ** Not modelled

    What a pthread lock does inside, beyond its laws; the
    register contents and stacks behind [ucontext_t]; the memory order of atomics; the
    printing of diagnostics; the singleton templates and the macros other than those
    for logging; the Ragel grammars, of which the generated code is modelled; tests
    and examples. *)
From Stdlib Require Export ZArith Lia Sorting.Sorted.
From stdpp Require Export base decidable option list numbers sets.

#[export] Set Default Goal Selector "!".
Declare Scope megalo_scope.
Delimit Scope megalo_scope with megalo.
#[global] Open Scope Z_scope.
#[global] Open Scope megalo_scope.

(** ** Outcomes of C++ code

    A piece of code that changes a state [S] and returns an [A] either returns
    ([Ret]), throws a C++ exception leaving the state reached so far ([Throw]),
    or ends the process or leaves defined behaviour ([Crash]). *)

Inductive exn :=
  | out_of_range      (** [std::out_of_range] *)
  | logic_error       (** [std::logic_error] *)
  | invalid_argument  (** [std::invalid_argument] *)
  | bad_function_call (** [std::bad_function_call] *)
  | bad_alloc         (** [std::bad_alloc] *)
  | bad_lexical_cast  (** [boost::bad_lexical_cast] *)
  | yaml_exception    (** [YAML::Exception] *).

Inductive fault :=
  | AssertFailed  (** [assert] of [MEGALO_ASSERT] stops the process *)
  | NullDeref     (** a null pointer is dereferenced *)
  | OutOfBounds   (** memory outside the object is touched *)
  | DivByZero     (** integer division by zero *)
  | SignedOverflow (** undefined signed arithmetic or shift *)
  | Uninitialised (** an indeterminate value is used *)
  | Diverges      (** the loop bound of the model was reached *).

Inductive res (S A : Type) :=
  | Ret (a : A) (s : S)
  | Throw (e : exn) (s : S)
  | Crash (f : fault).
Arguments Ret {S A} a s.
Arguments Throw {S A} e s.
Arguments Crash {S A} f.

#[global] Instance exn_eq_dec : EqDecision exn.
Proof. solve_decision. Defined.
#[global] Instance fault_eq_dec : EqDecision fault.
Proof. solve_decision. Defined.

(** The state, exception and crash monad. *)
Definition M (S A : Type) : Type := S → res S A.

#[global] Instance M_ret {S} : MRet (M S) := λ A a s, Ret a s.
#[global] Instance M_bind {S} : MBind (M S) := λ A B k m s,
  match m s with
  | Ret a s' => k a s'
  | Throw e s' => Throw e s'
  | Crash f => Crash f
  end.

Definition get {S} : M S S := λ s, Ret s s.
Definition put {S} (s : S) : M S () := λ _, Ret () s.
Definition gets {S A} (f : S → A) : M S A := λ s, Ret (f s) s.
Definition modify {S} (f : S → S) : M S () := λ s, Ret () (f s).
Definition throw {S A} (e : exn) : M S A := λ s, Throw e s.
Definition crash {S A} (f : fault) : M S A := λ _, Crash f.

(** [MEGALO_ASSERT(b)]. *)
Definition massert {S} (b : bool) : M S () :=
  if b then mret () else crash AssertFailed.
(** Dereferencing a pointer that may be null. *)
Definition deref {S A} (o : option A) : M S A :=
  match o with Some a => mret a | None => crash NullDeref end.

Create HintDb megalo discriminated.
#[export] Hint Unfold get put gets modify throw crash massert deref : megalo.

Lemma bind_ret {S A B} (m : M S A) (k : A → M S B) s a s' :
  m s = Ret a s' → (m ≫= k) s = k a s'.
Proof. intros H. cbv [mbind M_bind]. by rewrite H. Qed.

Lemma bind_crash {S A B} (m : M S A) (k : A → M S B) s f :
  m s = Crash f → (m ≫= k) s = Crash f.
Proof. intros H. cbv [mbind M_bind]. by rewrite H. Qed.

Lemma bind_throw {S A B} (m : M S A) (k : A → M S B) s e s' :
  m s = Throw e s' → (m ≫= k) s = Throw e s'.
Proof. intros H. cbv [mbind M_bind]. by rewrite H. Qed.

Lemma bind_Ret_inv {S A B} (m : M S A) (k : A → M S B) s b s'' :
  (m ≫= k) s = Ret b s'' → ∃ a s', m s = Ret a s' ∧ k a s' = Ret b s''.
Proof. cbv [mbind M_bind]. destruct (m s) eqn:E; naive_solver. Qed.

Lemma bind_mret {S A B} (a : A) (k : A → M S B) s : (mret a ≫= k) s = k a s.
Proof. done. Qed.

Lemma bind_modify {S B} (f : S → S) (k : () → M S B) s :
  (modify f ≫= k) s = k () (f s).
Proof. done. Qed.

Lemma bind_gets {S A B} (f : S → A) (k : A → M S B) s : (gets f ≫= k) s = k (f s) s.
Proof. done. Qed.

Lemma bind_assoc {S A B C} (m : M S A) (k : A → M S B) (h : B → M S C) s :
  ((m ≫= k) ≫= h) s = (m ≫= λ a, k a ≫= h) s.
Proof. cbv [mbind M_bind]. by destruct (m s). Qed.

(** One step of a run: a known result of the first operation, or a primitive. *)
Tactic Notation "mstep" uconstr(H) := rewrite (bind_ret _ _ _ _ _ H); cbv beta.
Ltac msteps :=
  repeat first [ rewrite bind_mret | rewrite bind_modify | rewrite bind_gets ];
  cbv beta.

(** Running the monad: unfold the operations down to the next opaque call. *)
Ltac mrun :=
  repeat first
    [ progress cbv [mbind M_bind mret M_ret get put gets modify throw
                    crash massert deref]
    | progress simpl ].

(** ** Machine integers

    A w-bit unsigned integer is a [Z] in [[0, 2^w)], a signed one a [Z] in
    [[-2^(w-1), 2^(w-1))]; [wrap] and [swrap] are the conversions to them. *)

Definition wrap (w z : Z) : Z := z mod 2 ^ w.
Definition swrap (w z : Z) : Z := (z + 2 ^ (w - 1)) mod 2 ^ w - 2 ^ (w - 1).

Abbreviation u8 := (wrap 8).
Abbreviation u16 := (wrap 16).
Abbreviation u32 := (wrap 32).
Abbreviation u64 := (wrap 64).
Abbreviation i8 := (swrap 8).
Abbreviation i16 := (swrap 16).
Abbreviation i32 := (swrap 32).
Abbreviation i64 := (swrap 64).

Definition unsigned_in (w z : Z) : Prop := 0 ≤ z < 2 ^ w.
Definition signed_in (w z : Z) : Prop := - 2 ^ (w - 1) ≤ z < 2 ^ (w - 1).

Lemma pow2_pos w : 0 ≤ w → 0 < 2 ^ w.
Proof. intros. apply Z.pow_pos_nonneg; lia. Qed.

Lemma pow2_half w : 0 < w → 2 ^ w = 2 * 2 ^ (w - 1).
Proof. intros. rewrite <- Z.pow_succ_r by lia. f_equal. lia. Qed.

Lemma wrap_range w z : 0 ≤ w → unsigned_in w (wrap w z).
Proof. intros. apply Z.mod_pos_bound, pow2_pos; lia. Qed.

Lemma wrap_id w z : unsigned_in w z → wrap w z = z.
Proof. intros. apply Z.mod_small, H. Qed.

Lemma wrap_wrap w z : 0 ≤ w → wrap w (wrap w z) = wrap w z.
Proof. intros. apply wrap_id, wrap_range, H. Qed.

Lemma swrap_range w z : 0 < w → signed_in w (swrap w z).
Proof.
  intros. unfold swrap, signed_in. pose proof (pow2_half w H).
  pose proof (Z.mod_pos_bound (z + 2 ^ (w - 1)) (2 ^ w) ltac:(apply pow2_pos; lia)).
  lia.
Qed.

Lemma swrap_id w z : 0 < w → signed_in w z → swrap w z = z.
Proof.
  intros Hw Hz. unfold swrap, signed_in in *. pose proof (pow2_half w Hw).
  rewrite Z.mod_small; lia.
Qed.

Lemma swrap_wrap w z : 0 < w → swrap w (wrap w z) = swrap w z.
Proof.
  intros. unfold swrap, wrap. f_equal.
  rewrite Z.add_mod_idemp_l; [done|]. apply Z.pow_nonzero; lia.
Qed.

Lemma wrap_swrap w z : 0 < w → wrap w (swrap w z) = wrap w z.
Proof.
  intros. unfold swrap, wrap.
  rewrite Zminus_mod_idemp_l. f_equal. lia.
Qed.

(** ** Lists addressed by integer offsets *)

Section slices.
Context {A : Type}.
Implicit Types l : list A.

(** [memcpy] of [c] over the bytes [[p, p + length c)] of [l]. *)
Definition splice (p : nat) (c l : list A) : list A :=
  take p l ++ c ++ drop (p + length c) l.

(** The [n] elements from position [p]. *)
Definition slice (p n : nat) (l : list A) : list A := take n (drop p l).

Lemma length_splice p c l :
  (p + length c ≤ length l)%nat → length (splice p c l) = length l.
Proof.
  intros. unfold splice. rewrite !length_app, length_take, length_drop. lia.
Qed.

Lemma length_slice p n l :
  (p + n ≤ length l)%nat → length (slice p n l) = n.
Proof. intros. unfold slice. rewrite length_take, length_drop. lia. Qed.

Lemma splice_nil p l : splice p [] l = l.
Proof. unfold splice. simpl. rewrite Nat.add_0_r. apply take_drop. Qed.

Lemma slice_0 p l : slice p 0 l = [].
Proof. by unfold slice. Qed.

(** Writing two adjacent chunks is writing their concatenation. *)
Lemma splice_app p c d l :
  (p ≤ length l)%nat →
  splice (p + length c) d (splice p c l) = splice p (c ++ d) l.
Proof.
  intros. unfold splice. rewrite !length_app.
  rewrite take_app, (take_ge (take p l)) by (rewrite length_take; lia).
  rewrite length_take, (min_l p) by lia.
  replace (p + length c - p)%nat with (length c) by lia.
  rewrite take_app_length.
  rewrite drop_app_ge by (rewrite length_take; lia).
  rewrite length_take, (min_l p) by lia.
  replace (p + length c + length d - p)%nat with (length c + length d)%nat by lia.
  rewrite drop_app_ge by lia. rewrite drop_drop.
  rewrite <- !app_assoc. do 4 f_equal. lia.
Qed.

Lemma slice_app p n m l :
  slice p n l ++ slice (p + n) m l = slice p (n + m) l.
Proof.
  unfold slice. rewrite <- drop_drop. generalize (drop p l) as k. intros k.
  rewrite take_take_drop. done.
Qed.

(** What was written is read back. *)
Lemma slice_splice p c l :
  (p ≤ length l)%nat → slice p (length c) (splice p c l) = c.
Proof.
  intros. unfold slice, splice. rewrite drop_app_ge by (rewrite length_take; lia).
  rewrite length_take, (min_l p) by lia. rewrite Nat.sub_diag. simpl.
  apply take_app_length.
Qed.

(** Data before and after the written range is untouched. *)
Lemma slice_splice_before p n q c l :
  (p + n ≤ q)%nat → (q ≤ length l)%nat →
  slice p n (splice q c l) = slice p n l.
Proof.
  intros. unfold slice, splice.
  transitivity (take n (drop p (take q l ++ drop q l))); [|by rewrite take_drop].
  rewrite !drop_app_le by (rewrite length_take; lia).
  rewrite !take_app_le by (rewrite length_drop, length_take; lia).
  done.
Qed.

Lemma slice_splice_after p n q c l :
  (q + length c ≤ p)%nat → (q ≤ length l)%nat →
  slice p n (splice q c l) = slice p n l.
Proof.
  intros. unfold slice, splice. rewrite app_assoc, drop_app_ge;
    rewrite length_app, length_take, (min_l q) by lia; [|lia].
  rewrite drop_drop. do 2 f_equal. lia.
Qed.
End slices.

(** ** Concatenations of blocks of one size *)

Section blocks.
Context {A : Type}.
Implicit Types ls : list (list A).

Definition all_length (b : nat) ls : Prop := Forall (λ l, length l = b) ls.

Lemma all_length_app b ls ks :
  all_length b ls → all_length b ks → all_length b (ls ++ ks).
Proof. apply Forall_app_2. Qed.

Lemma length_concat_blocks b ls :
  all_length b ls → length (concat ls) = (b * length ls)%nat.
Proof.
  induction 1 as [|l ls Hl _ IH]; simpl; [lia|]. rewrite length_app, IH. lia.
Qed.

Lemma drop_concat_blocks b ls i :
  all_length b ls → drop (b * i) (concat ls) = concat (drop i ls).
Proof.
  intros H. revert i. induction H as [|l ls Hl _ IH]; intros [|i]; simpl.
  - by rewrite drop_nil.
  - by rewrite drop_nil.
  - by rewrite Nat.mul_0_r.
  - rewrite drop_app_ge by lia. rewrite <- IH. f_equal. lia.
Qed.

Lemma take_concat_blocks b ls i :
  all_length b ls → take (b * i) (concat ls) = concat (take i ls).
Proof.
  intros H. revert i. induction H as [|l ls Hl _ IH]; intros [|i]; simpl.
  - by rewrite take_nil.
  - by rewrite take_nil.
  - by rewrite Nat.mul_0_r.
  - rewrite take_app_ge by lia. rewrite <- IH. do 2 f_equal. lia.
Qed.

(** A block is a slice of the whole. *)
Lemma slice_concat_blocks b ls i l p n :
  all_length b ls → ls !! i = Some l → (p + n ≤ b)%nat →
  slice (b * i + p) n (concat ls) = slice p n l.
Proof.
  intros H Hi Hp. unfold slice.
  assert (length l = b) as Hl by (eapply Forall_lookup_1 in H; eauto).
  rewrite <- drop_drop, (drop_concat_blocks b) by done.
  rewrite (drop_S _ _ _ Hi). simpl.
  rewrite drop_app_le by lia. rewrite take_app_le by (rewrite length_drop; lia).
  done.
Qed.

(** Writing inside one block is writing in the whole. *)
Lemma splice_concat_blocks b ls i l p c :
  all_length b ls → ls !! i = Some l → (p + length c ≤ b)%nat →
  concat (<[i := splice p c l]> ls) = splice (b * i + p) c (concat ls).
Proof.
  intros H Hi Hp.
  assert (length l = b) as Hl by (eapply Forall_lookup_1 in H; eauto).
  assert (Hlt : (i < length ls)%nat) by (by eapply lookup_lt_Some).
  rewrite insert_take_drop by done. rewrite concat_app. simpl.
  unfold splice.
  replace (b * i + p + length c)%nat with (b * i + (p + length c))%nat by lia.
  rewrite <- (drop_drop _ _ (b * i)%nat).
  rewrite <- (take_take_drop (concat ls) (b * i) p).
  rewrite (take_concat_blocks b), !(drop_concat_blocks b) by done.
  rewrite !(drop_S _ _ _ Hi). simpl.
  rewrite (take_app_le l), (drop_app_le l) by lia.
  by rewrite <- !app_assoc.
Qed.

Lemma all_length_insert b ls i l :
  all_length b ls → length l = b → all_length b (<[i := l]> ls).
Proof. intros. by apply Forall_insert. Qed.
End blocks.

#[export] Hint Resolve all_length_app all_length_insert : megalo.

(** ** Sorted containers

    [std::set] keeps its elements sorted by the comparator: the model is the
    list in iteration order, an iterator its index. *)

Section count_while.
Context {A : Type}.
Implicit Types (f : A → bool) (l : list A).

(** Length of the longest prefix of elements that satisfy [f]: the index
    [lower_bound] and similar searches stop at. *)
Fixpoint count_while (f : A → bool) (l : list A) : nat :=
  match l with
  | [] => 0
  | x :: l => if f x then S (count_while f l) else 0
  end.

Lemma count_while_le f l : (count_while f l ≤ length l)%nat.
Proof. induction l as [|x l IH]; simpl; [done|]. destruct (f x); simpl; lia. Qed.

Lemma count_while_take f l : Forall (λ x, f x = true) (take (count_while f l) l).
Proof.
  induction l as [|x l IH]; simpl; [constructor|].
  destruct (f x) eqn:E; simpl; by constructor.
Qed.

Lemma count_while_lookup f l x : l !! count_while f l = Some x → f x = false.
Proof.
  induction l as [|y l IH]; simpl; [done|]. destruct (f y) eqn:E; simpl; [done|].
  by intros [= <-].
Qed.

(** In a sorted list where [f] is closed downwards every later element fails. *)
Lemma count_while_drop (R : A → A → Prop) f l :
  StronglySorted R l →
  (∀ x y, x ∈ l → y ∈ l → R x y → f y = true → f x = true) →
  Forall (λ x, f x = false) (drop (count_while f l) l).
Proof.
  induction 1 as [|x l Hs IH Hx]; intros Hf; simpl; [constructor|].
  destruct (f x) eqn:E; simpl.
  - apply IH. intros y z Hy Hz. apply Hf; set_solver.
  - constructor; [done|]. rewrite Forall_forall in Hx |- *. intros y Hy.
    destruct (f y) eqn:Ey; [|done]. rewrite <- E. symmetry.
    apply (Hf x y); [set_solver|set_solver|by apply Hx|done].
Qed.
End count_while.

Section sorted.
Context {A : Type} (R : A → A → Prop).
Implicit Types l : list A.

Lemma StronglySorted_app l k :
  StronglySorted R (l ++ k) ↔
  StronglySorted R l ∧ StronglySorted R k ∧ (∀ x y, x ∈ l → y ∈ k → R x y).
Proof.
  induction l as [|x l IH]; simpl.
  - split; [|by intros (_&?&_)]. intros Hk. split; [constructor|]. split; [done|].
    intros x y Hx. by apply elem_of_nil in Hx.
  - split.
    + inversion_clear 1 as [|?? Hs Hx]. apply IH in Hs as (?&?&?).
      apply Forall_app in Hx as [? Hk].
      split; [by constructor|]. split; [done|].
      intros y z [->|Hy]%elem_of_cons Hz; [|eauto].
      by eapply Forall_forall in Hk.
    + intros (Hs&Hk&Hlk). inversion Hs as [|?? Hl Hx]; subst. constructor.
      * apply IH. split; [done|]. split; [done|]. intros y z Hy Hz.
        apply Hlk; [by apply elem_of_cons; right|done].
      * apply Forall_app; split; [done|]. apply Forall_forall. intros y Hy.
        apply Hlk; [by apply elem_of_cons; left|done].
Qed.

Lemma StronglySorted_take_drop n l :
  StronglySorted R l →
  StronglySorted R (take n l) ∧ StronglySorted R (drop n l) ∧
  (∀ x y, x ∈ take n l → y ∈ drop n l → R x y).
Proof. intros H. apply StronglySorted_app. by rewrite take_drop. Qed.

Lemma StronglySorted_NoDup l :
  (∀ x, ¬ R x x) → StronglySorted R l → NoDup l.
Proof.
  intros Hirr. induction 1 as [|x l _ IH Hx]; constructor; [|done].
  intros Hin. eapply Forall_forall in Hx; [|done]. by apply (Hirr x).
Qed.

Lemma StronglySorted_delete i l :
  StronglySorted R l → StronglySorted R (delete i l).
Proof.
  intros H. rewrite delete_take_drop.
  destruct (StronglySorted_take_drop i l H) as (Ht&Hd&Htd).
  destruct (StronglySorted_take_drop (S i) l H) as (_&Hd'&_).
  apply StronglySorted_app. split; [done|]. split; [done|].
  intros x y Hx Hy. apply Htd; [done|].
  replace (S i) with (i + 1)%nat in Hy by lia. rewrite <- drop_drop in Hy.
  eapply subseteq_drop; exact Hy.
Qed.
End sorted.

Lemma StronglySorted_ext {A} (R Q : A → A → Prop) l :
  (∀ x y, x ∈ l → y ∈ l → R x y → Q x y) →
  StronglySorted R l → StronglySorted Q l.
Proof.
  intros HQ. induction 1 as [|x l _ IH Hx]; constructor.
  - apply IH. set_solver.
  - rewrite Forall_forall in Hx |- *. set_solver.
Qed.

Lemma elem_of_delete_NoDup {A} (l : list A) i x y :
  NoDup l → l !! i = Some x → y ∈ delete i l ↔ y ∈ l ∧ y ≠ x.
Proof.
  intros Hnd Hi.
  assert (Heq : l = take i l ++ x :: drop (S i) l) by (by rewrite take_drop_middle).
  rewrite delete_take_drop. rewrite Heq in Hnd.
  apply NoDup_app in Hnd as (Hnd1&Hnd2&Hnd3). apply NoDup_cons in Hnd3 as [Hnx Hnd3].
  rewrite Heq at 3. set_solver.
Qed.
