(* ===== verification/Bytes.v ===== *)
(** * Bytes, memory images of integers and the byte order (megalo/endian.h)

    A [char] buffer is a list of [byte].  [mem_of] and [val_of] are the memory
    image of an n-byte integer on a machine of a given byte order and its
    inverse (what [memcpy] between an integer and a buffer does); [bswap] is
    libc's [bswap_16]/[bswap_32]/[bswap_64], which reverses the bytes.  The
    byte order of the host is an argument everywhere, so the theorems hold on
    both kinds of machine. *)
From Stdlib Require Export Strings.Byte.
From Stdlib Require Export Strings.String.
From coqutil Require Export Byte Word.LittleEndianList.
From stdpp Require Import gmap.
From stdpp Require Export list.
From S2P Require Import Prelude.

#[global] Open Scope list_scope.
#[global] Open Scope Z_scope.
Abbreviation length := Datatypes.length.
Abbreviation bytes := (list byte).

(** A string literal as the [std::string] (or C string) it denotes. *)
Definition str (s : String.string) : bytes := String.list_byte_of_string s.
Arguments str s%_string.

#[export] Instance byte_eq_decision : EqDecision byte := Byte.byte_eq_dec.
#[export] Program Instance byte_countable : Countable byte :=
  inj_countable' byte.unsigned byte.of_Z _.
Next Obligation. intros b. apply byte.of_Z_unsigned. Qed.
#[export] Instance byte_inhabited : Inhabited byte := populate x00.

Lemma byte_range (b : byte) : 0 ≤ byte.unsigned b < 256.
Proof. apply byte.unsigned_range. Qed.

Lemma unsigned_of_Z_small z : 0 ≤ z < 256 → byte.unsigned (byte.of_Z z) = z.
Proof. intros. rewrite byte.unsigned_of_Z. by apply wrap_id. Qed.

(** ** The byte order *)

Inductive byte_order := MEGALO_LITTLE_ENDIAN | MEGALO_BIG_ENDIAN.
#[export] Instance byte_order_eq_dec : EqDecision byte_order.
Proof. solve_decision. Defined.

(** Width in bits of an [n]-byte integer. *)
Definition bits (n : nat) : Z := Z.of_nat n * 8.

Lemma bits_pos n : (0 < n)%nat → 0 < bits n.
Proof. unfold bits. lia. Qed.

Definition mem_of (o : byte_order) (n : nat) (v : Z) : bytes :=
  match o with
  | MEGALO_LITTLE_ENDIAN => le_split n v
  | MEGALO_BIG_ENDIAN => rev (le_split n v)
  end.

Definition val_of (o : byte_order) (m : bytes) : Z :=
  match o with
  | MEGALO_LITTLE_ENDIAN => le_combine m
  | MEGALO_BIG_ENDIAN => le_combine (rev m)
  end.

Lemma length_mem_of o n v : length (mem_of o n v) = n.
Proof. destruct o; simpl; rewrite ?length_rev; apply length_le_split. Qed.

Lemma val_of_mem_of o n v : val_of o (mem_of o n v) = wrap (bits n) v.
Proof.
  destruct o; simpl; rewrite ?rev_involutive; apply le_combine_split.
Qed.

Lemma mem_of_val_of o n m : length m = n → mem_of o n (val_of o m) = m.
Proof.
  intros. destruct o; simpl.
  - by apply split_le_combine'.
  - rewrite split_le_combine' by (by rewrite length_rev). apply rev_involutive.
Qed.

Lemma mem_of_wrap o n v : mem_of o n (wrap (bits n) v) = mem_of o n v.
Proof.
  unfold wrap, bits. destruct o; simpl; rewrite (le_split_mod v); done.
Qed.

Lemma mem_of_swrap o n v : (0 < n)%nat → mem_of o n (swrap (bits n) v) = mem_of o n v.
Proof.
  intros. rewrite <- mem_of_wrap, wrap_swrap by (by apply bits_pos).
  apply mem_of_wrap.
Qed.

Lemma val_of_range o n m : length m = n → unsigned_in (bits n) (val_of o m).
Proof.
  intros <-. unfold unsigned_in, bits. rewrite Z.mul_comm. destruct o; simpl.
  - apply le_combine_bound.
  - rewrite <- (length_rev m). apply le_combine_bound.
Qed.

(** ** [byteswap] *)

(** libc's [bswap_16], [bswap_32], [bswap_64] (n = 2, 4, 8). *)
Definition bswap (n : nat) (x : Z) : Z := le_combine (rev (le_split n x)).

Lemma mem_of_bswap o n x : mem_of o n (bswap n x) = rev (mem_of o n x).
Proof.
  unfold bswap. destruct o; simpl;
    rewrite split_le_combine' by (by rewrite length_rev, length_le_split); done.
Qed.

Lemma bswap_bswap n x : bswap n (bswap n x) = wrap (bits n) x.
Proof.
  unfold bswap at 1. change (rev (le_split n (bswap n x)))
    with (rev (mem_of MEGALO_LITTLE_ENDIAN n (bswap n x))).
  rewrite mem_of_bswap, rev_involutive. apply le_combine_split.
Qed.

Lemma bswap_wrap n x : bswap n (wrap (bits n) x) = bswap n x.
Proof.
  unfold bswap. f_equal. f_equal.
  apply (mem_of_wrap MEGALO_LITTLE_ENDIAN).
Qed.

Lemma bswap_range n x : unsigned_in (bits n) (bswap n x).
Proof.
  apply (val_of_range MEGALO_LITTLE_ENDIAN).
  by rewrite length_rev, length_le_split.
Qed.

(** [byteswap(T)] of endian.h at an unsigned [n]-byte type: the argument is
    converted to the unsigned type, swapped and converted back to [T]. *)
Definition byteswap (n : nat) (value : Z) : Z := bswap n (wrap (bits n) value).

(** The same template at a signed [n]-byte type. *)
Definition byteswap_signed (n : nat) (value : Z) : Z :=
  swrap (bits n) (bswap n (wrap (bits n) value)).

(** [byteswapOnLittleEndian] and [byteswapOnBigEndian]: which body is compiled
    depends on the host's byte order. *)
Definition byteswapOnLittleEndian (host : byte_order) (n : nat) (t : Z) : Z :=
  match host with
  | MEGALO_BIG_ENDIAN => t
  | MEGALO_LITTLE_ENDIAN => byteswap n t
  end.

Definition byteswapOnBigEndian (host : byte_order) (n : nat) (t : Z) : Z :=
  match host with
  | MEGALO_BIG_ENDIAN => byteswap n t
  | MEGALO_LITTLE_ENDIAN => t
  end.

Lemma byteswap_involutive n v : byteswap n (byteswap n v) = wrap (bits n) v.
Proof. unfold byteswap. by rewrite !bswap_wrap, bswap_bswap. Qed.

Lemma byteswapOnLittleEndian_involutive host n v :
  unsigned_in (bits n) v →
  byteswapOnLittleEndian host n (byteswapOnLittleEndian host n v) = v.
Proof.
  intros. destruct host; simpl; [|done].
  rewrite byteswap_involutive. by apply wrap_id.
Qed.

Lemma mem_of_byteswap o n v : mem_of o n (byteswap n v) = rev (mem_of o n v).
Proof. unfold byteswap. by rewrite bswap_wrap, mem_of_bswap. Qed.

Lemma mem_of_byteswap_signed o n v :
  (0 < n)%nat → mem_of o n (byteswap_signed n v) = rev (mem_of o n v).
Proof.
  intros. unfold byteswap_signed. rewrite mem_of_swrap by done.
  by rewrite bswap_wrap, mem_of_bswap.
Qed.

(** The other byte order: its memory image is the reversed one. *)
Lemma mem_of_other (o o' : byte_order) n v :
  o ≠ o' → rev (mem_of o n v) = mem_of o' n v.
Proof. destruct o, o'; simpl; rewrite ?rev_involutive; congruence. Qed.

Lemma val_of_other (o o' : byte_order) m :
  o ≠ o' → val_of o (rev m) = val_of o' m.
Proof. destruct o, o'; simpl; rewrite ?rev_involutive; congruence. Qed.

(** Reading an [n]-byte integer in the other byte order is reading it in the
    host's and swapping. *)
Lemma byteswap_val_of o o' n m :
  o ≠ o' → length m = n → byteswap n (val_of o m) = val_of o' m.
Proof.
  intros Ho Hm. rewrite <- (val_of_other o o') by done.
  rewrite <- (mem_of_val_of o n m Hm) at 2.
  rewrite <- mem_of_byteswap, val_of_mem_of.
  symmetry. apply wrap_id, bswap_range.
Qed.

Create Rewrite HintDb megalo_bytes.
#[export] Hint Rewrite length_mem_of val_of_mem_of : megalo_bytes.
