(* ===== verification/ByteArray.v ===== *)
(** * ByteArray storage (megalo/bytearray.h, megalo/bytearray.cc)

    The chain of [Node]s from [m_root] is the list [m_nodes]; [m_cur] is the
    index in the chain of the node the C++ pointer designates, the length of
    the chain standing for [nullptr].  The contents of a block returned by
    [new char[s]] are indeterminate: they are given by [heap_bytes], about
    which nothing is assumed.  [ceil(1.0 * size / m_baseSize)] is taken as the
    exact quotient rounded up, which is what the double computation gives for
    sizes below 2^53 ([LIMIT]). *)
From S2P Require Import Prelude Bytes.

Record node := Node { n_ptr : bytes; n_size : Z }.

Record ByteArray := mkByteArray {
  m_baseSize : Z;
  m_position : Z;
  m_size : Z;
  m_capacity : Z;
  m_endian : byte_order;
  m_nodes : list node;
  m_cur : nat
}.

(** [struct iovec]: the buffer starts at offset [iov_off] of node [iov_node]. *)
Record iovec := mkIovec { iov_node : nat; iov_off : Z; iov_len : Z }.

Definition LIMIT : Z := 2 ^ 53.

(** Assignments to one member. *)
Definition set_position (v : Z) (b : ByteArray) : ByteArray :=
  mkByteArray (m_baseSize b) v (m_size b) (m_capacity b) (m_endian b) (m_nodes b) (m_cur b).
Definition set_size (v : Z) (b : ByteArray) : ByteArray :=
  mkByteArray (m_baseSize b) (m_position b) v (m_capacity b) (m_endian b) (m_nodes b) (m_cur b).
Definition set_endian (v : byte_order) (b : ByteArray) : ByteArray :=
  mkByteArray (m_baseSize b) (m_position b) (m_size b) (m_capacity b) v (m_nodes b) (m_cur b).
Definition set_nodes (v : list node) (b : ByteArray) : ByteArray :=
  mkByteArray (m_baseSize b) (m_position b) (m_size b) (m_capacity b) (m_endian b) v (m_cur b).
Definition set_cur (v : nat) (b : ByteArray) : ByteArray :=
  mkByteArray (m_baseSize b) (m_position b) (m_size b) (m_capacity b) (m_endian b) (m_nodes b) v.

(** [*m_cur], and [m_cur = m_cur->next]. *)
Definition cur_node : M ByteArray node :=
  λ b, deref (m_nodes b !! m_cur b) b.
Definition next_node : M ByteArray () :=
  cur_node;; modify (λ b, set_cur (S (m_cur b)) b).

(** [v % m_baseSize]. *)
Definition mod_base (v : Z) : M ByteArray Z :=
  λ b, if m_baseSize b =? 0 then Crash DivByZero else Ret (v mod m_baseSize b) b.

(** [memcpy(m_cur->ptr + npos, c, length c)]. *)
Definition copy_in (npos : Z) (c : bytes) : M ByteArray () :=
  n ← cur_node;
  if npos + Z.of_nat (length c) <=? Z.of_nat (length (n_ptr n)) then
    modify (λ b, set_nodes
      (<[m_cur b := Node (splice (Z.to_nat npos) c (n_ptr n)) (n_size n)]> (m_nodes b)) b)
  else crash OutOfBounds.

(** [memcpy(buf, cur->ptr + npos, len)]. *)
Definition copy_out (n : node) (npos len : Z) : M ByteArray bytes :=
  if npos + len <=? Z.of_nat (length (n_ptr n)) then
    mret (slice (Z.to_nat npos) (Z.to_nat len) (n_ptr n))
  else crash OutOfBounds.

Definition advance (k : Z) : M ByteArray () :=
  modify (λ b, set_position (u64 (m_position b + k)) b).

Section heap.
Context (heap_bytes : nat → nat → byte).

(** [new Node(s)], as the node of index [i] of its chain. *)
Definition new_node (i : nat) (s : Z) : node :=
  Node (map (heap_bytes i) (seq 0 (Z.to_nat s))) s.

(** [ByteArray::ByteArray(size_t base_size)]. *)
Definition make (base_size : Z) : ByteArray :=
  mkByteArray base_size 0 0 base_size MEGALO_BIG_ENDIAN [new_node 0 base_size] 0.

Definition isLittleEndian (b : ByteArray) : bool :=
  bool_decide (m_endian b = MEGALO_LITTLE_ENDIAN).
Definition setIsLittleEndian (val : bool) : M ByteArray () :=
  modify (set_endian (if val then MEGALO_LITTLE_ENDIAN else MEGALO_BIG_ENDIAN)).

Definition getCapacity (b : ByteArray) : Z := u64 (m_capacity b - m_position b).
Definition getReadSize (b : ByteArray) : Z := u64 (m_size b - m_position b).

(** [ceil(1.0 * size / m_baseSize)]. *)
Definition node_count (size base : Z) : Z := (size + base - 1) / base.

(** The loop of [addCapacity] that appends [count] nodes at the end. *)
Fixpoint append_nodes (count : nat) (b : ByteArray) : ByteArray :=
  match count with
  | O => b
  | S count => append_nodes count
      (mkByteArray (m_baseSize b) (m_position b) (m_size b)
         (u64 (m_capacity b + m_baseSize b)) (m_endian b)
         (m_nodes b ++ [new_node (length (m_nodes b)) (m_baseSize b)]) (m_cur b))
  end.

(** [void ByteArray::addCapacity(size_t size)].  [first] is the node after the
    old end of the chain; it is null when no node was added. *)
Definition addCapacity (size : Z) : M ByteArray () := λ b,
  if size =? 0 then Ret () b else
  let old_cap := getCapacity b in
  if size <=? old_cap then Ret () b else
  if m_baseSize b =? 0 then Crash DivByZero else
  let count := node_count (size - old_cap) (m_baseSize b) in
  let first := length (m_nodes b) in
  let b' := append_nodes (Z.to_nat count) b in
  Ret () (if old_cap =? 0 then set_cur first b' else b').

(** The [while(size > 0)] loop of [ByteArray::write]. *)
Fixpoint write_loop (fuel : nat) (buf : bytes) (bpos size npos ncap : Z) : M ByteArray () :=
  match fuel with
  | O => crash Diverges
  | S fuel =>
    if size <=? 0 then mret () else
    if size <=? ncap then
      copy_in npos (slice (Z.to_nat bpos) (Z.to_nat size) buf);;
      n ← cur_node;
      (if n_size n =? npos + size then next_node else mret ());;
      advance size;;
      write_loop fuel buf (bpos + size) 0 npos ncap
    else
      copy_in npos (slice (Z.to_nat bpos) (Z.to_nat ncap) buf);;
      advance ncap;;
      next_node;;
      n ← cur_node;
      write_loop fuel buf (bpos + ncap) (size - ncap) 0 (n_size n)
  end.

(** [void ByteArray::write(const void* buf, size_t size)]. *)
Definition write (buf : bytes) : M ByteArray () :=
  let size := Z.of_nat (length buf) in
  if size =? 0 then mret () else
  addCapacity size;;
  pos ← gets m_position;
  npos ← mod_base pos;
  n ← cur_node;
  write_loop (S (S (length buf))) buf 0 size npos (u64 (n_size n - npos));;
  modify (λ b, if m_size b <? m_position b then set_size (m_position b) b else b).

(** The [while(size > 0)] loop of [ByteArray::read]; [out] is what has been
    copied to the caller's buffer. *)
Fixpoint read_loop (fuel : nat) (out : bytes) (size npos ncap : Z) : M ByteArray bytes :=
  match fuel with
  | O => crash Diverges
  | S fuel =>
    if size <=? 0 then mret out else
    n ← cur_node;
    if size <=? ncap then
      c ← copy_out n npos size;
      (if n_size n =? npos + size then next_node else mret ());;
      advance size;;
      read_loop fuel (out ++ c) 0 npos ncap
    else
      c ← copy_out n npos ncap;
      advance ncap;;
      next_node;;
      n' ← cur_node;
      read_loop fuel (out ++ c) (size - ncap) 0 (n_size n')
  end.

(** [void ByteArray::read(void* buf, size_t size)]. *)
Definition read (size : Z) : M ByteArray bytes :=
  avail ← gets getReadSize;
  if avail <? size then throw out_of_range else
  pos ← gets m_position;
  npos ← mod_base pos;
  n ← cur_node;
  read_loop (S (S (Z.to_nat size))) [] size npos (u64 (n_size n - npos)).

(** The loop of [read(buf, size, position) const]: it moves a local pointer
    [cur], and compares [m_cur->size] for the end of the node. *)
Fixpoint read_at_loop (fuel : nat) (cur : nat) (out : bytes) (size npos ncap : Z)
    : M ByteArray bytes :=
  match fuel with
  | O => crash Diverges
  | S fuel =>
    if size <=? 0 then mret out else
    nodes ← gets m_nodes;
    n ← deref (nodes !! cur);
    if size <=? ncap then
      c ← copy_out n npos size;
      m ← cur_node;
      read_at_loop fuel (if n_size m =? npos + size then S cur else cur) (out ++ c) 0 npos ncap
    else
      c ← copy_out n npos ncap;
      n' ← deref (nodes !! S cur);
      read_at_loop fuel (S cur) (out ++ c) (size - ncap) 0 (n_size n')
  end.

(** [void ByteArray::read(void* buf, size_t size, size_t position) const]. *)
Definition read_at (size position : Z) : M ByteArray bytes :=
  total ← gets m_size;
  if u64 (total - position) <? size then throw out_of_range else
  npos ← mod_base position;
  n ← cur_node;
  cur ← gets m_cur;
  read_at_loop (S (S (Z.to_nat size))) cur [] size npos (u64 (n_size n - npos)).

(** The [while(v > m_cur->size)] loop of [setPosition]; its result is the
    remaining [v]. *)
Fixpoint seek_loop (fuel : nat) (v : Z) : M ByteArray Z :=
  match fuel with
  | O => crash Diverges
  | S fuel =>
    n ← cur_node;
    if n_size n <? v then next_node;; seek_loop fuel (v - n_size n) else mret v
  end.

(** [void ByteArray::setPosition(size_t v)]. *)
Definition setPosition (v : Z) : M ByteArray () :=
  cap ← gets m_capacity;
  if cap <? v then throw out_of_range else
  modify (set_position v);;
  modify (λ b, if m_size b <? m_position b then set_size (m_position b) b else b);;
  modify (set_cur 0);;
  len ← gets (length ∘ m_nodes);
  r ← seek_loop (S len) v;
  n ← cur_node;
  if r =? n_size n then next_node else mret ().

(** [void ByteArray::clear()]: the root node is kept. *)
Definition clear : M ByteArray () :=
  modify (λ b, mkByteArray (m_baseSize b) 0 0 (m_baseSize b) (m_endian b)
                 (take 1 (m_nodes b)) 0).

(** [std::string ByteArray::toString() const]. *)
Definition toString : M ByteArray bytes :=
  n ← gets getReadSize;
  if n =? 0 then mret [] else
  pos ← gets m_position;
  read_at n pos.

(** The loop shared by [getReadBuffers] and [getWriteBuffers]: one [iovec] per
    node from [cur], [len] bytes in all. *)
Fixpoint iov_loop (fuel : nat) (cur : nat) (len npos ncap : Z) : M ByteArray (list iovec) :=
  match fuel with
  | O => crash Diverges
  | S fuel =>
    if len <=? 0 then mret [] else
    nodes ← gets m_nodes;
    if len <=? ncap then
      deref (nodes !! cur);;
      mret [mkIovec cur npos len]
    else
      deref (nodes !! cur);;
      n' ← deref (nodes !! S cur);
      rest ← iov_loop fuel (S cur) (len - ncap) 0 (n_size n');
      mret (mkIovec cur npos ncap :: rest)
  end.

(** [uint64_t ByteArray::getReadBuffers(buffers, len) const]. *)
Definition getReadBuffers (len : Z) : M ByteArray (Z * list iovec) :=
  avail ← gets getReadSize;
  let len := if avail <? len then avail else len in
  if len =? 0 then mret (0, []) else
  pos ← gets m_position;
  npos ← mod_base pos;
  n ← cur_node;
  cur ← gets m_cur;
  iovs ← iov_loop (S (Z.to_nat len)) cur len npos (u64 (n_size n - npos));
  mret (len, iovs).

(** [uint64_t ByteArray::getReadBuffers(buffers, len, position) const]. *)
Definition getReadBuffers_at (len position : Z) : M ByteArray (Z * list iovec) :=
  avail ← gets getReadSize;
  let len := if avail <? len then avail else len in
  if len =? 0 then mret (0, []) else
  npos ← mod_base position;
  base ← gets m_baseSize;
  nodes ← gets m_nodes;
  let cur := Z.to_nat (position / base) in
  n ← deref (nodes !! cur);
  iovs ← iov_loop (S (Z.to_nat len)) cur len npos (u64 (n_size n - npos));
  mret (len, iovs).

(** [uint64_t ByteArray::getWriteBuffers(buffers, len)]. *)
Definition getWriteBuffers (len : Z) : M ByteArray (Z * list iovec) :=
  if len =? 0 then mret (0, []) else
  addCapacity len;;
  pos ← gets m_position;
  npos ← mod_base pos;
  n ← cur_node;
  cur ← gets m_cur;
  iovs ← iov_loop (S (Z.to_nat len)) cur len npos (u64 (n_size n - npos));
  mret (len, iovs).

(** The [while(read_size > 0)] loop of [writeToFile]; the result is what was
    written to the stream.  A negative length is outside the contract of
    [ostream::write]. *)
Fixpoint save_loop (fuel : nat) (cur : nat) (read_size pos : Z) : M ByteArray bytes :=
  match fuel with
  | O => crash Diverges
  | S fuel =>
    if read_size <=? 0 then mret [] else
    diff ← mod_base pos;
    base ← gets m_baseSize;
    let len := (if base <? read_size then base else read_size) - diff in
    nodes ← gets m_nodes;
    n ← deref (nodes !! cur);
    if len <? 0 then crash OutOfBounds else
    c ← copy_out n diff len;
    rest ← save_loop fuel (S cur) (read_size - len) (pos + len);
    mret (c ++ rest)
  end.

(** [bool ByteArray::writeToFile(name) const]; [opened] says whether
    [ofs.open] succeeded.  The result is the file's contents. *)
Definition writeToFile (opened : bool) : M ByteArray (bool * bytes) :=
  if opened then
    read_size ← gets getReadSize;
    pos ← gets m_position;
    cur ← gets m_cur;
    len ← gets (length ∘ m_nodes);
    out ← save_loop (S (S len)) cur read_size pos;
    mret (true, out)
  else mret (false, []).

(** The [while(!ifs.eof())] loop of [readFromFile]: each turn reads up to
    [m_baseSize] bytes; the end of the file is seen by the read that comes
    up short. *)
Fixpoint load_loop (fuel : nat) (file : bytes) : M ByteArray () :=
  match fuel with
  | O => crash Diverges
  | S fuel =>
    base ← gets m_baseSize;
    write (take (Z.to_nat base) file);;
    if Z.of_nat (length file) <? base then mret ()
    else load_loop fuel (drop (Z.to_nat base) file)
  end.

(** [bool ByteArray::readFromFile(name)]; [file] is the file's contents, or
    [None] when it cannot be opened. *)
Definition readFromFile (file : option bytes) : M ByteArray bool :=
  match file with
  | None => mret false
  | Some content => load_loop (S (length content)) content;; mret true
  end.

End heap.

Definition hex_digit (d : Z) : byte := byte.of_Z (if d <? 10 then 48 + d else 87 + d).

(** [std::setw(2) << std::setfill('0') << std::hex << v << " "]. *)
Definition hex_item (c : byte) : bytes :=
  [hex_digit (byte.unsigned c / 16); hex_digit (byte.unsigned c mod 16); x20].

(** [std::string ByteArray::toHexString() const]: a newline before every 32nd
    byte but the first. *)
Fixpoint hex_lines (i : Z) (s : bytes) : bytes :=
  match s with
  | [] => []
  | c :: s => (if (0 <? i) && (i mod 32 =? 0) then [x0a] else []) ++ hex_item c
              ++ hex_lines (i + 1) s
  end.
Definition toHexString : M ByteArray bytes :=
  s ← toString;
  mret (hex_lines 0 s).

(** * Facts *)

(** ** The abstract contents

    [view] is the memory of the whole chain, [data] its first [m_size] bytes:
    what has been written. *)

Definition view (b : ByteArray) : bytes := concat (n_ptr <$> m_nodes b).
Definition data (b : ByteArray) : bytes := take (Z.to_nat (m_size b)) (view b).

Definition node_ok (base : Z) (n : node) : Prop :=
  length (n_ptr n) = Z.to_nat base ∧ n_size n = base.

(** The chain: blocks of [m_baseSize] bytes, [m_capacity] bytes in all. *)
Record shape (b : ByteArray) : Prop := {
  sh_base : 0 < m_baseSize b;
  sh_nodes : Forall (node_ok (m_baseSize b)) (m_nodes b);
  sh_root : (0 < length (m_nodes b))%nat;
  sh_cap : m_capacity b = m_baseSize b * Z.of_nat (length (m_nodes b));
  sh_limit : m_capacity b < LIMIT
}.

(** The invariant of the class: [m_position <= m_size <= m_capacity], and
    [m_cur] is the node that holds offset [m_position]. *)
Record wf (b : ByteArray) : Prop := {
  wf_shape :> shape b;
  wf_pos : 0 ≤ m_position b ≤ m_size b;
  wf_size : m_size b ≤ m_capacity b;
  wf_cur : m_cur b = Z.to_nat (m_position b / m_baseSize b)
}.
#[export] Hint Resolve wf_shape sh_base sh_nodes sh_root sh_cap sh_limit : megalo.

(** The fields an operation on the contents leaves alone. *)
Definition same_frame (b b' : ByteArray) : Prop :=
  m_baseSize b' = m_baseSize b ∧ m_endian b' = m_endian b.

Lemma LIMIT_u64 z : 0 ≤ z < LIMIT → u64 z = z.
Proof. intros. apply wrap_id. unfold unsigned_in, LIMIT in *. lia. Qed.

Lemma blocks_all_length base ns :
  Forall (node_ok base) ns → all_length (Z.to_nat base) (n_ptr <$> ns).
Proof.
  intros. apply Forall_fmap. eapply Forall_impl; [done|]. by intros n [? _].
Qed.

Lemma length_view b : shape b → length (view b) = Z.to_nat (m_capacity b).
Proof.
  intros [? Hn ? Hc ?]. unfold view.
  rewrite (length_concat_blocks (Z.to_nat (m_baseSize b)))
    by (by apply blocks_all_length).
  rewrite length_fmap, Hc. lia.
Qed.

Lemma length_data b : wf b → length (data b) = Z.to_nat (m_size b).
Proof.
  intros [? ? ? ?]. unfold data. rewrite length_take, length_view by done. lia.
Qed.

(** An offset below the capacity lies in a node of the chain. *)
Lemma node_at base ns i p :
  Forall (node_ok base) ns → 0 < base → 0 ≤ p →
  base * Z.of_nat i + p < base * Z.of_nat (length ns) →
  ∃ n, ns !! i = Some n ∧ node_ok base n.
Proof.
  intros Hn Hb Hp Hi.
  assert ((i < length ns)%nat) as [n Hlk]%lookup_lt_is_Some_2 by nia.
  exists n. split; [done|]. by eapply Forall_lookup_1 in Hn.
Qed.

Lemma div_offset base c p :
  0 < base → 0 ≤ c → 0 ≤ p < base → (base * c + p) / base = c.
Proof. intros. rewrite Z.mul_comm, Z.div_add_l by lia. rewrite Z.div_small; lia. Qed.

Lemma div_offset_end base c : 0 < base → (base * c + base) / base = c + 1.
Proof. intros. replace (base * c + base) with ((c + 1) * base) by lia. apply Z.div_mul. lia. Qed.

(** ** One [memcpy] *)

Lemma copy_in_spec base pos sz cap e ns i npos c n :
  Forall (node_ok base) ns → ns !! i = Some n → node_ok base n →
  0 ≤ npos → npos + Z.of_nat (length c) ≤ base →
  ∃ ns', copy_in npos c (mkByteArray base pos sz cap e ns i)
         = Ret () (mkByteArray base pos sz cap e ns' i)
       ∧ concat (n_ptr <$> ns') =
         splice (Z.to_nat (base * Z.of_nat i + npos)) c (concat (n_ptr <$> ns))
       ∧ Forall (node_ok base) ns' ∧ length ns' = length ns.
Proof.
  intros Hns Hi [Hl Hs] Hp Hc. eexists. unfold copy_in, cur_node. mrun. rewrite Hi. mrun.
  rewrite Hl. destruct (Z.leb_spec (npos + Z.of_nat (length c)) (Z.of_nat (Z.to_nat base))); [|lia].
  split; [done|]. split; [|split].
  - rewrite list_fmap_insert. simpl.
    rewrite (splice_concat_blocks (Z.to_nat base)).
    + f_equal. lia.
    + by apply blocks_all_length.
    + by rewrite list_lookup_fmap, Hi.
    + lia.
  - apply Forall_insert; [done|]. split; simpl; [|done].
    rewrite length_splice; lia.
  - by rewrite length_insert.
Qed.

Lemma copy_out_spec base ns i n npos len b :
  Forall (node_ok base) ns → ns !! i = Some n →
  0 ≤ npos → 0 ≤ len → npos + len ≤ base →
  copy_out n npos len b =
    Ret (slice (Z.to_nat (base * Z.of_nat i + npos)) (Z.to_nat len)
           (concat (n_ptr <$> ns))) b.
Proof.
  intros Hns Hi ? ? ?. unfold copy_out. mrun.
  destruct (Forall_lookup_1 _ _ _ _ Hns Hi) as [Hl _]. rewrite Hl.
  destruct (Z.leb_spec (npos + len) (Z.of_nat (Z.to_nat base))); [|lia].
  f_equal. rewrite <- (slice_concat_blocks (Z.to_nat base) (n_ptr <$> ns) i (n_ptr n)).
  - f_equal. lia.
  - by apply blocks_all_length.
  - by rewrite list_lookup_fmap, Hi.
  - lia.
Qed.

(** The node reached after [size] more bytes from offset [npos] of node [i]. *)
Definition cur_after (base : Z) (i : nat) (npos size : Z) : nat :=
  if 0 <? size then Z.to_nat ((base * Z.of_nat i + npos + size) / base) else i.

Lemma cur_after_last base i npos size :
  0 < base → 0 ≤ npos → 0 < size → npos + size ≤ base →
  cur_after base i npos size = if base =? npos + size then S i else i.
Proof.
  intros. unfold cur_after. destruct (Z.ltb_spec 0 size); [|lia].
  rewrite <- Z.add_assoc. destruct (Z.eqb_spec base (npos + size)) as [->|].
  - rewrite div_offset_end by lia. lia.
  - rewrite div_offset by lia. lia.
Qed.

Lemma cur_after_next base i npos size :
  0 < base → base - npos < size → 0 ≤ npos < base →
  cur_after base (S i) 0 (size - (base - npos)) = cur_after base i npos size.
Proof.
  intros. unfold cur_after. destruct (Z.ltb_spec 0 size), (Z.ltb_spec 0 (size - (base - npos))); try lia.
  do 2 f_equal. lia.
Qed.

(** ** The copying loops *)

Lemma write_loop_done fuel buf bpos npos ncap b :
  write_loop (S fuel) buf bpos 0 npos ncap b = Ret () b.
Proof. done. Qed.

Lemma write_loop_spec base sz cap e fuel : ∀ buf bpos size npos i ns pos,
  0 < base → Forall (node_ok base) ns →
  0 ≤ npos < base → 0 ≤ size → 0 ≤ bpos → bpos + size ≤ Z.of_nat (length buf) →
  size + 1 < Z.of_nat fuel → 0 ≤ pos → pos + size < LIMIT →
  base * Z.of_nat i + npos + size ≤ base * Z.of_nat (length ns) →
  ∃ ns', write_loop fuel buf bpos size npos (base - npos) (mkByteArray base pos sz cap e ns i)
         = Ret () (mkByteArray base (pos + size) sz cap e ns' (cur_after base i npos size))
       ∧ concat (n_ptr <$> ns') =
         splice (Z.to_nat (base * Z.of_nat i + npos))
           (slice (Z.to_nat bpos) (Z.to_nat size) buf) (concat (n_ptr <$> ns))
       ∧ Forall (node_ok base) ns' ∧ length ns' = length ns.
Proof.
  induction fuel as [|fuel IH]; intros buf bpos size npos i ns pos Hb Hns Hnp Hs Hbp Hbuf Hf Hpos Hlim Hcap; [lia|].
  assert (base * Z.of_nat (length ns) = Z.of_nat (length (concat (n_ptr <$> ns)))) as Hlen.
  { rewrite (length_concat_blocks (Z.to_nat base)) by (by apply blocks_all_length).
    rewrite length_fmap. lia. }
  simpl. destruct (Z.leb_spec size 0).
  { assert (size = 0) as -> by lia. exists ns.
    unfold cur_after. simpl. rewrite slice_0, splice_nil, Z.add_0_r. done. }
  destruct (node_at base ns i npos) as (n & Hi & Hn); [done..|lia|lia|].
  destruct (Z.leb_spec size (base - npos)) as [Hle|Hgt].
  - destruct (copy_in_spec base pos sz cap e ns i npos
      (slice (Z.to_nat bpos) (Z.to_nat size) buf) n) as (ns' & Hc & Hv & Hns' & Hl');
      [done..|lia|rewrite length_slice; lia|].
    rewrite (bind_ret _ _ _ _ _ Hc). clear Hc.
    destruct (node_at base ns' i npos) as (n' & Hi' & Hn'); [done..|lia|rewrite Hl'; lia|].
    exists ns'. rewrite cur_after_last by lia.
    unfold cur_node, next_node, advance. mrun. rewrite Hi'. mrun. rewrite (proj2 Hn').
    assert (fuel ≠ 0%nat) by lia. destruct fuel as [|fuel]; [lia|].
    destruct (base =? npos + size); mrun; unfold cur_node; mrun; rewrite ?Hi'; mrun;
      unfold set_cur, set_position; simpl; rewrite LIMIT_u64 by lia; done.
  - destruct (copy_in_spec base pos sz cap e ns i npos
      (slice (Z.to_nat bpos) (Z.to_nat (base - npos)) buf) n) as (ns' & Hc & Hv & Hns' & Hl');
      [done..|lia|rewrite length_slice; lia|].
    rewrite (bind_ret _ _ _ _ _ Hc). clear Hc.
    destruct (node_at base ns' i npos) as (n1 & Hi1 & Hn1); [done..|lia|rewrite Hl'; lia|].
    destruct (node_at base ns' (S i) 0) as (n' & Hi' & Hn'); [done..|lia|rewrite Hl'; lia|].
    unfold next_node, cur_node, advance. mrun. rewrite Hi1. mrun. rewrite Hi'. mrun.
    unfold set_cur, set_position; simpl. rewrite LIMIT_u64 by lia.
    rewrite (proj2 Hn').
    pose proof (IH buf (bpos + (base - npos)) (size - (base - npos)) 0 (S i) ns'
      (pos + (base - npos))) as IH'. rewrite Z.sub_0_r in IH'.
    destruct IH' as (ns2 & -> & Hv2 & Hns2 & Hl2); [done || lia..|]. clear IH.
    exists ns2. rewrite cur_after_next by lia. split; [|split; [|split; [done|lia]]].
    { f_equal. f_equal. lia. }
    rewrite Hv2, Hv.
    replace (Z.to_nat (base * Z.of_nat (S i) + 0)) with
      (Z.to_nat (base * Z.of_nat i + npos) +
       length (slice (Z.to_nat bpos) (Z.to_nat (base - npos)) buf))%nat
      by (rewrite length_slice; lia).
    rewrite splice_app by lia. f_equal.
    replace (Z.to_nat (bpos + (base - npos))) with
      (Z.to_nat bpos + Z.to_nat (base - npos))%nat by lia.
    rewrite slice_app. f_equal. lia.
Qed.

Lemma read_loop_spec base sz cap e ns fuel : ∀ out size npos i pos,
  0 < base → Forall (node_ok base) ns →
  0 ≤ npos < base → 0 ≤ size →
  size + 1 < Z.of_nat fuel → 0 ≤ pos → pos + size < LIMIT →
  base * Z.of_nat i + npos + size ≤ base * Z.of_nat (length ns) →
  read_loop fuel out size npos (base - npos) (mkByteArray base pos sz cap e ns i)
    = Ret (out ++ slice (Z.to_nat (base * Z.of_nat i + npos)) (Z.to_nat size)
                    (concat (n_ptr <$> ns)))
        (mkByteArray base (pos + size) sz cap e ns (cur_after base i npos size)).
Proof.
  induction fuel as [|fuel IH]; intros out size npos i pos Hb Hns Hnp Hs Hf Hpos Hlim Hcap; [lia|].
  simpl. destruct (Z.leb_spec size 0).
  { assert (size = 0) as -> by lia. unfold cur_after. simpl.
    by rewrite slice_0, app_nil_r, Z.add_0_r. }
  destruct (node_at base ns i npos) as (n & Hi & Hn); [done..|lia|lia|].
  unfold next_node, cur_node, advance. mrun. rewrite Hi. mrun.
  destruct (Z.leb_spec size (base - npos)) as [Hle|Hgt].
  - rewrite (copy_out_spec base ns i) by (done || lia). mrun.
    rewrite (proj2 Hn), cur_after_last by lia.
    destruct fuel as [|fuel]; [lia|].
    destruct (base =? npos + size); mrun; rewrite ?Hi; mrun;
      unfold set_cur, set_position; simpl; rewrite LIMIT_u64 by lia; done.
  - rewrite (copy_out_spec base ns i) by (done || lia). mrun.
    destruct (node_at base ns (S i) 0) as (n' & Hi' & Hn'); [done..|lia|lia|].
    rewrite Hi. mrun. rewrite Hi'. mrun.
    unfold set_cur, set_position; simpl. rewrite LIMIT_u64 by lia.
    rewrite (proj2 Hn').
    pose proof (IH (out ++ slice (Z.to_nat (base * Z.of_nat i + npos)) (Z.to_nat (base - npos))
      (concat (n_ptr <$> ns))) (size - (base - npos)) 0 (S i) (pos + (base - npos))) as IH'.
    rewrite Z.sub_0_r in IH'. rewrite IH' by (done || lia). clear IH IH'.
    rewrite cur_after_next by lia. f_equal; [|f_equal; lia].
    rewrite <- app_assoc. f_equal.
    replace (Z.to_nat (base * Z.of_nat (S i) + 0)) with
      (Z.to_nat (base * Z.of_nat i + npos) + Z.to_nat (base - npos))%nat by lia.
    rewrite slice_app. f_equal. lia.
Qed.

#[global] Arguments write_loop : simpl never.
#[global] Arguments read_loop : simpl never.

(** ** Growth *)

Lemma node_count_spec size base :
  0 < base → 0 < size →
  0 < node_count size base ∧ size ≤ base * node_count size base < size + base.
Proof.
  intros. unfold node_count.
  pose proof (Z.div_mod (size + base - 1) base ltac:(lia)).
  pose proof (Z.mod_pos_bound (size + base - 1) base ltac:(lia)). nia.
Qed.

Lemma append_nodes_spec h count : ∀ base pos sz cap e ns i,
  0 < base → Forall (node_ok base) ns →
  cap = base * Z.of_nat (length ns) →
  base * Z.of_nat (length ns + count) < LIMIT →
  ∃ new, append_nodes h count (mkByteArray base pos sz cap e ns i)
         = mkByteArray base pos sz (base * Z.of_nat (length ns + count)) e (ns ++ new) i
       ∧ Forall (node_ok base) new ∧ length new = count.
Proof.
  induction count as [|count IH]; intros base pos sz cap e ns i Hb Hns Hcap Hl; simpl.
  - exists []. rewrite app_nil_r, Nat.add_0_r, Hcap. done.
  - assert (node_ok base (new_node h (length ns) base)) as Hnew.
    { split; simpl; [by rewrite length_map, length_seq|done]. }
    destruct (IH base pos sz (u64 (cap + base)) e (ns ++ [new_node h (length ns) base]) i)
      as (new & -> & Hnews & Hlen).
    + done.
    + apply Forall_app. by split; [|apply Forall_singleton].
    + rewrite length_app. simpl. rewrite LIMIT_u64 by nia. lia.
    + rewrite length_app. simpl. replace (length ns + 1 + count)%nat with (length ns + S count)%nat by lia. done.
    + exists (new_node h (length ns) base :: new). rewrite <- app_assoc. simpl.
      split; [|split; [by constructor|by rewrite Hlen]].
      f_equal. rewrite length_app. simpl. lia.
Qed.

Lemma addCapacity_spec h size b :
  wf b → 0 < size → m_position b + size + m_baseSize b < LIMIT →
  ∃ b', addCapacity h size b = Ret () b' ∧ wf b' ∧ same_frame b b'
    ∧ m_position b' = m_position b ∧ m_size b' = m_size b
    ∧ view b `prefix_of` view b'
    ∧ m_position b + size ≤ m_capacity b'
    ∧ m_capacity b ≤ m_capacity b' < Z.max (m_capacity b + 1) (m_position b + size + m_baseSize b).
Proof.
  intros Hwf Hs Hlim. pose proof Hwf as [[Hb Hns Hroot Hcap Hl] Hpos Hsz Hcur].
  destruct b as [base pos sz cap e ns i]; simpl in *.
  unfold addCapacity, getCapacity. simpl. rewrite (LIMIT_u64 (cap - pos)) by lia.
  destruct (Z.eqb_spec size 0); [lia|].
  destruct (Z.leb_spec size (cap - pos)).
  { eexists. split; [done|]. repeat split; simpl; try done; try lia. }
  destruct (Z.eqb_spec base 0); [lia|].
  destruct (node_count_spec (size - (cap - pos)) base) as (Hc0 & Hc1 & Hc2); [lia..|].
  set (count := node_count (size - (cap - pos)) base) in *.
  destruct (append_nodes_spec h (Z.to_nat count) base pos sz cap e ns i)
    as (new & -> & Hnew & Hlen); [done|done|done|nia|].
  eexists. split; [done|].
  assert (base * Z.of_nat (length ns + Z.to_nat count) = cap + base * count) as Hcap' by nia.
  assert (Hcur' : (if cap - pos =? 0 then length ns else i) = Z.to_nat (pos / base)).
  { destruct (Z.eqb_spec (cap - pos) 0); [|done].
    replace pos with (Z.of_nat (length ns) * base) by lia.
    rewrite Z.div_mul by lia. lia. }
  assert (∀ j, m_cur (if cap - pos =? 0 then set_cur (length ns) (mkByteArray base pos sz
      (base * Z.of_nat (length ns + Z.to_nat count)) e (ns ++ new) j)
    else mkByteArray base pos sz (base * Z.of_nat (length ns + Z.to_nat count)) e (ns ++ new) j)
    = if cap - pos =? 0 then length ns else j) as Hm by (intros; by case_match).
  destruct (cap - pos =? 0); simpl in *; repeat split; simpl; try done; try lia;
    try (apply Forall_app; by split);
    try (rewrite ?length_app; lia);
    try (unfold view; simpl; rewrite fmap_app, concat_app; by eexists).
Qed.

(** [write] as a function of the abstract contents: the buffer overwrites
    [data] from [m_position], extending it when it ends beyond [m_size]. *)
Definition wrote (b : ByteArray) (buf : bytes) (b' : ByteArray) : Prop :=
  m_position b' = m_position b + Z.of_nat (length buf)
  ∧ data b' = splice (Z.to_nat (m_position b)) buf (data b)
  ∧ same_frame b b' ∧ m_capacity b ≤ m_capacity b' < Z.max (m_capacity b + 1)
      (m_position b + Z.of_nat (length buf) + m_baseSize b).

(** Room for [n] more bytes below the limit of the model. *)
Definition room (b : ByteArray) (n : nat) : Prop :=
  m_position b + Z.of_nat n + m_baseSize b < LIMIT.

Lemma take_splice {A} (p n : nat) (c l : list A) :
  (p ≤ n)%nat → (p + length c ≤ length l)%nat → (n ≤ length l)%nat →
  take (n `max` (p + length c)) (splice p c l) = splice p c (take n l).
Proof.
  intros. unfold splice. rewrite take_take, (min_l p n) by lia.
  rewrite !take_app, length_take, (min_l p (length l)) by lia.
  rewrite take_take, Nat.min_r by lia.
  rewrite (take_ge c) by lia. do 2 f_equal.
  rewrite skipn_firstn_comm.
  destruct (decide (n ≤ p + length c)%nat).
  - rewrite Nat.max_r by lia. replace (n - (p + length c))%nat with 0%nat by lia.
    replace (p + length c - p - length c)%nat with 0%nat by lia. done.
  - rewrite Nat.max_l by lia. f_equal. lia.
Qed.

(** The tail of an operation that moved the cursor by [size] bytes. *)
Lemma cur_after_div base pos size :
  0 < base → 0 ≤ pos → 0 ≤ size →
  cur_after base (Z.to_nat (pos / base)) (pos mod base) size = Z.to_nat ((pos + size) / base).
Proof.
  intros. unfold cur_after.
  assert (0 ≤ pos / base) by (apply Z.div_pos; lia).
  rewrite Z2Nat.id, <- Z.div_mod by lia.
  destruct (Z.ltb_spec 0 size); [done|]. by replace size with 0 by lia; rewrite Z.add_0_r.
Qed.

Lemma data_prefix b b' :
  wf b → m_size b' = m_size b → view b `prefix_of` view b' → data b' = data b.
Proof.
  intros Hwf Hs [k Hk]. unfold data. rewrite Hs, Hk.
  rewrite take_app_le; [done|]. rewrite length_view by apply Hwf.
  pose proof (wf_size _ Hwf). pose proof (wf_pos _ Hwf). lia.
Qed.

(** ** The operations *)

(** The body of [write] once the capacity is there. *)
Lemma write_body_spec buf b :
  wf b → (0 < length buf)%nat → m_position b + Z.of_nat (length buf) ≤ m_capacity b →
  ∃ b', (pos ← gets m_position; npos ← mod_base pos; n ← cur_node;
         write_loop (S (S (length buf))) buf 0 (Z.of_nat (length buf)) npos (u64 (n_size n - npos));;
         modify (λ b, if m_size b <? m_position b then set_size (m_position b) b else b)) b
        = Ret () b' ∧ wf b'
    ∧ m_position b' = m_position b + Z.of_nat (length buf)
    ∧ data b' = splice (Z.to_nat (m_position b)) buf (data b)
    ∧ same_frame b b' ∧ m_capacity b' = m_capacity b.
Proof.
  intros Hwf Hn Hroom. pose proof Hwf as [[Hb Hns Hroot Hcap Hl] Hpos Hsz Hcur].
  pose proof (length_view b ltac:(apply Hwf)) as Hlv.
  destruct b as [base pos sz cap e ns i]; simpl in *.
  pose proof (Z.mod_pos_bound pos base Hb) as Hm. pose proof (Z.div_mod pos base ltac:(lia)) as Hdm.
  assert (0 ≤ pos / base) as Hd by (apply Z.div_pos; lia).
  unfold mod_base, cur_node. mrun. destruct (Z.eqb_spec base 0); [lia|]. mrun.
  destruct (node_at base ns i (pos mod base)) as (nd & Hi & Hno); [done..|lia|lia|].
  rewrite Hi. mrun. rewrite (proj2 Hno), LIMIT_u64 by nia.
  destruct (write_loop_spec base sz cap e (S (S (length buf))) buf 0 (Z.of_nat (length buf))
    (pos mod base) i ns pos) as (ns' & Hw & Hv & Hns' & Hlen); [done || lia..|].
  rewrite Hw. clear Hw. simpl.
  assert (slice (Z.to_nat 0) (Z.to_nat (Z.of_nat (length buf))) buf = buf) as Hbuf.
  { unfold slice. simpl. rewrite drop_0, take_ge; [done|lia]. }
  rewrite Hbuf in Hv.
  replace (base * Z.of_nat i + pos mod base) with pos in Hv by lia.
  assert (data (mkByteArray base (pos + Z.of_nat (length buf))
      (sz `max` (pos + Z.of_nat (length buf))) cap e ns' (cur_after base i (pos mod base) (Z.of_nat (length buf))))
    = splice (Z.to_nat pos) buf (take (Z.to_nat sz) (concat (n_ptr <$> ns)))) as Hdata.
  { unfold data, view. simpl. rewrite Hv. unfold view in Hlv. simpl in Hlv.
    rewrite <- take_splice by lia. f_equal. lia. }
  eexists. split; [done|].
  destruct (Z.ltb_spec sz (pos + Z.of_nat (length buf))).
  all: replace (sz `max` (pos + Z.of_nat (length buf))) with
    (if sz <? pos + Z.of_nat (length buf) then pos + Z.of_nat (length buf) else sz) in Hdata
    by (destruct (Z.ltb_spec sz (pos + Z.of_nat (length buf))); lia).
  all: destruct (Z.ltb_spec sz (pos + Z.of_nat (length buf))); try lia.
  all: unfold set_size; simpl.
  all: split; [|split; [done|split; [exact Hdata|done]]].
  all: repeat split; simpl; rewrite ?Hlen; try done; try lia.
  all: rewrite Hcur; by apply cur_after_div; lia.
Qed.

Lemma write_spec h buf b :
  wf b → room b (length buf) → ∃ b', write h buf b = Ret () b' ∧ wf b' ∧ wrote b buf b'.
Proof.
  intros Hwf Hroom. unfold write, wrote, room in *.
  destruct (Z.eqb_spec (Z.of_nat (length buf)) 0) as [Hz|Hz].
  { destruct buf; [|simpl in Hz; lia]. exists b. simpl. rewrite Z.add_0_r, splice_nil.
    repeat split; try done; try lia; apply Hwf. }
  destruct (addCapacity_spec h (Z.of_nat (length buf)) b) as
    (b1 & Ha & Hwf1 & [Hb1 He1] & Hp1 & Hs1 & Hv1 & Hc1 & Hc1'); [done|lia|done|].
  rewrite (bind_ret _ _ _ _ _ Ha). clear Ha.
  destruct (write_body_spec buf b1) as (b' & Hw & Hwf' & Hp' & Hd' & [Hb' He'] & Hc');
    [done|lia|lia|].
  exists b'. split; [exact Hw|]. split; [done|].
  rewrite Hp', Hd', Hp1, (data_prefix b b1) by done.
  unfold same_frame. rewrite Hb', He', Hc'. done.
Qed.

(** [read] returns the next [size] bytes of the contents and moves past them. *)
Lemma read_spec size b :
  wf b → 0 ≤ size → m_position b + size ≤ m_size b →
  (0 < size ∨ m_position b < m_capacity b) →
  ∃ b', read size b = Ret (slice (Z.to_nat (m_position b)) (Z.to_nat size) (data b)) b'
    ∧ wf b' ∧ m_position b' = m_position b + size ∧ data b' = data b
    ∧ m_size b' = m_size b ∧ m_capacity b' = m_capacity b ∧ same_frame b b'.
Proof.
  intros Hwf Hs0 Hs Hnz. pose proof Hwf as [[Hb Hns Hroot Hcap Hl] Hpos Hsz Hcur].
  destruct b as [base pos sz cap e ns i]; simpl in *.
  pose proof (Z.mod_pos_bound pos base Hb) as Hm. pose proof (Z.div_mod pos base ltac:(lia)) as Hdm.
  assert (0 ≤ pos / base) as Hd by (apply Z.div_pos; lia).
  unfold read, mod_base, cur_node, getReadSize. mrun.
  rewrite (LIMIT_u64 (sz - pos)) by lia.
  destruct (Z.ltb_spec (sz - pos) size); [lia|]. mrun.
  destruct (Z.eqb_spec base 0); [lia|]. mrun.
  destruct (node_at base ns i (pos mod base)) as (nd & Hi & Hno); [done..|lia|lia|].
  rewrite Hi. mrun. rewrite (proj2 Hno), LIMIT_u64 by nia.
  pose proof (read_loop_spec base sz cap e ns (S (S (Z.to_nat size))) [] size (pos mod base) i pos) as Hr.
  rewrite Hr by (done || lia). clear Hr.
  eexists. split; [apply f_equal2; [|reflexivity]|split; [|repeat split]].
  - replace (base * Z.of_nat i + pos mod base) with pos by lia.
    unfold data, view, slice. simpl.
    rewrite skipn_firstn_comm, take_take. f_equal. lia.
  - repeat split; simpl; try done; try lia.
    rewrite Hcur. by apply cur_after_div; lia.
Qed.

Lemma read_too_far size b :
  wf b → m_size b < m_position b + size → read size b = Throw out_of_range b.
Proof.
  intros [[? ? ? ? ?] ? ? ?] Hs. unfold read, getReadSize. mrun.
  rewrite LIMIT_u64 by lia.
  destruct (Z.ltb_spec (m_size b - m_position b) size); [done|lia].
Qed.

Lemma seek_loop_spec base pos sz cap e ns fuel : ∀ i v,
  0 < base → Forall (node_ok base) ns → (i < length ns)%nat → 0 ≤ v →
  v ≤ base * Z.of_nat (length ns - i) →
  (length ns - i < fuel)%nat →
  ∃ j r, seek_loop fuel v (mkByteArray base pos sz cap e ns i)
         = Ret r (mkByteArray base pos sz cap e ns j)
       ∧ (i ≤ j < length ns)%nat ∧ base * Z.of_nat j + r = base * Z.of_nat i + v
       ∧ 0 ≤ r ≤ base.
Proof.
  induction fuel as [|fuel IH]; intros i v Hb Hns Hi Hv Hle Hf; [lia|].
  simpl. unfold next_node, cur_node. mrun.
  destruct (lookup_lt_is_Some_2 ns i Hi) as [n Hn]. rewrite Hn. mrun.
  destruct (Forall_lookup_1 _ _ _ _ Hns Hn) as [_ Hsz]. rewrite Hsz.
  destruct (Z.ltb_spec base v); [|exists i, v; split; [done|lia]].
  mrun. rewrite Hn. mrun.
  destruct (IH (S i) (v - base)) as (j & r & Hr & Hj & He & Hrb); [done..|nia|lia|nia|lia|].
  exists j, r. unfold set_cur. simpl. rewrite Hr. split; [done|]. lia.
Qed.

#[global] Arguments seek_loop : simpl never.

Lemma setPosition_spec v b :
  wf b → 0 ≤ v ≤ m_capacity b →
  ∃ b', setPosition v b = Ret () b' ∧ wf b' ∧ m_position b' = v
    ∧ m_size b' = Z.max (m_size b) v ∧ view b' = view b
    ∧ m_capacity b' = m_capacity b ∧ same_frame b b'.
Proof.
  intros Hwf Hv. pose proof Hwf as [[Hb Hns Hroot Hcap Hl] Hpos Hsz Hcur].
  destruct b as [base pos sz cap e ns i]; simpl in *.
  unfold setPosition. mrun. destruct (Z.ltb_spec cap v); [lia|]. mrun.
  unfold set_size, set_position, set_cur, next_node, cur_node. simpl.
  assert ((if sz <? v then mkByteArray base v v cap e ns i else mkByteArray base v sz cap e ns i)
    = mkByteArray base v (sz `max` v) cap e ns i) as -> by
    (destruct (Z.ltb_spec sz v); f_equal; lia).
  simpl. destruct (seek_loop_spec base v (sz `max` v) cap e ns (S (length ns)) 0 v)
    as (j & r & Hr & Hj & He & Hrb); [done || lia..|].
  rewrite Hr. clear Hr. simpl.
  destruct (lookup_lt_is_Some_2 ns j ltac:(lia)) as [n Hn]. rewrite Hn. mrun.
  destruct (Forall_lookup_1 _ _ _ _ Hns Hn) as [_ Hsn]. rewrite Hsn.
  assert (v / base = if r =? base then Z.of_nat j + 1 else Z.of_nat j) as Hdiv.
  { replace v with (base * Z.of_nat j + r) by lia. destruct (Z.eqb_spec r base) as [->|].
    - by apply div_offset_end.
    - apply div_offset; lia. }
  destruct (r =? base); mrun; rewrite ?Hn; mrun; (eexists; split; [done|]);
    repeat split; simpl; try done; lia.
Qed.

Lemma setPosition_too_far v b :
  m_capacity b < v → setPosition v b = Throw out_of_range b.
Proof. intros. unfold setPosition. mrun. destruct (Z.ltb_spec (m_capacity b) v); [done|lia]. Qed.

Lemma make_wf h base : 0 < base < LIMIT → wf (make h base).
Proof.
  intros. unfold make. repeat split; simpl; try lia.
  apply Forall_singleton. split; simpl; [by rewrite length_map, length_seq|done].
Qed.

Lemma clear_spec b :
  wf b → ∃ b', clear b = Ret () b' ∧ wf b' ∧ data b' = [] ∧ m_position b' = 0 ∧ same_frame b b'.
Proof.
  intros [[Hb Hns Hroot Hcap Hl] Hpos Hsz Hcur]. unfold clear. mrun. eexists. split; [done|].
  assert (length (take 1 (m_nodes b)) = 1%nat) as H1 by (rewrite length_take; lia).
  pose proof (Forall_take _ 1 _ Hns) as Hf. generalize dependent (take 1 (m_nodes b)).
  intros ns H1 Hf. repeat split; simpl; rewrite ?H1; try done; nia.
Qed.

(** [setIsLittleEndian] and [isLittleEndian]. *)
Lemma setIsLittleEndian_spec v b :
  ∃ b', setIsLittleEndian v b = Ret () b' ∧ isLittleEndian b' = v ∧ (wf b → wf b').
Proof.
  eexists. split; [done|]. split; [by destruct v|].
  intros [[] ? ? ?]. repeat split; simpl; done || lia.
Qed.

(** ** The scatter/gather buffers *)

(** The offsets of [view] that a list of [iovec]s covers, in order. *)
Definition iov_addrs (base : Z) (iovs : list iovec) : list Z :=
  concat (map (λ v, seqZ (base * Z.of_nat (iov_node v) + iov_off v) (iov_len v)) iovs).

(** Each [iovec] stays inside its node. *)
Definition iov_ok (b : ByteArray) (v : iovec) : Prop :=
  (iov_node v < length (m_nodes b))%nat ∧ 0 ≤ iov_off v ∧ 0 < iov_len v
  ∧ iov_off v + iov_len v ≤ m_baseSize b.

Lemma iov_loop_spec fuel : ∀ b cur len npos,
  shape b → 0 ≤ npos < m_baseSize b → 0 ≤ len → len < Z.of_nat fuel →
  m_baseSize b * Z.of_nat cur + npos + len ≤ m_capacity b →
  ∃ iovs, iov_loop fuel cur len npos (m_baseSize b - npos) b = Ret iovs b
    ∧ iov_addrs (m_baseSize b) iovs = seqZ (m_baseSize b * Z.of_nat cur + npos) len
    ∧ Forall (iov_ok b) iovs.
Proof.
  induction fuel as [|fuel IH]; intros b cur len npos Hsh Hnp Hlen Hf Hcap; [lia|].
  pose proof Hsh as [Hb Hns Hroot Hc Hl]. simpl.
  destruct (Z.leb_spec len 0).
  { assert (len = 0) as -> by lia. by exists []. }
  destruct (node_at (m_baseSize b) (m_nodes b) cur npos) as (n & Hi & Hno); [done..|lia|lia|].
  mrun. destruct (Z.leb_spec len (m_baseSize b - npos)).
  - rewrite Hi. mrun. eexists. split; [done|]. unfold iov_addrs. simpl.
    rewrite app_nil_r. split; [done|]. apply Forall_singleton.
    repeat split; simpl; try lia. by eapply lookup_lt_Some.
  - rewrite Hi. mrun.
    destruct (node_at (m_baseSize b) (m_nodes b) (S cur) 0) as (n' & Hi' & Hno');
      [done..|lia|lia|].
    rewrite Hi'. mrun. rewrite (proj2 Hno').
    pose proof (IH b (S cur) (len - (m_baseSize b - npos)) 0 Hsh) as IH'.
    rewrite Z.sub_0_r in IH'. destruct IH' as (iovs & -> & Ha & Hok); [lia..|].
    eexists. split; [done|]. split.
    + unfold iov_addrs in *. simpl. rewrite Ha.
      replace len with ((m_baseSize b - npos) + (len - (m_baseSize b - npos))) at 2 by lia.
      rewrite seqZ_app by lia. f_equal. f_equal. lia.
    + constructor; [|done]. repeat split; simpl; try lia. by eapply lookup_lt_Some.
Qed.

#[global] Arguments iov_loop : simpl never.

Lemma getReadBuffers_spec len b :
  wf b → 0 ≤ len →
  let n := Z.min len (m_size b - m_position b) in
  ∃ iovs, getReadBuffers len b = Ret (n, iovs) b
    ∧ iov_addrs (m_baseSize b) iovs = seqZ (m_position b) n ∧ Forall (iov_ok b) iovs.
Proof.
  intros Hwf Hlen n. pose proof Hwf as [Hsh Hpos Hsz Hcur].
  pose proof Hsh as [Hb Hns Hroot Hcap Hl].
  pose proof (Z.mod_pos_bound (m_position b) (m_baseSize b) Hb) as Hm.
  pose proof (Z.div_mod (m_position b) (m_baseSize b) ltac:(lia)) as Hdm.
  assert (0 ≤ m_position b / m_baseSize b) as Hd by (apply Z.div_pos; lia).
  unfold getReadBuffers, getReadSize, mod_base, cur_node. mrun. rewrite LIMIT_u64 by lia.
  assert ((if m_size b - m_position b <? len then m_size b - m_position b else len) = n) as ->.
  { destruct (Z.ltb_spec (m_size b - m_position b) len); lia. }
  destruct (Z.eqb_spec n 0) as [->|]; [by exists []|].
  mrun. destruct (Z.eqb_spec (m_baseSize b) 0); [lia|].
  destruct (node_at (m_baseSize b) (m_nodes b) (m_cur b) (m_position b mod m_baseSize b))
    as (nd & Hi & Hno); [done..|lia|lia|].
  rewrite Hi. mrun. rewrite (proj2 Hno), LIMIT_u64 by nia.
  destruct (iov_loop_spec (S (Z.to_nat n)) b (m_cur b) n (m_position b mod m_baseSize b))
    as (iovs & Hr & Ha & Hok); [done||lia..|].
  rewrite Hr. exists iovs. split; [done|]. split; [|done].
  rewrite Ha. f_equal. lia.
Qed.

Lemma getWriteBuffers_spec h len b :
  wf b → 0 ≤ len → m_position b + len + m_baseSize b < LIMIT →
  ∃ b' iovs, getWriteBuffers h len b = Ret (len, iovs) b' ∧ wf b' ∧ same_frame b b'
    ∧ m_position b' = m_position b ∧ data b' = data b
    ∧ iov_addrs (m_baseSize b) iovs = seqZ (m_position b) len ∧ Forall (iov_ok b') iovs.
Proof.
  intros Hwf Hlen Hlim. unfold getWriteBuffers.
  destruct (Z.eqb_spec len 0) as [->|]; [by exists b, []|].
  destruct (addCapacity_spec h len b) as
    (b1 & Ha & Hwf1 & [Hb1 He1] & Hp1 & Hs1 & Hv1 & Hc1 & Hc1'); [done|lia|done|].
  rewrite (bind_ret _ _ _ _ _ Ha). clear Ha.
  rewrite <- Hb1, <- Hp1 in *. pose proof Hwf1 as [Hsh Hpos Hsz Hcur].
  pose proof Hsh as [Hb Hns Hroot Hcap Hl].
  pose proof (Z.mod_pos_bound (m_position b1) (m_baseSize b1) Hb) as Hm.
  pose proof (Z.div_mod (m_position b1) (m_baseSize b1) ltac:(lia)) as Hdm.
  assert (0 ≤ m_position b1 / m_baseSize b1) as Hd by (apply Z.div_pos; lia).
  unfold mod_base, cur_node. mrun. destruct (Z.eqb_spec (m_baseSize b1) 0); [lia|].
  destruct (node_at (m_baseSize b1) (m_nodes b1) (m_cur b1) (m_position b1 mod m_baseSize b1))
    as (nd & Hi & Hno); [done..|lia|lia|].
  rewrite Hi. mrun. rewrite (proj2 Hno), LIMIT_u64 by nia.
  destruct (iov_loop_spec (S (Z.to_nat len)) b1 (m_cur b1) len (m_position b1 mod m_baseSize b1))
    as (iovs & Hr & Ha & Hok); [done||lia..|].
  rewrite Hr. exists b1, iovs. split; [done|]. split; [done|]. split; [done|].
  split; [done|]. split; [by apply data_prefix|]. split; [|done].
  rewrite Ha. f_equal. lia.
Qed.

(** ** [toString], files *)

Lemma read_at_loop_spec fuel : ∀ b cur out size npos,
  shape b → (m_cur b < length (m_nodes b))%nat →
  0 ≤ npos < m_baseSize b → 0 ≤ size → size + 1 < Z.of_nat fuel →
  m_baseSize b * Z.of_nat cur + npos + size ≤ m_capacity b →
  read_at_loop fuel cur out size npos (m_baseSize b - npos) b
    = Ret (out ++ slice (Z.to_nat (m_baseSize b * Z.of_nat cur + npos)) (Z.to_nat size) (view b)) b.
Proof.
  induction fuel as [|fuel IH]; intros b cur out size npos Hsh Hm Hnp Hs Hf Hcap; [lia|].
  pose proof Hsh as [Hb Hns Hroot Hc Hl]. simpl.
  destruct (Z.leb_spec size 0).
  { assert (size = 0) as -> by lia. by rewrite slice_0, app_nil_r. }
  destruct (node_at (m_baseSize b) (m_nodes b) cur npos) as (n & Hi & Hno); [done..|lia|lia|].
  destruct (lookup_lt_is_Some_2 _ _ Hm) as [m Hlm].
  mrun. rewrite Hi. mrun. destruct (Z.leb_spec size (m_baseSize b - npos)).
  - rewrite (copy_out_spec (m_baseSize b) (m_nodes b) cur) by (done || lia).
    unfold cur_node. mrun. rewrite Hlm. mrun. by destruct fuel as [|fuel]; [lia|].
  - rewrite (copy_out_spec (m_baseSize b) (m_nodes b) cur) by (done || lia). mrun.
    destruct (node_at (m_baseSize b) (m_nodes b) (S cur) 0) as (n' & Hi' & Hno'); [done..|lia|lia|].
    rewrite Hi'. mrun. rewrite (proj2 Hno').
    pose proof (λ o, IH b (S cur) o (size - (m_baseSize b - npos)) 0 Hsh Hm) as IH'.
    rewrite Z.sub_0_r in IH'. rewrite IH' by lia. f_equal.
    rewrite <- app_assoc. f_equal.
    replace (Z.to_nat (m_baseSize b * Z.of_nat (S cur) + 0)) with
      (Z.to_nat (m_baseSize b * Z.of_nat cur + npos) + Z.to_nat (m_baseSize b - npos))%nat by lia.
    unfold view. rewrite slice_app. f_equal. lia.
Qed.

#[global] Arguments read_at_loop : simpl never.

Lemma toString_spec b :
  wf b → toString b = Ret (drop (Z.to_nat (m_position b)) (data b)) b.
Proof.
  intros Hwf. pose proof Hwf as [Hsh Hpos Hsz Hcur]. pose proof Hsh as [Hb Hns Hroot Hcap Hl].
  pose proof (Z.mod_pos_bound (m_position b) (m_baseSize b) Hb) as Hm.
  pose proof (Z.div_mod (m_position b) (m_baseSize b) ltac:(lia)) as Hdm.
  assert (0 ≤ m_position b / m_baseSize b) as Hd by (apply Z.div_pos; lia).
  pose proof (length_data b Hwf) as Hlen.
  unfold toString, read_at, getReadSize, mod_base, cur_node. mrun. rewrite LIMIT_u64 by lia.
  destruct (Z.eqb_spec (m_size b - m_position b) 0).
  { mrun. f_equal. symmetry. apply drop_ge. lia. }
  mrun. rewrite LIMIT_u64 by lia. rewrite Z.ltb_irrefl. mrun.
  destruct (Z.eqb_spec (m_baseSize b) 0); [lia|].
  destruct (node_at (m_baseSize b) (m_nodes b) (m_cur b) (m_position b mod m_baseSize b))
    as (nd & Hi & Hno); [done..|lia|lia|].
  rewrite Hi. mrun. rewrite (proj2 Hno), LIMIT_u64 by nia.
  rewrite read_at_loop_spec by (done || lia || by eapply lookup_lt_Some). simpl. f_equal.
  replace (m_baseSize b * Z.of_nat (m_cur b) + m_position b mod m_baseSize b)
    with (m_position b) by lia.
  unfold data, slice. rewrite skipn_firstn_comm. f_equal. lia.
Qed.

(** Saving from a position at the start of a node. *)
Lemma save_loop_spec fuel : ∀ b cur size,
  shape b → 0 ≤ size → m_baseSize b * Z.of_nat cur + size ≤ m_capacity b →
  (length (m_nodes b) - cur < fuel)%nat →
  save_loop fuel cur size (m_baseSize b * Z.of_nat cur) b
    = Ret (slice (Z.to_nat (m_baseSize b * Z.of_nat cur)) (Z.to_nat size) (view b)) b.
Proof.
  induction fuel as [|fuel IH]; intros b cur size Hsh Hs Hcap Hf; [lia|].
  pose proof Hsh as [Hb Hns Hroot Hc Hl]. simpl.
  destruct (Z.leb_spec size 0).
  { by assert (size = 0) as -> by lia. }
  unfold mod_base. mrun. destruct (Z.eqb_spec (m_baseSize b) 0); [lia|].
  rewrite Z.mul_comm, Z.mod_mul by lia. rewrite Z.mul_comm, Z.sub_0_r. mrun.
  destruct (node_at (m_baseSize b) (m_nodes b) cur 0) as (nd & Hi & Hno); [done..|lia|lia|].
  rewrite Hi. mrun.
  set (len := if m_baseSize b <? size then m_baseSize b else size).
  assert (0 < len ≤ m_baseSize b ∧ len ≤ size ∧ (len = size ∨ len = m_baseSize b)) as (Hlen & Hle & Hor).
  { unfold len. destruct (Z.ltb_spec (m_baseSize b) size); lia. }
  destruct (Z.ltb_spec len 0); [lia|].
  rewrite (copy_out_spec (m_baseSize b) (m_nodes b) cur) by (done || lia). mrun.
  rewrite Z.add_0_r. assert (cur < length (m_nodes b))%nat by (by eapply lookup_lt_Some).
  destruct Hor as [->| ->].
  - destruct fuel as [|fuel]; [lia|]. simpl. rewrite Z.sub_diag. simpl. mrun.
    by rewrite app_nil_r.
  - replace (m_baseSize b * Z.of_nat cur + m_baseSize b) with (m_baseSize b * Z.of_nat (S cur)) by lia.
    rewrite IH by (done || lia). mrun. f_equal.
    replace (Z.to_nat (m_baseSize b * Z.of_nat (S cur))) with
      (Z.to_nat (m_baseSize b * Z.of_nat cur) + Z.to_nat (m_baseSize b))%nat by lia.
    unfold view. rewrite slice_app. f_equal. lia.
Qed.

#[global] Arguments save_loop : simpl never.

Lemma wrote_nil b : wrote b [] b.
Proof. unfold wrote, same_frame. simpl. rewrite splice_nil. repeat split; lia. Qed.

Lemma wrote_app b1 l1 b2 l2 b3 :
  wf b1 → wrote b1 l1 b2 → wrote b2 l2 b3 → wrote b1 (l1 ++ l2) b3.
Proof.
  intros Hwf1 (Hp1 & Hd1 & [Hb1 He1] & Hc1) (Hp2 & Hd2 & [Hb2 He2] & Hc2).
  pose proof (wf_pos _ Hwf1).
  unfold wrote, same_frame. rewrite length_app. rewrite Hb1 in *. rewrite Hp1 in *.
  repeat split; [lia| |congruence|congruence|lia|lia].
  rewrite Hd2, Hd1, Z2Nat.inj_add, Nat2Z.id by lia.
  apply splice_app. rewrite length_data by done. lia.
Qed.

Lemma load_loop_spec h fuel : ∀ file b,
  wf b → room b (length file) → (length file < fuel)%nat →
  ∃ b', load_loop h fuel file b = Ret () b' ∧ wf b' ∧ wrote b file b'.
Proof.
  induction fuel as [|fuel IH]; intros file b Hwf Hroom Hf; [lia|].
  pose proof (sh_base _ (wf_shape _ Hwf)) as Hb. unfold room in *. simpl. mrun.
  destruct (write_spec h (take (Z.to_nat (m_baseSize b)) file) b Hwf) as (b1 & -> & Hwf1 & Hw1).
  { unfold room. rewrite length_take. lia. }
  destruct (Z.ltb_spec (Z.of_nat (length file)) (m_baseSize b)).
  { exists b1. split; [done|]. rewrite take_ge in Hw1 by lia. done. }
  pose proof Hw1 as (Hp1 & _ & [Hb1 _] & _). rewrite length_take in Hp1.
  destruct (IH (drop (Z.to_nat (m_baseSize b)) file) b1 Hwf1) as (b2 & -> & Hwf2 & Hw2).
  - unfold room. rewrite Hp1, Hb1, length_drop. lia.
  - rewrite length_drop. lia.
  - exists b2. split; [done|]. split; [done|].
    rewrite <- (take_drop (Z.to_nat (m_baseSize b)) file).
    by apply (wrote_app b _ b1).
Qed.

#[global] Arguments load_loop : simpl never.

(** * The abstract buffer and the refinement

    What the class promises its callers: a byte string and a position. *)

Inductive op :=
  | OWrite (buf : bytes)
  | ORead (size : Z)
  | OSeek (v : Z)
  | OClear.

Inductive result := RUnit | RBytes (s : bytes) | RThrow (e : exn).

(** [contents] and [position]. *)
Definition abuf : Type := bytes * Z.
Definition abs (b : ByteArray) : abuf := (data b, m_position b).

(** The specification.  Seeking beyond the contents extends them with bytes
    about which nothing is said, or is refused, as the capacity allows. *)
Inductive abs_step : abuf → op → result → abuf → Prop :=
  | abs_write d p buf :
      abs_step (d, p) (OWrite buf) RUnit
        (splice (Z.to_nat p) buf d, p + Z.of_nat (length buf))
  | abs_read d p size :
      0 ≤ size → p + size ≤ Z.of_nat (length d) →
      abs_step (d, p) (ORead size) (RBytes (slice (Z.to_nat p) (Z.to_nat size) d)) (d, p + size)
  | abs_read_short d p size :
      Z.of_nat (length d) < p + size →
      abs_step (d, p) (ORead size) (RThrow out_of_range) (d, p)
  | abs_seek d p v :
      0 ≤ v ≤ Z.of_nat (length d) → abs_step (d, p) (OSeek v) RUnit (d, v)
  | abs_seek_extend d p v extra :
      v = Z.of_nat (length (d ++ extra)) →
      abs_step (d, p) (OSeek v) RUnit (d ++ extra, v)
  | abs_seek_refused d p v :
      Z.of_nat (length d) < v →
      abs_step (d, p) (OSeek v) (RThrow out_of_range) (d, p)
  | abs_clear d p : abs_step (d, p) OClear RUnit ([], 0).

Definition run_op (h : nat → nat → byte) (o : op) : M ByteArray result :=
  match o with
  | OWrite buf => write h buf;; mret RUnit
  | ORead size => s ← read size; mret (RBytes s)
  | OSeek v => setPosition v;; mret RUnit
  | OClear => clear;; mret RUnit
  end.

(** The result a caller sees: an exception is a result, a crash is none. *)
Definition observe (r : res ByteArray result) : option (result * ByteArray) :=
  match r with
  | Ret a b => Some (a, b)
  | Throw e b => Some (RThrow e, b)
  | Crash _ => None
  end.

Fixpoint run_ops (h : nat → nat → byte) (l : list op) (b : ByteArray)
    : option (list result * ByteArray) :=
  match l with
  | [] => Some ([], b)
  | o :: l =>
    '(r, b) ← observe (run_op h o b);
    '(rs, b) ← run_ops h l b;
    Some (r :: rs, b)
  end.

Inductive abs_steps : abuf → list op → list result → abuf → Prop :=
  | abs_nil a : abs_steps a [] [] a
  | abs_cons a1 o r a2 l rs a3 :
      abs_step a1 o r a2 → abs_steps a2 l rs a3 → abs_steps a1 (o :: l) (r :: rs) a3.

(** Sizes are unsigned, and an empty read is excluded (see
    [empty_read_at_capacity]). *)
Definition op_ok (o : op) : Prop :=
  match o with ORead size => 0 < size | OSeek v => 0 ≤ v | _ => True end.
#[export] Instance op_ok_dec o : Decision (op_ok o).
Proof. destruct o; simpl; apply _. Defined.

(** The capacity an operation can add. *)
Definition op_cost (base : Z) (o : op) : Z :=
  match o with OWrite buf => Z.of_nat (length buf) + base + 1 | _ => 0 end.
Definition ops_cost (base : Z) (l : list op) : Z :=
  foldr (λ o acc, op_cost base o + acc) 0 l.

Lemma ops_cost_nonneg base l : 0 ≤ base → 0 ≤ ops_cost base l.
Proof. intros. induction l as [|[]]; simpl in *; lia. Qed.

Lemma step_refines h o b :
  wf b → op_ok o → m_capacity b + op_cost (m_baseSize b) o < LIMIT →
  ∃ r b', observe (run_op h o b) = Some (r, b') ∧ wf b' ∧ m_baseSize b' = m_baseSize b
    ∧ m_capacity b' ≤ m_capacity b + op_cost (m_baseSize b) o
    ∧ abs_step (abs b) o r (abs b').
Proof.
  intros Hwf Hok Hc. pose proof Hwf as [Hsh Hpos Hsz _]. pose proof Hsh as [Hb _ _ _ Hl].
  pose proof (length_data b Hwf) as Hlen. destruct o as [buf|size|v|]; simpl in *.
  - destruct (write_spec h buf b Hwf) as (b' & E & Hwf' & Hp & Hd & [Hb' _] & Hc'); [unfold room; lia|].
    rewrite (bind_ret _ _ _ _ _ E). simpl. do 2 eexists. split; [done|].
    split; [done|]. split; [done|]. split; [lia|]. unfold abs. rewrite Hp, Hd. constructor.
  - destruct (decide (m_position b + size ≤ m_size b)).
    + destruct (read_spec size b Hwf) as (b' & E & Hwf' & Hp & Hd & _ & Hc' & [Hb' _]); [lia..|].
      rewrite (bind_ret _ _ _ _ _ E). simpl. do 2 eexists. split; [done|].
      split; [done|]. split; [done|]. split; [lia|]. unfold abs. rewrite Hp, Hd. constructor; lia.
    + rewrite (bind_throw _ _ _ _ _ (read_too_far size b Hwf ltac:(lia))). simpl.
      do 2 eexists. split; [done|]. split; [done|]. split; [done|]. split; [lia|]. constructor. lia.
  - destruct (decide (v ≤ m_capacity b)).
    + destruct (setPosition_spec v b Hwf) as (b' & E & Hwf' & Hp & Hs & Hv & Hc' & [Hb' _]); [lia|].
      rewrite (bind_ret _ _ _ _ _ E). simpl. do 2 eexists. split; [done|].
      split; [done|]. split; [done|]. split; [lia|]. unfold abs. rewrite Hp.
      destruct (decide (v ≤ m_size b)).
      * assert (data b' = data b) as -> by (unfold data; rewrite Hv, Hs; f_equal; lia).
        constructor. lia.
      * assert (data b' = data b ++ slice (Z.to_nat (m_size b)) (Z.to_nat (v - m_size b)) (view b)) as Hd.
        { unfold data, slice. rewrite Hv, Hs, take_take_drop. f_equal. lia. }
        rewrite Hd. constructor. rewrite <- Hd, (length_data _ Hwf'). lia.
    + rewrite (bind_throw _ _ _ _ _ (setPosition_too_far v b ltac:(lia))). simpl.
      do 2 eexists. split; [done|]. split; [done|]. split; [done|]. split; [lia|]. constructor. lia.
  - destruct (clear_spec b Hwf) as (b' & E & Hwf' & Hd & Hp & [Hb' _]).
    injection E as E'. exists RUnit, b'. split; [by rewrite <- E'|].
    split; [done|]. split; [done|]. split; [|unfold abs; rewrite Hd, Hp; constructor].
    rewrite <- E'. simpl. rewrite Z.add_0_r, (sh_cap b Hsh). pose proof (sh_root b Hsh). nia.
Qed.

(** * Properties *)


Definition zero_heap (i j : nat) : byte := x00.


Example refines_abstract_buffer_runs :
  fst <$> run_ops zero_heap [OWrite (str "hello world"); OSeek 6; ORead 5; ORead 9; OSeek 99; OClear]
    (make zero_heap 4)
  = Some [RUnit; RUnit; RBytes (str "world"); RThrow out_of_range; RThrow out_of_range; RUnit].
Proof. vm_compute. reflexivity. Qed.

(** An empty [read] dereferences a null [m_cur] exactly when the position is
    at the end of the allocated nodes; everywhere else it returns no bytes. *)
Theorem empty_read_at_capacity (b : ByteArray) :
  wf b →
  read 0 b = if bool_decide (m_position b = m_capacity b) then Crash NullDeref else Ret [] b.
Proof.
  intros Hwf. pose proof Hwf as [Hsh Hpos Hsz Hcur]. pose proof Hsh as [Hb Hns Hroot Hcap Hl].
  case_bool_decide as Hend.
  - unfold read, getReadSize, mod_base, cur_node. mrun. rewrite LIMIT_u64 by lia.
    destruct (Z.ltb_spec (m_size b - m_position b) 0); [lia|]. mrun.
    destruct (Z.eqb_spec (m_baseSize b) 0); [lia|].
    assert (m_cur b = length (m_nodes b)) as ->.
    { rewrite Hcur, Hend, Hcap, Z.mul_comm, Z.div_mul by lia. lia. }
    by rewrite lookup_ge_None_2 by lia.
  - unfold read, getReadSize, mod_base, cur_node. mrun. rewrite LIMIT_u64 by lia.
    destruct (Z.ltb_spec (m_size b - m_position b) 0); [lia|]. mrun.
    destruct (Z.eqb_spec (m_baseSize b) 0); [lia|].
    assert (0 ≤ m_position b / m_baseSize b < Z.of_nat (length (m_nodes b))) as Hd.
    { split; [apply Z.div_pos; lia|apply Z.div_lt_upper_bound; lia]. }
    destruct (lookup_lt_is_Some_2 (m_nodes b) (m_cur b) ltac:(lia)) as [nd Hn].
    rewrite Hn. mrun. done.
Qed.

Lemma empty_read_at_capacity_witness :
  read 0 (make zero_heap 4) = Ret [] (make zero_heap 4).
Proof. apply (empty_read_at_capacity (make zero_heap 4)). apply make_wf. unfold LIMIT. lia. Defined.

(** [getWriteBuffers] grows the array and returns segments, each inside one
    node, that cover exactly the [len] bytes after the position, once and in
    order, without changing position or contents. *)
Theorem write_buffers_cover (h : nat → nat → byte) (len : Z) (b : ByteArray) :
  wf b → 0 ≤ len → m_position b + len + m_baseSize b < LIMIT →
  ∃ b' iovs, getWriteBuffers h len b = Ret (len, iovs) b' ∧ wf b'
    ∧ abs b' = abs b
    ∧ iov_addrs (m_baseSize b) iovs = seqZ (m_position b) len ∧ Forall (iov_ok b') iovs.
Proof.
  intros Hwf Hlen Hlim.
  destruct (getWriteBuffers_spec h len b Hwf Hlen Hlim)
    as (b' & iovs & ? & ? & _ & Hp & Hd & ? & ?).
  exists b', iovs. unfold abs. by rewrite Hp, Hd.
Qed.

Lemma write_buffers_cover_witness :
  ∃ b' iovs, getWriteBuffers zero_heap 9 (make zero_heap 4) = Ret (9, iovs) b' ∧ wf b'
    ∧ abs b' = abs (make zero_heap 4)
    ∧ iov_addrs 4 iovs = seqZ 0 9 ∧ Forall (iov_ok b') iovs.
Proof.
  apply (write_buffers_cover zero_heap 9 (make zero_heap 4)).
  - apply make_wf. unfold LIMIT. lia.
  - lia.
  - reflexivity.
Defined.

(** [getReadBuffers] returns segments covering exactly the readable bytes
    after the position, at most [len] of them, and leaves the array alone. *)
Theorem read_buffers_cover (len : Z) (b : ByteArray) :
  wf b → 0 ≤ len →
  ∃ iovs, getReadBuffers len b = Ret (Z.min len (m_size b - m_position b), iovs) b
    ∧ iov_addrs (m_baseSize b) iovs
      = seqZ (m_position b) (Z.min len (m_size b - m_position b))
    ∧ Forall (iov_ok b) iovs.
Proof. apply getReadBuffers_spec. Qed.

Lemma read_buffers_cover_witness :
  ∃ iovs, getReadBuffers 7 (make zero_heap 4)
      = Ret (Z.min 7 (m_size (make zero_heap 4) - m_position (make zero_heap 4)), iovs) (make zero_heap 4)
    ∧ iov_addrs 4 iovs = seqZ 0 0 ∧ Forall (iov_ok (make zero_heap 4)) iovs.
Proof.
  apply (read_buffers_cover 7 (make zero_heap 4)).
  - apply make_wf. unfold LIMIT. lia.
  - lia.
Defined.

(** A file saved from a position at the start of a node holds exactly the
    remaining contents, and [readFromFile] appends a file's contents as one
    [write] of them would; so saving one array and loading the file into another
    transfers the remaining bytes. *)
Theorem file_round_trip (h : nat → nat → byte) (b c : ByteArray) :
  wf b → wf c → m_position b mod m_baseSize b = 0 →
  room c (Z.to_nat (m_size b - m_position b)) →
  ∃ file c', writeToFile true b = Ret (true, file) b
    ∧ readFromFile h (Some file) c = Ret true c' ∧ wf c'
    ∧ toString b = Ret file b ∧ wrote c file c'.
Proof.
  intros Hwf Hwfc Hal Hroom. pose proof Hwf as [Hsh Hpos Hsz Hcur].
  pose proof Hsh as [Hb Hns Hroot Hcap Hl].
  pose proof (Z.div_mod (m_position b) (m_baseSize b) ltac:(lia)) as Hdm.
  assert (0 ≤ m_position b / m_baseSize b) as Hd by (apply Z.div_pos; lia).
  assert (m_position b = m_baseSize b * Z.of_nat (m_cur b)) as Hp by lia.
  unfold writeToFile, getReadSize. mrun. rewrite LIMIT_u64, Hp by lia.
  rewrite save_loop_spec by (done || lia). rewrite <- Hp.
  set (file := slice (Z.to_nat (m_position b)) (Z.to_nat (m_size b - m_position b)) (view b)).
  assert (length file = Z.to_nat (m_size b - m_position b)) as Hlen.
  { unfold file. rewrite length_slice; [done|]. rewrite length_view by done. lia. }
  destruct (load_loop_spec h (S (length file)) file c Hwfc) as (c' & Hr & Hwfc' & Hw);
    [by rewrite Hlen|lia|].
  exists file, c'. rewrite Hr.
  split; [done|]. split; [done|]. split; [done|]. split; [|done].
  rewrite toString_spec by done. f_equal.
  unfold file, slice, data. rewrite skipn_firstn_comm. f_equal. lia.
Qed.

Lemma file_round_trip_witness :
  ∃ file c', writeToFile true (make zero_heap 4) = Ret (true, file) (make zero_heap 4)
    ∧ readFromFile zero_heap (Some file) (make zero_heap 3) = Ret true c' ∧ wf c'
    ∧ toString (make zero_heap 4) = Ret file (make zero_heap 4)
    ∧ wrote (make zero_heap 3) file c'.
Proof.
  apply (file_round_trip zero_heap (make zero_heap 4) (make zero_heap 3)).
  - apply make_wf. unfold LIMIT. lia.
  - apply make_wf. unfold LIMIT. lia.
  - reflexivity.
  - reflexivity.
Defined.

(** From a position inside a node, [writeToFile] can run off the chain: four
    bytes "hell" in one node of four, saved from position 2. *)
Theorem save_inside_node_crashes :
  (write zero_heap (str "hell");; setPosition 2;; writeToFile true) (make zero_heap 4)
  = Crash NullDeref.
Proof. vm_compute. reflexivity. Qed.
