(* ===== verification/ByteArrayCodec.v ===== *)
(** * The typed reads and writes of ByteArray (megalo/bytearray.cc)

    Every [writeX] of the class ends in calls of [write] and every [readX] in
    calls of [read].  They are defined here over two interfaces, a [ByteSink]
    and a [ByteSource], whose laws are all the codec relies on; the instances
    for [ByteArray] are at the end.  [host] is the byte order of the machine
    ([MEGALO_BYTE_ORDER]).  A [float] or [double] is its bit pattern.  Signed
    arithmetic that overflows is undefined and becomes [SignedOverflow]. *)
From S2P Require Import Prelude Bytes ByteArray.

(** ** Interfaces *)

(** Something bytes are appended to: [snk_ok s n] says there is room for [n]
    more, [snk_wrote s l s'] that [s'] is [s] with [l] written. *)
Class ByteSink (S : Type) := {
  snk_put : bytes → M S ();
  snk_order : S → byte_order;
  snk_ok : S → nat → Prop;
  snk_wrote : S → bytes → S → Prop;
  snk_put_spec : ∀ s l n, snk_ok s (length l + n) →
    ∃ s', snk_put l s = Ret () s' ∧ snk_wrote s l s' ∧ snk_ok s' n;
  snk_wrote_app : ∀ s1 l1 s2 l2 s3,
    snk_wrote s1 l1 s2 → snk_wrote s2 l2 s3 → snk_wrote s1 (l1 ++ l2) s3;
  snk_wrote_order : ∀ s l s', snk_wrote s l s' → snk_order s' = snk_order s
}.

(** Something bytes are taken from: [src_rest s l] says that [l] is what is
    left.  Nothing is promised for an empty read when nothing is left. *)
Class ByteSource (S : Type) := {
  src_get : Z → M S bytes;
  src_order : S → byte_order;
  src_rest : S → bytes → Prop;
  src_get_spec : ∀ s l t, src_rest s (l ++ t) → l ≠ [] ∨ t ≠ [] →
    ∃ s', src_get (Z.of_nat (length l)) s = Ret l s' ∧ src_rest s' t
        ∧ src_order s' = src_order s;
  src_get_short : ∀ s l n, src_rest s l → Z.of_nat (length l) < n →
    src_get n s = Throw out_of_range s
}.

(** ** Writers *)

Section writers.
Context {St : Type} `{ByteSink St} (host : byte_order).

(** [write(&value, sizeof(value))]. *)
Definition put_int (n : nat) (value : Z) : M St () := snk_put (mem_of host n value).

(** [if(m_endian != MEGALO_BYTE_ORDER) value = byteswap(value);] *)
Definition swap_if_foreign (swapped value : Z) : M St Z :=
  e ← gets snk_order;
  mret (if bool_decide (e ≠ host) then swapped else value).

Definition writeFint8 (value : Z) : M St () := put_int 1 value.
Definition writeFuint8 (value : Z) : M St () := put_int 1 value.
Definition writeFint16 (value : Z) : M St () :=
  v ← swap_if_foreign (byteswap_signed 2 value) value; put_int 2 v.
Definition writeFuint16 (value : Z) : M St () :=
  v ← swap_if_foreign (byteswap 2 value) value; put_int 2 v.
Definition writeFint32 (value : Z) : M St () :=
  v ← swap_if_foreign (byteswap_signed 4 value) value; put_int 4 v.
Definition writeFuint32 (value : Z) : M St () :=
  v ← swap_if_foreign (byteswap 4 value) value; put_int 4 v.
Definition writeFint64 (value : Z) : M St () :=
  v ← swap_if_foreign (byteswap_signed 8 value) value; put_int 8 v.
Definition writeFuint64 (value : Z) : M St () :=
  v ← swap_if_foreign (byteswap 8 value) value; put_int 8 v.

(** A signed result that must be representable in [w] bits. *)
Definition signed_result (w v : Z) : option Z :=
  if bool_decide (signed_in w v) then Some v else None.

(** [static uint32_t EncodeZigzag32(const int32_t& v)]. *)
Definition EncodeZigzag32 (v : Z) : option Z :=
  if v <? 0 then n ← signed_result 32 (- v); Some (u32 (u32 (u32 n * 2) - 1))
  else d ← signed_result 32 (v * 2); Some (u32 d).

(** [static uint32_t EncodeZigzag64(const int64_t& v)]: the result type is
    [uint32_t]. *)
Definition EncodeZigzag64 (v : Z) : option Z :=
  if v <? 0 then n ← signed_result 64 (- v); Some (u32 (u64 (u64 (u64 n * 2) - 1)))
  else d ← signed_result 64 (v * 2); Some (u32 d).

(** The loop of [writeUint32] and [writeUint64] over [uint8_t tmp[room]]; [None]
    when it would store beyond the array. *)
Fixpoint varint_bytes (room : nat) (value : Z) : option bytes :=
  match room with
  | O => None
  | S room =>
    if 0x80 <=? value then
      t ← varint_bytes room (Z.shiftr value 7);
      Some (byte.of_Z (Z.lor (Z.land value 0x7f) 0x80) :: t)
    else Some [byte.of_Z value]
  end.

Definition put_varint (room : nat) (value : Z) : M St () :=
  match varint_bytes room value with
  | Some tmp => snk_put tmp
  | None => crash OutOfBounds
  end.

Definition writeUint32 (value : Z) : M St () := put_varint 5 value.
Definition writeUint64 (value : Z) : M St () := put_varint 10 value.

Definition writeInt32 (value : Z) : M St () :=
  match EncodeZigzag32 value with
  | Some v => writeUint32 v
  | None => crash SignedOverflow
  end.
Definition writeInt64 (value : Z) : M St () :=
  match EncodeZigzag64 value with
  | Some v => writeUint64 v
  | None => crash SignedOverflow
  end.

Definition writeFloat (value : Z) : M St () := writeFuint32 value.
Definition writeDouble (value : Z) : M St () := writeFuint64 value.

(** The length converted to the parameter type of the length's writer. *)
Definition writeStringF16 (value : bytes) : M St () :=
  writeFuint16 (u16 (Z.of_nat (length value)));; snk_put value.
Definition writeStringF32 (value : bytes) : M St () :=
  writeFuint32 (u32 (Z.of_nat (length value)));; snk_put value.
Definition writeStringF64 (value : bytes) : M St () :=
  writeFuint64 (u64 (Z.of_nat (length value)));; snk_put value.
Definition writeStringVint (value : bytes) : M St () :=
  writeUint64 (u64 (Z.of_nat (length value)));; snk_put value.
Definition writeStringWithoutLength (value : bytes) : M St () := snk_put value.

End writers.

(** ** Readers *)

Section readers.
Context {St : Type} `{ByteSource St} (host : byte_order).

(** [type v; read(&v, sizeof(v));] at an unsigned [n]-byte type. *)
Definition get_uint (n : nat) : M St Z :=
  m ← src_get (Z.of_nat n); mret (val_of host m).
Definition get_int (n : nat) : M St Z :=
  v ← get_uint n; mret (swrap (bits n) v).

Definition readFint8 : M St Z := get_int 1.
Definition readFuint8 : M St Z := get_uint 1.

(** The macro [XX(type)]. *)
Definition XX_unsigned (n : nat) : M St Z :=
  v ← get_uint n;
  e ← gets src_order;
  mret (if bool_decide (e = host) then v else byteswap n v).
Definition XX_signed (n : nat) : M St Z :=
  v ← get_int n;
  e ← gets src_order;
  mret (if bool_decide (e = host) then v else byteswap_signed n v).

Definition readFint16 : M St Z := XX_signed 2.
Definition readFuint16 : M St Z := XX_unsigned 2.
Definition readFint32 : M St Z := XX_signed 4.
Definition readFuint32 : M St Z := XX_unsigned 4.
Definition readFint64 : M St Z := XX_signed 8.
Definition readFuint64 : M St Z := XX_unsigned 8.

(** [static int32_t DecodeZigzag32(const uint32_t& v)]. *)
Definition DecodeZigzag32 (v : Z) : Z :=
  i32 (Z.lxor (Z.shiftr v 1) (u32 (- Z.land v 1))).
(** [static int64_t DecodeZigzag64(const uint64_t& v)]. *)
Definition DecodeZigzag64 (v : Z) : Z :=
  i64 (Z.lxor (Z.shiftr v 1) (u64 (- Z.land v 1))).

(** The [for(int i = 0; i < w; i += 7)] loop of [readUint32] (w = 32) and
    [readUint64] (w = 64). *)
Fixpoint varint_loop (fuel : nat) (w i result : Z) : M St Z :=
  match fuel with
  | O => crash Diverges
  | S fuel =>
    if i <? w then
      b ← readFuint8;
      if b <? 0x80 then mret (Z.lor result (wrap w (Z.shiftl b i)))
      else varint_loop fuel w (i + 7) (Z.lor result (wrap w (Z.shiftl (Z.land b 0x7f) i)))
    else mret result
  end.

Definition readUint32 : M St Z := varint_loop 6 32 0 0.
Definition readUint64 : M St Z := varint_loop 11 64 0 0.

Definition readInt32 : M St Z := v ← readUint32; mret (DecodeZigzag32 v).
Definition readInt64 : M St Z := v ← readUint64; mret (DecodeZigzag64 v).

Definition readFloat : M St Z := readFuint32.
Definition readDouble : M St Z := readFuint64.

Definition readStringF16 : M St bytes := len ← readFuint16; src_get len.
Definition readStringF32 : M St bytes := len ← readFuint32; src_get len.
Definition readStringF64 : M St bytes := len ← readFuint64; src_get len.
Definition readStringVint : M St bytes := len ← readUint64; src_get len.

End readers.

(** * Facts *)

(** ** What a writer appends and a reader takes *)

Definition emits {St} `{ByteSink St} (o : byte_order) (m : M St ()) (l : bytes) : Prop :=
  ∀ s n, snk_order s = o → snk_ok s (length l + n) →
  ∃ s', m s = Ret () s' ∧ snk_wrote s l s' ∧ snk_ok s' n.

Definition decodes {St A} `{ByteSource St} (o : byte_order) (m : M St A) (l : bytes) (a : A) : Prop :=
  ∀ s t, src_order s = o → src_rest s (l ++ t) →
  ∃ s', m s = Ret a s' ∧ src_rest s' t ∧ src_order s' = o.

Section emits.
Context {St : Type} `{ByteSink St} (o host : byte_order).

Lemma emits_put l : emits o (snk_put l) l.
Proof. intros s n _ Hok. by apply snk_put_spec. Qed.

Lemma emits_seq m1 m2 l1 l2 :
  emits o m1 l1 → emits o m2 l2 → emits o (m1;; m2) (l1 ++ l2).
Proof.
  intros H1 H2 s n Ho Hok. rewrite length_app, <- Nat.add_assoc in Hok.
  destruct (H1 s _ Ho Hok) as (s1 & E1 & W1 & K1).
  destruct (H2 s1 n) as (s2 & E2 & W2 & K2);
    [by rewrite (snk_wrote_order _ _ _ W1)|done|].
  exists s2. rewrite (bind_ret _ _ _ _ _ E1). split; [done|].
  split; [by eapply snk_wrote_app|done].
Qed.

(** The wire image of a fixed-width integer depends on the stream's byte
    order only, not on the host's. *)
Lemma emits_fixed n sw v :
  mem_of host n sw = rev (mem_of host n v) →
  emits o (v' ← swap_if_foreign host sw v; put_int host n v') (mem_of o n v).
Proof.
  intros Hsw s k Ho Hok. unfold swap_if_foreign. mrun. rewrite Ho.
  case_bool_decide as Hne.
  - rewrite (mem_of_other host o) in Hsw by congruence.
    unfold put_int. rewrite Hsw. by apply emits_put.
  - assert (host = o) as -> by (destruct host, o; done). by apply emits_put.
Qed.

Lemma emits_fixed_unsigned n v :
  emits o (v' ← swap_if_foreign host (byteswap n v) v; put_int host n v') (mem_of o n v).
Proof. apply emits_fixed, mem_of_byteswap. Qed.

Lemma emits_fixed_signed n v : (0 < n)%nat →
  emits o (v' ← swap_if_foreign host (byteswap_signed n v) v; put_int host n v') (mem_of o n v).
Proof. intros. by apply emits_fixed, mem_of_byteswap_signed. Qed.

Lemma mem_of_1 (o1 o2 : byte_order) v : mem_of o1 1 v = mem_of o2 1 v.
Proof. by destruct o1, o2. Qed.

Lemma emits_1 v : emits o (put_int host 1 v) (mem_of o 1 v).
Proof. rewrite (mem_of_1 o host). apply emits_put. Qed.

Lemma emits_varint room v l : varint_bytes room v = Some l → emits o (put_varint room v) l.
Proof. unfold put_varint. intros ->. apply emits_put. Qed.
End emits.

Section decodes.
Context {St : Type} `{ByteSource St} (o host : byte_order).

Lemma decodes_get l : l ≠ [] → decodes o (src_get (Z.of_nat (length l))) l l.
Proof.
  intros Hl s t Ho Hr. destruct (src_get_spec s l t Hr) as (s' & ? & ? & He); [by left|].
  exists s'. by rewrite He.
Qed.

Lemma decodes_bind {A B} (m : M St A) (k : A → M St B) l1 l2 a b :
  decodes o m l1 a → decodes o (k a) l2 b → decodes o (m ≫= k) (l1 ++ l2) b.
Proof.
  intros H1 H2 s t Ho Hr. rewrite <- app_assoc in Hr.
  destruct (H1 s _ Ho Hr) as (s1 & E1 & R1 & O1).
  rewrite (bind_ret _ _ _ _ _ E1). by apply H2.
Qed.

Lemma decodes_ret {A} (a : A) : decodes o (mret a) [] a.
Proof. intros s t Ho Hr. by exists s. Qed.

Lemma decodes_map {A B} (m : M St A) (f : A → B) l a b :
  decodes o m l a → f a = b → decodes o (x ← m; mret (f x)) l b.
Proof.
  intros Hm <-. rewrite <- (app_nil_r l).
  apply (decodes_bind _ _ _ _ a); [done|apply decodes_ret].
Qed.

Lemma decodes_uint n v : (0 < n)%nat →
  decodes o (get_uint host n) (mem_of o n v) (val_of host (mem_of o n v)).
Proof.
  intros Hn. apply (decodes_map _ _ _ (mem_of o n v)); [|done].
  rewrite <- (length_mem_of o n v) at 1. apply decodes_get.
  intros Heq. apply (f_equal length) in Heq. rewrite length_mem_of in Heq. simpl in Heq. lia.
Qed.

Lemma decodes_XX {A} (m : M St Z) (f g : Z → A) l a : decodes o m l a →
  decodes o (v ← m; e ← gets src_order; mret (if bool_decide (e = host) then f v else g v)) l
    (if bool_decide (o = host) then f a else g a).
Proof.
  intros Hm s t Ho Hr. destruct (Hm s t Ho Hr) as (s1 & E1 & R1 & O1).
  rewrite (bind_ret _ _ _ _ _ E1). mrun. rewrite O1. eauto.
Qed.

Lemma decodes_fixed_unsigned n v : (0 < n)%nat → unsigned_in (bits n) v →
  decodes o (XX_unsigned host n) (mem_of o n v) v.
Proof.
  intros Hn Hv. pose proof (decodes_XX _ id (byteswap n) _ _ (decodes_uint n v Hn)) as Hd.
  replace v with (if bool_decide (o = host) then id (val_of host (mem_of o n v))
    else byteswap n (val_of host (mem_of o n v))) at 2; [done|].
  case_bool_decide as Heq.
  - subst. unfold id. rewrite val_of_mem_of. by apply wrap_id.
  - rewrite (byteswap_val_of _ o) by (congruence || apply length_mem_of).
    rewrite val_of_mem_of. by apply wrap_id.
Qed.

Lemma byteswap_signed_swrap n v : (0 < n)%nat →
  byteswap_signed n (swrap (bits n) v) = swrap (bits n) (byteswap n v).
Proof.
  intros. unfold byteswap_signed, byteswap. by rewrite wrap_swrap by (by apply bits_pos).
Qed.

Lemma decodes_fixed_signed n v : (0 < n)%nat → signed_in (bits n) v →
  decodes o (XX_signed host n) (mem_of o n v) v.
Proof.
  intros Hn Hv. unfold XX_signed, get_int.
  pose proof (decodes_map _ (swrap (bits n)) _ _ _ (decodes_uint n v Hn) eq_refl) as Hi.
  pose proof (decodes_XX _ id (byteswap_signed n) _ _ Hi) as Hd.
  replace v with (if bool_decide (o = host) then id (swrap (bits n) (val_of host (mem_of o n v)))
    else byteswap_signed n (swrap (bits n) (val_of host (mem_of o n v)))) at 2; [done|].
  assert (0 < bits n) as Hb by (by apply bits_pos).
  case_bool_decide as Heq.
  - subst. unfold id. rewrite val_of_mem_of, swrap_wrap by done. by apply swrap_id.
  - rewrite byteswap_signed_swrap by done.
    rewrite (byteswap_val_of _ o) by (congruence || apply length_mem_of).
    rewrite val_of_mem_of, swrap_wrap by done. by apply swrap_id.
Qed.

Lemma decodes_uint8 v : unsigned_in 8 v → decodes o (readFuint8 host) (mem_of o 1 v) v.
Proof.
  intros Hv. pose proof (decodes_uint 1 v ltac:(lia)) as Hd.
  rewrite (mem_of_1 o host), val_of_mem_of in Hd. change (bits 1) with 8 in Hd.
  rewrite wrap_id, (mem_of_1 host o) in Hd by done. exact Hd.
Qed.

Lemma decodes_int8 v : signed_in 8 v → decodes o (readFint8 host) (mem_of o 1 v) v.
Proof.
  intros Hv. pose proof (decodes_uint 1 v ltac:(lia)) as Hd.
  rewrite (mem_of_1 o host), val_of_mem_of, (mem_of_1 host o) in Hd.
  apply (decodes_map _ _ _ _ _ Hd). rewrite swrap_wrap by done. by apply swrap_id.
Qed.
End decodes.

(** ** Variable-length integers *)

Lemma land_7f v : 0 ≤ v → 0 ≤ Z.land v 0x7f < 128 ∧ Z.land v 0x7f ≤ v.
Proof.
  intros. change 0x7f with (Z.ones 7). rewrite Z.land_ones by lia.
  pose proof (Z.mod_pos_bound v (2 ^ 7) ltac:(lia)). pose proof (Z.mod_le v (2 ^ 7)). lia.
Qed.

(** A continuation byte is at least 0x80 and carries the low seven bits. *)
Lemma continuation_byte v : 0 ≤ v →
  let b := Z.lor (Z.land v 0x7f) 0x80 in
  byte.unsigned (byte.of_Z b) = b ∧ 0x80 ≤ b ∧ Z.land b 0x7f = Z.land v 0x7f.
Proof.
  intros Hv b. destruct (land_7f v Hv) as [Hl _].
  assert (b = Z.land v 0x7f + 0x80) as Hb.
  { unfold b. symmetry. apply Z.add_nocarry_lor.
    change 0x7f with (Z.ones 7). change 0x80 with (Z.shiftl 1 7).
    apply Z.bits_inj'. intros i Hi. rewrite Z.land_spec, Z.land_spec, Z.bits_0.
    rewrite Z.testbit_ones_nonneg, Z.shiftl_spec by lia.
    destruct (Z.ltb_spec i 7); [|by rewrite andb_false_r].
    rewrite (Z.testbit_neg_r _ (i - 7)) by lia. by rewrite andb_false_r. }
  split; [apply unsigned_of_Z_small; lia|]. split; [lia|].
  unfold b. rewrite Z.land_lor_distr_l, <- Z.land_assoc. simpl. apply Z.lor_0_r.
Qed.

Lemma split_7 v i : 0 ≤ i →
  Z.lor (Z.shiftl (Z.land v 0x7f) i) (Z.shiftl (Z.shiftr v 7) (i + 7)) = Z.shiftl v i.
Proof.
  intros. rewrite Z.add_comm, <- Z.shiftl_shiftl, <- Z.shiftl_lor by lia. f_equal.
  change 0x7f with (Z.ones 7). apply Z.bits_inj'. intros j Hj.
  rewrite Z.lor_spec, Z.land_spec, Z.testbit_ones_nonneg, Z.shiftl_spec by lia.
  destruct (Z.ltb_spec j 7).
  - rewrite (Z.testbit_neg_r _ (j - 7)) by lia. by rewrite andb_true_r, orb_false_r.
  - rewrite Z.shiftr_spec by lia. rewrite andb_false_r. simpl. f_equal. lia.
Qed.

Lemma shiftr_7 v : Z.shiftr v 7 = v / 128.
Proof. by rewrite Z.shiftr_div_pow2. Qed.

Lemma varint_bytes_total room : ∀ v,
  (0 < room)%nat → 0 ≤ v < 2 ^ (7 * Z.of_nat room) →
  ∃ l, varint_bytes room v = Some l ∧ (0 < length l ≤ room)%nat.
Proof.
  induction room as [|room IH]; intros v Hr Hv; [lia|]. simpl.
  destruct (Z.leb_spec 0x80 v); [|eexists; split; [done|simpl; lia]].
  rewrite shiftr_7. replace (7 * Z.of_nat (S room)) with (7 + 7 * Z.of_nat room) in Hv by lia.
  rewrite Z.pow_add_r in Hv by lia. change (2 ^ 7) with 128 in Hv.
  assert (0 ≤ v / 128 < 2 ^ (7 * Z.of_nat room)) as Hd.
  { split; [apply Z.div_pos; lia|apply Z.div_lt_upper_bound; lia]. }
  destruct (decide (room = 0%nat)) as [->|]; [simpl in Hd; pose proof (Z.div_str_pos v 128); lia|].
  destruct (IH (v / 128)) as (l & -> & Hl); [lia|done|].
  eexists. split; [done|]. simpl. lia.
Qed.

(** The encoding as a value: seven bits per byte, least significant first. *)
Definition varint_value (l : bytes) : Z :=
  foldr (λ b acc, Z.lor (Z.land (byte.unsigned b) 0x7f) (Z.shiftl acc 7)) 0 l.

Section varint.
Context {St : Type} `{ByteSource St} (o host : byte_order).

Lemma decodes_byte b : decodes o (readFuint8 host) [b] (byte.unsigned b).
Proof.
  pose proof (decodes_uint8 o host (byte.unsigned b) (byte_range b)) as Hd.
  replace [b] with (mem_of o 1 (byte.unsigned b)); [done|].
  rewrite (mem_of_1 o MEGALO_LITTLE_ENDIAN). simpl. cbv [le_split]. by rewrite byte.of_Z_unsigned.
Qed.

Lemma decodes_varint_loop w room : ∀ fuel v i r l,
  (room ≤ fuel)%nat → varint_bytes room v = Some l →
  0 ≤ i < w → 0 ≤ v → v < 2 ^ (w - i) →
  decodes o (varint_loop host fuel w i r) l (Z.lor r (Z.shiftl v i)).
Proof.
  induction room as [|room IH]; intros fuel v i r l Hf Hl Hi Hv Hw; [done|].
  destruct fuel as [|fuel]; [lia|]. simpl in *.
  destruct (Z.ltb_spec i w); [|lia].
  assert (∀ x, 0 ≤ x ≤ v → wrap w (Z.shiftl x i) = Z.shiftl x i) as Hwrap.
  { intros x Hx. apply wrap_id. rewrite Z.shiftl_mul_pow2 by lia.
    assert (2 ^ w = 2 ^ (w - i) * 2 ^ i) as Hp by (rewrite <- Z.pow_add_r by lia; f_equal; lia).
    pose proof (pow2_pos i ltac:(lia)). unfold unsigned_in. rewrite Hp. split; nia. }
  destruct (Z.leb_spec 0x80 v) as [Hge|Hlt].
  - apply bind_Some in Hl as (t & Ht & [= <-]).
    destruct (continuation_byte v Hv) as (Hb & Hb80 & Hbl). destruct (land_7f v Hv) as [Hl7 Hlv].
    apply (decodes_bind o _ _ [_] t _ _ (decodes_byte _)). rewrite Hb.
    destruct (Z.ltb_spec (Z.lor (Z.land v 0x7f) 0x80) 0x80); [lia|].
    rewrite Hbl, Hwrap by lia.
    assert (2 ^ 7 < 2 ^ (w - i) ) as Hpow by lia. apply Z.pow_lt_mono_r_iff in Hpow; [|lia..].
    assert (2 ^ (w - i) = 128 * 2 ^ (w - (i + 7))) as Hpow2.
    { change 128 with (2 ^ 7). rewrite <- Z.pow_add_r by lia. f_equal. lia. }
    rewrite <- (split_7 v i), Z.lor_assoc by lia.
    apply IH; rewrite ?shiftr_7 in *; try done; try lia.
    + apply Z.div_pos; lia.
    + apply Z.div_lt_upper_bound; lia.
  - injection Hl as <-. rewrite <- (app_nil_r [_]).
    apply (decodes_bind o _ _ [_] [] _ _ (decodes_byte _)).
    rewrite unsigned_of_Z_small by lia. destruct (Z.ltb_spec v 0x80); [|lia].
    rewrite Hwrap by lia. apply decodes_ret.
Qed.

Lemma decodes_uint32 v l : unsigned_in 32 v → varint_bytes 5 v = Some l →
  decodes o (readUint32 host) l v.
Proof.
  intros [? ?] Hl. pose proof (decodes_varint_loop 32 5 6 v 0 0 l) as Hd.
  rewrite Z.shiftl_0_r, Z.lor_0_l in Hd. apply Hd; done || lia.
Qed.

Lemma decodes_uint64 v l : unsigned_in 64 v → varint_bytes 10 v = Some l →
  decodes o (readUint64 host) l v.
Proof.
  intros [? ?] Hl. pose proof (decodes_varint_loop 64 10 11 v 0 0 l) as Hd.
  rewrite Z.shiftl_0_r, Z.lor_0_l in Hd. apply Hd; done || lia.
Qed.
End varint.

(** ** Zigzag *)

Lemma lxor_ones w x : 0 ≤ w → unsigned_in w x → Z.lxor x (2 ^ w - 1) = 2 ^ w - 1 - x.
Proof.
  intros Hw [Hx0 Hx]. replace (2 ^ w - 1) with (Z.ones w) by (rewrite Z.ones_equiv; lia).
  assert (Z.ldiff x (Z.ones w) = 0) as Hd.
  { rewrite Z.ldiff_ones_r by lia. rewrite Z.shiftr_div_pow2, Z.div_small by lia. apply Z.shiftl_0_l. }
  rewrite Z.sub_nocarry_ldiff by done.
  apply Z.bits_inj'. intros i Hi. rewrite Z.lxor_spec, Z.ldiff_spec.
  assert (Z.testbit (Z.ldiff x (Z.ones w)) i = false) as Hbit by (by rewrite Hd, Z.bits_0).
  rewrite Z.ldiff_spec in Hbit. destruct (Z.testbit x i), (Z.testbit (Z.ones w) i); done.
Qed.

(** The mathematical zigzag code and its inverse on [w] bits. *)
Definition zigzag (v : Z) : Z := if v <? 0 then -2 * v - 1 else 2 * v.

Lemma unzigzag w v : 1 < w → signed_in w v →
  swrap w (Z.lxor (Z.shiftr (zigzag v) 1) (wrap w (- Z.land (zigzag v) 1))) = v.
Proof.
  intros Hw [Hlo Hhi]. pose proof (pow2_half w ltac:(lia)) as Hp.
  pose proof (pow2_pos (w - 1) ltac:(lia)) as Hpos.
  assert (∀ z, Z.land z 1 = z mod 2) as Hland by (intros; by apply (Z.land_ones z 1)).
  rewrite Hland, Z.shiftr_div_pow2 by lia. change (2 ^ 1) with 2. unfold zigzag.
  destruct (Z.ltb_spec v 0).
  - replace (-2 * v - 1) with (1 + (- v - 1) * 2) by lia.
    rewrite Z.div_add, Z.mod_add by lia. change (1 / 2 + (- v - 1)) with (0 + (- v - 1)).
    change (- (1 mod 2)) with (- (1)). rewrite Z.add_0_l.
    replace (wrap w (-(1))) with (2 ^ w - 1).
    2: { unfold wrap. apply (Z.mod_unique _ _ (-1)); lia. }
    rewrite lxor_ones by (unfold unsigned_in; lia).
    rewrite <- (swrap_id w v) at 2 by (unfold signed_in; lia).
    unfold swrap. f_equal. replace (2 ^ w - 1 - (- v - 1) + 2 ^ (w - 1))
      with (v + 2 ^ (w - 1) + 1 * 2 ^ w) by lia.
    by rewrite Z.mod_add by lia.
  - replace (2 * v) with (0 + v * 2) by lia. rewrite Z.div_add, Z.mod_add by lia.
    change (- (0 mod 2)) with 0. rewrite wrap_id by (unfold unsigned_in; lia).
    rewrite Z.lxor_0_r. apply swrap_id; [lia|]. by split.
Qed.

Lemma zigzag_range w v : 1 < w → signed_in w v → unsigned_in w (zigzag v).
Proof.
  intros Hw [Hlo Hhi]. pose proof (pow2_half w ltac:(lia)). unfold unsigned_in, zigzag.
  destruct (Z.ltb_spec v 0); lia.
Qed.

(** [EncodeZigzag32] is the zigzag code on the values where its signed
    arithmetic is defined: [-v] and [v * 2] must be [int]s. *)
Lemma EncodeZigzag32_defined v :
  - 2 ^ 31 < v < 2 ^ 30 → EncodeZigzag32 v = Some (zigzag v).
Proof.
  intros Hv. unfold EncodeZigzag32, signed_result, zigzag. destruct (Z.ltb_spec v 0).
  - rewrite bool_decide_true by (unfold signed_in; lia). simpl. f_equal.
    rewrite (wrap_id 32 (- v)) by (unfold unsigned_in; lia).
    rewrite (wrap_id 32 (- v * 2)) by (unfold unsigned_in; lia).
    rewrite wrap_id by (unfold unsigned_in; lia). lia.
  - rewrite bool_decide_true by (unfold signed_in; lia). simpl. f_equal.
    rewrite wrap_id by (unfold unsigned_in; lia). lia.
Qed.

Lemma EncodeZigzag32_undefined v :
  v ≤ - 2 ^ 31 ∨ 2 ^ 30 ≤ v → EncodeZigzag32 v = None.
Proof.
  intros Hv. unfold EncodeZigzag32, signed_result.
  destruct (Z.ltb_spec v 0); rewrite bool_decide_false by (unfold signed_in; lia); done.
Qed.

(** [EncodeZigzag64] truncates the zigzag code to 32 bits. *)
Lemma EncodeZigzag64_spec v :
  - 2 ^ 63 < v < 2 ^ 62 → EncodeZigzag64 v = Some (u32 (zigzag v)).
Proof.
  intros Hv. unfold EncodeZigzag64, signed_result, zigzag. destruct (Z.ltb_spec v 0).
  - rewrite bool_decide_true by (unfold signed_in; lia). simpl. f_equal. f_equal.
    rewrite (wrap_id 64 (- v)) by (unfold unsigned_in; lia).
    rewrite (wrap_id 64 (- v * 2)) by (unfold unsigned_in; lia).
    rewrite wrap_id by (unfold unsigned_in; lia). lia.
  - rewrite bool_decide_true by (unfold signed_in; lia). simpl. f_equal. f_equal. lia.
Qed.

Lemma DecodeZigzag32_zigzag v : signed_in 32 v → DecodeZigzag32 (zigzag v) = v.
Proof. intros. by apply (unzigzag 32). Qed.

Lemma DecodeZigzag64_zigzag v : signed_in 64 v → DecodeZigzag64 (zigzag v) = v.
Proof. intros. by apply (unzigzag 64). Qed.

Lemma zigzag_small v : unsigned_in 32 (zigzag v) ↔ signed_in 32 v.
Proof. unfold unsigned_in, signed_in, zigzag. destruct (Z.ltb_spec v 0); lia. Qed.

(** Decoding a 32-bit code gives a 32-bit value, also in [DecodeZigzag64]. *)
Lemma DecodeZigzag64_small u : unsigned_in 32 u → signed_in 32 (DecodeZigzag64 u).
Proof.
  intros Hu. assert (∃ v, signed_in 32 v ∧ zigzag v = u) as (v & Hv & <-).
  { exists (if Z.odd u then - (u / 2) - 1 else u / 2).
    pose proof (Z.div_mod u 2 ltac:(lia)). pose proof (Zmod_odd u) as Ho.
    unfold unsigned_in, signed_in, zigzag in *.
    destruct (Z.odd u); split; try lia; case_match; lia. }
  rewrite DecodeZigzag64_zigzag; [done|]. unfold signed_in in *. lia.
Qed.

(** ** Length-prefixed strings *)

Section strings.
Context {St : Type} `{ByteSource St} (o : byte_order).

Lemma decodes_string (m : M St Z) l (value : bytes) :
  value ≠ [] → decodes o m l (Z.of_nat (length value)) →
  decodes o (len ← m; src_get len) (l ++ value) value.
Proof. intros Hv Hm. apply (decodes_bind o _ _ _ _ _ _ Hm). by apply decodes_get. Qed.
End strings.

(** ** Sequences of typed values *)

(** One value together with the pair of operations that writes and reads it. *)
Inductive item :=
  | Fint8 (v : Z) | Fuint8 (v : Z) | Fint16 (v : Z) | Fuint16 (v : Z)
  | Fint32 (v : Z) | Fuint32 (v : Z) | Fint64 (v : Z) | Fuint64 (v : Z)
  | Int32 (v : Z) | Uint32 (v : Z) | Int64 (v : Z) | Uint64 (v : Z)
  | Float (v : Z) | Double (v : Z)
  | StringF16 (v : bytes) | StringF32 (v : bytes) | StringF64 (v : bytes)
  | StringVint (v : bytes).

Definition write_item {St} `{ByteSink St} (host : byte_order) (i : item) : M St () :=
  match i with
  | Fint8 v => writeFint8 host v | Fuint8 v => writeFuint8 host v
  | Fint16 v => writeFint16 host v | Fuint16 v => writeFuint16 host v
  | Fint32 v => writeFint32 host v | Fuint32 v => writeFuint32 host v
  | Fint64 v => writeFint64 host v | Fuint64 v => writeFuint64 host v
  | Int32 v => writeInt32 v | Uint32 v => writeUint32 v
  | Int64 v => writeInt64 v | Uint64 v => writeUint64 v
  | Float v => writeFloat host v | Double v => writeDouble host v
  | StringF16 v => writeStringF16 host v | StringF32 v => writeStringF32 host v
  | StringF64 v => writeStringF64 host v | StringVint v => writeStringVint v
  end.

(** Reads a value of the same type as [i]. *)
Definition read_item {St} `{ByteSource St} (host : byte_order) (i : item) : M St item :=
  match i with
  | Fint8 _ => v ← readFint8 host; mret (Fint8 v)
  | Fuint8 _ => v ← readFuint8 host; mret (Fuint8 v)
  | Fint16 _ => v ← readFint16 host; mret (Fint16 v)
  | Fuint16 _ => v ← readFuint16 host; mret (Fuint16 v)
  | Fint32 _ => v ← readFint32 host; mret (Fint32 v)
  | Fuint32 _ => v ← readFuint32 host; mret (Fuint32 v)
  | Fint64 _ => v ← readFint64 host; mret (Fint64 v)
  | Fuint64 _ => v ← readFuint64 host; mret (Fuint64 v)
  | Int32 _ => v ← readInt32 host; mret (Int32 v)
  | Uint32 _ => v ← readUint32 host; mret (Uint32 v)
  | Int64 _ => v ← readInt64 host; mret (Int64 v)
  | Uint64 _ => v ← readUint64 host; mret (Uint64 v)
  | Float _ => v ← readFloat host; mret (Float v)
  | Double _ => v ← readDouble host; mret (Double v)
  | StringF16 _ => v ← readStringF16 host; mret (StringF16 v)
  | StringF32 _ => v ← readStringF32 host; mret (StringF32 v)
  | StringF64 _ => v ← readStringF64 host; mret (StringF64 v)
  | StringVint _ => v ← readStringVint host; mret (StringVint v)
  end.

(** The values a type carries faithfully. *)
Definition string_ok (w : Z) (v : bytes) : Prop :=
  v ≠ [] ∧ Z.of_nat (length v) < 2 ^ w.
Definition item_ok (i : item) : Prop :=
  match i with
  | Fint8 v => signed_in 8 v | Fuint8 v => unsigned_in 8 v
  | Fint16 v => signed_in 16 v | Fuint16 v => unsigned_in 16 v
  | Fint32 v => signed_in 32 v | Fuint32 v | Float v => unsigned_in 32 v
  | Fint64 v => signed_in 64 v | Fuint64 v | Double v => unsigned_in 64 v
  | Int32 v => - 2 ^ 31 < v < 2 ^ 30
  | Uint32 v => unsigned_in 32 v
  | Int64 v => signed_in 32 v
  | Uint64 v => unsigned_in 64 v
  | StringF16 v => string_ok 16 v | StringF32 v => string_ok 32 v
  | StringF64 v | StringVint v => string_ok 64 v
  end.
#[export] Instance item_ok_dec i : Decision (item_ok i).
Proof. destruct i; simpl; unfold string_ok; apply _. Defined.

(** The bytes of an item in a stream of order [o]. *)
Definition varint (room : nat) (v : Z) : bytes := default [] (varint_bytes room v).
Definition item_bytes (o : byte_order) (i : item) : bytes :=
  match i with
  | Fint8 v | Fuint8 v => mem_of o 1 v
  | Fint16 v | Fuint16 v => mem_of o 2 v
  | Fint32 v | Fuint32 v | Float v => mem_of o 4 v
  | Fint64 v | Fuint64 v | Double v => mem_of o 8 v
  | Int32 v => varint 5 (zigzag v) | Uint32 v => varint 5 v
  | Int64 v => varint 10 (zigzag v) | Uint64 v => varint 10 v
  | StringF16 v => mem_of o 2 (Z.of_nat (length v)) ++ v
  | StringF32 v => mem_of o 4 (Z.of_nat (length v)) ++ v
  | StringF64 v => mem_of o 8 (Z.of_nat (length v)) ++ v
  | StringVint v => varint 10 (Z.of_nat (length v)) ++ v
  end.

Lemma varint_32 v : unsigned_in 32 v → varint_bytes 5 v = Some (varint 5 v).
Proof.
  intros [? ?]. destruct (varint_bytes_total 5 v) as (l & Hl & _); [lia..|].
  unfold varint. by rewrite Hl.
Qed.

Lemma varint_64 v : unsigned_in 64 v → varint_bytes 10 v = Some (varint 10 v).
Proof.
  intros [? ?]. destruct (varint_bytes_total 10 v) as (l & Hl & _); [lia..|].
  unfold varint. by rewrite Hl.
Qed.

Lemma string_ok_range w v : string_ok w v → unsigned_in w (Z.of_nat (length v)).
Proof. intros [? ?]. unfold unsigned_in. lia. Qed.

Lemma signed_in_mono w w' v : 0 < w ≤ w' → signed_in w v → signed_in w' v.
Proof.
  intros Hw [? ?]. assert (2 ^ (w - 1) ≤ 2 ^ (w' - 1)) by (apply Z.pow_le_mono_r; lia).
  split; lia.
Qed.

Lemma unsigned_in_mono w w' v : 0 ≤ w ≤ w' → unsigned_in w v → unsigned_in w' v.
Proof.
  intros Hw [? ?]. assert (2 ^ w ≤ 2 ^ w') by (apply Z.pow_le_mono_r; lia).
  split; lia.
Qed.

Create HintDb codec discriminated.
#[export] Hint Resolve emits_put emits_1 emits_fixed_unsigned emits_fixed_signed
  emits_varint varint_32 varint_64 string_ok_range : codec.
#[export] Hint Resolve decodes_fixed_unsigned decodes_fixed_signed decodes_uint8
  decodes_int8 decodes_uint32 decodes_uint64 decodes_string : codec.
#[export] Hint Extern 1 (0 < _)%nat => lia : codec.

Lemma Int32_zigzag v : - 2 ^ 31 < v < 2 ^ 30 → unsigned_in 32 (zigzag v).
Proof. intros. apply zigzag_range; unfold signed_in; lia. Qed.

Lemma Int64_zigzag v : signed_in 32 v →
  EncodeZigzag64 v = Some (zigzag v) ∧ unsigned_in 64 (zigzag v).
Proof.
  intros Hv. pose proof (zigzag_range 32 v ltac:(lia) Hv) as Hz.
  split; [|by apply (unsigned_in_mono 32)].
  unfold signed_in in Hv. rewrite EncodeZigzag64_spec by lia. by rewrite wrap_id.
Qed.

Lemma emits_item {St} `{ByteSink St} (o host : byte_order) i :
  item_ok i → emits o (write_item host i) (item_bytes o i).
Proof.
  intros Hi. destruct i; simpl in *;
    try (apply emits_fixed_unsigned); try (apply emits_fixed_signed; lia);
    try (apply emits_1); try (apply emits_varint; auto with codec; fail).
  - unfold writeInt32. rewrite EncodeZigzag32_defined by done.
    apply emits_varint, varint_32. by apply Int32_zigzag.
  - unfold writeInt64. destruct (Int64_zigzag v Hi) as [-> ?].
    by apply emits_varint, varint_64.
  - unfold writeStringF16. rewrite wrap_id by auto with codec.
    apply emits_seq; [apply emits_fixed_unsigned|apply emits_put].
  - unfold writeStringF32. rewrite wrap_id by auto with codec.
    apply emits_seq; [apply emits_fixed_unsigned|apply emits_put].
  - unfold writeStringF64. rewrite wrap_id by auto with codec.
    apply emits_seq; [apply emits_fixed_unsigned|apply emits_put].
  - unfold writeStringVint. rewrite wrap_id by auto with codec.
    apply emits_seq; [apply emits_varint; auto with codec|apply emits_put].
Qed.

Lemma decodes_item {St} `{ByteSource St} (o host : byte_order) i :
  item_ok i → decodes o (read_item host i) (item_bytes o i) i.
Proof.
  intros Hi. destruct i; simpl in *; eapply decodes_map; try reflexivity;
    try (apply decodes_fixed_unsigned; [lia|done]);
    try (apply decodes_fixed_signed; [lia|done]);
    auto using decodes_uint8, decodes_int8, decodes_uint32, decodes_uint64, varint_32, varint_64.
  - eapply decodes_map; [apply decodes_uint32; [by apply Int32_zigzag|]|].
    + by apply varint_32, Int32_zigzag.
    + apply DecodeZigzag32_zigzag. unfold signed_in. lia.
  - destruct (Int64_zigzag v Hi) as [_ ?].
    eapply decodes_map; [apply decodes_uint64; [done|by apply varint_64]|].
    by apply DecodeZigzag64_zigzag, (signed_in_mono 32).
  - destruct Hi. apply decodes_string; [done|].
    apply decodes_fixed_unsigned; [lia|by apply string_ok_range].
  - destruct Hi. apply decodes_string; [done|].
    apply decodes_fixed_unsigned; [lia|by apply string_ok_range].
  - destruct Hi. apply decodes_string; [done|].
    apply decodes_fixed_unsigned; [lia|by apply string_ok_range].
  - destruct Hi. apply decodes_string; [done|].
    apply decodes_uint64; [by apply string_ok_range|]. by apply varint_64, string_ok_range.
Qed.

(** Writing a list of values, and reading values of the same types. *)
Fixpoint write_items {St} `{ByteSink St} (host : byte_order) (l : list item) : M St () :=
  match l with
  | [] => mret ()
  | i :: l => write_item host i;; write_items host l
  end.
Fixpoint read_items {St} `{ByteSource St} (host : byte_order) (l : list item) : M St (list item) :=
  match l with
  | [] => mret []
  | i :: l => x ← read_item host i; xs ← read_items host l; mret (x :: xs)
  end.
Definition items_bytes (o : byte_order) (l : list item) : bytes :=
  concat (map (item_bytes o) l).

Lemma emits_items {St} `{ByteSink St} (o host : byte_order) i l :
  Forall item_ok (i :: l) → emits o (write_items host (i :: l)) (items_bytes o (i :: l)).
Proof.
  revert i. induction l as [|j l IH]; intros i Hl; inversion_clear Hl as [|? ? Hi Hls].
  - intros s n Ho Hok. unfold items_bytes in *. simpl in *. rewrite app_nil_r in *.
    destruct (emits_item o host i Hi s n Ho Hok) as (s' & E & ?).
    exists s'. by rewrite (bind_ret _ _ _ _ _ E).
  - apply (emits_seq o _ _ (item_bytes o i) (items_bytes o (j :: l))); [by apply emits_item|by apply IH].
Qed.

Lemma decodes_items {St} `{ByteSource St} (o host : byte_order) l :
  Forall item_ok l → decodes o (read_items host l) (items_bytes o l) l.
Proof.
  induction 1 as [|i l Hi _ IH]; simpl; [apply decodes_ret|].
  apply (decodes_bind o _ _ (item_bytes o i) (items_bytes o l) i); [by apply decodes_item|].
  by apply (decodes_map o _ (λ xs, i :: xs) _ _ _ IH).
Qed.

(** ** The instances for ByteArray *)

(** What is left to read. *)
Definition remaining (b : ByteArray) : bytes := drop (Z.to_nat (m_position b)) (data b).

Lemma length_remaining b : wf b → Z.of_nat (length (remaining b)) = m_size b - m_position b.
Proof.
  intros Hwf. unfold remaining. rewrite length_drop, length_data by done.
  pose proof (wf_pos _ Hwf). lia.
Qed.

Lemma remaining_slice b l t : remaining b = l ++ t →
  slice (Z.to_nat (m_position b)) (length l) (data b) = l.
Proof. intros Hr. unfold slice. change (drop (Z.to_nat (m_position b)) (data b)) with (remaining b).
  rewrite Hr. apply take_app_length.
Qed.

#[export] Program Instance ByteArray_source : ByteSource ByteArray := {|
  src_get := read;
  src_order := m_endian;
  src_rest b l := wf b ∧ remaining b = l
|}.
Next Obligation.
  intros b l t [Hwf Hr] Hne. pose proof (length_remaining b Hwf) as Hlen.
  rewrite Hr, length_app in Hlen.
  assert (0 < Z.of_nat (length l) ∨ m_position b < m_capacity b) as Hnz.
  { pose proof (wf_size _ Hwf). destruct l, t; simpl in *; try lia. by destruct Hne. }
  destruct (read_spec (Z.of_nat (length l)) b Hwf) as (b' & -> & Hwf' & Hp & Hd & _ & _ & _ & He);
    [lia|lia|done|].
  exists b'. rewrite Nat2Z.id, (remaining_slice b l t) by done. split; [done|].
  split; [split; [done|]|done]. unfold remaining in *. rewrite Hp, Hd.
  pose proof (wf_pos _ Hwf). rewrite Z2Nat.inj_add, Nat2Z.id, <- drop_drop, Hr by lia.
  by rewrite drop_app_length.
Qed.
Next Obligation.
  intros b l n [Hwf <-] Hn. pose proof (length_remaining b Hwf).
  apply read_too_far; [done|lia].
Qed.

#[export] Program Instance ByteArray_sink (h : nat → nat → byte) : ByteSink ByteArray := {|
  snk_put := write h;
  snk_order := m_endian;
  snk_ok b n := wf b ∧ room b n;
  snk_wrote b l b' := wf b ∧ wf b' ∧ wrote b l b'
|}.
Next Obligation.
  intros h b l n [Hwf Hroom]. unfold room in *.
  destruct (write_spec h l b Hwf) as (b' & Hw & Hwf' & Hwr); [unfold room; lia|].
  exists b'. split; [done|]. split; [done|]. split; [done|].
  destruct Hwr as (Hp & _ & [Hb _] & _). rewrite Hp, Hb. lia.
Qed.
Next Obligation.
  intros h b1 l1 b2 l2 b3 (Hwf1 & _ & Hw1) (_ & Hwf3 & Hw2).
  split; [done|]. split; [done|]. by apply (wrote_app b1 l1 b2).
Qed.
Next Obligation. intros h b l b' (_ & _ & _ & _ & [_ He] & _). exact He. Qed.

(** ** Rewinding *)

Lemma remaining_wrote b l b' :
  wf b → wf b' → wrote b l b' →
  ∃ b'', setPosition (m_position b) b' = Ret () b'' ∧ wf b''
    ∧ remaining b'' = l ++ remaining b' ∧ m_endian b'' = m_endian b.
Proof.
  intros Hwf Hwf' (Hp & Hd & [Hb He] & Hc). pose proof (wf_pos _ Hwf) as Hpos.
  pose proof (wf_pos _ Hwf') as Hpos'. pose proof (wf_size _ Hwf').
  destruct (setPosition_spec (m_position b) b' Hwf') as (b'' & E & Hwf'' & Hp'' & Hs'' & Hv'' & _ & [_ He'']);
    [lia|].
  assert (data b'' = data b') as Hd'' by (unfold data; rewrite Hv'', Hs''; f_equal; lia).
  exists b''. split; [done|]. split; [done|]. split; [|congruence].
  unfold remaining. rewrite Hp'', Hd'', Hd, Hp.
  rewrite Z2Nat.inj_add, Nat2Z.id by lia.
  pose proof (length_data b Hwf). unfold splice.
  rewrite drop_app_ge by (rewrite length_take; lia).
  rewrite length_take, Nat.min_l, Nat.sub_diag, drop_0 by lia. f_equal.
  rewrite (app_assoc (take _ _)).
  rewrite drop_app_ge by (rewrite length_app, length_take; lia).
  by rewrite length_app, length_take, Nat.min_l, Nat.sub_diag, drop_0 by lia.
Qed.

(** Whatever a writer emits and a reader of the same order decodes survives a
    trip through a ByteArray, and the reader stops where the writer did. *)
Lemma round_trip_by {A} h (wr : M ByteArray ()) (rd : M ByteArray A) l a b :
  @emits _ (ByteArray_sink h) (m_endian b) wr l →
  decodes (m_endian b) rd l a → wf b → room b (length l) →
  ∃ b1 b2, wr b = Ret () b1 ∧ (setPosition (m_position b);; rd) b1 = Ret a b2
    ∧ remaining b2 = remaining b1 ∧ wrote b l b1 ∧ wf b1 ∧ wf b2.
Proof.
  intros He Hd Hwf Hroom.
  destruct (He b 0%nat eq_refl) as (b1 & E1 & (_ & Hwf1 & Hw1) & _);
    [simpl; by rewrite Nat.add_0_r|].
  destruct (remaining_wrote b l b1 Hwf Hwf1 Hw1) as (b1' & E1' & Hwf1' & Hr & Ho).
  destruct (Hd b1' (remaining b1)) as (b2 & E2 & [Hwf2 Hr2] & _);
    [done|by split|].
  exists b1, b2. rewrite (bind_ret _ _ _ _ _ E1'). done.
Qed.

(** * Properties *)

(** C2. Round trip: a non-empty list of typed values (fixed-width, zigzag,
    variable-length, floating and string, each in the range its type carries),
    written in a row on a machine of one byte order, is read back unchanged on a
    machine of any byte order after returning to the start position, in a stream
    of either endianness, and the reads consume exactly the bytes written. *)
Theorem codec_round_trip (h : nat → nat → byte) (whost rhost : byte_order)
    (i : item) (l : list item) (b : ByteArray) :
  wf b → Forall item_ok (i :: l) → room b (length (items_bytes (m_endian b) (i :: l))) →
  ∃ b1 b2,
    @write_items _ (ByteArray_sink h) whost (i :: l) b = Ret () b1
    ∧ (setPosition (m_position b);; read_items rhost (i :: l)) b1 = Ret (i :: l) b2
    ∧ remaining b2 = remaining b1.
Proof.
  intros Hwf Hok Hroom.
  destruct (round_trip_by h (@write_items _ (ByteArray_sink h) whost (i :: l))
    (read_items rhost (i :: l)) _ _ b (emits_items _ _ _ _ Hok) (decodes_items _ _ _ Hok) Hwf Hroom)
    as (b1 & b2 & ? & ? & ? & _). eauto.
Qed.

Definition sample_items : list item :=
  [Fint32 (-7); Int32 (-123456); Uint64 624485; StringVint (str "megalo"); Int64 99;
   StringF16 (str "x"); Fuint16 51966; Float 1065353216].

Lemma codec_round_trip_witness :
  ∃ b1 b2,
    @write_items _ (ByteArray_sink zero_heap) MEGALO_LITTLE_ENDIAN (Fint8 (-1) :: sample_items)
      (make zero_heap 4) = Ret () b1
    ∧ (setPosition 0;; read_items MEGALO_BIG_ENDIAN (Fint8 (-1) :: sample_items)) b1
      = Ret (Fint8 (-1) :: sample_items) b2
    ∧ remaining b2 = remaining b1.
Proof.
  apply (codec_round_trip zero_heap MEGALO_LITTLE_ENDIAN MEGALO_BIG_ENDIAN (Fint8 (-1)) sample_items
    (make zero_heap 4)).
  - apply make_wf. unfold LIMIT. lia.
  - apply (bool_decide_unpack _). vm_compute. reflexivity.
  - vm_compute. reflexivity.
Defined.

(** The variable-length encodings never overrun their [tmp] arrays: every
    [uint32_t] takes one to five bytes and every [uint64_t] one to ten, and the
    writer appends exactly those bytes. *)
Theorem varint_fits (h : nat → nat → byte) (v : Z) (b : ByteArray) :
  wf b → room b 10 →
  (unsigned_in 32 v → ∃ l b', @writeUint32 _ (ByteArray_sink h) v b = Ret () b'
     ∧ wrote b l b' ∧ (1 ≤ length l ≤ 5)%nat)
  ∧ (unsigned_in 64 v → ∃ l b', @writeUint64 _ (ByteArray_sink h) v b = Ret () b'
     ∧ wrote b l b' ∧ (1 ≤ length l ≤ 10)%nat).
Proof.
  intros Hwf Hroom.
  assert (∀ r, (0 < r ≤ 10)%nat → 0 ≤ v < 2 ^ (7 * Z.of_nat r) → ∃ l b',
    @put_varint _ (ByteArray_sink h) r v b = Ret () b' ∧ wrote b l b' ∧ (1 ≤ length l ≤ r)%nat) as Hgen.
  { intros r Hr Hv. destruct (varint_bytes_total r v ltac:(lia) Hv) as (l & Hl & Hlen).
    unfold put_varint. rewrite Hl.
    destruct (write_spec h l b Hwf) as (b' & E & _ & Hw); [unfold room in *; lia|].
    exists l, b'. split; [exact E|]. split; [done|lia]. }
  split; intros [? ?]; apply Hgen; lia.
Qed.

Lemma varint_fits_witness :
  (unsigned_in 32 624485 → ∃ l b', @writeUint32 _ (ByteArray_sink zero_heap) 624485 (make zero_heap 4) = Ret () b'
     ∧ wrote (make zero_heap 4) l b' ∧ (1 ≤ length l ≤ 5)%nat)
  ∧ (unsigned_in 64 624485 → ∃ l b', @writeUint64 _ (ByteArray_sink zero_heap) 624485 (make zero_heap 4) = Ret () b'
     ∧ wrote (make zero_heap 4) l b' ∧ (1 ≤ length l ≤ 10)%nat).
Proof.
  apply (varint_fits zero_heap 624485 (make zero_heap 4)).
  - apply make_wf. unfold LIMIT. lia.
  - reflexivity.
Defined.

Example varint_624485 : varint_bytes 5 624485 = Some [xe5; x8e; x26].
Proof. vm_compute. reflexivity. Qed.

(** [writeInt64] followed by [readInt64] returns the value exactly when it
    fits in 32 bits: [EncodeZigzag64] returns a [uint32_t]. *)
Theorem int64_truncated (h : nat → nat → byte) (host : byte_order) (v : Z) (b : ByteArray) :
  wf b → room b 10 → - 2 ^ 63 < v < 2 ^ 62 →
  ∃ b1 b2 v', @writeInt64 _ (ByteArray_sink h) v b = Ret () b1
    ∧ (setPosition (m_position b);; readInt64 host) b1 = Ret v' b2
    ∧ (v' = v ↔ signed_in 32 v).
Proof.
  intros Hwf Hroom Hv. unfold writeInt64. rewrite EncodeZigzag64_spec by done.
  set (u := u32 (zigzag v)).
  assert (unsigned_in 32 u) as Hu by (by apply wrap_range).
  assert (unsigned_in 64 u) as Hu64 by (by apply (unsigned_in_mono 32)).
  destruct (varint_bytes_total 10 u) as (l & Hl & Hlen); [lia|destruct Hu64; lia|].
  destruct (round_trip_by h (@writeUint64 _ (ByteArray_sink h) u) (readInt64 host) l (DecodeZigzag64 u) b)
    as (b1 & b2 & E1 & E2 & _).
  - by apply emits_varint.
  - by apply (decodes_map _ _ _ _ u); [apply decodes_uint64|].
  - done.
  - unfold room in *. lia.
  - exists b1, b2, (DecodeZigzag64 u). split; [done|]. split; [done|]. split.
    + intros Heq. rewrite <- Heq. by apply DecodeZigzag64_small.
    + intros Hs. unfold u. rewrite wrap_id by (by apply zigzag_small).
      by apply DecodeZigzag64_zigzag, (signed_in_mono 32).
Qed.

Lemma int64_truncated_witness :
  ∃ b1 b2 v', @writeInt64 _ (ByteArray_sink zero_heap) (2 ^ 31) (make zero_heap 4) = Ret () b1
    ∧ (setPosition 0;; readInt64 MEGALO_LITTLE_ENDIAN) b1 = Ret v' b2
    ∧ (v' = 2 ^ 31 ↔ signed_in 32 (2 ^ 31)).
Proof.
  apply (int64_truncated zero_heap MEGALO_LITTLE_ENDIAN (2 ^ 31) (make zero_heap 4)).
  - apply make_wf. unfold LIMIT. lia.
  - reflexivity.
  - lia.
Defined.

Example int64_truncated_value :
  match (@writeInt64 _ (ByteArray_sink zero_heap) (2 ^ 31);; setPosition 0;;
         readInt64 MEGALO_LITTLE_ENDIAN) (make zero_heap 4) with
  | Ret v _ => v = 0
  | _ => False
  end.
Proof. vm_compute. reflexivity. Qed.
