(* ===== verification/Timer.v ===== *)
(** * Timers (megalo/timer.h, megalo/timer.cc)

    The [Timer] objects live in a heap from addresses to objects; [m_timers],
    a [std::set] ordered by [Timer::Comparator], is the list of its elements in
    iteration order.  An operation takes the values [GetCurrentMS()] returns
    and the addresses [new] returns as arguments.  Every operation runs as one
    critical section of [m_mutex], so concurrent use is a sequence of
    operations.  [m_front] counts the calls of the virtual function
    [onTimerInsertAtFront].  A [std::function<void()>] is [None] when empty. *)
From S2P Require Import Prelude.
From stdpp Require Import gmap relations.
#[local] Open Scope Z_scope.

Definition addr := Z.
Definition fn := Z.

(** What a [std::function<void()>] made by this file may hold: the caller's
    function, or [std::bind(&OnTimer, weak_cond, cb)]. *)
Inductive callback :=
  | Plain (f : fn)
  | BindOnTimer (weak_cond : addr) (cb : option fn).

Record timer := Timer {
  m_recurring : bool;
  m_ms : Z;
  m_next : Z;
  m_cb : option callback
}.

Record TimerManager := mkTimerManager {
  m_heap : gmap addr timer;
  m_timers : list addr;
  m_tickled : bool;
  m_previousTime : Z;
  m_front : Z
}.

Definition set_timers (l : list addr) (s : TimerManager) : TimerManager :=
  mkTimerManager (m_heap s) l (m_tickled s) (m_previousTime s) (m_front s).
Definition set_tickled (b : bool) (s : TimerManager) : TimerManager :=
  mkTimerManager (m_heap s) (m_timers s) b (m_previousTime s) (m_front s).
Definition set_previousTime (t : Z) (s : TimerManager) : TimerManager :=
  mkTimerManager (m_heap s) (m_timers s) (m_tickled s) t (m_front s).
Definition set_front (n : Z) (s : TimerManager) : TimerManager :=
  mkTimerManager (m_heap s) (m_timers s) (m_tickled s) (m_previousTime s) n.
(** [*a = t]. *)
Definition store (a : addr) (t : timer) (s : TimerManager) : TimerManager :=
  mkTimerManager (<[a := t]> (m_heap s)) (m_timers s) (m_tickled s)
    (m_previousTime s) (m_front s).
Definition set_cb (c : option callback) (t : timer) : timer :=
  Timer (m_recurring t) (m_ms t) (m_next t) c.
Definition set_next (n : Z) (t : timer) : timer :=
  Timer (m_recurring t) (m_ms t) n (m_cb t).
Definition set_ms (n : Z) (t : timer) : timer :=
  Timer (m_recurring t) n (m_next t) (m_cb t).

(** ** The ordered set *)

(** A [Timer::ptr]: null, or an address with the object there. *)
Definition ptr := option (addr * timer).

Definition Comparator (lhs rhs : ptr) : bool :=
  match lhs, rhs with
  | None, None => false
  | None, _ => true
  | _, None => false
  | Some (la, l), Some (ra, r) =>
      if m_next l <? m_next r then true
      else if m_next r <? m_next l then false
      else la <? ra
  end.

Definition load (h : gmap addr timer) (a : addr) : ptr :=
  t ← h !! a; Some (a, t).

(** [std::set]: searches and changes under the comparator. *)
Definition lower_bound (h : gmap addr timer) (p : ptr) (l : list addr) : nat :=
  count_while (λ e, Comparator (load h e) p) l.

Definition find (h : gmap addr timer) (p : ptr) (l : list addr) : option nat :=
  let i := lower_bound h p l in
  e ← l !! i; if Comparator p (load h e) then None else Some i.

(** The set after [insert(p)] and whether the returned iterator is [begin()]. *)
Definition insert (h : gmap addr timer) (a : addr) (l : list addr) : list addr * bool :=
  match find h (load h a) l with
  | Some i => (l, Nat.eqb i 0)
  | None =>
      let i := lower_bound h (load h a) l in
      (take i l ++ a :: drop i l, Nat.eqb i 0)
  end.

Definition get_timer (a : addr) : M TimerManager timer :=
  λ s, deref (m_heap s !! a) s.

(** [m_timers.erase(it)] for [it = find(a)]: erasing [end()] is undefined. *)
Definition erase (it : option nat) : M TimerManager () :=
  match it with
  | Some i => modify (λ s, set_timers (delete i (m_timers s)) s)
  | None => crash OutOfBounds
  end.

Definition find_timer (a : addr) : M TimerManager (option nat) :=
  gets (λ s, find (m_heap s) (load (m_heap s) a) (m_timers s)).

(** [m_timers.insert(a)]: is the element at the front? *)
Definition insert_timer (a : addr) : M TimerManager bool := λ s,
  let '(l, front) := insert (m_heap s) a (m_timers s) in Ret front (set_timers l s).

(** ** Timer and TimerManager *)

Definition new_Timer (ms : Z) (cb : option callback) (recurring : bool) (now : Z) : timer :=
  Timer recurring ms (u64 (now + ms)) cb.

(** [Timer::Timer(uint64_t next)]. *)
Definition new_Timer_at (next : Z) : timer := Timer false 0 next None.

Definition new_TimerManager (now : Z) : TimerManager :=
  mkTimerManager ∅ [] false now 0.

(** [TimerManager::addTimer(Timer::ptr, WriteLock&)]. *)
Definition addTimer_locked (a : addr) : M TimerManager () :=
  first ← insert_timer a;
  tickled ← gets m_tickled;
  let at_front := first && negb tickled in
  (if at_front then modify (set_tickled true) else mret tt);;
  if at_front then modify (λ s, set_front (m_front s + 1) s) else mret tt.

Definition cancel (a : addr) : M TimerManager bool :=
  t ← get_timer a;
  if bool_decide (is_Some (m_cb t)) then
    modify (store a (set_cb None t));;
    it ← find_timer a;
    erase it;;
    mret true
  else mret false.

Definition refresh (a : addr) (now : Z) : M TimerManager bool :=
  t ← get_timer a;
  if bool_decide (m_cb t = None) then mret false else
  it ← find_timer a;
  if bool_decide (it = None) then mret false else
  erase it;;
  modify (store a (set_next (u64 (now + m_ms t)) t));;
  _ ← insert_timer a;
  mret true.

Definition reset (a : addr) (ms : Z) (from_now : bool) (now : Z) : M TimerManager bool :=
  t ← get_timer a;
  if (ms =? m_ms t) && negb from_now then mret true else
  if bool_decide (m_cb t = None) then mret false else
  it ← find_timer a;
  if bool_decide (it = None) then mret false else
  erase it;;
  let start := if from_now then now else u64 (m_next t - m_ms t) in
  let t := set_ms ms t in
  modify (store a (set_next (u64 (start + ms)) t));;
  addTimer_locked a;;
  mret true.

(** [TimerManager::addTimer(ms, cb, recurring)]; [a] is what [new] returns. *)
Definition addTimer (a : addr) (ms : Z) (cb : option callback) (recurring : bool)
    (now : Z) : M TimerManager addr :=
  modify (store a (new_Timer ms cb recurring now));;
  addTimer_locked a;;
  mret a.

(** The functions a call of the callback runs; [lock] says which objects are
    alive, and calling an empty function throws [std::bad_function_call]. *)
Definition OnTimer (lock : addr → bool) (weak_cond : addr) (cb : option fn) : M (list fn) () :=
  if lock weak_cond then
    match cb with
    | Some f => modify (λ ran, ran ++ [f])
    | None => throw bad_function_call
    end
  else mret tt.

Definition invoke (lock : addr → bool) (cb : callback) : M (list fn) () :=
  match cb with
  | Plain f => modify (λ ran, ran ++ [f])
  | BindOnTimer weak_cond cb => OnTimer lock weak_cond cb
  end.

Definition addConditionTimer (a : addr) (ms : Z) (cb : option fn) (weak_cond : addr)
    (recurring : bool) (now : Z) : M TimerManager addr :=
  addTimer a ms (Some (BindOnTimer weak_cond cb)) recurring now.

Definition getNextTimer (now : Z) : M TimerManager Z :=
  modify (set_tickled false);;
  l ← gets m_timers;
  match l with
  | [] => mret (u64 (Z.lnot 0))
  | a :: _ =>
      next ← get_timer a;
      if m_next next <=? now then mret 0 else mret (u64 (m_next next - now))
  end.

Definition deleteClockRollover (now_ms : Z) : M TimerManager bool :=
  prev ← gets m_previousTime;
  let rollover := (now_ms <? prev) && (now_ms <? u64 (prev - 60 * 60 * 1000)) in
  modify (set_previousTime now_ms);;
  mret rollover.

(** The loop over [expired] at the end of [listExpiredCb]. *)
Fixpoint fire_loop (now_ms : Z) (expired : list addr) : M TimerManager (list (option callback)) :=
  match expired with
  | [] => mret []
  | a :: expired =>
      t ← get_timer a;
      (if m_recurring t then
         modify (store a (set_next (u64 (now_ms + m_ms t)) t));;
         _ ← insert_timer a; mret tt
       else modify (store a (set_cb None t)));;
      cbs ← fire_loop now_ms expired;
      mret (m_cb t :: cbs)
  end.

(** The iterator that ends the expired timers; [a0] is the address of
    [now_timer]. *)
Definition expired_end (h : gmap addr timer) (l : list addr) (now_ms : Z) (a0 : addr)
    (rollover : bool) : nat :=
  if rollover then length l else
  let i := lower_bound h (Some (a0, new_Timer_at now_ms)) l in
  let at_now e := match h !! e with Some t => m_next t =? now_ms | None => false end in
  Nat.add i (count_while at_now (drop i l)).

Definition listExpiredCb (now_ms : Z) (a0 : addr) : M TimerManager (list (option callback)) :=
  l ← gets m_timers;
  match l with
  | [] => mret []
  | first :: _ =>
      rollover ← deleteClockRollover now_ms;
      t ← get_timer first;
      if negb rollover && (now_ms <? m_next t) then mret [] else
      h ← gets m_heap;
      let it := expired_end h l now_ms a0 rollover in
      modify (set_timers (drop it l));;
      fire_loop now_ms (take it l)
  end.

Definition hasTimer : M TimerManager bool :=
  gets (λ s, negb (bool_decide (m_timers s = []))).

(** ** Well-formed states *)

(** The order the set is kept in, on timers that exist. *)
Definition before (h : gmap addr timer) (a b : addr) : Prop :=
  ∃ t u, h !! a = Some t ∧ h !! b = Some u ∧
    (m_next t < m_next u ∨ m_next t = m_next u ∧ a < b).

(** The set holds live timers, in order, and every timer with a function is
    in it. *)
Record wf (s : TimerManager) : Prop := mkWf {
  wf_live : ∀ a, a ∈ m_timers s → is_Some (m_heap s !! a);
  wf_sorted : StronglySorted (before (m_heap s)) (m_timers s);
  wf_cb : ∀ a t, m_heap s !! a = Some t → m_cb t ≠ None → a ∈ m_timers s
}.

Lemma before_irrefl h a : ¬ before h a a.
Proof. intros (t&u&?&?&?). simplify_eq. lia. Qed.

Lemma before_trans h a b c : before h a b → before h b c → before h a c.
Proof.
  intros (t&u&?&?&?) (u'&v&?&?&?). simplify_eq. exists t, v. split_and!; [done..|]. lia.
Qed.

Lemma Comparator_spec h a b t u :
  h !! a = Some t → h !! b = Some u →
  Comparator (load h a) (load h b) = true ↔ before h a b.
Proof.
  intros Ha Hb. unfold load, before. rewrite Ha, Hb. simpl.
  destruct (Z.ltb_spec (m_next t) (m_next u)); [naive_solver|].
  destruct (Z.ltb_spec (m_next u) (m_next t)).
  - split; [done|]. intros (?&?&?&?&?). simplify_eq. lia.
  - rewrite Z.ltb_lt. split.
    + intros. exists t, u. split_and!; [done..|]. lia.
    + intros (?&?&?&?&?). simplify_eq. lia.
Qed.

(** A change to objects outside a list does not affect its order. *)
Lemma sorted_frame h a t l :
  a ∉ l → StronglySorted (before h) l → StronglySorted (before (<[a := t]> h)) l.
Proof.
  intros Ha. apply StronglySorted_ext. intros x y Hx Hy (u&v&?&?&?).
  exists u, v. rewrite !lookup_insert_ne by (intros ->; done). done.
Qed.

Section ordered_set.
Context (h : gmap addr timer) (l : list addr).
Context (Hlive : ∀ a, a ∈ l → is_Some (h !! a)) (Hs : StronglySorted (before h) l).

Lemma set_NoDup : NoDup l.
Proof. eapply StronglySorted_NoDup; [|done]. apply before_irrefl. Qed.

Lemma lower_bound_split a :
  is_Some (h !! a) →
  let i := lower_bound h (load h a) l in
  (∀ x, x ∈ take i l → before h x a) ∧ (∀ x, x ∈ drop i l → ¬ before h x a).
Proof.
  intros [t Ht] i. split.
  - intros x Hx. pose proof (count_while_take (λ e, Comparator (load h e) (load h a)) l) as HF.
    rewrite Forall_forall in HF. specialize (HF x Hx).
    assert (x ∈ l) as Hxl by (eapply subseteq_take; exact Hx).
    destruct (Hlive x Hxl) as [u Hu]. by eapply Comparator_spec.
  - intros x Hx Hb.
    pose proof (count_while_drop (before h) (λ e, Comparator (load h e) (load h a)) l Hs) as HF.
    rewrite Forall_forall in HF.
    assert (x ∈ l) as Hxl by (eapply subseteq_drop; exact Hx).
    destruct (Hlive x Hxl) as [u Hu].
    assert (Comparator (load h x) (load h a) = true) as HC by (by eapply Comparator_spec).
    rewrite HF in HC; [done| |exact Hx].
    intros y z Hy Hz Hyz HCz. destruct (Hlive y Hy) as [v Hv]. destruct (Hlive z Hz) as [w Hw].
    eapply Comparator_spec; [done..|]. eapply before_trans; [done|].
    by eapply Comparator_spec in HCz.
Qed.

(** [find] of an element of the set gives its position. *)
Lemma find_elem a :
  a ∈ l → ∃ i, find h (load h a) l = Some i ∧ l !! i = Some a.
Proof.
  intros Ha. destruct (Hlive a Ha) as [t Ht].
  destruct (lower_bound_split a (Hlive a Ha)) as [H1 H2].
  unfold find. set (i := lower_bound h (load h a) l) in *.
  assert (a ∈ drop i l) as Had.
  { rewrite <- (take_drop i l) in Ha. apply elem_of_app in Ha as [Ha|Ha]; [|done].
    by destruct (before_irrefl h a (H1 a Ha)). }
  destruct (drop i l) as [|e k] eqn:Hd; [by apply elem_of_nil in Had|].
  assert (l !! i = Some e) as Hi by (rewrite <- (Nat.add_0_r i), <- lookup_drop, Hd; done).
  rewrite Hi. simpl.
  assert (e = a) as ->.
  { destruct (decide (e = a)) as [|Hne]; [done|exfalso].
    apply elem_of_cons in Had as [|Hak]; [congruence|].
    apply (H2 e); [by apply elem_of_cons; left|].
    pose proof (StronglySorted_take_drop _ i l Hs) as (_&Hsd&_). rewrite Hd in Hsd.
    inversion_clear Hsd as [|?? _ HF]. rewrite Forall_forall in HF. by apply HF. }
  exists i. split; [|done]. destruct (Comparator _ _) eqn:HC; [|done].
  eapply Comparator_spec in HC; [|done..]. by apply before_irrefl in HC.
Qed.

(** [insert] of a timer not in the set keeps the order and adds just it. *)
Lemma insert_new a :
  is_Some (h !! a) → a ∉ l →
  ∃ k, fst (insert h a l) = k ∧ StronglySorted (before h) k ∧
    (∀ x, x ∈ k ↔ x = a ∨ x ∈ l) ∧
    (snd (insert h a l) = true ↔ ∀ x, x ∈ l → before h a x).
Proof.
  intros Ha Hna. destruct (lower_bound_split a Ha) as [H1 H2].
  unfold insert, find. set (i := lower_bound h (load h a) l) in *.
  assert (Hgt : ∀ x, x ∈ drop i l → before h a x).
  { intros x Hx. assert (x ∈ l) as Hxl by (eapply subseteq_drop; exact Hx).
    destruct (Hlive x Hxl) as [u Hu]. destruct Ha as [t Ht].
    exists t, u. split_and!; [done..|]. specialize (H2 x Hx).
    destruct (decide (a = x)) as [->|Hne]; [done|].
    assert (¬ (m_next u < m_next t ∨ m_next u = m_next t ∧ x < a)) as Hn.
    { intros Hc. apply H2. by exists u, t. }
    lia. }
  assert (Hfind : (e ← l !! i; if Comparator (load h a) (load h e) then None else Some i) = None).
  { destruct (l !! i) as [e|] eqn:Hi; [|done]. simpl.
    assert (e ∈ drop i l) as Hed.
    { apply list_elem_of_lookup. exists 0%nat. by rewrite lookup_drop, Nat.add_0_r. }
    destruct Ha as [t Ht]. destruct (Hlive e) as [u Hu]; [by eapply list_elem_of_lookup_2|].
    by rewrite (proj2 (Comparator_spec h a e t u Ht Hu) (Hgt e Hed)). }
  rewrite Hfind. simpl. eexists; split; [done|]. split; [|split].
  - destruct (StronglySorted_take_drop _ i l Hs) as (Ht&Hd&Htd).
    apply StronglySorted_app. split; [done|]. split.
    + constructor; [done|]. by apply Forall_forall.
    + intros x y Hx [->|Hy]%elem_of_cons; [by apply H1|by apply Htd].
  - intros x. rewrite elem_of_app, elem_of_cons.
    rewrite <- (take_drop i l) at 3. rewrite elem_of_app. tauto.
  - rewrite Nat.eqb_eq. split.
    + intros Hi x Hx. apply Hgt. by rewrite Hi.
    + intros Hall. destruct (decide (i = 0%nat)) as [|Hi]; [done|exfalso].
      assert (i ≤ length l)%nat as Hle by apply count_while_le.
      destruct l as [|x l'] eqn:El; [simpl in Hle; lia|].
      destruct i as [|i]; [done|]. eapply (before_irrefl h a), before_trans.
      * apply (Hall x). by apply elem_of_cons; left.
      * apply H1. simpl. by apply elem_of_cons; left.
Qed.
End ordered_set.

(** ** The operations on well-formed states *)

Lemma get_timer_ok s a t : m_heap s !! a = Some t → get_timer a s = Ret t s.
Proof. intros Ha. unfold get_timer. by rewrite Ha. Qed.

Record ordered (s : TimerManager) : Prop := mkOrdered {
  ord_live : ∀ a, a ∈ m_timers s → is_Some (m_heap s !! a);
  ord_sorted : StronglySorted (before (m_heap s)) (m_timers s)
}.

Lemma wf_ordered s : wf s → ordered s.
Proof. by intros [? ? _]. Qed.

Lemma ordered_set_timers s l :
  (∀ a, a ∈ l → is_Some (m_heap s !! a)) → StronglySorted (before (m_heap s)) l →
  ordered (set_timers l s).
Proof. by constructor. Qed.

(** Changes to an object outside the set, or that keep its [m_next]. *)
Lemma ordered_store_out s a t :
  ordered s → a ∉ m_timers s → ordered (store a t s).
Proof.
  intros [Hl Hs] Ha. constructor; simpl; [|by apply sorted_frame].
  intros x Hx. rewrite lookup_insert_ne by (intros ->; done). by apply Hl.
Qed.

Lemma ordered_store_same s a t t' :
  ordered s → m_heap s !! a = Some t → m_next t' = m_next t → ordered (store a t' s).
Proof.
  intros [Hl Hs] Ha Hn.
  assert (∀ x u, m_heap s !! x = Some u →
    ∃ u', <[a := t']> (m_heap s) !! x = Some u' ∧ m_next u' = m_next u) as Hsame.
  { intros x u Hu. destruct (decide (a = x)) as [<-|].
    - exists t'. rewrite lookup_insert_eq. naive_solver.
    - exists u. by rewrite lookup_insert_ne. }
  constructor; simpl.
  - intros x Hx. destruct (Hl x Hx) as [u Hu]. destruct (Hsame x u Hu) as (u'&->&_). done.
  - revert Hs. apply StronglySorted_ext. intros x y _ _ (u&v&Hu&Hv&Hlt).
    destruct (Hsame x u Hu) as (u'&?&Hu'), (Hsame y v Hv) as (v'&?&Hv').
    exists u', v'. by rewrite Hu', Hv'.
Qed.

Lemma erase_ok s a :
  ordered s → a ∈ m_timers s →
  ∃ i l, find_timer a s = Ret (Some i) s ∧ erase (Some i) s = Ret () (set_timers l s) ∧
    ordered (set_timers l s) ∧ (∀ x, x ∈ l ↔ x ∈ m_timers s ∧ x ≠ a).
Proof.
  intros [Hl Hs] Ha. destruct (find_elem _ _ Hl Hs a Ha) as (i&Hf&Hi).
  pose proof (set_NoDup _ _ Hs) as Hnd.
  exists i, (delete i (m_timers s)). unfold find_timer, gets, erase, modify. rewrite Hf.
  split_and!; [done..| |].
  - apply ordered_set_timers; [|by apply StronglySorted_delete].
    intros x Hx. apply (elem_of_delete_NoDup _ _ _ _ Hnd Hi) in Hx as [Hx _]. by apply Hl.
  - intros x. by apply elem_of_delete_NoDup.
Qed.

Lemma insert_ok s a :
  ordered s → is_Some (m_heap s !! a) → a ∉ m_timers s →
  ∃ front l, insert_timer a s = Ret front (set_timers l s) ∧
    ordered (set_timers l s) ∧ (∀ x, x ∈ l ↔ x = a ∨ x ∈ m_timers s) ∧
    (front = true ↔ ∀ x, x ∈ m_timers s → before (m_heap s) a x).
Proof.
  intros [Hl Hs] Ha Hna.
  destruct (insert_new _ _ Hl Hs a Ha Hna) as (k&Hk&Hsk&Hin&Hfront).
  exists (snd (insert (m_heap s) a (m_timers s))), k. unfold insert_timer.
  destruct (insert _ _ _) as [k' f]. simpl in *. subst k'. split; [done|].
  split; [|done]. apply ordered_set_timers; [|done].
  intros x [->|Hx]%Hin; [done|by apply Hl].
Qed.

(** [addTimer(val, lock)]: the notification is given exactly when the timer
    comes first and none is outstanding. *)
Definition notify (front : bool) (s : TimerManager) : TimerManager :=
  if front && negb (m_tickled s)
  then set_front (m_front s + 1) (set_tickled true s) else s.

Lemma notify_fields front s :
  m_heap (notify front s) = m_heap s ∧ m_timers (notify front s) = m_timers s ∧
  m_previousTime (notify front s) = m_previousTime s ∧
  m_tickled (notify front s) = front || m_tickled s.
Proof. unfold notify. destruct front, (m_tickled s) eqn:E; simpl; by rewrite ?E. Qed.

Lemma notify_wf front s : wf s → wf (notify front s).
Proof. intros [? ? ?]. unfold notify. destruct (_ && _); by constructor. Qed.

Lemma addTimer_locked_ok s a :
  ordered s → is_Some (m_heap s !! a) → a ∉ m_timers s →
  ∃ front l, addTimer_locked a s = Ret () (notify front (set_timers l s)) ∧
    ordered (set_timers l s) ∧ (∀ x, x ∈ l ↔ x = a ∨ x ∈ m_timers s) ∧
    (front = true ↔ ∀ x, x ∈ m_timers s → before (m_heap s) a x).
Proof.
  intros Ho Ha Hna. destruct (insert_ok s a Ho Ha Hna) as (f&l&Hi&?&?&?).
  exists f, l. split; [|done]. unfold addTimer_locked, notify.
  mstep Hi. msteps. simpl. by destruct f, (m_tickled s).
Qed.

(** Every function-holding timer is still in the set after [a] was put in. *)
Lemma wf_put s a t l :
  wf s → ordered (set_timers l (store a t s)) →
  (∀ x, x ∈ l ↔ x = a ∨ x ∈ m_timers s) → wf (set_timers l (store a t s)).
Proof.
  intros Hwf [Hl Hs] Hin. constructor; [done..|]. simpl. intros x u Hx Hu.
  rewrite Hin. destruct (decide (a = x)) as [->|]; [by left|right].
  rewrite lookup_insert_ne in Hx by done. by eapply (wf_cb s).
Qed.

Lemma new_TimerManager_wf now : wf (new_TimerManager now).
Proof.
  constructor; simpl; [|constructor|].
  - intros a Ha. by apply elem_of_nil in Ha.
  - intros a t Ha. by rewrite lookup_empty in Ha.
Qed.

Lemma addTimer_ok s a ms cb recurring now :
  wf s → m_heap s !! a = None →
  let t := new_Timer ms cb recurring now in
  ∃ front l, addTimer a ms cb recurring now s = Ret a (notify front (set_timers l (store a t s))) ∧
    wf (set_timers l (store a t s)) ∧ (∀ x, x ∈ l ↔ x = a ∨ x ∈ m_timers s) ∧
    (front = true ↔ ∀ x, x ∈ m_timers s → before (<[a := t]> (m_heap s)) a x).
Proof.
  intros Hwf Ha t.
  assert (a ∉ m_timers s) as Hna.
  { intros Hin. destruct (wf_live s Hwf a Hin) as [? H]. congruence. }
  destruct (addTimer_locked_ok (store a t s) a) as (f&l&Hadd&Ho&Hin&Hf);
    [by apply ordered_store_out; [apply wf_ordered|]|by simpl; rewrite lookup_insert_eq|done|].
  exists f, l. split_and!; [|by apply wf_put|done|done].
  unfold addTimer. msteps. by mstep Hadd.
Qed.

Lemma cancel_ok s a t :
  wf s → m_heap s !! a = Some t → m_cb t ≠ None →
  ∃ l, cancel a s = Ret true (set_timers l (store a (set_cb None t) s)) ∧
    wf (set_timers l (store a (set_cb None t) s)) ∧
    (∀ x, x ∈ l ↔ x ∈ m_timers s ∧ x ≠ a).
Proof.
  intros Hwf Ha Hcb. pose proof (wf_cb s Hwf a t Ha Hcb) as Hin.
  destruct (erase_ok (store a (set_cb None t) s) a) as (i&l&Hfi&Her&[Hl Hs]&Hx);
    [by eapply ordered_store_same; [apply wf_ordered| |]|done|].
  exists l. split_and!; [| |done].
  - unfold cancel. mstep (get_timer_ok _ _ _ Ha).
    rewrite bool_decide_true by (by apply not_eq_None_Some).
    msteps. mstep Hfi. by mstep Her.
  - constructor; [done..|]. simpl. intros x u Hu Hcu. rewrite Hx.
    destruct (decide (a = x)) as [->|].
    + rewrite lookup_insert_eq in Hu. by simplify_eq.
    + rewrite lookup_insert_ne in Hu by done. split; [|done]. by eapply (wf_cb s).
Qed.

Lemma cancel_empty s a t :
  m_heap s !! a = Some t → m_cb t = None → cancel a s = Ret false s.
Proof.
  intros Ha Hcb. unfold cancel. mstep (get_timer_ok _ _ _ Ha). by rewrite Hcb.
Qed.

Lemma refresh_empty s a t now :
  m_heap s !! a = Some t → m_cb t = None → refresh a now s = Ret false s.
Proof.
  intros Ha Hcb. unfold refresh. mstep (get_timer_ok _ _ _ Ha).
  by rewrite bool_decide_true.
Qed.

Lemma reset_same s a t ms from_now now :
  m_heap s !! a = Some t → (ms =? m_ms t) && negb from_now = true →
  reset a ms from_now now s = Ret true s.
Proof. intros Ha E. unfold reset. mstep (get_timer_ok _ _ _ Ha). by rewrite E. Qed.

Lemma reset_empty s a t ms from_now now :
  m_heap s !! a = Some t → (ms =? m_ms t) && negb from_now = false → m_cb t = None →
  reset a ms from_now now s = Ret false s.
Proof.
  intros Ha E Hcb. unfold reset. mstep (get_timer_ok _ _ _ Ha).
  by rewrite E, bool_decide_true.
Qed.

(** Taking [a] out, changing its object and putting it back. *)
Lemma rearm_ok s a t t' :
  wf s → m_heap s !! a = Some t → a ∈ m_timers s →
  ∃ i l, find_timer a s = Ret (Some i) s ∧ erase (Some i) s = Ret () (set_timers l s) ∧
    ordered (store a t' (set_timers l s)) ∧ (a ∉ l) ∧
    (∀ x, x ∈ l ↔ x ∈ m_timers s ∧ x ≠ a) ∧
    (∀ k, ordered (set_timers k (store a t' (set_timers l s))) →
       (∀ x, x ∈ k ↔ x = a ∨ x ∈ l) →
       wf (set_timers k (store a t' s)) ∧ (∀ x, x ∈ k ↔ x ∈ m_timers s)).
Proof.
  intros Hwf Ha Hin. destruct (erase_ok s a (wf_ordered s Hwf) Hin) as (i&l&Hf&He&Ho&Hx).
  assert (a ∉ l) as Hna by (intros Hal%Hx; naive_solver).
  exists i, l. split_and!; [done|done|by apply ordered_store_out|done|done|].
  intros k [Hkl Hks] Hk.
  assert (∀ x, x ∈ k ↔ x ∈ m_timers s) as Hk'.
  { intros x. rewrite Hk, Hx. destruct (decide (x = a)) as [->|]; naive_solver. }
  split; [|done]. constructor; [done..|]. simpl. intros x u Hu Hcu. apply Hk'.
  destruct (decide (a = x)) as [->|]; [done|].
  rewrite lookup_insert_ne in Hu by done. by eapply (wf_cb s).
Qed.

Lemma refresh_ok s a t now :
  wf s → m_heap s !! a = Some t → m_cb t ≠ None →
  ∃ l, let s' := set_timers l (store a (set_next (u64 (now + m_ms t)) t) s) in
    refresh a now s = Ret true s' ∧ wf s' ∧ (∀ x, x ∈ l ↔ x ∈ m_timers s).
Proof.
  intros Hwf Ha Hcb. pose proof (wf_cb s Hwf a t Ha Hcb) as Hin.
  destruct (rearm_ok s a t (set_next (u64 (now + m_ms t)) t) Hwf Ha Hin)
    as (i&l&Hf&He&Ho&Hna&_&Hk).
  destruct (insert_ok _ a Ho) as (f&k&Hi&Hok&Hink&_);
    [by simpl; rewrite lookup_insert_eq|done|].
  destruct (Hk k Hok Hink) as [Hwfk Hmem]. exists k. split_and!; [|done|done].
  unfold refresh. mstep (get_timer_ok _ _ _ Ha).
  rewrite bool_decide_false by done. mstep Hf. rewrite bool_decide_false by done.
  mstep He. msteps. by mstep Hi.
Qed.

Lemma reset_ok s a t ms (from_now : bool) now :
  wf s → m_heap s !! a = Some t → m_cb t ≠ None →
  (ms =? m_ms t) && negb from_now = false →
  let next := u64 ((if from_now then now else u64 (m_next t - m_ms t)) + ms) in
  ∃ front l, let s' := set_timers l (store a (set_next next (set_ms ms t)) s) in
    reset a ms from_now now s = Ret true (notify front s') ∧ wf s' ∧
    (∀ x, x ∈ l ↔ x ∈ m_timers s) ∧
    (front = true ↔ ∀ x, x ∈ m_timers s → x ≠ a → before (m_heap s') a x).
Proof.
  intros Hwf Ha Hcb Hne next. pose proof (wf_cb s Hwf a t Ha Hcb) as Hin.
  destruct (rearm_ok s a t (set_next next (set_ms ms t)) Hwf Ha Hin)
    as (i&l&Hf&He&Ho&Hna&Hl&Hk).
  destruct (addTimer_locked_ok _ a Ho) as (f&k&Hi&Hok&Hink&Hfront);
    [by simpl; rewrite lookup_insert_eq|done|].
  destruct (Hk k Hok Hink) as [Hwfk Hmem]. exists f, k. split_and!; [|done|done|].
  - unfold reset. mstep (get_timer_ok _ _ _ Ha). rewrite Hne.
    rewrite bool_decide_false by done. mstep Hf. rewrite bool_decide_false by done.
    mstep He. cbv zeta. msteps. fold next. by mstep Hi.
  - rewrite Hfront. simpl. split; intros H x; [intros ??; apply H, Hl; done|].
    intros [??]%Hl. by apply H.
Qed.

(** ** Expiry *)

Definition rolled_back (s : TimerManager) (now : Z) : bool :=
  (now <? m_previousTime s) && (now <? u64 (m_previousTime s - 3600000)).

(** The timers a call of [listExpiredCb] at [now] takes. *)
Definition due (s : TimerManager) (now : Z) (a : addr) : bool :=
  rolled_back s now ||
  match m_heap s !! a with Some t => m_next t <=? now | None => false end.

Definition cb_of (h : gmap addr timer) (a : addr) : option callback := t ← h !! a; m_cb t.

(** What becomes of an expired timer. *)
Definition fired (now : Z) (t : timer) : timer :=
  if m_recurring t then set_next (u64 (now + m_ms t)) t else set_cb None t.

Definition is_recurring (h : gmap addr timer) (a : addr) : Prop :=
  ∃ t, h !! a = Some t ∧ m_recurring t = true.

Lemma expired_end_split s now a0 :
  ordered s →
  let it := expired_end (m_heap s) (m_timers s) now a0 (rolled_back s now) in
  Forall (λ a, due s now a = true) (take it (m_timers s)) ∧
  Forall (λ a, due s now a = false) (drop it (m_timers s)).
Proof.
  intros [Hl Hs]. unfold expired_end, due. destruct (rolled_back s now); simpl.
  { rewrite firstn_all, drop_all. split; [|constructor]. by apply Forall_forall. }
  set (f e := Comparator (load (m_heap s) e) (Some (a0, new_Timer_at now))).
  change (lower_bound _ _ _) with (count_while f (m_timers s)).
  set (g e := match m_heap s !! e with Some t => m_next t =? now | None => false end).
  set (l := m_timers s) in *. set (h := m_heap s) in *.
  assert (Hfn : ∀ x t, h !! x = Some t →
    (f x = true → m_next t ≤ now) ∧ (f x = false → now ≤ m_next t)).
  { intros x t Hx. unfold f, load. rewrite Hx. simpl.
    destruct (Z.ltb_spec (m_next t) now); [split; [lia|done]|].
    destruct (Z.ltb_spec now (m_next t)); split; lia || done. }
  pose proof (count_while_take f l) as Ht1.
  assert (Forall (λ e, f e = false) (drop (count_while f l) l)) as Hd1.
  { apply (count_while_drop (before h)); [done|].
    intros x y Hx Hy (t&u&Hxt&Hyu&Hlt). unfold f, load. rewrite Hxt, Hyu. simpl.
    destruct (Z.ltb_spec (m_next u) now), (Z.ltb_spec (m_next t) now); try done; try lia.
    destruct (Z.ltb_spec now (m_next u)), (Z.ltb_spec now (m_next t)); try done; try lia. }
  set (i := count_while f l) in *.
  pose proof (count_while_take g (drop i l)) as Ht2.
  destruct (StronglySorted_take_drop _ i l Hs) as (_&Hsd&_).
  assert (Forall (λ e, g e = false) (drop (count_while g (drop i l)) (drop i l))) as Hd2.
  { apply (count_while_drop (before h)); [done|].
    intros x y Hx Hy (t&u&Hxt&Hyu&Hlt). unfold g. fold h. rewrite Hxt, Hyu, !Z.eqb_eq.
    intros Hnow. rewrite Forall_forall in Hd1. destruct (Hfn x t Hxt) as [_ Hge].
    specialize (Hge (Hd1 x Hx)). lia. }
  rewrite Forall_forall in Ht1, Hd1, Ht2, Hd2. split; apply Forall_forall; intros x Hx.
  - assert (x ∈ l) as Hxl by (eapply subseteq_take; exact Hx).
    destruct (Hl x Hxl) as [t Ht]. fold h. rewrite Ht. apply Z.leb_le.
    rewrite <- take_take_drop in Hx. apply elem_of_app in Hx as [Hx|Hx].
    + by apply (Hfn x t Ht), Ht1.
    + specialize (Ht2 x Hx). unfold g in Ht2. fold h in Ht2. rewrite Ht in Ht2. lia.
  - rewrite <- drop_drop in Hx.
    assert (x ∈ drop i l) as Hxd by (eapply subseteq_drop; exact Hx).
    assert (x ∈ l) as Hxl by (eapply subseteq_drop; exact Hxd).
    destruct (Hl x Hxl) as [t Ht]. fold h. rewrite Ht. apply Z.leb_gt.
    destruct (Hfn x t Ht) as [_ Hge]. specialize (Hge (Hd1 x Hxd)).
    specialize (Hd2 x Hx). unfold g in Hd2. fold h in Hd2. rewrite Ht in Hd2. lia.
Qed.

Lemma filter_split {A} (f : A → bool) i (l : list A) :
  Forall (λ a, f a = true) (take i l) → Forall (λ a, f a = false) (drop i l) →
  take i l = List.filter f l.
Proof.
  revert i. induction l as [|x l IH]; intros [|i]; simpl; intros H1 H2; [done..| |].
  - inversion_clear H2 as [|?? Hx Hl]. rewrite Hx, <- (IH 0%nat); [done|done|].
    by rewrite drop_0.
  - inversion_clear H1 as [|?? Hx Hl]. rewrite Hx. f_equal. by apply IH.
Qed.

(** One round of the loop: the timer is armed again or emptied. *)
Lemma fire_one_ok now s a t : ordered s → m_heap s !! a = Some t → a ∉ m_timers s →
  ∃ s1, (if m_recurring t
     then modify (store a (set_next (u64 (now + m_ms t)) t));; _ ← insert_timer a; mret tt
     else modify (store a (set_cb None t))) s = Ret tt s1 ∧ ordered s1 ∧
     (∀ x, x ∈ m_timers s1 ↔ x ∈ m_timers s ∨ x = a ∧ m_recurring t = true) ∧
     m_heap s1 = <[a := fired now t]> (m_heap s) ∧
     m_tickled s1 = m_tickled s ∧ m_front s1 = m_front s ∧
     m_previousTime s1 = m_previousTime s.
Proof.
  intros Ho Ht Hna. unfold fired. destruct (m_recurring t) eqn:Er.
  - set (s0 := store a (set_next (u64 (now + m_ms t)) t) s).
    destruct (insert_ok s0 a) as (f&k&Hi&Hok&Hink&_);
      [by apply ordered_store_out|by simpl; rewrite lookup_insert_eq|done|].
    exists (set_timers k s0). split_and!; try done.
    + rewrite bind_modify. by mstep Hi.
    + intros x. simpl. rewrite Hink. simpl. naive_solver.
  - eexists. split; [done|]. split_and!; try done; [by apply ordered_store_out|].
    intros x. simpl. naive_solver.
Qed.

(** The loop gives the functions in order and re-arms the recurring timers. *)
Lemma fire_loop_ok now l : ∀ s,
  ordered s → NoDup l → (∀ a, a ∈ l → is_Some (m_heap s !! a) ∧ a ∉ m_timers s) →
  ∃ s', fire_loop now l s = Ret (map (cb_of (m_heap s)) l) s' ∧ ordered s' ∧
    (∀ x, x ∈ m_timers s' ↔ x ∈ m_timers s ∨ x ∈ l ∧ is_recurring (m_heap s) x) ∧
    (∀ x, m_heap s' !! x =
       if bool_decide (x ∈ l) then fired now <$> m_heap s !! x else m_heap s !! x) ∧
    m_tickled s' = m_tickled s ∧ m_front s' = m_front s ∧
    m_previousTime s' = m_previousTime s.
Proof.
  induction l as [|a l IH]; intros s Ho Hnd Hl.
  { exists s. split_and!; try done.
    intros x. split; [by left|]. intros [?|[Hx _]]; [done|]. by apply elem_of_nil in Hx. }
  apply NoDup_cons in Hnd as [Hal Hnd].
  destruct (Hl a) as [[t Ht] Hna]; [by apply elem_of_cons; left|].
  destruct (fire_one_ok now s a t Ho Ht Hna) as (s1&Hrun&Ho1&Hin1&Hh1&Ht1&Hf1&Hp1).
  assert (∀ x, x ∈ l → m_heap s1 !! x = m_heap s !! x) as Hsame.
  { intros x Hx. rewrite Hh1, lookup_insert_ne by (intros ->; done). done. }
  destruct (IH s1 Ho1 Hnd) as (s'&Hrun'&Ho'&Hin'&Hh'&Ht'&Hf'&Hp').
  { intros x Hx. rewrite Hsame, Hin1 by done.
    destruct (Hl x) as [? Hxn]; [by apply elem_of_cons; right|]. split; [done|].
    intros [?|[-> _]]; done. }
  exists s'. split_and!; [|done| | |congruence..].
  - simpl. mstep (get_timer_ok _ _ _ Ht). mstep Hrun. mstep Hrun'.
    cbv [mret M_ret]. f_equal. unfold cb_of at 2. rewrite Ht. simpl. f_equal.
    apply map_ext_in. intros x Hx. unfold cb_of. rewrite Hsame; [done|].
    by apply list_elem_of_In.
  - intros x. rewrite Hin', Hin1, elem_of_cons. unfold is_recurring.
    assert (x ∈ l → m_heap s1 !! x = m_heap s !! x) by apply Hsame.
    split.
    + intros [[?|[-> ?]]|[Hx Hr]]; [by left|right; split; [by left|by exists t]|].
      right. split; [by right|]. by rewrite <- Hsame.
    + intros [?|[[->|Hx] (u&Hu&Hr)]]; [by do 2 left|left; right; split; congruence|].
      right. split; [done|]. rewrite Hsame by done. by exists u.
  - intros x. rewrite Hh'. destruct (decide (x = a)) as [->|Hne].
    + rewrite bool_decide_false by done.
      rewrite bool_decide_true by (by apply elem_of_cons; left).
      by rewrite Hh1, lookup_insert_eq, Ht.
    + rewrite Hh1, lookup_insert_ne by done.
      rewrite (bool_decide_ext (x ∈ a :: l) (x ∈ l)); [done|].
      rewrite elem_of_cons. naive_solver.
Qed.

Definition after_expiry (now : Z) (s s' : TimerManager) : Prop :=
  (∀ a t, m_heap s !! a = Some t →
     m_heap s' !! a = Some (if bool_decide (a ∈ m_timers s) && due s now a
                            then fired now t else t) ∧
     (a ∈ m_timers s' ↔ a ∈ m_timers s ∧ (due s now a = true → m_recurring t = true))) ∧
  (∀ a, m_heap s !! a = None → m_heap s' !! a = None) ∧
  m_tickled s' = m_tickled s ∧ m_front s' = m_front s.

Lemma due_none_front s now a l :
  ordered s → m_timers s = a :: l → due s now a = false →
  rolled_back s now = false → Forall (λ x, due s now x = false) (m_timers s).
Proof.
  intros [Hl Hs] Ht Hd Hr. apply Forall_forall. intros x Hx.
  unfold due in *. rewrite Hr in *. simpl in *.
  destruct (Hl a) as [t Ha]; [rewrite Ht; by apply elem_of_cons; left|].
  destruct (Hl x Hx) as [u Hu]. rewrite Ha in Hd. rewrite Hu. apply Z.leb_gt in Hd. apply Z.leb_gt.
  rewrite Ht in Hx, Hs. apply elem_of_cons in Hx as [->|Hx]; [by simplify_eq|].
  inversion_clear Hs as [|?? _ HF]. rewrite Forall_forall in HF.
  destruct (HF x Hx) as (?&?&?&?&?). simplify_eq. lia.
Qed.

Lemma filter_none {A} (f : A → bool) l :
  Forall (λ x, f x = false) l → List.filter f l = [].
Proof. induction 1 as [|x l Hx _ IH]; simpl; [done|]. by rewrite Hx. Qed.

(** The two parts of a list split at the first failure. *)
Lemma split_mem (f : addr → bool) i l :
  Forall (λ a, f a = true) (take i l) → Forall (λ a, f a = false) (drop i l) →
  (∀ x, x ∈ take i l ↔ x ∈ l ∧ f x = true) ∧ (∀ x, x ∈ drop i l ↔ x ∈ l ∧ f x = false).
Proof.
  rewrite !Forall_forall. intros H1 H2.
  assert (∀ x, x ∈ l ↔ x ∈ take i l ∨ x ∈ drop i l) as Hl.
  { intros x. rewrite <- (take_drop i l) at 1. by rewrite elem_of_app. }
  split; intros x; rewrite Hl; split.
  - intros Hx. split; [by left|by apply H1].
  - intros [[Hx|Hx] Hf]; [done|]. by rewrite (H2 x Hx) in Hf.
  - intros Hx. split; [by right|by apply H2].
  - intros [[Hx|Hx] Hf]; [|done]. by rewrite (H1 x Hx) in Hf.
Qed.

Lemma is_recurring_lookup h a t : h !! a = Some t → is_recurring h a ↔ m_recurring t = true.
Proof. intros Ha. split; [intros (u&?&?); congruence|by exists t]. Qed.

Lemma bool_decide_iff P Q `{!Decision P, !Decision Q} :
  (P ↔ Q) → bool_decide P = bool_decide Q.
Proof. apply bool_decide_ext. Qed.

Lemma bool_decide_and_true P `{!Decision P} b :
  bool_decide (P ∧ b = true) = bool_decide P && b.
Proof. rewrite bool_decide_and. by destruct b, (bool_decide P). Qed.

(** The second half of [listExpiredCb]: the set is split at the iterator and
    the first part fires. *)
Lemma fire_split s s1 now it :
  wf s → m_heap s1 = m_heap s → m_tickled s1 = m_tickled s → m_front s1 = m_front s →
  Forall (λ a, due s now a = true) (take it (m_timers s)) →
  Forall (λ a, due s now a = false) (drop it (m_timers s)) →
  ∃ s', fire_loop now (take it (m_timers s)) (set_timers (drop it (m_timers s)) s1) =
          Ret (map (cb_of (m_heap s)) (take it (m_timers s))) s' ∧
    wf s' ∧ after_expiry now s s'.
Proof.
  intros Hwf Hh1 Ht1 Hf1 Htake Hdrop.
  destruct (split_mem _ _ _ Htake Hdrop) as [Hmt Hmd].
  destruct (wf_ordered s Hwf) as [Hl Hs].
  destruct (StronglySorted_take_drop _ it _ Hs) as (_&Hsd&_).
  pose proof (set_NoDup _ _ Hs) as Hnd. rewrite <- (take_drop it) in Hnd.
  apply NoDup_app in Hnd as (Hndt&Hdisj&_).
  destruct (fire_loop_ok now (take it (m_timers s)) (set_timers (drop it (m_timers s)) s1))
    as (s'&Hrun&Ho'&Hin&Hh&Htk&Hf&_).
  - constructor; simpl; rewrite Hh1; [|done]. intros x [Hx _]%Hmd. by apply Hl.
  - done.
  - intros x Hx. split; [|by apply Hdisj]. simpl. rewrite Hh1. apply Hl. by apply Hmt.
  - simpl in Hrun, Hh, Hin, Htk, Hf. rewrite Hh1 in Hrun, Hh, Hin.
    assert (∀ b u, m_heap s !! b = Some u →
      m_heap s' !! b = Some (if bool_decide (b ∈ m_timers s) && due s now b
                             then fired now u else u) ∧
      (b ∈ m_timers s' ↔ b ∈ m_timers s ∧ (due s now b = true → m_recurring u = true))) as Hall.
    { intros b u Hb. rewrite Hh, Hin, Hmd, Hb, (is_recurring_lookup _ _ _ Hb).
      rewrite (bool_decide_iff _ _ (Hmt b)), bool_decide_and_true, Hmt. simpl.
      destruct (due s now b), (bool_decide (b ∈ m_timers s)); simpl;
        (split; [done|intuition congruence]). }
    exists s'. split; [done|]. split; [|split_and!; [done| |congruence..]].
    + destruct Ho' as [Hl' Hs']. constructor; [done..|]. intros b u' Hb' Hcb.
      destruct (m_heap s !! b) as [u|] eqn:Hb; [|by rewrite Hh, Hb in Hb'; destruct (bool_decide _)].
      destruct (Hall b u Hb) as [Hb'' Hmem]. rewrite Hb' in Hb''. injection Hb'' as ->.
      apply Hmem. unfold fired in Hcb. pose proof (wf_cb s Hwf b u Hb).
      destruct (bool_decide_reflect (b ∈ m_timers s)) as [Hm|Hm]; simpl in Hcb; [|tauto].
      split; [done|]. intros Hd. rewrite Hd in Hcb. by destruct (m_recurring u).
    + intros b Hb. rewrite Hh, Hb. by destruct (bool_decide _).
Qed.

Lemma listExpired_ok s now a0 :
  wf s →
  ∃ s', listExpiredCb now a0 s =
          Ret (map (cb_of (m_heap s)) (List.filter (due s now) (m_timers s))) s' ∧
    wf s' ∧ after_expiry now s s'.
Proof.
  intros Hwf. pose proof (wf_ordered s Hwf) as Ho. unfold listExpiredCb. msteps.
  destruct (m_timers s) as [|a l] eqn:Ht.
  { exists s. split; [done|]. split; [done|]. split_and!; [|done..].
    intros a t Ha. rewrite Ht, bool_decide_false by apply not_elem_of_nil. simpl.
    split; [done|]. split; [intros H; by apply elem_of_nil in H|naive_solver]. }
  unfold deleteClockRollover. cbv zeta. rewrite !bind_assoc. msteps. rewrite bind_assoc. msteps.
  change (60 * 60 * 1000) with 3600000. fold (rolled_back s now).
  set (s1 := set_previousTime now s).
  destruct (wf_live s Hwf a) as [t Hat]; [rewrite Ht; by apply elem_of_cons; left|].
  mstep (get_timer_ok s1 a t Hat).
  destruct (negb (rolled_back s now) && (now <? m_next t)) eqn:Eq.
  { apply andb_true_iff in Eq as [Er Elt]. apply negb_true_iff in Er. apply Z.ltb_lt in Elt.
    assert (Forall (λ x, due s now x = false) (m_timers s)) as HF.
    { eapply due_none_front; [done|done| |done]. unfold due. rewrite Er, Hat. simpl. lia. }
    rewrite <- Ht, (filter_none _ _ HF). exists s1. split; [done|].
    split; [by destruct Hwf; constructor|]. split_and!; [|done..].
    intros b u Hb. simpl. rewrite Forall_forall in HF. rewrite Hb.
    destruct (bool_decide_reflect (b ∈ m_timers s)) as [Hbin|Hbin]; simpl.
    - rewrite (HF b Hbin). split; [done|]. naive_solver.
    - split; [done|]. naive_solver. }
  clear Eq. msteps. simpl m_heap. rewrite <- Ht.
  set (it := expired_end _ _ _ _ _).
  destruct (expired_end_split s now a0 Ho) as [Htake Hdrop]. fold it in Htake, Hdrop.
  rewrite <- (filter_split _ _ _ Htake Hdrop).
  by apply (fire_split s s1).
Qed.

Lemma getNextTimer_ok s now :
  wf s →
  getNextTimer now s = Ret
    (match m_timers s with
     | [] => 2 ^ 64 - 1
     | a :: _ => match m_heap s !! a with
                 | Some t => if m_next t <=? now then 0 else u64 (m_next t - now)
                 | None => 0
                 end
     end) (set_tickled false s).
Proof.
  intros Hwf. unfold getNextTimer. msteps.
  change (m_timers (set_tickled false s)) with (m_timers s).
  destruct (m_timers s) as [|a l] eqn:Ht; [done|].
  destruct (wf_live s Hwf a) as [t Hat]; [rewrite Ht; by apply elem_of_cons; left|].
  mstep (get_timer_ok (set_tickled false s) a t Hat). rewrite Hat. by destruct (m_next t <=? now).
Qed.

(** ** Runs *)

(** One critical section of [m_mutex]. *)
Inductive op :=
  | Add (a : addr) (ms : Z) (cb : option callback) (recurring : bool) (now : Z)
  | Cancel (a : addr)
  | Refresh (a : addr) (now : Z)
  | Reset (a : addr) (ms : Z) (from_now : bool) (now : Z)
  | Next (now : Z)
  | Expire (now : Z) (a0 : addr)
  | Has.

Definition exec (o : op) : M TimerManager () :=
  match o with
  | Add a ms cb recurring now => _ ← addTimer a ms cb recurring now; mret tt
  | Cancel a => _ ← cancel a; mret tt
  | Refresh a now => _ ← refresh a now; mret tt
  | Reset a ms from_now now => _ ← reset a ms from_now now; mret tt
  | Next now => _ ← getNextTimer now; mret tt
  | Expire now a0 => _ ← listExpiredCb now a0; mret tt
  | Has => _ ← hasTimer; mret tt
  end.

(** [new] returns an address not in use; the other operations are called on
    timers [addTimer] returned. *)
Definition allowed (s : TimerManager) (o : op) : Prop :=
  match o with
  | Add a _ _ _ _ => m_heap s !! a = None
  | Cancel a | Refresh a _ | Reset a _ _ _ => is_Some (m_heap s !! a)
  | Next _ | Expire _ _ | Has => True
  end.

Inductive step (s : TimerManager) : TimerManager → Prop :=
  | step_op o s' : allowed s o → exec o s = Ret tt s' → step s s'.

Inductive reachable : TimerManager → Prop :=
  | reach_start now : reachable (new_TimerManager now)
  | reach_step s s' : reachable s → step s s' → reachable s'.

(** What every operation does: [Some] rearmed timer with its new object, or
    the effect of cancel or expiry. *)
Lemma exec_ok s o :
  wf s → allowed s o → ∃ s', exec o s = Ret tt s' ∧ wf s'.
Proof.
  intros Hwf Hal. destruct o as [a ms cb r now|a|a now|a ms fn now|now|now a0|]; simpl in *.
  - destruct (addTimer_ok s a ms cb r now Hwf Hal) as (f&l&Hrun&?&_).
    mstep Hrun. eexists. split; [done|]. by apply notify_wf.
  - destruct Hal as [t Ht]. destruct (m_cb t) eqn:Hcb.
    + destruct (cancel_ok s a t Hwf Ht) as (l&Hrun&?&_); [congruence|].
      mstep Hrun. by eexists.
    + mstep (cancel_empty s a t Ht Hcb). by eexists.
  - destruct Hal as [t Ht]. destruct (m_cb t) eqn:Hcb.
    + destruct (refresh_ok s a t now Hwf Ht) as (l&Hrun&?&_); [congruence|].
      mstep Hrun. by eexists.
    + mstep (refresh_empty s a t now Ht Hcb). by eexists.
  - destruct Hal as [t Ht]. destruct ((ms =? m_ms t) && negb fn) eqn:E.
    + mstep (reset_same s a t ms fn now Ht E). by eexists.
    + destruct (m_cb t) eqn:Hcb.
      * destruct (reset_ok s a t ms fn now Hwf Ht) as (f&l&Hrun&?&_); [congruence|done|].
        mstep Hrun. eexists. split; [done|]. by apply notify_wf.
      * mstep (reset_empty s a t ms fn now Ht E Hcb). by eexists.
  - mstep (getNextTimer_ok s now Hwf). eexists. split; [done|]. by destruct Hwf; constructor.
  - destruct (listExpired_ok s now a0 Hwf) as (s'&Hrun&?&_). mstep Hrun. by eexists.
  - by eexists.
Qed.

Lemma reachable_wf s : reachable s → wf s.
Proof.
  induction 1 as [now|s s' _ IH [o ? Hal Hex]]; [apply new_TimerManager_wf|].
  destruct (exec_ok s o IH Hal) as (s''&Hex'&?). congruence.
Qed.

(** A cancelled timer, or a one-shot timer that fired: out of the set, without
    function, for good. *)
Definition dead (a : addr) (s : TimerManager) : Prop :=
  (a ∉ m_timers s) ∧ ∃ t, m_heap s !! a = Some t ∧ m_cb t = None.

Lemma dead_store_other a b t l s :
  a ≠ b → dead a s → (∀ x, x ∈ l → x = b ∨ x ∈ m_timers s) →
  dead a (set_timers l (store b t s)).
Proof.
  intros Hne [Hna (u&Hu&Hcb)] Hl. split; simpl.
  - intros [?|?]%Hl; done.
  - exists u. by rewrite lookup_insert_ne.
Qed.

Lemma dead_notify a f s : dead a s → dead a (notify f s).
Proof. unfold notify. by destruct (_ && _). Qed.

Lemma dead_exec a o s s' :
  wf s → dead a s → allowed s o → exec o s = Ret tt s' → dead a s'.
Proof.
  intros Hwf Hd Hal. assert (Hd' := Hd). destruct Hd' as [Hna (u&Hu&Hcbu)].
  destruct o as [b ms cb r now|b|b now|b ms fn now|now|now a0|]; simpl in *.
  - destruct (addTimer_ok s b ms cb r now Hwf Hal) as (f&l&Hrun&_&Hl&_).
    mstep Hrun. intros [= <-]. apply dead_notify, dead_store_other; [congruence|done|].
    intros x. by rewrite Hl.
  - destruct Hal as [t Ht]. destruct (m_cb t) eqn:Hcb.
    + destruct (cancel_ok s b t Hwf Ht) as (l&Hrun&_&Hl); [congruence|].
      mstep Hrun. intros [= <-]. apply dead_store_other; [congruence|done|].
      intros x [? _]%Hl. by right.
    + mstep (cancel_empty s b t Ht Hcb). by intros [= <-].
  - destruct Hal as [t Ht]. destruct (m_cb t) eqn:Hcb.
    + destruct (refresh_ok s b t now Hwf Ht) as (l&Hrun&_&Hl); [congruence|].
      mstep Hrun. intros [= <-]. apply dead_store_other; [congruence|done|].
      intros x ?%Hl. by right.
    + mstep (refresh_empty s b t now Ht Hcb). by intros [= <-].
  - destruct Hal as [t Ht]. destruct ((ms =? m_ms t) && negb fn) eqn:E.
    + mstep (reset_same s b t ms fn now Ht E). by intros [= <-].
    + destruct (m_cb t) eqn:Hcb.
      * destruct (reset_ok s b t ms fn now Hwf Ht) as (f&l&Hrun&_&Hl&_); [congruence|done|].
        mstep Hrun. intros [= <-]. apply dead_notify, dead_store_other; [congruence|done|].
        intros x ?%Hl. by right.
      * mstep (reset_empty s b t ms fn now Ht E Hcb). by intros [= <-].
  - mstep (getNextTimer_ok s now Hwf). by intros [= <-].
  - destruct (listExpired_ok s now a0 Hwf) as (s''&Hrun&_&Hex&_). mstep Hrun. intros [= <-].
    destruct (Hex a u Hu) as [Hh Hin]. split; [tauto|].
    exists u. by rewrite Hh, bool_decide_false.
  - by intros [= <-].
Qed.

Lemma dead_steps a s s' : wf s → dead a s → rtc step s s' → wf s' ∧ dead a s'.
Proof.
  intros Hwf Hd Hr. induction Hr as [s|s s1 s2 [o s1' Hal Hex] _ IH]; [done|].
  destruct (exec_ok s o Hwf Hal) as (s''&Hex'&Hwf'). assert (s'' = s1') as -> by congruence.
  apply IH; [done|]. by apply (dead_exec a o s).
Qed.

(** ** Wake-ups of a waiting thread *)

(** The clock never goes back: [c] is the latest time read so far.  A time
    read before the lock was taken may be older, one read under it may not. *)
Definition timed (c : Z) (s : TimerManager) (o : op) : Prop :=
  allowed s o ∧
  match o with
  | Add _ ms _ _ now => 0 ≤ ms < 2 ^ 63 ∧ 0 ≤ now < 2 ^ 63
  | Refresh _ now => c ≤ now < 2 ^ 63
  | Reset _ ms _ now => 0 ≤ ms < 2 ^ 63 ∧ 0 ≤ now < 2 ^ 63
  | Expire now _ => 0 ≤ now < 2 ^ 63 ∧ rolled_back s now = false
  | Next now => 0 ≤ now < 2 ^ 63
  | Cancel _ | Has => True
  end.

Definition read_clock (o : op) : Z :=
  match o with
  | Add _ _ _ _ now | Refresh _ now | Reset _ _ _ now | Next now | Expire now _ => now
  | Cancel _ | Has => 0
  end.

Inductive timed_run (c : Z) (s : TimerManager) : Z → TimerManager → Prop :=
  | timed_nil : timed_run c s c s
  | timed_cons o s1 c2 s2 :
      timed c s o → exec o s = Ret tt s1 →
      timed_run (Z.max c (read_clock o)) s1 c2 s2 → timed_run c s c2 s2.

(** Every timer was started at a time already read. *)
Definition started (c : Z) (s : TimerManager) : Prop :=
  0 ≤ c < 2 ^ 63 ∧
  ∀ a t, m_heap s !! a = Some t → 0 ≤ m_ms t < 2 ^ 63 ∧ m_ms t ≤ m_next t ≤ c + m_ms t.

(** Since [f0] notifications: another one was given, or none is outstanding
    and no timer is earlier than [D]. *)
Definition no_missed (D f0 : Z) (s : TimerManager) : Prop :=
  f0 < m_front s ∨
  m_front s = f0 ∧ m_tickled s = false ∧
    (∀ a t, a ∈ m_timers s → m_heap s !! a = Some t → D ≤ m_next t).

Lemma u64_id z : 0 ≤ z < 2 ^ 64 → u64 z = z.
Proof. apply (wrap_id 64). Qed.

Lemma started_store c c' s a t l :
  started c s → c ≤ c' < 2 ^ 63 → 0 ≤ m_ms t < 2 ^ 63 → m_ms t ≤ m_next t ≤ c' + m_ms t →
  started c' (set_timers l (store a t s)).
Proof.
  intros [Hc Hst] Hc' Hms Hn. split; [lia|]. simpl. intros b u.
  destruct (decide (a = b)) as [->|].
  - rewrite lookup_insert_eq. by intros [= <-].
  - rewrite lookup_insert_ne by done. intros Hu. specialize (Hst b u Hu). lia.
Qed.

Lemma started_later c c' s : started c s → c ≤ c' < 2 ^ 63 → started c' s.
Proof. intros [Hc Hst] ?. split; [lia|]. intros a t Ht. specialize (Hst a t Ht). lia. Qed.

Lemma started_notify c f s : started c s → started c (notify f s).
Proof. unfold notify. intros [? ?]. destruct (_ && _); by split. Qed.

(** Putting in a timer that is announced when it is the first. *)
Lemma no_missed_put D f0 s a t l front :
  no_missed D f0 s →
  (∀ x, x ∈ m_timers s → is_Some (m_heap s !! x)) →
  (∀ x, x ∈ l → x = a ∨ x ∈ m_timers s) →
  (front = true ↔ ∀ x, x ∈ m_timers s → x ≠ a → before (<[a := t]> (m_heap s)) a x) →
  no_missed D f0 (notify front (set_timers l (store a t s))).
Proof.
  intros Hnm Hlive Hl Hfront. unfold notify, no_missed in *. simpl.
  destruct Hnm as [Hlt|(Heq&Htk&HD)].
  { left. destruct (front && negb (m_tickled s)); simpl; lia. }
  rewrite Htk. destruct front; simpl; [left; lia|right].
  split_and!; [done..|]. intros x u Hx.
  assert (D ≤ m_next t) as Ht.
  { destruct (decide (D ≤ m_next t)) as [|Hlt]; [done|]. exfalso.
    enough (false = true) by done. apply Hfront. intros y Hy Hne.
    destruct (Hlive y Hy) as [v Hv]. exists t, v.
    rewrite lookup_insert_eq, lookup_insert_ne by done. split_and!; [done..|].
    specialize (HD y v Hy Hv). lia. }
  destruct (decide (a = x)) as [->|].
  - rewrite lookup_insert_eq. by intros [= <-].
  - rewrite lookup_insert_ne by done. apply HD. destruct (Hl x Hx); [congruence|done].
Qed.

(** A change that keeps the flags and moves no deadline before [D]. *)
Lemma no_missed_later D f0 s s' :
  no_missed D f0 s → m_front s' = m_front s → m_tickled s' = m_tickled s →
  (∀ a t', a ∈ m_timers s' → m_heap s' !! a = Some t' →
     a ∈ m_timers s ∧ ∃ t, m_heap s !! a = Some t ∧ (D ≤ m_next t → D ≤ m_next t')) →
  no_missed D f0 s'.
Proof.
  unfold no_missed. intros [Hn|(Hf&Ht&HD)] -> -> H; [by left|right].
  split_and!; [done..|]. intros a t' Ha Ht'. destruct (H a t' Ha Ht') as (?&t&?&?). eauto.
Qed.

Lemma addTimer_timed D f0 c s a ms cb r now :
  wf s → started c s → no_missed D f0 s → timed c s (Add a ms cb r now) →
  ∃ s', exec (Add a ms cb r now) s = Ret tt s' ∧ started (Z.max c now) s' ∧ no_missed D f0 s'.
Proof.
  intros Hwf Hst Hnm (Hal&Hms&Hnow). simpl in Hal.
  destruct (addTimer_ok s a ms cb r now Hwf Hal) as (f&l&Hrun&_&Hl&Hf).
  eexists. simpl exec. mstep Hrun. split; [done|]. split.
  - apply started_notify. apply (started_store c); [done| |done|]; destruct Hst; simpl;
      rewrite ?u64_id by lia; lia.
  - apply no_missed_put; [done|apply wf_live, Hwf|intros x; by rewrite Hl|].
    rewrite Hf. split; intros H x Hx; [intros _; by apply H|].
    apply H; [done|]. intros ->. destruct (wf_live s Hwf a Hx). congruence.
Qed.

Lemma cancel_timed D f0 c s a :
  wf s → started c s → no_missed D f0 s → timed c s (Cancel a) →
  ∃ s', exec (Cancel a) s = Ret tt s' ∧ started c s' ∧ no_missed D f0 s'.
Proof.
  intros Hwf Hst Hnm ([t Ht]&_). simpl exec. destruct (m_cb t) eqn:Hcb.
  - destruct (cancel_ok s a t Hwf Ht) as (l&Hrun&_&Hl); [congruence|].
    mstep Hrun. eexists; split; [done|]. destruct (proj2 Hst a t Ht). split.
    + apply (started_store c); [done|destruct Hst; lia|done|done].
    + apply (no_missed_later D f0 s); [done..|]. simpl. intros b u [Hb Hne]%Hl.
      rewrite lookup_insert_ne by done. intros Hu. split; [done|]. by exists u.
  - mstep (cancel_empty s a t Ht Hcb). by eexists.
Qed.

Lemma refresh_timed D f0 c s a now :
  wf s → started c s → no_missed D f0 s → timed c s (Refresh a now) →
  ∃ s', exec (Refresh a now) s = Ret tt s' ∧ started (Z.max c now) s' ∧ no_missed D f0 s'.
Proof.
  intros Hwf Hst Hnm ([t Ht]&Hnow). simpl exec. destruct (m_cb t) eqn:Hcb.
  - destruct (refresh_ok s a t now Hwf Ht) as (l&Hrun&_&Hl); [congruence|].
    mstep Hrun. eexists; split; [done|]. destruct (proj2 Hst a t Ht). destruct Hst as [Hc Hst].
    split.
    + apply (started_store c); [done|lia|done|]. simpl. rewrite u64_id by lia. lia.
    + apply (no_missed_later D f0 s); [done..|]. simpl. intros b u Hb%Hl.
      destruct (decide (a = b)) as [<-|].
      * rewrite lookup_insert_eq. intros [= <-]. split; [done|]. exists t. split; [done|].
        simpl. rewrite u64_id by lia. lia.
      * rewrite lookup_insert_ne by done. intros Hu. split; [done|]. by exists u.
  - mstep (refresh_empty s a t now Ht Hcb). eexists; split; [done|]. split; [|done].
    apply (started_later c); [done|lia].
Qed.

Lemma reset_timed D f0 c s a ms fn now :
  wf s → started c s → no_missed D f0 s → timed c s (Reset a ms fn now) →
  ∃ s', exec (Reset a ms fn now) s = Ret tt s' ∧ started (Z.max c now) s' ∧ no_missed D f0 s'.
Proof.
  intros Hwf Hst Hnm ([t Ht]&Hms&Hnow). simpl exec.
  assert (started (Z.max c now) s) as Hst'.
  { apply (started_later c); [done|]. destruct Hst; lia. }
  destruct ((ms =? m_ms t) && negb fn) eqn:E.
  { mstep (reset_same s a t ms fn now Ht E). by eexists. }
  destruct (m_cb t) eqn:Hcb; [|mstep (reset_empty s a t ms fn now Ht E Hcb); by eexists].
  destruct (reset_ok s a t ms fn now Hwf Ht) as (f&l&Hrun&_&Hl&Hf); [congruence|done|].
  mstep Hrun. eexists; split; [done|]. destruct (proj2 Hst a t Ht). destruct Hst as [Hc _].
  assert (0 ≤ (if fn then now else u64 (m_next t - m_ms t)) ≤ Z.max c now) as Hs0.
  { destruct fn; [lia|]. rewrite u64_id by lia. lia. }
  split.
  - apply started_notify, (started_store (Z.max c now)); [done|lia|done|]. simpl.
    rewrite (u64_id (_ + ms)) by lia. lia.
  - apply no_missed_put; [done|apply wf_live, Hwf|intros x ?%Hl; by right|done].
Qed.

Lemma expire_timed D f0 c s now a0 :
  wf s → started c s → no_missed D f0 s → timed c s (Expire now a0) →
  ∃ s', exec (Expire now a0) s = Ret tt s' ∧ started (Z.max c now) s' ∧ no_missed D f0 s'.
Proof.
  intros Hwf Hst Hnm (_&Hnow&Hroll). simpl exec.
  destruct (listExpired_ok s now a0 Hwf) as (s'&Hrun&_&Hex&Hno&Htk&Hf). mstep Hrun.
  exists s'. split; [done|]. destruct Hst as [Hc Hst]. split.
  - split; [lia|]. intros a u Hu. destruct (m_heap s !! a) as [t|] eqn:Ht; [|by rewrite Hno in Hu].
    destruct (Hex a t Ht) as [Hh _]. rewrite Hu in Hh. injection Hh as ->.
    specialize (Hst a t Ht). destruct (_ && _); [|lia]. unfold fired.
    destruct (m_recurring t); simpl; rewrite ?u64_id by lia; lia.
  - apply (no_missed_later D f0 s); [done..|]. intros a u Ha Hu.
    destruct (m_heap s !! a) as [t|] eqn:Ht; [|by rewrite Hno in Hu].
    destruct (Hex a t Ht) as [Hh Hin]. rewrite Hu in Hh. injection Hh as ->.
    destruct (proj1 Hin Ha) as [Ha' Hrec]. split; [done|]. exists t. split; [done|].
    specialize (Hst a t Ht). rewrite bool_decide_true by done. simpl.
    destruct (due s now a) eqn:Hd; [|done]. unfold fired. rewrite Hrec by done. simpl.
    unfold due in Hd. rewrite Hroll, Ht in Hd. simpl in Hd. apply Z.leb_le in Hd.
    rewrite u64_id by lia. lia.
Qed.

Lemma exec_timed D f0 c s o s' :
  wf s → started c s → no_missed D f0 s → timed c s o → exec o s = Ret tt s' →
  wf s' ∧ started (Z.max c (read_clock o)) s' ∧ no_missed D f0 s'.
Proof.
  intros Hwf Hst Hnm Ht Hex.
  destruct (exec_ok s o Hwf (proj1 Ht)) as (s0&Hex0&Hwf0).
  assert (s0 = s') as -> by congruence. split; [done|].
  assert (Z.max c 0 = c) as Hmax by (destruct Hst; lia).
  destruct o as [a ms cb r now|a|a now|a ms fn now|now|now a0|]; simpl read_clock.
  - destruct (addTimer_timed D f0 c s a ms cb r now) as (s1&?&?&?); [done..|].
    by assert (s1 = s') as -> by congruence.
  - rewrite Hmax. destruct (cancel_timed D f0 c s a) as (s1&?&?&?); [done..|].
    by assert (s1 = s') as -> by congruence.
  - destruct (refresh_timed D f0 c s a now) as (s1&?&?&?); [done..|].
    by assert (s1 = s') as -> by congruence.
  - destruct (reset_timed D f0 c s a ms fn now) as (s1&?&?&?); [done..|].
    by assert (s1 = s') as -> by congruence.
  - simpl in Hex. rewrite (bind_ret _ _ _ _ _ (getNextTimer_ok s now Hwf)) in Hex.
    injection Hex as <-. destruct Ht as [_ Hnow]. split.
    + destruct Hst as [Hc Hst]. split; [lia|]. intros a t Ha. specialize (Hst a t Ha). lia.
    + destruct Hnm as [?|(?&?&?)]; [by left|right]. done.
  - destruct (expire_timed D f0 c s now a0) as (s1&?&?&?); [done..|].
    by assert (s1 = s') as -> by congruence.
  - rewrite Hmax. injection Hex as <-. done.
Qed.

Lemma timed_run_ok D f0 c s c' s' :
  wf s → started c s → no_missed D f0 s → timed_run c s c' s' →
  wf s' ∧ started c' s' ∧ no_missed D f0 s'.
Proof.
  intros Hwf Hst Hnm Hr. induction Hr as [|c s o s1 c2 s2 Ht Hex _ IH]; [done|].
  destruct (exec_timed D f0 c s o s1) as (?&?&?); [done..|]. by apply IH.
Qed.

Lemma new_TimerManager_started now : 0 ≤ now < 2 ^ 63 → started now (new_TimerManager now).
Proof. intros. split; [done|]. intros a t Ha. simpl in Ha. by rewrite lookup_empty in Ha. Qed.

(** ** Properties *)

(** C4. Whatever sequence of additions, cancellations, refreshes, resets,
    waits and expiries threads perform on a TimerManager, its set stays
    ordered by deadline, holds every timer that has a function, and the next
    operation returns: in particular [cancel] never erases [end()]. *)
Theorem timer_operations_safe (s : TimerManager) (H : reachable s) :
  wf s ∧ ∀ o, allowed s o → ∃ s', exec o s = Ret tt s' ∧ wf s'.
Proof.
  split; [by apply reachable_wf|]. intros o. apply exec_ok. by apply reachable_wf.
Qed.

(** C13. [listExpiredCb] gives the functions of exactly the timers whose
    deadline has come (all of them when the clock went back by more than an
    hour), in the order of their deadlines; it re-arms the recurring ones at
    [now + m_ms], empties the others, and leaves every other timer as it was. *)
Theorem listExpiredCb_spec (s : TimerManager) (now : Z) (a0 : addr) (H : reachable s) :
  ∃ s', listExpiredCb now a0 s =
          Ret (map (cb_of (m_heap s)) (List.filter (due s now) (m_timers s))) s' ∧
    StronglySorted (before (m_heap s)) (m_timers s) ∧ after_expiry now s s'.
Proof.
  pose proof (reachable_wf s H) as Hwf.
  destruct (listExpired_ok s now a0 Hwf) as (s'&?&?&?).
  exists s'. split; [done|]. split; [apply (wf_sorted s Hwf)|done].
Qed.

(** [getNextTimer] waits for the right time: after it, a call of
    [listExpiredCb] at any later time [now'] gives some function exactly when
    the wait it returned is over.  With no timer the wait is [~0ull]. *)
Theorem getNextTimer_is_first_expiry (s : TimerManager) (c now now' : Z) (a0 : addr)
    (Hwf : wf s) (Hc : started c s) (Hnow : 0 ≤ now ≤ now')
    (Hroll : rolled_back s now' = false) :
  ∃ w s1, getNextTimer now s = Ret w s1 ∧
    (m_timers s = [] → w = 2 ^ 64 - 1) ∧
    ∃ cbs s2, listExpiredCb now' a0 s1 = Ret cbs s2 ∧
      (m_timers s ≠ [] → cbs ≠ [] ↔ now + w ≤ now').
Proof.
  eexists _, (set_tickled false s). split; [by apply getNextTimer_ok|].
  split; [by intros ->|]. set (s1 := set_tickled false s).
  assert (wf s1) as Hwf1 by (by destruct Hwf).
  destruct (listExpired_ok s1 now' a0 Hwf1) as (s2&Hrun&_&_).
  eexists _, s2. split; [exact Hrun|].
  destruct (m_timers s) as [|a l] eqn:Hl; [done|intros _].
  destruct (wf_live s Hwf a) as [t Ht]; [rewrite Hl; by apply elem_of_cons; left|]. rewrite Ht.
  destruct (proj2 Hc a t Ht) as [Hms Hn].
  assert (now + (if m_next t <=? now then 0 else u64 (m_next t - now)) ≤ now' ↔ m_next t ≤ now')
    as ->.
  { destruct (Z.leb_spec (m_next t) now); [lia|]. destruct Hc. rewrite u64_id by lia. lia. }
  destruct (due s1 now' a) eqn:Hd.
  - subst s1. simpl. rewrite Hl. simpl. rewrite Hd. split; [|done]. intros _.
    unfold due in Hd. simpl in Hd. rewrite Ht in Hd.
    change (rolled_back _ now') with (rolled_back s now') in Hd. rewrite Hroll in Hd. simpl in Hd. lia.
  - assert (Forall (λ x, due s1 now' x = false) (m_timers s1)) as HF.
    { by eapply due_none_front; [apply wf_ordered|apply Hl| |]. }
    rewrite (filter_none _ _ HF). split; [done|]. intros Hle. exfalso.
    unfold due in Hd. simpl in Hd. rewrite Ht in Hd.
    change (rolled_back s1 now') with (rolled_back s now') in Hd. rewrite Hroll in Hd. simpl in Hd. lia.
Qed.

(** C20. A timer that [cancel] cancelled never fires again: after any further
    operations it is not in the set, no [listExpiredCb] returns its function,
    and [refresh], [reset] and a second [cancel] do not revive it. *)
Theorem cancelled_timer_never_fires (s s1 s2 : TimerManager) (a a0 : addr) (now : Z)
    (H : reachable s) (Hc : cancel a s = Ret true s1) (Hr : rtc step s1 s2) :
  cancel a s2 = Ret false s2 ∧ refresh a now s2 = Ret false s2 ∧
  ∃ l s3, listExpiredCb now a0 s2 = Ret (map (cb_of (m_heap s2)) l) s3 ∧ (a ∉ l) ∧ a ∉ m_timers s3.
Proof.
  pose proof (reachable_wf s H) as Hwf.
  assert (∃ t, m_heap s !! a = Some t) as [t Ht].
  { unfold cancel in Hc. apply bind_Ret_inv in Hc as (t&?&Hg&_). exists t.
    unfold get_timer, deref in Hg. destruct (m_heap s !! a);
      cbv [mret M_ret crash] in Hg; congruence. }
  assert (m_cb t ≠ None) as Hcb.
  { intros Hn. rewrite (cancel_empty s a t Ht Hn) in Hc. done. }
  destruct (cancel_ok s a t Hwf Ht Hcb) as (l&Hrun&Hwf1&Hl). rewrite Hrun in Hc.
  injection Hc as <-.
  destruct (dead_steps a _ s2 Hwf1) as (Hwf2&Hna&u&Hu&Hcbu); [|done|].
  { split; simpl; [by intros [_ ?]%Hl|]. exists (set_cb None t). by rewrite lookup_insert_eq. }
  split; [by eapply cancel_empty|]. split; [by eapply refresh_empty|].
  destruct (listExpired_ok s2 now a0 Hwf2) as (s3&Hrun3&_&Hex&_).
  eexists _, s3. split; [exact Hrun3|]. split.
  - intros [Hin _]%list_elem_of_In%List.filter_In. by apply Hna, list_elem_of_In.
  - intros Hin%(Hex a u Hu). by destruct Hin as [Hin _].
Qed.

(** C21. No timer is missed by a waiting thread: between the moment a thread
    learns from [getNextTimer] how long to wait and any later moment, either
    [onTimerInsertAtFront] was called to wake a thread, or every timer in the
    set is due no earlier than the end of that wait. *)
Theorem no_missed_wakeup (now0 c c' now w : Z) (s s0 s1 : TimerManager)
    (Hnow0 : 0 ≤ now0 < 2 ^ 63) (H : timed_run now0 (new_TimerManager now0) c s)
    (Hnow : c ≤ now < 2 ^ 63) (Hn : getNextTimer now s = Ret w s0) (Hw : w ≠ 0)
    (Hr : timed_run now s0 c' s1) :
  m_front s0 < m_front s1 ∨
  ∀ a t, a ∈ m_timers s1 → m_heap s1 !! a = Some t → now + w ≤ m_next t.
Proof.
  destruct (timed_run_ok 0 0 now0 (new_TimerManager now0) c s) as (Hwf&Hst&_);
    [apply new_TimerManager_wf|by apply new_TimerManager_started|
     right; split_and!; [done..|]; intros a t _ Ha; simpl in Ha; by rewrite lookup_empty in Ha|done|].
  rewrite (getNextTimer_ok s now Hwf) in Hn. injection Hn as <- <-.
  set (D := now + _).
  destruct (timed_run_ok D (m_front s) now (set_tickled false s) c' s1)
    as (_&_&Hnm); [by destruct Hwf|by apply (started_later c)| |done|].
  { right. split_and!; [done..|]. simpl. intros a t Ha Ht. subst D.
    destruct (m_timers s) as [|b l] eqn:Hl; [by apply elem_of_nil in Ha|].
    destruct (wf_live s Hwf b) as [u Hu]; [rewrite Hl; by apply elem_of_cons; left|].
    rewrite Hu in *. destruct (Z.leb_spec (m_next u) now); [done|].
    destruct Hst as [? Hst]. specialize (Hst b u Hu). rewrite u64_id by lia.
    pose proof (wf_sorted s Hwf) as Hs. rewrite Hl in Hs.
    apply elem_of_cons in Ha as [->|Ha]; [simplify_eq; lia|].
    inversion_clear Hs as [|?? _ HF]. rewrite Forall_forall in HF.
    destruct (HF a Ha) as (?&?&?&?&?). simplify_eq. lia. }
  destruct Hnm as [?|(_&_&?)]; [by left|by right].
Qed.

(** ** Instances *)

Definition state_after (o : op) (s : TimerManager) : TimerManager :=
  match exec o s with Ret _ s' => s' | _ => s end.

(** A one-shot timer of 50 ms and a recurring one of 20 ms, started at 1000. *)
Definition ex1 := new_TimerManager 1000.
Definition ex2 := state_after (Add 1 50 (Some (Plain 7)) false 1000) ex1.
Definition ex3 := state_after (Add 2 20 (Some (BindOnTimer 5 (Some 8))) true 1000) ex2.
Definition ex4 := state_after (Cancel 1) ex3.
Definition ex5 := state_after (Expire 1030 9) ex4.

Lemma ex3_reachable : reachable ex3.
Proof.
  apply (reach_step ex2); [apply (reach_step ex1); [apply reach_start|]|].
  - apply (step_op ex1 (Add 1 50 (Some (Plain 7)) false 1000)); vm_compute; reflexivity.
  - apply (step_op ex2 (Add 2 20 (Some (BindOnTimer 5 (Some 8))) true 1000));
      vm_compute; reflexivity.
Defined.

Lemma ex3_started : started 1000 ex3.
Proof.
  split; [lia|]. intros a t Ha. 
  assert (m_heap ex3 = <[1 := Timer false 50 1050 (Some (Plain 7))]>
    (<[2 := Timer true 20 1020 (Some (BindOnTimer 5 (Some 8)))]> ∅)) as He by (vm_compute; reflexivity).
  rewrite He in Ha. apply lookup_insert_Some in Ha as [[_ <-]|[_ Ha]]; [simpl; lia|].
  apply lookup_insert_Some in Ha as [[_ <-]|[_ Ha]]; [simpl; lia|].
  by rewrite lookup_empty in Ha.
Defined.

Example ex3_fires :
  listExpiredCb 1020 9 ex3 = Ret [Some (BindOnTimer 5 (Some 8))]
    (state_after (Expire 1020 9) ex3).
Proof. vm_compute. reflexivity. Qed.

Lemma timer_operations_safe_witness :
  wf ex3 ∧ ∀ o, allowed ex3 o → ∃ s', exec o ex3 = Ret tt s' ∧ wf s'.
Proof. exact (timer_operations_safe ex3 ex3_reachable). Defined.

Lemma listExpiredCb_spec_witness :
  ∃ s', listExpiredCb 1020 9 ex3 =
          Ret (map (cb_of (m_heap ex3)) (List.filter (due ex3 1020) (m_timers ex3))) s' ∧
    StronglySorted (before (m_heap ex3)) (m_timers ex3) ∧ after_expiry 1020 ex3 s'.
Proof. exact (listExpiredCb_spec ex3 1020 9 ex3_reachable). Defined.

Lemma getNextTimer_witness :
  ∃ w s1, getNextTimer 1005 ex3 = Ret w s1 ∧ (m_timers ex3 = [] → w = 2 ^ 64 - 1) ∧
    ∃ cbs s2, listExpiredCb 1020 9 s1 = Ret cbs s2 ∧
      (m_timers ex3 ≠ [] → cbs ≠ [] ↔ 1005 + w ≤ 1020).
Proof.
  apply (getNextTimer_is_first_expiry ex3 1000 1005 1020 9 (reachable_wf ex3 ex3_reachable)
           ex3_started); [lia|vm_compute; reflexivity].
Defined.

Lemma cancelled_timer_witness :
  cancel 1 ex5 = Ret false ex5 ∧ refresh 1 1040 ex5 = Ret false ex5 ∧
  ∃ l s3, listExpiredCb 1040 9 ex5 = Ret (map (cb_of (m_heap ex5)) l) s3 ∧ (1 ∉ l) ∧ 1 ∉ m_timers s3.
Proof.
  apply (cancelled_timer_never_fires ex3 ex4 ex5 1 9 1040 ex3_reachable);
    [vm_compute; reflexivity|].
  apply rtc_once. apply (step_op ex4 (Expire 1030 9)); [exact I|vm_compute; reflexivity].
Defined.

(** A thread waits for the recurring timer alone; a shorter one is added. *)
Definition exw0 := state_after (Add 2 20 (Some (Plain 8)) true 1000) ex1.
Definition exw1 := state_after (Next 1001) exw0.
Definition exw2 := state_after (Add 1 5 (Some (Plain 7)) false 1002) exw1.

Lemma no_missed_wakeup_witness :
  m_front exw1 < m_front exw2 ∨
  ∀ a t, a ∈ m_timers exw2 → m_heap exw2 !! a = Some t → 1001 + 19 ≤ m_next t.
Proof.
  apply (no_missed_wakeup 1000 1000 1002 1001 19 exw0 exw1 exw2); [lia| |lia|vm_compute; reflexivity|done|].
  - apply (timed_cons _ _ (Add 2 20 (Some (Plain 8)) true 1000) exw0);
      [split; [vm_compute; reflexivity|lia]|vm_compute; reflexivity|constructor].
  - apply (timed_cons _ _ (Add 1 5 (Some (Plain 7)) false 1002) exw2);
      [split; [vm_compute; reflexivity|lia]|vm_compute; reflexivity|constructor].
Defined.
