(* ===== verification/Thread.v ===== *)
(** * Threads and locks (megalo/thread.h, megalo/thread.cc)

    The guards are written over the two operations of the lock they hold.
    [CASLock] is the spin lock on an atomic flag; threads with guards of one are
    the machine [lock_step], in which a round of the [while] loop is one step.
    [Thread] objects and the threads of the system are the machine
    [thread_step]: its steps are the statements of [Thread::run] and the calls
    client code makes.  [pthread] mutexes, spin locks and semaphores are
    the documented behaviour of the system. *)
From stdpp Require Import relations.
From S2P Require Import Prelude Bytes.
#[local] Open Scope Z_scope.

(** ** Guards *)

Section guards.
Context {K : Type}.

Record guard := mkGuard { g_mutex : K; m_locked : bool }.

Definition on_mutex {A} (m : M K A) : M guard A := λ g,
  match m (g_mutex g) with
  | Ret a k => Ret a (mkGuard k (m_locked g))
  | Throw e k => Throw e (mkGuard k (m_locked g))
  | Crash f => Crash f
  end.
Definition set_locked (b : bool) : M guard () := modify (λ g, mkGuard (g_mutex g) b).

(** [acquire] is [lock], [rdlock] or [wrlock] of the mutex; the three classes
    differ in nothing else. *)
Definition new_ScopedLock (acquire : M K ()) : M guard () := on_mutex acquire;; set_locked true.
Definition guard_lock (acquire : M K ()) : M guard () :=
  l ← gets m_locked; if negb l then on_mutex acquire;; set_locked true else mret tt.
Definition guard_unlock (release : M K ()) : M guard () :=
  l ← gets m_locked; if (l : bool) then on_mutex release;; set_locked false else mret tt.
Definition delete_ScopedLock (release : M K ()) : M guard () := guard_unlock release.

(** What client code does with a guard while it lives. *)
Inductive guard_call := CallLock | CallUnlock.
Fixpoint guard_calls (acquire release : M K ()) (l : list guard_call) : M guard () :=
  match l with
  | [] => mret tt
  | c :: l => (match c with CallLock => guard_lock acquire | CallUnlock => guard_unlock release end);; guard_calls acquire release l
  end.
Definition guard_life (acquire release : M K ()) (l : list guard_call) : M guard () :=
  new_ScopedLock acquire;; guard_calls acquire release l;; delete_ScopedLock release.
End guards.
Arguments guard K : clear implicits.

(** The calls a mutex sees, [true] is [lock]; whether it is held after them, if no
    call came when it was not due. *)
Definition record_call (b : bool) : M (list bool) () := modify (λ l, l ++ [b]).
Fixpoint held_after (held : bool) (l : list bool) : option bool :=
  match l with [] => Some held | c :: l => if eqb c held then None else held_after c l end.

Lemma held_after_snoc h l c : held_after h (l ++ [c]) =
  match held_after h l with Some b => if eqb c b then None else Some c | None => None end.
Proof. revert h. induction l as [|d l IH]; intros h; simpl; [done|]. destruct (eqb d h); [done|apply IH]. Qed.

Definition balanced (g : guard (list bool)) : Prop := held_after false (g_mutex g) = Some (m_locked g).

Lemma guard_lock_balanced g : balanced g → ∃ g', guard_lock (record_call true) g = Ret tt g' ∧ balanced g' ∧ m_locked g' = true.
Proof.
  unfold balanced. destruct g as [l []]; intros Hb; [by eexists|]. eexists. split; [reflexivity|]. simpl in *.
  by rewrite held_after_snoc, Hb.
Qed.
Lemma guard_unlock_balanced g : balanced g → ∃ g', guard_unlock (record_call false) g = Ret tt g' ∧ balanced g' ∧ m_locked g' = false.
Proof.
  unfold balanced. destruct g as [l []]; intros Hb; [|by eexists]. eexists. split; [reflexivity|]. simpl in *.
  by rewrite held_after_snoc, Hb.
Qed.

(** Whatever is done with a guard, its mutex is locked and unlocked in turn, and
    is not held when the guard is gone. *)
Lemma guard_life_balanced calls : ∃ tr,
  guard_life (record_call true) (record_call false) calls (mkGuard [] false) = Ret tt (mkGuard tr false) ∧
  held_after false tr = Some false.
Proof.
  assert (∀ g, balanced g → ∃ tr, (guard_calls (record_call true) (record_call false) calls;; delete_ScopedLock (record_call false)) g =
    Ret tt (mkGuard tr false) ∧ held_after false tr = Some false) as Hcalls.
  { induction calls as [|c calls IH]; intros g Hg.
    - cbn [guard_calls]. msteps. destruct (guard_unlock_balanced g Hg) as ([tr l]&Hu&Hb&Hl). simpl in Hl. subst l. by exists tr.
    - cbn [guard_calls]. rewrite bind_assoc. destruct c.
      + destruct (guard_lock_balanced g Hg) as (g'&Hl&Hb&_). mstep Hl. by apply IH.
      + destruct (guard_unlock_balanced g Hg) as (g'&Hl&Hb&_). mstep Hl. by apply IH. }
  unfold guard_life. rewrite (bind_ret _ _ _ tt (mkGuard [true] true)) by done. by apply Hcalls.
Qed.

(** ** CASLock *)

Definition test_and_set : M bool bool := λ f, Ret f true.
(** A round of the loop of [lock]: does it leave the loop? *)
Definition CASLock_round : M bool bool := b ← test_and_set; mret (negb b).
Definition CASLock_unlock : M bool () := put false.

(** A thread with its guard: before the guard is made, in [lock] of the mutex, or between calls. *)
Inductive place := Outside | Entering | Inside.
Record client := mkClient { c_place : place; c_locked : bool }.
Definition locks : Type := bool * list client.
Definition new_locks (n : nat) : locks := (false, replicate n (mkClient Outside false)).

Inductive lock_step : locks → locks → Prop :=
  | step_construct f cs i l : cs !! i = Some (mkClient Outside l) →
      lock_step (f, cs) (f, <[i := mkClient Entering false]> cs)
  | step_lock f cs i : cs !! i = Some (mkClient Inside false) →
      lock_step (f, cs) (f, <[i := mkClient Entering false]> cs)
  | step_round f cs i l (b : bool) f' : cs !! i = Some (mkClient Entering l) → CASLock_round f = Ret b f' →
      lock_step (f, cs) (f', <[i := if b then mkClient Inside true else mkClient Entering l]> cs)
  | step_unlock f cs i l f' l' (gone : bool) : cs !! i = Some (mkClient Inside l) →
      guard_unlock CASLock_unlock (mkGuard f l) = Ret tt (mkGuard f' l') →
      lock_step (f, cs) (f', <[i := mkClient (if gone then Outside else Inside) l']> cs).

Definition lock_ok (s : locks) : Prop :=
  (∀ i c, s.2 !! i = Some c → c_locked c = true → c_place c = Inside) ∧
  (∀ i j c d, s.2 !! i = Some c → s.2 !! j = Some d → c_locked c = true → c_locked d = true → i = j) ∧
  (s.1 = true ↔ ∃ i c, s.2 !! i = Some c ∧ c_locked c = true).

(** A client changes: it keeps what it has, takes the free flag, or gives it back. *)
Lemma change_ok f f' cs i c c' : lock_ok (f, cs) → cs !! i = Some c → (c_locked c' = true → c_place c' = Inside) →
  (c_locked c' = c_locked c ∧ f' = f) ∨ (c_locked c' = true ∧ f = false ∧ f' = true) ∨
  (c_locked c = true ∧ c_locked c' = false ∧ f' = false) →
  lock_ok (f', <[i := c']> cs).
Proof.
  intros (Hp&Hu&Hf) Hc Hp' Hch. simpl in *. pose proof (lookup_lt_Some _ _ _ Hc) as Hlt.
  assert (∀ j d, <[i := c']> cs !! j = Some d → (j = i ∧ d = c') ∨ (j ≠ i ∧ cs !! j = Some d)) as Hj.
  { intros j d [(<-&<-&_)|[Hne Hd]]%list_lookup_insert_Some; [by left|by right]. }
  assert (f = false → ∀ j d, cs !! j = Some d → c_locked d = false) as Hfree.
  { intros -> j d Hd. destruct (c_locked d) eqn:Ed; [|done]. discriminate (proj2 Hf (ex_intro _ j (ex_intro _ d (conj Hd Ed)))). }
  assert (c_locked c = true → ∀ j d, cs !! j = Some d → c_locked d = true → j = i) as Hhold by (intros Hcl j d Hd Hdl; by apply (Hu j i d c)).
  split; [|split]; simpl.
  - intros j d [[_ ->]|[_ Hd]]%Hj; [done|by apply (Hp j)].
  - intros j k d e [[-> ->]|[Hn Hd]]%Hj [[-> ->]|[Hn' He]]%Hj Hdl Hel; [done|..|by apply (Hu j k d e)].
    + destruct Hch as [[Hs _]|[(_&Hff&_)|(_&Hno&_)]]; [rewrite Hs in Hdl; symmetry; by apply (Hhold Hdl k e)| |congruence].
      rewrite (Hfree Hff k e He) in Hel. done.
    + destruct Hch as [[Hs _]|[(_&Hff&_)|(_&Hno&_)]]; [rewrite Hs in Hel; by apply (Hhold Hel j d)| |congruence].
      rewrite (Hfree Hff j d Hd) in Hdl. done.
  - destruct Hch as [[Hs ->]|[(Ht&Hff&->)|(Hc1&Hc2&->)]].
    + rewrite Hf. split; intros (j&d&Hd&Hdl).
      * destruct (decide (j = i)) as [->|Hn]; [exists i, c'; rewrite list_lookup_insert_eq by done; split; congruence|].
        exists j, d. by rewrite list_lookup_insert_ne.
      * destruct (Hj j d Hd) as [[-> ->]|[_ Hd']]; [exists i, c; split; congruence|by exists j, d].
    + split; [|done]. intros _. exists i, c'. by rewrite list_lookup_insert_eq.
    + split; [done|]. intros (j&d&Hd&Hdl). destruct (Hj j d Hd) as [[-> ->]|[Hn Hd']]; [congruence|].
      by destruct (Hn (Hhold Hc1 j d Hd' Hdl)).
Qed.

Lemma lock_step_ok s s' : lock_ok s → lock_step s s' → lock_ok s'.
Proof.
  intros Hok Hs. destruct Hs as [f cs i l Hc|f cs i Hc|f cs i l b f' Hc Hr|f cs i l f' l' gone Hc Hr].
  - assert (l = false) as -> by (destruct l; [by pose proof (proj1 Hok i _ Hc eq_refl)|done]).
    apply (change_ok f f cs i _ _ Hok Hc); [done|by left].
  - apply (change_ok f f cs i _ _ Hok Hc); [done|by left].
  - assert (l = false) as -> by (destruct l; [by pose proof (proj1 Hok i _ Hc eq_refl)|done]).
    unfold CASLock_round, test_and_set in Hr. destruct f; injection Hr as <- <-.
    + apply (change_ok true true cs i _ _ Hok Hc); [done|by left].
    + apply (change_ok false true cs i _ _ Hok Hc); [done|by right; left].
  - destruct l; injection Hr as <- <-.
    + apply (change_ok f false cs i _ _ Hok Hc); [done|by right; right].
    + apply (change_ok f f cs i _ _ Hok Hc); [done|by left].
Qed.

Lemma reachable_lock_ok n s : rtc lock_step (new_locks n) s → lock_ok s.
Proof.
  intros Hs. assert (lock_ok (new_locks n)) as Hok.
  { assert (∀ i c, replicate n (mkClient Outside false) !! i = Some c → c_locked c = false) as Hfree
      by (intros i c Hc; apply lookup_replicate in Hc as [-> _]; done).
    split; [|split]; simpl.
    - intros i c Hc Hl. rewrite (Hfree i c Hc) in Hl. done.
    - intros i j c d Hc _ Hl. rewrite (Hfree i c Hc) in Hl. done.
    - split; [done|]. intros (i&c&Hc&Hl). rewrite (Hfree i c Hc) in Hl. done. }
  induction Hs as [|s1 s2 s3 Hs _ IH]; [done|]. apply IH. by apply (lock_step_ok s1).
Qed.

(** C27. Mutual exclusion: however threads interleave the calls on their guards of
    one [CASLock], also the superfluous ones, and the rounds of its loop, at most one guard
    is locked at a time; the flag is set exactly while one is, so that it is
    free again after the last is gone, and when it is free a thread that
    wants it gets it in its next round. *)
Theorem caslock_excludes n s (Hs : rtc lock_step (new_locks n) s) :
  (∀ i j c d, s.2 !! i = Some c → s.2 !! j = Some d → c_locked c = true → c_locked d = true → i = j) ∧
  (s.1 = true ↔ ∃ i c, s.2 !! i = Some c ∧ c_locked c = true ∧ c_place c = Inside) ∧
  ((∀ i c, s.2 !! i = Some c → c_place c = Outside) → s.1 = false) ∧
  ∀ i l, s.2 !! i = Some (mkClient Entering l) → (∀ j c, s.2 !! j = Some c → c_locked c = false) →
    lock_step s (true, <[i := mkClient Inside true]> s.2).
Proof.
  destruct (reachable_lock_ok n s Hs) as (Hp&Hu&Hf). split; [exact Hu|]. split; [|split].
  - rewrite Hf. split; intros (i&c&Hc&Hl); exists i, c; [eauto|by destruct Hl].
  - intros Hout. destruct (s.1); [|done]. destruct (proj1 Hf eq_refl) as (i&c&Hc&Hl).
    pose proof (Hout i c Hc). pose proof (Hp i c Hc Hl). congruence.
  - intros i l Hi Hfree. destruct s as [f cs]. simpl in *. destruct f.
    + destruct (proj1 Hf eq_refl) as (j&c&Hc&Hl). rewrite (Hfree j c Hc) in Hl. done.
    + by apply (step_round false cs i l true true Hi).
Qed.

(** Two threads want the lock: one gets it, and the other after it. *)
Lemma caslock_witness : ∃ s, rtc lock_step (new_locks 2) s ∧ s = (true, [mkClient Entering false; mkClient Inside true]) ∧
  lock_step s (false, [mkClient Entering false; mkClient Outside false]) ∧
  ∀ i j c d, s.2 !! i = Some c → s.2 !! j = Some d → c_locked c = true → c_locked d = true → i = j.
Proof.
  assert (rtc lock_step (new_locks 2) (true, [mkClient Entering false; mkClient Inside true])) as Hs.
  { eapply rtc_l; [by apply (step_construct false _ 0 false)|]. eapply rtc_l; [by apply (step_construct false _ 1 false)|].
    eapply rtc_l; [by apply (step_round false _ 1 false true true)|]. eapply rtc_l; [by apply (step_round true _ 0 false false true)|].
    apply rtc_refl. }
  exists (true, [mkClient Entering false; mkClient Inside true]). split; [exact Hs|]. split; [done|]. split.
  - by apply (step_unlock true [mkClient Entering false; mkClient Inside true] 1 true false false true).
  - apply (caslock_excludes 2 _ Hs).
Defined.

(** ** Thread *)

Section threads.
(** Functions, and the id the system gives a thread. *)
Context {cb : Type} (gettid : nat → Z).

(** A [Thread] object; [m_thread] is the thread it made until it is joined, and
    [x_made] is that thread for good. *)
Record Thread := mkThread {
  m_id : Z;
  m_thread : option nat;
  m_cb : option cb;
  m_name : bytes;
  m_semaphore : Z;
  x_made : nat;
  x_alive : bool
}.

(** Where a thread of the system is: in client code, blocked in the semaphore of
    the constructor of an object, before line [line] of [run] of its object with
    the local [cb], or at its end. *)
Inductive pc := Client | InConstructor (o : nat) | RunAt (o line : nat) (local : option cb) | Finished.
Record os_thread := mkOsThread {
  o_pc : pc;
  t_thread : option nat;
  t_thread_name : bytes;
  o_kernel_name : bytes
}.
Record world := mkWorld { objects : list Thread; threads : list os_thread }.

Definition UNKNOW : bytes := str "UNKNOW".
Definition new_os_thread (p : pc) : os_thread := mkOsThread p None UNKNOW [].

Definition with_object (o : nat) (f : Thread → Thread) (w : world) : world := mkWorld (alter f o (objects w)) (threads w).
Definition with_thread (i : nat) (f : os_thread → os_thread) (w : world) : world := mkWorld (objects w) (alter f i (threads w)).
Definition set_pc (p : pc) (y : os_thread) : os_thread := mkOsThread p (t_thread y) (t_thread_name y) (o_kernel_name y).
Definition set_t_thread (o : option nat) (y : os_thread) : os_thread := mkOsThread (o_pc y) o (t_thread_name y) (o_kernel_name y).
Definition set_t_name (n : bytes) (y : os_thread) : os_thread := mkOsThread (o_pc y) (t_thread y) n (o_kernel_name y).
Definition set_kernel_name (n : bytes) (y : os_thread) : os_thread := mkOsThread (o_pc y) (t_thread y) (t_thread_name y) n.
Definition set_m_id (z : Z) (x : Thread) : Thread := mkThread z (m_thread x) (m_cb x) (m_name x) (m_semaphore x) (x_made x) (x_alive x).
Definition set_m_thread (h : option nat) (x : Thread) : Thread := mkThread (m_id x) h (m_cb x) (m_name x) (m_semaphore x) (x_made x) (x_alive x).
Definition set_m_cb (c : option cb) (x : Thread) : Thread := mkThread (m_id x) (m_thread x) c (m_name x) (m_semaphore x) (x_made x) (x_alive x).
Definition set_m_name (n : bytes) (x : Thread) : Thread := mkThread (m_id x) (m_thread x) (m_cb x) n (m_semaphore x) (x_made x) (x_alive x).
Definition set_sem (z : Z) (x : Thread) : Thread := mkThread (m_id x) (m_thread x) (m_cb x) (m_name x) z (x_made x) (x_alive x).
Definition set_dead (x : Thread) : Thread := mkThread (m_id x) (m_thread x) (m_cb x) (m_name x) (m_semaphore x) (x_made x) false.

(** Reaching through a pointer to an object that is gone is a fault. *)
Definition the_object (o : nat) : M world Thread :=
  l ← gets objects; x ← deref (l !! o); if x_alive x then mret x else crash OutOfBounds.
Definition the_thread (i : nat) : M world os_thread := l ← gets threads; deref (l !! i).

(** [Semaphore]: [wait] of a positive semaphore; it blocks otherwise. *)
Definition notify (o : nat) : M world () := x ← the_object o; modify (with_object o (set_sem (m_semaphore x + 1))).
Definition wait (o : nat) : M world bool :=
  x ← the_object o;
  if 0 <? m_semaphore x then modify (with_object o (set_sem (m_semaphore x - 1)));; mret true else mret false.

(** [GetThis], [GetName] and [SetName] in thread [i]. *)
Definition GetThis (i : nat) : M world (option nat) := y ← the_thread i; mret (t_thread y).
Definition GetName (i : nat) : M world bytes := y ← the_thread i; mret (t_thread_name y).
Definition SetName (i : nat) (name : bytes) : M world () :=
  y ← the_thread i;
  (match t_thread y with
   | Some o => _ ← the_object o; modify (with_object o (set_m_name name))
   | None => mret tt
   end);;
  modify (with_thread i (set_t_name name)).

(** The constructor in thread [i] up to the semaphore; [ok]: does [pthread_create]
    succeed? *)
Definition new_Thread (i : nat) (f : cb) (name : bytes) (ok : bool) : M world nat :=
  if negb ok then throw logic_error else
  w ← gets id;
  let o := length (objects w) in
  let j := length (threads w) in
  let m_name := match name with [] => UNKNOW | _ => name end in
  put (mkWorld (objects w ++ [mkThread (-1) (Some j) (Some f) m_name 0 j true])
         (alter (set_pc (InConstructor o)) i (threads w) ++ [new_os_thread (RunAt o 0 None)]));;
  mret o.
(** The rest of it, when the semaphore lets it go on. *)
Definition return_Thread (i o : nat) : M world bool :=
  b ← wait o; (if (b : bool) then modify (with_thread i (set_pc Client)) else mret tt);; mret b.

(** The statements of [run] in thread [j]; the last one starts the function. *)
Definition run_line (j o line : nat) (local : option cb) : M world () :=
  let go l := modify (with_thread j (set_pc (RunAt o (line + 1) l))) in
  match line with
  | 0%nat => modify (with_thread j (set_t_thread (Some o)));; go local
  | 1%nat => x ← the_object o; modify (with_thread j (set_t_name (m_name x)));; go local
  | 2%nat => _ ← the_object o; modify (with_object o (set_m_id (gettid j)));; go local
  | 3%nat => x ← the_object o; modify (with_thread j (set_kernel_name (take 15 (m_name x))));; go local
  | 4%nat => x ← the_object o; modify (with_object o (set_m_cb local));; go (m_cb x)
  | 5%nat => notify o;; go local
  | _ => _ ← deref local; modify (with_thread j (set_pc Client))
  end.

(** [join] in thread [i], of a thread that has ended; joining oneself is the
    error of [pthread_join]. *)
Definition join (i o : nat) : M world bool :=
  x ← the_object o;
  match m_thread x with
  | None => mret true
  | Some j =>
      if decide (i = j) then throw logic_error else
      y ← the_thread j;
      match o_pc y with
      | Finished => modify (with_object o (set_m_thread None));; mret true
      | _ => mret false
      end
  end.
(** The destructor only detaches the thread. *)
Definition delete_Thread (o : nat) : M world () := _ ← the_object o; modify (with_object o set_dead).
End threads.
Arguments Thread cb : clear implicits.
Arguments world cb : clear implicits.
Arguments pc cb : clear implicits.
Arguments os_thread cb : clear implicits.

Section handshake.
Context {cb : Type} (gettid : nat → Z).
Implicit Types (w : world cb) (x : Thread cb) (y : os_thread cb).

Definition at_pc w (i : nat) (p : pc cb) : Prop := ∃ y, threads w !! i = Some y ∧ o_pc y = p.
(** Some thread is still in the constructor of the object: no other has the pointer. *)
Definition constructing w (o : nat) : Prop := ∃ i, at_pc w i (InConstructor o).

(** A step of thread [i]. *)
Inductive thread_step (i : nat) : world cb → world cb → Prop :=
  | step_new w f name o w' : at_pc w i Client → new_Thread i f name true w = Ret o w' → thread_step i w w'
  | step_return w o w' : at_pc w i (InConstructor o) → return_Thread i o w = Ret true w' → thread_step i w w'
  | step_run w o line local w' : at_pc w i (RunAt o line local) → run_line gettid i o line local w = Ret tt w' → thread_step i w w'
  | step_SetName w name w' : at_pc w i Client → SetName i name w = Ret tt w' → thread_step i w w'
  | step_join w o w' : at_pc w i Client → ¬ constructing w o → join i o w = Ret true w' → thread_step i w w'
  | step_delete w o w' : at_pc w i Client → ¬ constructing w o → delete_Thread o w = Ret tt w' → thread_step i w w'
  | step_end w : at_pc w i Client → thread_step i w (with_thread i (set_pc Finished) w).
Definition any_step w w' : Prop := ∃ i, thread_step i w w'.
Definition main_only : world cb := mkWorld [] [new_os_thread Client].

(** How far [run] of an object has come. *)
Definition phase (p : pc cb) : nat := match p with RunAt _ k _ => k | _ => 7 end.

(** An object and its thread; [P]: is it being constructed? *)
Record pair_ok (P : Prop) (o : nat) x y : Prop := {
  ok_run o' k l : o_pc y = RunAt o' k l → o' = o ∧ (k ≤ 6)%nat ∧ if decide (5 ≤ k)%nat then is_Some l else l = None;
  ok_this : t_thread y = if decide (1 ≤ phase (o_pc y))%nat then Some o else None;
  ok_name : (2 ≤ phase (o_pc y))%nat → x_alive x = true → t_thread_name y = m_name x;
  ok_id : (3 ≤ phase (o_pc y))%nat → m_id x = gettid (x_made x);
  ok_cb : if decide (5 ≤ phase (o_pc y))%nat then m_cb x = None else is_Some (m_cb x);
  ok_early : (phase (o_pc y) ≤ 5)%nat → P ∧ m_semaphore x = 0;
  ok_late : (6 ≤ phase (o_pc y))%nat → P → m_semaphore x = 1;
  ok_free : ¬ P → m_semaphore x = 0;
  ok_alive : P → x_alive x = true
}.

Record world_ok w : Prop := {
  ok_pairs o x : objects w !! o = Some x → ∃ y, threads w !! x_made x = Some y ∧ pair_ok (constructing w o) o x y;
  ok_distinct o o' x x' : objects w !! o = Some x → objects w !! o' = Some x' → x_made x = x_made x' → o = o';
  ok_creator i i' o : at_pc w i (InConstructor o) → at_pc w i' (InConstructor o) → i = i';
  ok_created i o : at_pc w i (InConstructor o) → is_Some (objects w !! o);
  ok_running i o k l : at_pc w i (RunAt o k l) → ∃ x, objects w !! o = Some x ∧ x_made x = i;
  ok_pointer i y o : threads w !! i = Some y → t_thread y = Some o → ∃ x, objects w !! o = Some x ∧ x_made x = i
}.

Lemma pair_ok_iff P Q o x y : (P ↔ Q) → pair_ok P o x y → pair_ok Q o x y.
Proof. intros HPQ []. split; try done; tauto. Qed.

Definition started (p : pc cb) : Prop := match p with RunAt _ _ _ => False | _ => True end.

Lemma at_pc_insert w i y y' objs j p : threads w !! i = Some y →
  at_pc (mkWorld objs (<[i := y']> (threads w))) j p ↔ (j = i ∧ o_pc y' = p) ∨ (j ≠ i ∧ at_pc w j p).
Proof.
  intros Hi. pose proof (lookup_lt_Some _ _ _ Hi) as Hlt. unfold at_pc. cbn [threads]. split.
  - intros (z&Hz&Hp). apply list_lookup_insert_Some in Hz as [(<-&<-&_)|[Hne Hz]]; [by left|right; split; [done|by exists z]].
  - intros [[-> Hp]|[Hne (z&Hz&Hp)]]; [exists y'; by rewrite list_lookup_insert_eq|exists z; by rewrite list_lookup_insert_ne].
Qed.

(** A thread and its object change together. *)
Lemma local_ok w o x y x' y' : world_ok w → objects w !! o = Some x → threads w !! x_made x = Some y →
  (∀ q, o_pc y' = InConstructor q ↔ o_pc y = InConstructor q) → x_made x' = x_made x → pair_ok (constructing w o) o x' y' →
  (t_thread y' = None ∨ t_thread y' = Some o) →
  world_ok (mkWorld (<[o := x']> (objects w)) (<[x_made x := y']> (threads w))).
Proof.
  intros [Hp Hd Hc Hcd Hr Hptr] Hx Hy Hn Hm Hpair Hthis. pose proof (lookup_lt_Some _ _ _ Hx) as Hlt.
  pose proof (lookup_lt_Some _ _ _ Hy) as Hlt'. set (w' := mkWorld _ _).
  assert (∀ i q, at_pc w' i (InConstructor q) ↔ at_pc w i (InConstructor q)) as Hcon.
  { intros i q. unfold w'. rewrite (at_pc_insert w _ y) by done. split.
    - intros [[-> He]|[_ H']]; [exists y; by rewrite <- Hn|done].
    - intros H'. destruct (decide (i = x_made x)) as [->|Hne]; [left|by right]. split; [done|]. rewrite Hn.
      destruct H' as (z&Hz&He). congruence. }
  assert (∀ q, constructing w q ↔ constructing w' q) as Hcs by (intros q; split; intros [i Hi]; exists i; by apply Hcon).
  assert (∀ q z, objects w' !! q = Some z → (q = o ∧ z = x') ∨ (q ≠ o ∧ objects w !! q = Some z)) as Hobj.
  { intros q z [(<-&<-&_)|[Hne Hz]]%list_lookup_insert_Some; [by left|by right]. }
  split.
  - intros q z [[-> ->]|[Hne Hz]]%Hobj.
    + exists y'. rewrite Hm. cbn [threads w']. rewrite list_lookup_insert_eq by done. split; [done|]. by eapply pair_ok_iff, Hpair.
    + destruct (Hp q z Hz) as (v&Hv&Hvok). exists v. cbn [threads w']. split; [|by eapply pair_ok_iff, Hvok].
      rewrite list_lookup_insert_ne; [done|]. intros He. apply Hne. by apply (Hd q o z x).
  - intros q q' z z' [[-> ->]|[Hne Hz]]%Hobj [[-> ->]|[Hne' Hz']]%Hobj; [done| | |by apply (Hd q q' z z')].
    + rewrite Hm. intros He. by apply (Hd o q' x z').
    + rewrite Hm. intros He. by apply (Hd q o z x).
  - intros i i' q Hi Hi'. apply Hcon in Hi, Hi'. by apply (Hc i i' q).
  - intros i q Hi. apply Hcon in Hi. apply Hcd in Hi as [z Hz]. cbn [objects w'].
    destruct (decide (q = o)) as [->|]; [rewrite list_lookup_insert_eq by done|rewrite list_lookup_insert_ne by done]; by eexists.
  - intros i q k l Hi. unfold w' in Hi. rewrite (at_pc_insert w _ y) in Hi by done. destruct Hi as [[-> He]|[Hne Hi]].
    + destruct (ok_run _ _ _ _ Hpair _ _ _ He) as [-> _]. exists x'. cbn [objects w']. by rewrite list_lookup_insert_eq.
    + destruct (Hr i q k l Hi) as (z&Hz&Hzi). exists z. cbn [objects w']. rewrite list_lookup_insert_ne; [done|]. intros ->. congruence.
  - intros i v q Hv Hq. cbn [threads w'] in Hv. apply list_lookup_insert_Some in Hv as [(<-&<-&_)|[Hne Hv]].
    + destruct Hthis as [Ht|Ht]; rewrite Ht in Hq; [done|]. injection Hq as <-. exists x'. cbn [objects w']. by rewrite list_lookup_insert_eq.
    + destruct (Hptr i v q Hv Hq) as (z&Hz&Hzi). exists z. cbn [objects w']. rewrite list_lookup_insert_ne; [done|]. intros ->. congruence.
Qed.
Lemma started_phase p : started p → phase p = 7%nat.
Proof. by destruct p. Qed.
Lemma pair_ok_pc P o x y p : started (o_pc y) → started p → pair_ok P o x y → pair_ok P o x (set_pc p y).
Proof.
  intros Hs Hp [Hrun Hthis Hname Hid Hcb He Hl Hf Ha]. apply started_phase in Hs. rewrite Hs in *.
  pose proof (started_phase p Hp) as Hp'. split; cbn [set_pc o_pc t_thread t_thread_name]; rewrite ?Hp'; try done.
  intros o' k l ->. done.
Qed.

(** The thread of an object, and the objects of a thread. *)
Lemma thread_of w o x : world_ok w → objects w !! o = Some x → ∃ y, threads w !! x_made x = Some y ∧ pair_ok (constructing w o) o x y.
Proof. intros Hw. apply (ok_pairs w Hw). Qed.

Lemma alter_lookup {A} (f : A → A) i (l : list A) a : l !! i = Some a → alter f i l = <[i := f a]> l.
Proof. intros Hi. rewrite list_insert_alter. apply list_alter_ext; [|done]. intros b Hb. congruence. Qed.
Lemma alter_twice {A} (f g : A → A) i (l : list A) : alter f i (alter g i l) = alter (f ∘ g) i l.
Proof.
  apply list_eq. intros j. destruct (decide (j = i)) as [->|Hne].
  - rewrite !list_lookup_alter_eq. by destruct (l !! i).
  - by rewrite !list_lookup_alter_ne.
Qed.

Lemma local_step w o x y f g : world_ok w → objects w !! o = Some x → threads w !! x_made x = Some y →
  (∀ q, o_pc (g y) = InConstructor q ↔ o_pc y = InConstructor q) → x_made (f x) = x_made x → pair_ok (constructing w o) o (f x) (g y) →
  (t_thread (g y) = None ∨ t_thread (g y) = Some o) →
  world_ok (mkWorld (alter f o (objects w)) (alter g (x_made x) (threads w))).
Proof. intros. rewrite (alter_lookup _ _ _ x), (alter_lookup _ _ _ y) by done. by apply (local_ok w o x y). Qed.

Lemma world_eta w : mkWorld (objects w) (threads w) = w.
Proof. by destruct w. Qed.

Lemma on_object w o {A} (k : Thread cb → M (world cb) A) x : objects w !! o = Some x → x_alive x = true → (the_object o ≫= k) w = k x w.
Proof. intros Hx Ha. unfold the_object. rewrite bind_assoc, bind_gets, Hx. cbn [deref]. rewrite bind_assoc, bind_mret. by rewrite Ha. Qed.
Lemma on_object_inv w o {A} (k : Thread cb → M (world cb) A) a w' : (the_object o ≫= k) w = Ret a w' →
  ∃ x, objects w !! o = Some x ∧ x_alive x = true ∧ k x w = Ret a w'.
Proof.
  unfold the_object. rewrite bind_assoc, bind_gets. destruct (objects w !! o) as [x|]; [|done]. cbn [deref]. rewrite bind_assoc, bind_mret.
  destruct (x_alive x) eqn:Ha; [|done]. intros Hk. by exists x.
Qed.
Lemma on_the_thread w i {A} (k : os_thread cb → M (world cb) A) y : threads w !! i = Some y → (the_thread i ≫= k) w = k y w.
Proof. intros Hy. unfold the_thread. rewrite bind_assoc, bind_gets. by rewrite Hy. Qed.

(** What a line of [run] does, when the object lives until it has been
    announced. *)
Definition line_object (k : nat) (j : nat) (local : option cb) x : Thread cb :=
  match k with
  | 2%nat => set_m_id (gettid j) x
  | 4%nat => set_m_cb local x
  | 5%nat => set_sem (m_semaphore x + 1) x
  | _ => x
  end.
Definition line_thread (k : nat) (o : nat) (local : option cb) x y : os_thread cb :=
  let go l := set_pc (RunAt o (k + 1) l) in
  match k with
  | 0%nat => go local (set_t_thread (Some o) y)
  | 1%nat => go local (set_t_name (m_name x) y)
  | 2%nat => go local y
  | 3%nat => go local (set_kernel_name (take 15 (m_name x)) y)
  | 4%nat => go (m_cb x) y
  | 5%nat => go local y
  | _ => set_pc Client y
  end.

Lemma run_line_spec w o k l x y : objects w !! o = Some x → threads w !! x_made x = Some y → (k ≤ 6)%nat →
  ((1 ≤ k ≤ 5)%nat → x_alive x = true) → (k = 6%nat → is_Some l) →
  run_line gettid (x_made x) o k l w =
    Ret tt (mkWorld (<[o := line_object k (x_made x) l x]> (objects w)) (<[x_made x := line_thread k o l x y]> (threads w))).
Proof.
  intros Hx Hy Hk Ha Hl. pose proof (lookup_lt_Some _ _ _ Hy) as Hlt.
  assert ((1 ≤ k ≤ 5)%nat → ∀ A (m : Thread cb → M (world cb) A), (the_object o ≫= m) w = m x w) as Hobj.
  { intros Hk' A m. by apply on_object; [|apply Ha]. }
  assert (∀ f g objs, with_thread (x_made x) f (mkWorld objs (alter g (x_made x) (threads w))) =
    mkWorld objs (<[x_made x := f (g y)]> (threads w))) as Hthr.
  { intros f g objs. unfold with_thread. cbn [objects threads]. by rewrite alter_twice, (alter_lookup _ _ _ y). }
  assert (<[o := x]> (objects w) = objects w) as Hid by (by apply list_insert_id).
  destruct k as [|[|[|[|[|[|[|k]]]]]]]; [..|lia]; unfold run_line; cbv zeta; cbn [line_object line_thread].
  - rewrite bind_modify. unfold modify. unfold with_thread at 2. by rewrite Hthr, Hid.
  - rewrite Hobj by lia. rewrite bind_modify. unfold modify. unfold with_thread at 2. by rewrite Hthr, Hid.
  - rewrite Hobj by lia. rewrite bind_modify. unfold modify, with_thread, with_object. cbn [objects threads].
    by rewrite (alter_lookup _ _ _ x), (alter_lookup _ _ _ y).
  - rewrite Hobj by lia. rewrite bind_modify. unfold modify. unfold with_thread at 2. by rewrite Hthr, Hid.
  - rewrite Hobj by lia. rewrite bind_modify. unfold modify, with_thread, with_object. cbn [objects threads].
    by rewrite (alter_lookup _ _ _ x), (alter_lookup _ _ _ y).
  - unfold notify. rewrite bind_assoc, Hobj by lia. rewrite bind_modify. unfold modify, with_thread, with_object. cbn [objects threads].
    by rewrite (alter_lookup _ _ _ x), (alter_lookup _ _ _ y).
  - destruct (Hl eq_refl) as [c ->]. cbn [deref]. rewrite bind_mret. unfold modify, with_thread.
    by rewrite (alter_lookup _ _ _ y), Hid.
Qed.

(** A thread in [run] can always go on, and what it does is in order. *)
Lemma run_line_ok w i o k l : world_ok w → at_pc w i (RunAt o k l) → ∃ x y,
  objects w !! o = Some x ∧ x_made x = i ∧ threads w !! i = Some y ∧ (k ≤ 6)%nat ∧
  run_line gettid i o k l w = Ret tt (mkWorld (<[o := line_object k i l x]> (objects w)) (<[i := line_thread k o l x y]> (threads w))) ∧
  world_ok (mkWorld (<[o := line_object k i l x]> (objects w)) (<[i := line_thread k o l x y]> (threads w))).
Proof.
  intros Hw Hpc. destruct (ok_running w Hw i o k l Hpc) as (x&Hx&<-). destruct Hpc as (y&Hy&Hpc).
  destruct (thread_of w o x Hw Hx) as (y'&Hy'&Hpair). assert (y' = y) as -> by congruence. clear Hy'.
  pose proof Hpair as [Hrun Hthis Hname Hid Hcb He Hl Hf Ha]. destruct (Hrun o k l Hpc) as (_&Hk&Hlocal). rewrite Hpc in *. cbn [phase] in *.
  exists x, y. do 4 (split; [done|]). split.
  { apply run_line_spec; try done; [intros []; apply Ha, He; lia|intros ->; exact Hlocal]. }
  apply (local_ok w o x y); [done..| | | |].
  - rewrite Hpc. intros q. destruct k as [|[|[|[|[|[|[|k]]]]]]]; split; done || lia.
  - by destruct k as [|[|[|[|[|[|[|k]]]]]]].
  - destruct k as [|[|[|[|[|[|[|k]]]]]]]; [..|lia]; cbn in Hthis, Hname, Hid, Hcb, He, Hl, Hlocal; (split; cbn;
      [first [done|intros ? ? ? [= <- <- <-]; split_and!; [done|lia|first [done|exact Hcb]]]
      |done
      |intros; try lia; auto with lia..]).
    destruct (He ltac:(lia)) as [HP _]. done.
  - destruct k as [|[|[|[|[|[|[|k]]]]]]]; [cbn; rewrite ?Hthis; simpl; auto..|lia].
Qed.
(** Thread [i] goes on in client code or ends, and objects change with it. *)
Lemma change_thread w i y y' f objs : world_ok w → threads w !! i = Some y → o_pc y' = Client ∨ o_pc y' = Finished →
  t_thread y' = t_thread y → (∀ q z, x_made (f q z) = x_made z) → (∀ q, objs !! q = f q <$> objects w !! q) →
  let w' := mkWorld objs (<[i := y']> (threads w)) in
  (∀ q z v, objects w !! q = Some z → threads w !! x_made z = Some v → pair_ok (constructing w q) q z v →
    pair_ok (constructing w' q) q (f q z) (if decide (x_made z = i) then y' else v)) →
  world_ok w'.
Proof.
  intros [Hp Hd Hc Hcd Hr Hptr] Hy Hpc Hthis Hmade Hobjs w' Hpair. pose proof (lookup_lt_Some _ _ _ Hy) as Hlt.
  assert (∀ q z, objs !! q = Some z → ∃ x, objects w !! q = Some x ∧ z = f q x) as Hobj.
  { intros q z Hz. rewrite Hobjs in Hz. destruct (objects w !! q) as [x|]; [|done]. injection Hz as <-. by exists x. }
  assert (∀ j q, at_pc w' j (InConstructor q) → at_pc w j (InConstructor q)) as Hcon.
  { intros j q. unfold w'. rewrite (at_pc_insert w _ y) by done. intros [[_ He]|[_ H']]; [destruct Hpc; congruence|done]. }
  split.
  - intros q z Hz. destruct (Hobj q z Hz) as (x&Hx&->). rewrite Hmade. destruct (Hp q x Hx) as (v&Hv&Hvok).
    pose proof (Hpair q x v Hx Hv Hvok) as Hnew. cbn [threads w']. destruct (decide (x_made x = i)) as [Heq|Hne].
    + exists y'. by rewrite Heq, list_lookup_insert_eq.
    + exists v. by rewrite list_lookup_insert_ne.
  - intros q q' z z' Hz Hz' He. destruct (Hobj q z Hz) as (x&Hx&->), (Hobj q' z' Hz') as (x'&Hx'&->). rewrite !Hmade in He.
    by apply (Hd q q' x x').
  - intros j j' q Hj Hj'. by apply (Hc j j' q); apply Hcon.
  - intros j q Hj. destruct (Hcd j q (Hcon j q Hj)) as [x Hx]. cbn [objects w']. rewrite Hobjs, Hx. by eexists.
  - intros j q k l Hj. unfold w' in Hj. rewrite (at_pc_insert w _ y) in Hj by done. destruct Hj as [[_ He]|[_ Hj]]; [destruct Hpc; congruence|].
    destruct (Hr j q k l Hj) as (x&Hx&Hxi). exists (f q x). cbn [objects w']. by rewrite Hobjs, Hx, Hmade.
  - intros j v q Hv Hq. cbn [threads w'] in Hv.
    assert (∃ u, threads w !! j = Some u ∧ t_thread u = Some q) as (u&Hu&Huq).
    { apply list_lookup_insert_Some in Hv as [(<-&<-&_)|[_ Hv]]; [exists y; split; congruence|by exists v]. }
    destruct (Hptr j u q Hu Huq) as (x&Hx&Hxi). exists (f q x). cbn [objects w']. by rewrite Hobjs, Hx, Hmade.
Qed.

Lemma constructing_same w i y y' objs q : threads w !! i = Some y → (∀ o, o_pc y ≠ InConstructor o) → (∀ o, o_pc y' ≠ InConstructor o) →
  constructing (mkWorld objs (<[i := y']> (threads w))) q ↔ constructing w q.
Proof.
  intros Hy Hn Hn'. split; intros [j Hj]; exists j.
  - rewrite (at_pc_insert w _ y) in Hj by done. destruct Hj as [[_ He]|[_ Hj]]; [by destruct (Hn' q)|done].
  - rewrite (at_pc_insert w _ y) by done. right. split; [|done]. intros ->. destruct Hj as (z&Hz&He). rewrite Hy in Hz. injection Hz as <-. by destruct (Hn q).
Qed.

Lemma lookup_alter_dec {A} (f : A → A) i (l : list A) j : alter f i l !! j = (if decide (j = i) then f else id) <$> l !! j.
Proof.
  destruct (decide (j = i)) as [->|Hne]; [by rewrite list_lookup_alter_eq|]. rewrite list_lookup_alter_ne by done. by destruct (l !! j).
Qed.

Lemma step_end_ok w i : world_ok w → at_pc w i Client → world_ok (with_thread i (set_pc Finished) w).
Proof.
  intros Hw (y&Hy&Hpc). unfold with_thread. rewrite (alter_lookup _ _ _ y) by done.
  apply (change_thread w i y _ (λ _ x, x)); [done|done|by right|done|done|by intros q; destruct (objects w !! q)|].
  intros q z v Hz Hv Hok. eapply pair_ok_iff.
  { symmetry. apply constructing_same with y; [done|by intros o; rewrite Hpc|done]. }
  destruct (decide (x_made z = i)) as [Heq|]; [|done]. assert (v = y) as -> by congruence. apply pair_ok_pc; [by rewrite Hpc|done|done].
Qed.

(** The name of a thread, and of its object if it has one. *)
Lemma step_SetName_ok w i name w' : world_ok w → at_pc w i Client → SetName i name w = Ret tt w' → world_ok w'.
Proof.
  intros Hw (y&Hy&Hpc). unfold SetName, the_thread. rewrite bind_assoc, bind_gets, Hy. cbn [deref]. rewrite bind_mret.
  destruct (t_thread y) as [o|] eqn:Ht.
  - destruct (ok_pointer w Hw i y o Hy Ht) as (x&Hx&Hxi). unfold the_object. rewrite !bind_assoc, bind_gets, Hx. cbn [deref].
    rewrite bind_assoc, bind_mret. destruct (x_alive x) eqn:Halive; [|done]. rewrite !bind_mret, bind_modify. intros [= <-].
    unfold with_thread, with_object. cbn [objects threads]. rewrite <- Hxi in *. apply (local_step w o x y); try done.
    + destruct (thread_of w o x Hw Hx) as (v&Hv&[Hrun Hthis Hname Hid Hcb He Hl Hf Ha]). assert (v = y) as -> by congruence.
      rewrite Hpc in *. cbn [phase] in *. split; cbn; rewrite ?Hpc; cbn; try done; tauto.
    + by right.
  - rewrite bind_mret. intros [= <-]. unfold with_thread. rewrite (alter_lookup _ _ _ y) by done.
    apply (change_thread w i y _ (λ _ x, x)); [done|done|by left|done|done|by intros q; destruct (objects w !! q)|].
    intros q z v Hz Hv Hok. eapply pair_ok_iff.
    { symmetry. apply constructing_same with y; [done|by intros o; rewrite Hpc|by intros o; cbn; rewrite Hpc]. }
    destruct (decide (x_made z = i)) as [Heq|]; [|done]. assert (v = y) as -> by congruence.
    pose proof (ok_this _ _ _ _ Hok) as Hthis. rewrite Hpc, Ht in Hthis. done.
Qed.
(** The constructor returns: its object is no longer under construction. *)
Lemma step_return_ok w i o w' : world_ok w → at_pc w i (InConstructor o) → return_Thread i o w = Ret true w' → world_ok w'.
Proof.
  intros Hw Hat. pose proof Hat as (y&Hy&Hpc). destruct (ok_created w Hw i o Hat) as [x Hx].
  destruct (thread_of w o x Hw Hx) as (u&Hu&Hux).
  unfold return_Thread, wait. rewrite bind_assoc, (on_object w o _ x Hx) by (by apply (ok_alive _ _ _ _ Hux); exists i). destruct (Z.ltb_spec 0 (m_semaphore x)) as [Hsem|]; [|done].
  rewrite bind_assoc, bind_modify, bind_mret, bind_modify. intros [= <-]. unfold with_thread, with_object. cbn [objects threads].
  assert (6 ≤ phase (o_pc u))%nat as Hph.
  { apply Nat.nlt_ge. intros Hlt. destruct (ok_early _ _ _ _ Hux) as [_ H0]; lia. }
  assert (m_semaphore x = 1) as Hone by (apply (ok_late _ _ _ _ Hux Hph); by exists i).
  rewrite (alter_lookup (set_pc Client) _ _ y) by done.
  apply (change_thread w i y _ (λ q z, (if decide (q = o) then set_sem (m_semaphore x - 1) else id) z)); [done|done|by left|done| | |].
  - intros q z. by destruct (decide (q = o)).
  - intros q. apply lookup_alter_dec.
  - intros q z v Hz Hv Hok. set (w' := mkWorld _ _).
    assert (constructing w' q ↔ constructing w q ∧ q ≠ o) as Hcon.
    { split.
      - intros [j Hj]. unfold w' in Hj. rewrite (at_pc_insert w _ y) in Hj by done. destruct Hj as [[_ He]|[Hne Hj]]; [done|].
        split; [by exists j|]. intros ->. by destruct (Hne (ok_creator w Hw j i o Hj Hat)).
      - intros [[j Hj] Hq]. exists j. unfold w'. rewrite (at_pc_insert w _ y) by done. right. split; [|done]. intros ->.
        destruct Hj as (y2&Hy2&He). congruence. }
    assert (pair_ok (constructing w' q) q ((if decide (q = o) then set_sem (m_semaphore x - 1) else id) z) v) as Hv'.
    { destruct (decide (q = o)) as [->|Hq]; [|eapply pair_ok_iff, Hok; tauto]. assert (z = x) as -> by congruence. assert (v = u) as -> by congruence.
      assert (¬ constructing w' o) as Hno by tauto. destruct Hux as [Hrun Hthis Hname Hid Hcb He Hl Hf Ha].
      split; cbn; try done; [lia|intros _; by rewrite Hone]. }
    destruct (decide (x_made z = i)) as [Heq|]; [|done]. assert (v = y) as -> by congruence. apply pair_ok_pc; [by rewrite Hpc|done|done].
Qed.

(** Calls that change one object that is not under construction. *)
Lemma object_ok w i o g : world_ok w → at_pc w i Client → (∀ z, x_made (g z) = x_made z) →
  (∀ z v, pair_ok (constructing w o) o z v → pair_ok (constructing w o) o (g z) v) → world_ok (with_object o g w).
Proof.
  intros Hw (y&Hy&Hpc) Hmade Hg. unfold with_object. rewrite <- (list_insert_id (threads w) i y) by done.
  apply (change_thread w i y _ (λ q z, (if decide (q = o) then g else id) z)); [done|done|by left|done| | |].
  - intros q z. by destruct (decide (q = o)).
  - intros q. apply lookup_alter_dec.
  - intros q z v Hz Hv Hok. eapply pair_ok_iff.
    { symmetry. apply constructing_same with y; [done|by intros p; rewrite Hpc|by intros p; rewrite Hpc]. }
    assert ((if decide (x_made z = i) then y else v) = v) as -> by (destruct (decide (x_made z = i)); congruence).
    destruct (decide (q = o)) as [->|]; [by apply Hg|done].
Qed.

Lemma step_join_ok w i o w' : world_ok w → at_pc w i Client → join i o w = Ret true w' → world_ok w'.
Proof.
  intros Hw Hat. unfold join. intros (x&Hx&Hal&Hk)%on_object_inv. revert Hk. destruct (m_thread x) as [j|]; [|by intros [= <-]].
  destruct (decide (i = j)); [done|]. unfold the_thread. rewrite bind_assoc, bind_gets. destruct (threads w !! j) as [u|]; [|done]. cbn [deref].
  rewrite bind_mret. destruct (o_pc u); try done. rewrite bind_modify. intros [= <-]. apply (object_ok w i); try done.
  intros z v [Hrun Hthis Hname Hid Hcb He Hl Hf Ha]. by split.
Qed.

Lemma step_delete_ok w i o w' : world_ok w → at_pc w i Client → ¬ constructing w o → delete_Thread o w = Ret tt w' → world_ok w'.
Proof.
  intros Hw Hat Hno. unfold delete_Thread. intros (x&Hx&Hal&[= <-])%on_object_inv. apply (object_ok w i); try done.
  intros z v [Hrun Hthis Hname Hid Hcb He Hl Hf Ha]. by split.
Qed.
Lemma step_new_ok w i f name o w' : world_ok w → at_pc w i Client → new_Thread i f name true w = Ret o w' → world_ok w'.
Proof.
  intros Hw (y&Hy&Hpc). pose proof (lookup_lt_Some _ _ _ Hy) as Hlt. unfold new_Thread. cbn [negb]. rewrite bind_gets. unfold id.
  set (x0 := mkThread _ _ _ _ _ _ _). cbv zeta. intros [= <- <-]. rewrite (alter_lookup _ _ _ y) by done.
  set (o := length (objects w)). set (y' := set_pc (InConstructor o) y). set (w' := mkWorld _ _).
  assert (∀ k v, threads w' !! k = Some v ↔ (k = i ∧ v = y') ∨ (k ≠ i ∧ threads w !! k = Some v) ∨
    (k = length (threads w) ∧ v = new_os_thread (RunAt o 0 None))) as Hthr.
  { intros k v. unfold w'. cbn [threads]. rewrite lookup_app_Some, length_insert, list_lookup_insert_Some. split.
    - intros [[(<-&<-&_)|[Hne Hk]]|[Hk Hv]]; [by left|by right; left|]. right; right.
      apply list_lookup_singleton_Some in Hv as [Hk0 <-]. split; [lia|done].
    - intros [[-> ->]|[[Hne Hk]|[-> ->]]]; [by left; left|by left; right|right]. split; [lia|]. by rewrite Nat.sub_diag. }
  assert (∀ q z, objects w' !! q = Some z ↔ objects w !! q = Some z ∨ (q = o ∧ z = x0)) as Hobj.
  { intros q z. unfold w'. cbn [objects]. rewrite lookup_app_Some. split.
    - intros [Hq|[Hle Hq]]; [by left|right]. apply list_lookup_singleton_Some in Hq as [Hq <-]. fold o in Hle, Hq. split; [lia|done].
    - intros [Hq|[-> ->]]; [by left|right]. fold o. split; [lia|]. by rewrite Nat.sub_diag. }
  assert (∀ q z, objects w !! q = Some z → q ≠ o) as Hold by (intros q z Hq%lookup_lt_Some; unfold o; lia).
  assert (∀ k q, at_pc w' k (InConstructor q) → (k = i ∧ q = o) ∨ (k ≠ i ∧ at_pc w k (InConstructor q))) as Hcon.
  { intros k q (v&[[-> ->]|[[Hne Hv]|[-> ->]]]%Hthr&He); [|by right; split; [|exists v]|done]. cbn in He. left. split; [done|congruence]. }
  assert (∀ q, q ≠ o → constructing w q ↔ constructing w' q) as Hcs.
  { intros q Hq. split; intros [k Hk].
    - destruct Hk as (v&Hv&He). exists k, v. split; [|done]. apply Hthr. right; left. split; [intros ->; congruence|done].
    - destruct (Hcon k q Hk) as [[_ ?]|[_ ?]]; [done|by exists k]. }
  destruct Hw as [Hp Hd Hc Hcd Hr Hptr]. split.
  - intros q z [Hz|[-> ->]]%Hobj.
    + destruct (Hp q z Hz) as (v&Hv&Hok). apply (pair_ok_iff _ _ _ _ _ (Hcs q (Hold q z Hz))) in Hok.
      destruct (decide (x_made z = i)) as [Heq|Hne]; [|exists v; split; [apply Hthr; by right; left|done]].
      exists y'. split; [apply Hthr; by left|]. assert (v = y) as -> by congruence. apply pair_ok_pc; [by rewrite Hpc|done|done].
    + exists (new_os_thread (RunAt o 0 None)). split; [apply Hthr; by right; right|].
      assert (constructing w' o) as HP by (exists i, y'; split; [apply Hthr; by left|done]).
      split; cbn; try done; try lia; [intros o' k l [= <- <- <-]; split_and!; [done|lia|done]|by eexists].
  - intros q q' z z' [Hz|[-> ->]]%Hobj [Hz'|[-> ->]]%Hobj He; [by apply (Hd q q' z z')|..|done].
    + destruct (Hp q z Hz) as (v&Hv%lookup_lt_Some&_). cbn in He. lia.
    + destruct (Hp q' z' Hz') as (v&Hv%lookup_lt_Some&_). cbn in He. lia.
  - intros k k' q [[-> ->]|[Hne Hk]]%Hcon [[-> Hq]|[Hne' Hk']]%Hcon; [done|..|by apply (Hc k k' q)].
    + destruct (Hcd k' o Hk') as [z Hz]. by destruct (Hold o z Hz).
    + subst q. destruct (Hcd k o Hk) as [z Hz]. by destruct (Hold o z Hz).
  - intros k q [[-> ->]|[Hne Hk]]%Hcon; [exists x0; apply Hobj; by right|]. destruct (Hcd k q Hk) as [z Hz]. exists z. apply Hobj. by left.
  - intros k q l l' (v&[[-> ->]|[[Hne Hv]|[-> ->]]]%Hthr&He); [done|..].
    + destruct (Hr k q l l') as (z&Hz&Hzk); [by exists v|]. exists z. split; [apply Hobj; by left|done].
    + cbn in He. injection He as <- <- <-. exists x0. split; [apply Hobj; by right|done].
  - intros k v q [[-> ->]|[[Hne Hv]|[-> ->]]]%Hthr Hq; [| |done].
    + destruct (Hptr i y q Hy Hq) as (z&Hz&Hzk). exists z. split; [apply Hobj; by left|done].
    + destruct (Hptr k v q Hv Hq) as (z&Hz&Hzk). exists z. split; [apply Hobj; by left|done].
Qed.

Lemma thread_step_ok w w' i : world_ok w → thread_step i w w' → world_ok w'.
Proof.
  intros Hw Hs. destruct Hs as [w f name o w' Hat Hr|w o w' Hat Hr|w o line local w' Hat Hr|w name w' Hat Hr|w o w' Hat _ Hr|w o w' Hat Hno Hr|w Hat].
  - by apply (step_new_ok w i f name o).
  - by apply (step_return_ok w i o).
  - destruct (run_line_ok w i o line local Hw Hat) as (x&y&_&_&_&_&Hr'&Hok). rewrite Hr' in Hr. by injection Hr as <-.
  - by apply (step_SetName_ok w i name).
  - by apply (step_join_ok w i o).
  - by apply (step_delete_ok w i o).
  - by apply step_end_ok.
Qed.

Lemma reachable_world_ok w : rtc any_step main_only w → world_ok w.
Proof.
  intros Hw. assert (world_ok main_only) as Hok.
  { split; cbn [objects main_only].
    - intros o x Hx. by rewrite lookup_nil in Hx.
    - done.
    - intros i i' o (y&Hy&He). cbn in Hy. apply list_lookup_singleton_Some in Hy as [_ <-]. done.
    - intros i o (y&Hy&He). cbn in Hy. apply list_lookup_singleton_Some in Hy as [_ <-]. done.
    - intros i o k l (y&Hy&He). cbn in Hy. apply list_lookup_singleton_Some in Hy as [_ <-]. done.
    - intros i y o Hy Ht. cbn in Hy. apply list_lookup_singleton_Some in Hy as [_ <-]. done. }
  induction Hw as [|w1 w2 w3 [i Hs] _ IH]; [done|]. apply IH. by apply (thread_step_ok w1 w2 i).
Qed.
(** The steps of the creator and of the thread it makes. *)
Definition pair_step (i j : nat) w w' : Prop := thread_step i w w' ∨ thread_step j w w'.

Lemma started_pc P o x y : pair_ok P o x y → (phase (o_pc y) ≤ 5)%nat → ∃ k l, o_pc y = RunAt o k l ∧ (k ≤ 5)%nat.
Proof.
  intros Hok Hph. destruct (o_pc y) as [| |o' k l|] eqn:Hpc; cbn in Hph; try lia.
  destruct (ok_run _ _ _ _ Hok _ _ _ Hpc) as [-> _]. by exists k, l.
Qed.

Lemma announce w i o x n : world_ok w → at_pc w i (InConstructor o) → objects w !! o = Some x →
  (∃ y, threads w !! x_made x = Some y ∧ (6 ≤ phase (o_pc y) + n)%nat) →
  ∃ w' x', rtc (pair_step i (x_made x)) w w' ∧ world_ok w' ∧ at_pc w' i (InConstructor o) ∧ objects w' !! o = Some x' ∧
    x_made x' = x_made x ∧ ∃ y, threads w' !! x_made x = Some y ∧ (6 ≤ phase (o_pc y))%nat.
Proof.
  revert w x. induction n as [|n IH]; intros w x Hw Hat Hx (y&Hy&Hph); [exists w, x; rewrite Nat.add_0_r in Hph; eauto 10 using rtc_refl|].
  destruct (decide (6 ≤ phase (o_pc y))%nat) as [Hdone|Hmore]; [exists w, x; eauto 10 using rtc_refl|].
  destruct (thread_of w o x Hw Hx) as (v&Hv&Hok). assert (v = y) as -> by congruence.
  destruct (started_pc _ _ _ _ Hok) as (k&l&Hpc&Hk); [lia|]. rewrite Hpc in *. cbn [phase] in *.
  destruct (run_line_ok w (x_made x) o k l Hw ltac:(by exists y)) as (x1&y1&Hx1&_&Hy1&_&Hr&Hw1).
  assert (x1 = x) as -> by congruence. assert (y1 = y) as -> by congruence. set (w1 := mkWorld _ _) in *.
  assert (i ≠ x_made x) as Hne by (intros ->; destruct Hat as (z&Hz&He); congruence).
  assert (objects w1 !! o = Some (line_object k (x_made x) l x)) as Hx1' by (apply list_lookup_insert_eq; by eapply lookup_lt_Some).
  assert (x_made (line_object k (x_made x) l x) = x_made x) as Hmade by (by destruct k as [|[|[|[|[|[|k]]]]]]).
  destruct (IH w1 (line_object k (x_made x) l x)) as (w'&x'&Hs&Hw'&Hat'&Hx'&Hm'&Hend); [done| |done| |].
  - apply at_pc_insert with (y := y); [done|]. by right.
  - rewrite Hmade. exists (line_thread k o l x y). split; [apply list_lookup_insert_eq; by eapply lookup_lt_Some|].
    destruct k as [|[|[|[|[|[|k]]]]]]; cbn; lia.
  - rewrite Hmade in *. exists w', x'. split; [|by split_and!]. eapply rtc_l; [|exact Hs]. right.
    apply (step_run _ w o k l); [by exists y|done].
Qed.

Lemma return_now w i o x y : world_ok w → at_pc w i (InConstructor o) → objects w !! o = Some x → threads w !! x_made x = Some y →
  (6 ≤ phase (o_pc y))%nat → ∃ w', thread_step i w w' ∧ at_pc w' i Client ∧ ¬ constructing w' o.
Proof.
  intros Hw Hat Hx Hy Hph. destruct (thread_of w o x Hw Hx) as (v&Hv&Hok). assert (v = y) as -> by congruence.
  assert (constructing w o) as HP by (by exists i). pose proof Hat as (z&Hz&Hpc). eexists. split; [apply (step_return _ w o); [done|]|].
  - unfold return_Thread, wait. rewrite bind_assoc, (on_object w o _ x Hx (ok_alive _ _ _ _ Hok HP)).
    rewrite (ok_late _ _ _ _ Hok Hph HP). cbn [Z.ltb Z.compare]. rewrite bind_assoc, bind_modify, bind_mret, bind_modify. reflexivity.
  - unfold with_thread, with_object. cbn [objects threads]. rewrite (alter_lookup _ _ _ z) by done. split.
    + apply at_pc_insert with (y := z); [done|]. by left.
    + intros [j Hj]. rewrite (at_pc_insert w _ z) in Hj by done. destruct Hj as [[_ He]|[Hne Hj]]; [done|].
      by destruct (Hne (ok_creator w Hw j i o Hj Hat)).
Qed.

End handshake.
Arguments thread_step {cb} gettid i w w'.
Arguments any_step {cb} gettid w w'.

(** The main thread makes another one. *)
Definition made_one : world unit := Eval vm_compute in
  match new_Thread 0 tt (str "worker") true main_only with Ret _ w => w | _ => main_only end.

(** A thread whose object has been deleted - the destructor detaches it - must not
    set its name. *)
Definition gone : world unit := mkWorld [mkThread 101 (Some 1%nat) None (str "worker") 0 1 false]
  [new_os_thread Client; mkOsThread Client (Some 0%nat) (str "worker") (str "worker")].
Fixpoint run_lines (n k : nat) (l : option unit) : M (world unit) () :=
  match n with
  | 0%nat => mret tt
  | S n => run_line (λ i, 100 + Z.of_nat i) 1 0 k l;; run_lines n (k + 1) (if (k =? 4)%nat then Some tt else l)
  end.
Example name_of_deleted_object :
  (run_lines 6 0 None;; return_Thread 0 0;; delete_Thread 0;; run_lines 1 6 (Some tt)) made_one = Ret tt gone ∧
  SetName 1 (str "x") gone = Crash OutOfBounds.
Proof. split; by vm_compute. Qed.
