(* ===== verification/Locks.v ===== *)
(** * Mutexes and read-write locks (megalo/thread.h)

    [Mutex], [RWMutex] and [Spinlock] forward to pthread, whose locks are the
    class [PthreadLock] with the laws [PthreadLaws]; the null classes do nothing.  Threads
    with guards of one lock are the machine [guard_step], whose guards are
    those of [Thread]: one for reading or for writing per thread, locked
    and unlocked in any order. *)
From stdpp Require Import relations.
From S2P Require Import Prelude Thread.

Inductive mode := Shared | Exclusive.
#[export] Instance mode_eq_dec : EqDecision mode.
Proof. solve_decision. Defined.

(** ** What pthread promises *)

(** [lk_acquire m i k]: thread [i] gets the lock at once, or [None]: it waits.
    [lk_held] lists who holds it, and how. *)
Class PthreadLock (K : Type) := {
  lk_init : K;
  lk_acquire : mode → nat → K → option K;
  lk_release : nat → K → K;
  lk_held : K → list (nat * mode)
}.
(** Readers only, or one alone. *)
Definition compatible (l : list (nat * mode)) : Prop := (∀ x, x ∈ l → x.2 = Shared) ∨ ∃ x, l = [x].

Class PthreadLaws (K : Type) `{PthreadLock K} := {
  law_init : lk_held lk_init = [];
  law_acquire m i k k' : lk_acquire m i k = Some k' →
    lk_held k' ≡ₚ (i, m) :: lk_held k ∧
    (m = Exclusive → lk_held k = []) ∧ (m = Shared → ∀ x, x ∈ lk_held k → x.2 = Shared);
  law_free m i k : lk_held k = [] → is_Some (lk_acquire m i k);
  law_release i m k : compatible (lk_held k) → (i, m) ∈ lk_held k → (i, m) :: lk_held (lk_release i k) ≡ₚ lk_held k
}.

(** ** The classes *)

Section classes.
Context {K : Type} `{PthreadLock K}.

Definition Mutex_lock (i : nat) : K → option K := lk_acquire Exclusive i.
Definition Mutex_unlock (i : nat) : M K () := modify (lk_release i).
Definition Spinlock_lock (i : nat) : K → option K := lk_acquire Exclusive i.
Definition Spinlock_unlock (i : nat) : M K () := modify (lk_release i).
Definition rdlock (i : nat) : K → option K := lk_acquire Shared i.
Definition wrlock (i : nat) : K → option K := lk_acquire Exclusive i.
Definition RWMutex_unlock (i : nat) : M K () := modify (lk_release i).

(** What a guard calls: [ReadScopedLockImpl] and [WriteScopedLockImpl] of an
    [RWMutex], [ScopedLockImpl] of the others. *)
Inductive guard_kind := ReadLock | WriteLock | ScopedLock.
Definition mode_of (g : guard_kind) : mode := match g with ReadLock => Shared | _ => Exclusive end.
Definition acquire (g : guard_kind) : nat → K → option K :=
  match g with ReadLock => rdlock | WriteLock => wrlock | ScopedLock => Mutex_lock end.
End classes.

(** [NullMutex] and [NullRWMutex]. *)
Definition Null_lock {K} (i : nat) (k : K) : option K := Some k.
Definition Null_unlock {K} (i : nat) : M K () := mret tt.

(** ** Threads with guards *)

Section guards.
Context {K : Type}.

Inductive spot := Away | Waiting (g : guard_kind) | Holding (g : guard_kind).
Record owner := mkOwner { o_spot : spot; o_locked : bool }.
Definition owners : Type := K * list owner.

(** [take g i] is [lock], [rdlock] or [wrlock] of the lock, [give i] its [unlock]. *)
Inductive guard_step (take : guard_kind → nat → K → option K) (give : nat → M K ()) : owners → owners → Prop :=
  | step_make k os i g : os !! i = Some (mkOwner Away false) →
      guard_step take give (k, os) (k, <[i := mkOwner (Waiting g) false]> os)
  | step_relock k os i g : os !! i = Some (mkOwner (Holding g) false) →
      guard_step take give (k, os) (k, <[i := mkOwner (Waiting g) false]> os)
  | step_take k os i g k' : os !! i = Some (mkOwner (Waiting g) false) → take g i k = Some k' →
      guard_step take give (k, os) (k', <[i := mkOwner (Holding g) true]> os)
  | step_give k os i g l k' l' (gone : bool) : os !! i = Some (mkOwner (Holding g) l) →
      guard_unlock (give i) (mkGuard k l) = Ret tt (mkGuard k' l') →
      guard_step take give (k, os) (k', <[i := mkOwner (if gone then Away else Holding g) l']> os).
End guards.
Arguments owners K : clear implicits.

Section exclusion.
Context {K : Type} `{PthreadLaws K}.

(** Who holds the lock as far as the guards know. *)
Definition claims (x : nat * owner) : option (nat * mode) :=
  match x.2 with mkOwner (Holding g) true => Some (x.1, mode_of g) | _ => None end.
Definition claimed (os : list owner) : list (nat * mode) := omap claims (imap pair os).

#[export] Instance compatible_perm : Proper ((≡ₚ) ==> iff) compatible.
Proof.
  intros l l' Hp. unfold compatible. split; intros [Ha|[x Hx]].
  - left. intros y. rewrite <- Hp. apply Ha.
  - right. exists x. subst l. by apply Permutation_singleton_l in Hp.
  - left. intros y. rewrite Hp. apply Ha.
  - right. exists x. subst l'. by apply Permutation_singleton_r in Hp.
Qed.

(** The lock is held as the guards say. *)
Definition owners_ok (s : owners K) : Prop :=
  lk_held s.1 ≡ₚ claimed s.2 ∧ compatible (lk_held s.1) ∧
  ∀ i o, s.2 !! i = Some o → o_locked o = true → ∃ g, o_spot o = Holding g.

(** The claims of one thread stand apart from the others'. *)
Lemma claimed_insert os i o : os !! i = Some o → ∃ rest,
  claimed os ≡ₚ option_list (claims (i, o)) ++ rest ∧ ∀ o', claimed (<[i := o']> os) ≡ₚ option_list (claims (i, o')) ++ rest.
Proof.
  intros Hi. assert (∃ rest, ∀ o', claimed (<[i := o']> os) ≡ₚ option_list (claims (i, o')) ++ rest) as [rest Hr].
  2: { exists rest. split; [|done]. by rewrite <- (Hr o), (list_insert_id _ _ _ Hi). } pose proof (take_drop_middle _ _ _ Hi) as Hs.
  set (l1 := take i os) in *. set (l2 := drop (S i) os) in *.
  assert (length l1 = i) as Hl by (apply length_take_le; pose proof (lookup_lt_Some _ _ _ Hi); lia).
  exists (omap claims (imap pair l1) ++ omap claims (imap ((λ n, pair (i + n)%nat) ∘ S) l2)). intros o'.
  rewrite <- Hs, insert_app_r_alt by lia. rewrite Hl, Nat.sub_diag. unfold claimed. simpl.
  rewrite imap_app, omap_app. simpl. rewrite Hl, Nat.add_0_r.
  destruct (claims (i, o')) as [x|]; simpl; [by rewrite <- Permutation_middle|done].
Qed.

Lemma claimed_none os : (∀ i o, os !! i = Some o → o_locked o = false) → claimed os = [].
Proof.
  intros Hf. unfold claimed. destruct (omap claims (imap pair os)) as [|x l] eqn:E; [done|].
  assert (x ∈ omap claims (imap pair os)) as Hx by (rewrite E; by left).
  apply list_elem_of_omap in Hx as ([i o]&Hio&Hx). apply elem_of_lookup_imap in Hio as (j&p&[= -> ->]&Hp).
  pose proof (Hf _ _ Hp) as Hl. destruct p as [[] []]; done.
Qed.
Lemma claimed_in os i g : os !! i = Some (mkOwner (Holding g) true) → (i, mode_of g) ∈ claimed os.
Proof.
  intros Hi. unfold claimed. apply list_elem_of_omap. exists (i, mkOwner (Holding g) true). split; [|done].
  apply elem_of_lookup_imap. by exists i, (mkOwner (Holding g) true).
Qed.

Lemma owners_step s s' : owners_ok s → guard_step acquire RWMutex_unlock s s' → owners_ok s'.
Proof.
  intros (Hh&Hc&Hs) Ht. unfold owners_ok.
  assert (∀ (os : list owner) i o', (∀ j o, os !! j = Some o → o_locked o = true → ∃ g, o_spot o = Holding g) →
    (o_locked o' = true → ∃ g, o_spot o' = Holding g) →
    ∀ j o, <[i := o']> os !! j = Some o → o_locked o = true → ∃ g, o_spot o = Holding g) as Hspot.
  { intros os i o' Ho Ho' j o [(->&<-&_)|[_ Hj]]%list_lookup_insert_Some; [done|by apply (Ho j)]. }
  destruct Ht as [k os i g Hi|k os i g Hi|k os i g k' Hi Ht|k os i g l k' l' gone Hi Ht]; cbn [fst snd] in *;
    destruct (claimed_insert os i _ Hi) as (rest&H0i&Hr).
  - split; [by rewrite Hh, H0i, Hr|]. split; [done|by apply Hspot].
  - split; [by rewrite Hh, H0i, Hr|]. split; [done|by apply Hspot].
  - assert (lk_acquire (mode_of g) i k = Some k') as Ha by (by destruct g).
    destruct (law_acquire _ _ _ _ Ha) as (Hp&Hex&Hsh). split; [by rewrite Hp, Hh, H0i, Hr|]. split.
    + rewrite Hp. destruct (mode_of g) eqn:Hg.
      * left. intros x [->|Hx]%elem_of_cons; [done|by apply Hsh].
      * rewrite Hex by done. right. by eexists.
    + apply Hspot; [done|]. by eexists.
  - destruct l; injection Ht as <- <-.
    + simpl in H0i. assert ((i, mode_of g) ∈ lk_held k) as Hin by (rewrite Hh, H0i; by left).
      pose proof (law_release _ _ _ Hc Hin) as Hp. rewrite Hh, H0i in Hp. apply Permutation_cons_inv in Hp.
      assert (claims (i, mkOwner (if gone then Away else Holding g) false) = None) as Hn by (by destruct gone).
      split; [rewrite Hr, Hn; exact Hp|]. split; [|by apply Hspot].
      rewrite Hp. rewrite Hh, H0i in Hc. destruct Hc as [Hc|[x Hx]].
      * left. intros y Hy. apply Hc. by right.
      * left. intros y Hy. injection Hx as _ ->. by apply elem_of_nil in Hy.
    + assert (claims (i, mkOwner (if gone then Away else Holding g) false) = None) as Hn by (by destruct gone).
      split; [by rewrite Hh, H0i, Hr, Hn|]. split; [done|by apply Hspot].
Qed.

Definition new_owners (n : nat) : owners K := (lk_init, replicate n (mkOwner Away false)).
Lemma reachable_owners_ok n s : rtc (guard_step acquire RWMutex_unlock) (new_owners n) s → owners_ok s.
Proof.
  intros Hs. assert (owners_ok (new_owners n)) as Hok.
  { split; [|split]; simpl.
    - rewrite law_init, claimed_none; [done|]. by intros i o [-> _]%lookup_replicate.
    - rewrite law_init. left. by intros x ?%elem_of_nil.
    - by intros i o [-> _]%lookup_replicate. }
  induction Hs as [|s1 s2 s3 Hs _ IH]; [done|]. apply IH. by eapply owners_step.
Qed.

(** However threads interleave the calls on their guards of one lock, two that
    are locked at once are both for reading; the lock is held exactly by the
    locked guards, so that it is free when the last is gone, and a thread
    that waits for a free lock gets it. *)
Theorem lock_guards_exclude n s (Hs : rtc (guard_step acquire RWMutex_unlock) (new_owners n) s) :
  (∀ i j o p, i ≠ j → s.2 !! i = Some o → s.2 !! j = Some p → o_locked o = true → o_locked p = true →
     o_spot o = Holding ReadLock ∧ o_spot p = Holding ReadLock) ∧
  lk_held s.1 ≡ₚ claimed s.2 ∧
  ((∀ i o, s.2 !! i = Some o → o_locked o = false) → lk_held s.1 = [] ∧
    ∀ i g, s.2 !! i = Some (mkOwner (Waiting g) false) → ∃ k,
      guard_step acquire RWMutex_unlock s (k, <[i := mkOwner (Holding g) true]> s.2)).
Proof.
  destruct (reachable_owners_ok n s Hs) as (Hh&Hc&Hsp). split; [|split; [exact Hh|]].
  - intros i j [si li] [sj lj] Hne Hi Hj Hli Hlj. simpl in Hli, Hlj. subst li lj.
    destruct (Hsp _ _ Hi eq_refl) as [g Hg], (Hsp _ _ Hj eq_refl) as [g' Hg']. simpl in *. subst si sj.
    pose proof (claimed_in _ _ _ Hi) as Hci. pose proof (claimed_in _ _ _ Hj) as Hcj.
    rewrite <- Hh in Hci, Hcj. destruct Hc as [Hc|[x Hx]].
    + specialize (Hc _ Hci) as H1. specialize (Hc _ Hcj). by destruct g, g'.
    + rewrite Hx in Hci, Hcj. apply list_elem_of_singleton in Hci as <-. by apply list_elem_of_singleton in Hcj as [= <- _].
  - intros Hf. assert (lk_held s.1 = []) as Hnil by (apply Permutation_nil_r; by rewrite Hh, claimed_none).
    split; [done|]. intros i g Hi. destruct (law_free (mode_of g) i s.1 Hnil) as [k Hk]. exists k.
    destruct s as [k0 os]. apply step_take; [done|]. by destruct g.
Qed.
End exclusion.

(** ** A lock that is the list of its holders *)

Fixpoint leave (i : nat) (l : list (nat * mode)) : list (nat * mode) :=
  match l with [] => [] | x :: l => if decide (x.1 = i) then l else x :: leave i l end.
#[export] Instance holders : PthreadLock (list (nat * mode)) := {
  lk_init := [];
  lk_acquire m i k :=
    match m with
    | Exclusive => match k with [] => Some [(i, Exclusive)] | _ => None end
    | Shared => if decide (Forall (λ x, x.2 = Shared) k) then Some ((i, Shared) :: k) else None
    end;
  lk_release := leave;
  lk_held k := k
}.
Lemma leave_ok i m l : (∀ x, x ∈ l → x.1 = i → x.2 = m) → (i, m) ∈ l → (i, m) :: leave i l ≡ₚ l.
Proof.
  induction l as [|[j m'] l IH]; intros Hm Hin; [by apply elem_of_nil in Hin|]. simpl.
  destruct (decide (j = i)) as [->|Hne].
  - by rewrite <- (Hm (i, m') ltac:(by left) eq_refl).
  - apply elem_of_cons in Hin as [[= -> _]|Hin]; [done|]. rewrite Permutation_swap. f_equiv. apply IH; [|done].
    intros x Hx. apply Hm. by right.
Qed.
#[export] Instance holders_laws : PthreadLaws (list (nat * mode)).
Proof.
  split; simpl; [done|..].
  - intros [] i k k'.
    + case_decide as Hf; [|done]. intros [= <-]. split; [done|]. split; [done|]. intros _. by apply Forall_forall.
    + destruct k; [|done]. by intros [= <-].
  - intros [] i k ->; [rewrite decide_True by constructor|]; by eexists.
  - intros i m k Hc Hin. apply leave_ok; [|done]. intros x Hx _. destruct Hc as [Hc|[y ->]].
    + by rewrite (Hc x Hx), <- (Hc _ Hin).
    + apply list_elem_of_singleton in Hx as ->, Hin. by rewrite <- Hin.
Qed.

(** Two readers share the lock while a writer waits. *)
Definition two_readers : owners (list (nat * mode)) :=
  ([(1%nat, Shared); (0%nat, Shared)],
   [mkOwner (Holding ReadLock) true; mkOwner (Holding ReadLock) true; mkOwner (Waiting WriteLock) false]).
Lemma two_readers_reachable : rtc (guard_step acquire RWMutex_unlock) (new_owners 3) two_readers.
Proof.
  eapply rtc_l; [by apply (step_make _ _ _ _ 0 ReadLock)|]. eapply rtc_l; [by apply (step_make _ _ _ _ 1 ReadLock)|].
  eapply rtc_l; [by apply (step_make _ _ _ _ 2 WriteLock)|].
  eapply rtc_l; [by apply (step_take _ _ _ _ 0 ReadLock [(0%nat, Shared)])|].
  eapply rtc_l; [by apply (step_take _ _ _ _ 1 ReadLock [(1%nat, Shared); (0%nat, Shared)])|]. apply rtc_refl.
Qed.
Lemma lock_guards_witness : o_spot (mkOwner (Holding ReadLock) true) = Holding ReadLock ∧
  lk_held two_readers.1 ≡ₚ claimed two_readers.2.
Proof.
  destruct (lock_guards_exclude 3 two_readers two_readers_reachable) as (Hx&Hh&_). split; [|exact Hh].
  apply (Hx 0%nat 1%nat (mkOwner (Holding ReadLock) true) (mkOwner (Holding ReadLock) true)); done.
Defined.

(** The null locks let two writers in. *)
Example null_lets_in : ∃ s, rtc (guard_step (λ _, Null_lock) Null_unlock) (tt, replicate 2 (mkOwner Away false)) s ∧
  s.2 = replicate 2 (mkOwner (Holding WriteLock) true).
Proof.
  eexists. split.
  - eapply rtc_l; [by apply (step_make _ _ _ _ 0 WriteLock)|]. eapply rtc_l; [by apply (step_make _ _ _ _ 1 WriteLock)|].
    eapply rtc_l; [by apply (step_take _ _ _ _ 0 WriteLock tt)|]. eapply rtc_l; [by apply (step_take _ _ _ _ 1 WriteLock tt)|].
    apply rtc_refl.
  - done.
Qed.
