(* ===== verification/Fiber.v ===== *)
(** * Fibers (megalo/fiber.h, megalo/fiber.cc)

    A [Fiber] lives in a heap; a thread's thread-locals ([t_fiber],
    [t_threadFiber], and [t_scheduler_fiber] of scheduler.cc) are a record per
    thread, threads being numbered.  What the model keeps of a context
    ([ucontext_t]) is which function [makecontext] gave it; [swapcontext] is
    the point where an operation ends and another fiber's code goes on, so an
    operation here is the code up to and including that switch.  [getcontext]
    and [swapcontext] succeed. *)
From S2P Require Import Prelude.
From stdpp Require Import gmap.
#[local] Open Scope Z_scope.

Definition faddr := Z.

(** What a fiber runs: a function of the client, or [Scheduler::run] or
    [Scheduler::idle] bound to the scheduler. *)
Inductive func := User (f : Z) | BindRun | BindIdle.

#[global] Instance func_eq_dec : EqDecision func.
Proof. solve_decision. Defined.

Inductive State := INIT | HOLD | EXEC | TERM | READY | EXCEPT.

#[global] Instance State_eq_dec : EqDecision State.
Proof. solve_decision. Defined.

(** The function a context starts with. *)
Inductive entry := NoEntry | EnterMainFunc | EnterCallerMainFunc.

Record fiber := Fiber {
  m_id : Z;
  m_stacksize : Z;
  m_state : State;
  m_ctx : entry;
  m_stack : bool;        (* is [m_stack] not null? *)
  m_cb : option func
}.

Record tls := Tls {
  t_fiber : option faddr;
  t_threadFiber : option faddr;
  t_scheduler_fiber : option faddr
}.

Record fibers := Fibers {
  f_heap : gmap faddr fiber;
  f_brk : faddr;              (* the next address [new] returns *)
  s_fiber_id : Z;
  s_fiber_count : Z;
  f_tls : list tls
}.

Definition set_heap (h : gmap faddr fiber) (s : fibers) : fibers :=
  Fibers h (f_brk s) (s_fiber_id s) (s_fiber_count s) (f_tls s).
Definition set_count (n : Z) (s : fibers) : fibers :=
  Fibers (f_heap s) (f_brk s) (s_fiber_id s) n (f_tls s).
Definition set_tls (l : list tls) (s : fibers) : fibers :=
  Fibers (f_heap s) (f_brk s) (s_fiber_id s) (s_fiber_count s) l.
Definition set_state (v : State) (f : fiber) : fiber :=
  Fiber (m_id f) (m_stacksize f) v (m_ctx f) (m_stack f) (m_cb f).
Definition set_cb (c : option func) (f : fiber) : fiber :=
  Fiber (m_id f) (m_stacksize f) (m_state f) (m_ctx f) (m_stack f) c.
Definition set_ctx (e : entry) (f : fiber) : fiber :=
  Fiber (m_id f) (m_stacksize f) (m_state f) e (m_stack f) (m_cb f).

Definition get_fiber (a : faddr) : M fibers fiber := λ s, deref (f_heap s !! a) s.
Definition put_fiber (a : faddr) (f : fiber) : M fibers () :=
  modify (λ s, set_heap (<[a := f]> (f_heap s)) s).
Definition upd_state (a : faddr) (v : State) : M fibers () :=
  f ← get_fiber a; put_fiber a (set_state v f).

(** The thread-locals of thread [i]. *)
Definition get_tls (i : nat) : M fibers tls := λ s, deref (f_tls s !! i) s.

Definition SetThis (i : nat) (f : option faddr) : M fibers () :=
  t ← get_tls i;
  modify (λ s, set_tls (<[i := Tls f (t_threadFiber t) (t_scheduler_fiber t)]> (f_tls s)) s).
Definition set_threadFiber (i : nat) (f : option faddr) : M fibers () :=
  t ← get_tls i;
  modify (λ s, set_tls (<[i := Tls (t_fiber t) f (t_scheduler_fiber t)]> (f_tls s)) s).
Definition set_scheduler_fiber (i : nat) (f : option faddr) : M fibers () :=
  t ← get_tls i;
  modify (λ s, set_tls (<[i := Tls (t_fiber t) (t_threadFiber t) f]> (f_tls s)) s).

(** [new]: the object at the next address. *)
Definition alloc (f : fiber) : M fibers faddr := λ s,
  Ret (f_brk s) (Fibers (<[f_brk s := f]> (f_heap s)) (f_brk s + 1)
    (s_fiber_id s) (s_fiber_count s) (f_tls s)).

Definition next_id : M fibers Z := λ s,
  let n := u64 (s_fiber_id s + 1) in
  Ret n (Fibers (f_heap s) (f_brk s) n (s_fiber_count s) (f_tls s)).

(** [Fiber::Fiber()], the main fiber of thread [i]. *)
Definition new_main_Fiber (i : nat) : M fibers faddr :=
  a ← alloc (Fiber 0 0 EXEC NoEntry false None);
  SetThis i (Some a);;
  modify (λ s, set_count (u64 (s_fiber_count s + 1)) s);;
  mret a.

(** [Fiber::Fiber(cb, stack_size, use_caller)]; [g] is the value of the
    configuration variable [fiber.stack_size]. *)
Definition new_Fiber (g : Z) (cb : option func) (stack_size : Z) (use_caller : bool) :
    M fibers faddr :=
  id ← next_id;
  modify (λ s, set_count (u64 (s_fiber_count s + 1)) s);;
  let size := u32 (if stack_size =? 0 then g else stack_size) in
  alloc (Fiber id size INIT
    (if use_caller then EnterCallerMainFunc else EnterMainFunc) true cb).

(** [Fiber::~Fiber()], run on thread [i]. *)
Definition delete_Fiber (i : nat) (a : faddr) : M fibers () :=
  modify (λ s, set_count (u64 (s_fiber_count s - 1)) s);;
  f ← get_fiber a;
  (if m_stack f then
     massert (bool_decide (m_state f = INIT) || bool_decide (m_state f = TERM))
   else
     massert (bool_decide (m_cb f = None));;
     massert (bool_decide (m_state f = EXEC));;
     t ← get_tls i;
     if bool_decide (t_fiber t = Some a) then SetThis i None else mret tt);;
  modify (λ s, set_heap (delete a (f_heap s)) s).

Definition reset (a : faddr) (cb : option func) : M fibers () :=
  f ← get_fiber a;
  massert (m_stack f);;
  massert (bool_decide (m_state f = TERM) || bool_decide (m_state f = INIT));;
  put_fiber a (set_state INIT (set_ctx EnterMainFunc (set_cb cb f))).

(** [Fiber::call()]: [swapcontext(&t_threadFiber->m_ctx, &m_ctx)]. *)
Definition call (i : nat) (a : faddr) : M fibers () :=
  SetThis i (Some a);;
  f ← get_fiber a;
  massert (negb (bool_decide (m_state f = EXEC)));;
  put_fiber a (set_state EXEC f);;
  t ← get_tls i;
  _ ← deref (t_threadFiber t);
  mret tt.

Definition back (i : nat) : M fibers () :=
  t ← get_tls i;
  SetThis i (t_threadFiber t);;
  _ ← deref (t_threadFiber t);
  mret tt.

Definition swapIn (i : nat) (a : faddr) : M fibers () :=
  SetThis i (Some a);;
  f ← get_fiber a;
  massert (negb (bool_decide (m_state f = EXEC)));;
  put_fiber a (set_state EXEC f);;
  t ← get_tls i;
  _ ← deref (t_scheduler_fiber t);
  mret tt.

Definition swapOut (i : nat) : M fibers () :=
  t ← get_tls i;
  SetThis i (t_scheduler_fiber t);;
  _ ← deref (t_scheduler_fiber t);
  mret tt.

Definition GetFiberId (i : nat) : M fibers Z :=
  t ← get_tls i;
  match t_fiber t with
  | Some a => f ← get_fiber a; mret (m_id f)
  | None => mret 0
  end.

Definition GetThis (i : nat) : M fibers faddr :=
  t ← get_tls i;
  match t_fiber t with
  | Some a => mret a
  | None =>
      a ← new_main_Fiber i;
      t ← get_tls i;
      massert (bool_decide (t_fiber t = Some a));;
      set_threadFiber i (Some a);;
      mret a
  end.

(** The two halves of a yield: the new state is visible to other threads
    before the context is saved by [swapOut]. *)
Definition yield_state (i : nat) (v : State) : M fibers faddr :=
  cur ← GetThis i;
  f ← get_fiber cur;
  massert (bool_decide (m_state f = EXEC));;
  put_fiber cur (set_state v f);;
  mret cur.

Definition YieldToReady (i : nat) : M fibers () :=
  _ ← yield_state i READY; swapOut i.
Definition YieldToHold (i : nat) : M fibers () :=
  _ ← yield_state i HOLD; swapOut i.

Definition TotalFibers : M fibers Z := gets s_fiber_count.

(** The end of [MainFunc] and [CalllerMainFunc]: the function returned, or
    threw; calling an empty function throws [std::bad_function_call]. *)
Inductive ending := Returned | Threw.

Definition main_entry (i : nat) : M fibers (option func) :=
  cur ← GetThis i;
  f ← get_fiber cur;
  mret (m_cb f).

Definition main_end (i : nat) (e : ending) : M fibers () :=
  cur ← GetThis i;
  f ← get_fiber cur;
  match e with
  | Returned => put_fiber cur (set_state TERM (set_cb None f))
  | Threw => put_fiber cur (set_state EXCEPT f)
  end.

(** From the end of the function to the switch back to the scheduler. *)
Definition MainFunc_end (i : nat) (e : ending) : M fibers () := main_end i e;; swapOut i.
Definition CalllerMainFunc_end (i : nat) (e : ending) : M fibers () := main_end i e;; back i.

(** How client code in a fiber gives the thread back. *)
Inductive leave := YieldReady | YieldHold | Ends (e : ending).

Definition leave_state (i : nat) (l : leave) : M fibers () :=
  match l with
  | YieldReady => _ ← yield_state i READY; mret tt
  | YieldHold => _ ← yield_state i HOLD; mret tt
  | Ends e => main_end i e
  end.

(** ** Switches on states that have what they need *)

Lemma get_tls_ok i s t : f_tls s !! i = Some t → get_tls i s = Ret t s.
Proof. intros H. unfold get_tls. by rewrite H. Qed.
Lemma get_fiber_ok a s x : f_heap s !! a = Some x → get_fiber a s = Ret x s.
Proof. intros H. unfold get_fiber. by rewrite H. Qed.

Definition put (a : faddr) (x : fiber) (i : nat) (t : tls) (s : fibers) : fibers :=
  set_heap (<[a := x]> (f_heap s)) (set_tls (<[i := t]> (f_tls s)) s).

Lemma swapIn_ok i a s t x m :
  f_tls s !! i = Some t → f_heap s !! a = Some x → m_state x ≠ EXEC →
  t_scheduler_fiber t = Some m →
  swapIn i a s = Ret tt (put a (set_state EXEC x) i (Tls (Some a) (t_threadFiber t) (Some m)) s).
Proof.
  intros Ht Hx Hne Hm. unfold swapIn, SetThis. rewrite bind_assoc.
  mstep (get_tls_ok _ _ _ Ht). msteps. rewrite Hm.
  set (s1 := set_tls _ s). assert (f_heap s1 !! a = Some x) as Hx1 by done.
  mstep (get_fiber_ok _ _ _ Hx1). rewrite bool_decide_false by done. simpl. rewrite bind_mret.
  unfold put_fiber. rewrite bind_modify.
  assert (f_tls s1 !! i = Some (Tls (Some a) (t_threadFiber t) (Some m))) as Ht1.
  { simpl. apply list_lookup_insert_eq. by eapply lookup_lt_Some. }
  erewrite bind_ret by (apply get_tls_ok, Ht1). done.
Qed.

Lemma swapOut_ok i s t m :
  f_tls s !! i = Some t → t_scheduler_fiber t = Some m →
  swapOut i s = Ret tt (set_tls (<[i := Tls (Some m) (t_threadFiber t) (Some m)]> (f_tls s)) s).
Proof.
  intros Ht Hm. unfold swapOut, SetThis. mstep (get_tls_ok _ _ _ Ht). rewrite bind_assoc.
  mstep (get_tls_ok _ _ _ Ht). msteps. by rewrite Hm.
Qed.

Lemma main_end_ok i s t a x e :
  f_tls s !! i = Some t → t_fiber t = Some a → f_heap s !! a = Some x →
  main_end i e s = Ret tt (set_heap (<[a := match e with
      | Returned => set_state TERM (set_cb None x) | Threw => set_state EXCEPT x end]> (f_heap s)) s).
Proof.
  intros Ht Ha Hx. unfold main_end, GetThis. rewrite bind_assoc.
  mstep (get_tls_ok _ _ _ Ht). rewrite Ha, bind_mret. mstep (get_fiber_ok _ _ _ Hx). by destruct e.
Qed.

Lemma yield_state_ok i s t a x v :
  f_tls s !! i = Some t → t_fiber t = Some a → f_heap s !! a = Some x → m_state x = EXEC →
  yield_state i v s = Ret a (set_heap (<[a := set_state v x]> (f_heap s)) s).
Proof.
  intros Ht Ha Hx Hs. unfold yield_state, GetThis. rewrite bind_assoc.
  mstep (get_tls_ok _ _ _ Ht). rewrite Ha, bind_mret. mstep (get_fiber_ok _ _ _ Hx).
  by rewrite Hs.
Qed.

Lemma fiber_reset_ok a c s x :
  f_heap s !! a = Some x → m_stack x = true → m_state x = TERM ∨ m_state x = INIT →
  reset a c s = Ret tt
    (set_heap (<[a := set_state INIT (set_ctx EnterMainFunc (set_cb c x))]> (f_heap s)) s).
Proof.
  intros Hx Hst Hs. unfold reset. mstep (get_fiber_ok _ _ _ Hx). rewrite Hst.
  by destruct Hs as [-> | ->].
Qed.

Lemma reset_assert a c s x :
  f_heap s !! a = Some x → m_state x ≠ TERM → m_state x ≠ INIT →
  reset a c s = Crash AssertFailed.
Proof.
  intros Hx H1 H2. unfold reset. mstep (get_fiber_ok _ _ _ Hx).
  destruct (m_stack x); [|done]. rewrite !bool_decide_false by done. done.
Qed.

(** The state a fiber is left in. *)
Definition left_state (l : leave) : State :=
  match l with
  | YieldReady => READY
  | YieldHold => HOLD
  | Ends Returned => TERM
  | Ends Threw => EXCEPT
  end.

Definition leave_op (i : nat) (l : leave) : M fibers () :=
  match l with
  | YieldReady => YieldToReady i
  | YieldHold => YieldToHold i
  | Ends e => MainFunc_end i e
  end.

Lemma leave_op_halves i l s : leave_op i l s = (leave_state i l;; swapOut i) s.
Proof.
  destruct l as [| |e]; simpl; unfold YieldToReady, YieldToHold, MainFunc_end;
    rewrite ?bind_assoc; done.
Qed.

Lemma leave_state_ok i l s t a x :
  f_tls s !! i = Some t → t_fiber t = Some a → f_heap s !! a = Some x → m_state x = EXEC →
  ∃ y, leave_state i l s = Ret tt (set_heap (<[a := y]> (f_heap s)) s) ∧
    m_state y = left_state l ∧
    m_cb y = match l with Ends Returned => None | _ => m_cb x end.
Proof.
  intros Ht Ha Hx Hs. destruct l as [| |e]; simpl.
  - eexists. split; [by erewrite bind_ret by (by eapply yield_state_ok)|done].
  - eexists. split; [by erewrite bind_ret by (by eapply yield_state_ok)|done].
  - destruct e; (eexists; split; [by eapply main_end_ok|done]).
Qed.

(** C37. A switch into a fiber and back is a round trip: [swapIn] runs the
    fiber in state [EXEC]; when it yields, returns or throws the thread is
    back in its scheduler fiber, and nothing has changed but that fiber's
    state (and its function, dropped when it returned). *)
Theorem fiber_round_trip (i : nat) (a m : faddr) (s : fibers) (t : tls) (x : fiber) (l : leave)
    (Ht : f_tls s !! i = Some t) (Hm : t_scheduler_fiber t = Some m)
    (Hx : f_heap s !! a = Some x) (Hne : m_state x ≠ EXEC) :
  ∃ s1 s2 y, swapIn i a s = Ret tt s1 ∧
    f_heap s1 = <[a := set_state EXEC x]> (f_heap s) ∧
    (t_fiber <$> f_tls s1 !! i) = Some (Some a) ∧
    leave_op i l s1 = Ret tt s2 ∧
    f_heap s2 = <[a := y]> (f_heap s) ∧ m_state y = left_state l ∧
    m_cb y = (match l with Ends Returned => None | _ => m_cb x end) ∧
    f_tls s2 = <[i := Tls (Some m) (t_threadFiber t) (Some m)]> (f_tls s) ∧
    s_fiber_count s2 = s_fiber_count s.
Proof.
  rewrite (swapIn_ok i a s t x m Ht Hx Hne Hm). set (s1 := put _ _ _ _ s).
  set (t1 := Tls (Some a) (t_threadFiber t) (Some m)).
  assert (f_tls s1 !! i = Some t1) as Ht1.
  { simpl. apply list_lookup_insert_eq. by eapply lookup_lt_Some. }
  assert (f_heap s1 !! a = Some (set_state EXEC x)) as Hx1 by (simpl; by rewrite lookup_insert_eq).
  destruct (leave_state_ok i l s1 t1 a _ Ht1 eq_refl Hx1 eq_refl) as (y&Hl&Hy&Hc).
  set (s2 := set_heap (<[a:=y]> (f_heap s1)) s1) in Hl.
  exists s1, (set_tls (<[i := Tls (Some m) (t_threadFiber t) (Some m)]> (f_tls s2)) s2), y.
  split_and!; try done.
  - by rewrite Ht1.
  - rewrite (leave_op_halves i l s1). erewrite bind_ret by exact Hl.
    by rewrite (swapOut_ok i s2 t1 m) by done.
  - simpl. by rewrite insert_insert_eq.
  - simpl. by rewrite list_insert_insert_eq.
Qed.

Definition ex_fibers : fibers :=
  Fibers (<[1 := Fiber 0 0 EXEC NoEntry false None]>
          (<[2 := Fiber 1 131072 INIT EnterMainFunc true (Some (User 7))]> ∅)) 3 1 2
    [Tls (Some 1) (Some 1) (Some 1)].

Lemma fiber_round_trip_witness :
  ∃ s1 s2 y, swapIn 0 2 ex_fibers = Ret tt s1 ∧
    f_heap s1 = <[2 := Fiber 1 131072 EXEC EnterMainFunc true (Some (User 7))]> (f_heap ex_fibers) ∧
    (t_fiber <$> f_tls s1 !! 0%nat) = Some (Some 2) ∧
    leave_op 0 YieldHold s1 = Ret tt s2 ∧
    f_heap s2 = <[2 := y]> (f_heap ex_fibers) ∧ m_state y = HOLD ∧
    m_cb y = Some (User 7) ∧
    f_tls s2 = <[0%nat := Tls (Some 1) (Some 1) (Some 1)]> (f_tls ex_fibers) ∧
    s_fiber_count s2 = 2.
Proof.
  apply (fiber_round_trip 0 2 1 ex_fibers (Tls (Some 1) (Some 1) (Some 1))
    (Fiber 1 131072 INIT EnterMainFunc true (Some (User 7))) YieldHold); [done|done|by vm_compute|done].
Defined.
