(* ===== verification/Scheduler.v ===== *)
(** * Scheduler (megalo/scheduler.h, megalo/scheduler.cc)

    Worker threads are numbered; each has its position in [Scheduler::run] as a
    program counter.  One step of a worker runs to the next point where another
    thread can observe or change the shared state: the end of the section that
    holds [m_mutex], a switch to or from a fiber, the release of
    [m_activeThreadCount].  Between [PRun] and [PLeaving] the fiber runs client
    code, which may call [schedule] and ends by a yield, a return or an
    exception.  [m_tickles] counts the calls of [tickle]; [h_in] and [h_out]
    record the tasks put in and taken from [m_fibers]. *)
From S2P Require Import Prelude Fiber.
From stdpp Require Import gmap relations.
#[local] Open Scope Z_scope.

(** [FiberAndThread]. *)
Record task := Task {
  ft_fiber : option faddr;
  ft_cb : option func;
  ft_thread : Z
}.

(** What a worker is running: a fiber taken from the queue, its [cb_fiber], or
    its idle fiber. *)
Inductive kind := KFiber (f : faddr) | KCb | KIdle.

Inductive pc :=
  | PStart                                     (* about to enter [run] *)
  | PTop                                       (* top of [while(true)] *)
  | PTaken (ft : option task) (tickle_me : bool)  (* [m_mutex] released *)
  | PRun (k : kind)                            (* inside [swapIn] *)
  | PLeaving (k : kind)                        (* state changed, not yet switched *)
  | PAfter (k : kind)                          (* back, count released *)
  | PExit                                      (* not in [run] *).

Record worker := Worker {
  w_tid : Z;                       (* [GetThreadId()] *)
  w_pc : pc;
  w_idle_fiber : option faddr;
  w_cb_fiber : option faddr
}.

Record sched := Sched {
  s_fibers : fibers;
  m_threads : list nat;            (* the workers of [m_threads] *)
  m_fibers : list task;
  m_threadCount : Z;
  m_threadIds : list Z;
  m_activeThreadCount : Z;
  m_idleThreadCount : Z;
  m_stopping : bool;
  m_autoStop : bool;
  m_rootThread : Z;
  m_rootFiber : option faddr;
  m_workers : list worker;
  m_tickles : Z;
  h_in : list task;
  h_out : list (Z * task)
}.

Definition set_fibers (v : fibers) (s : sched) : sched :=
  Sched v (m_threads s) (m_fibers s) (m_threadCount s) (m_threadIds s) (m_activeThreadCount s)
    (m_idleThreadCount s) (m_stopping s) (m_autoStop s) (m_rootThread s) (m_rootFiber s)
    (m_workers s) (m_tickles s) (h_in s) (h_out s).
Definition set_threads (v : list nat) (ids : list Z) (s : sched) : sched :=
  Sched (s_fibers s) v (m_fibers s) (m_threadCount s) ids (m_activeThreadCount s)
    (m_idleThreadCount s) (m_stopping s) (m_autoStop s) (m_rootThread s) (m_rootFiber s)
    (m_workers s) (m_tickles s) (h_in s) (h_out s).
Definition set_queue (v : list task) (s : sched) : sched :=
  Sched (s_fibers s) (m_threads s) v (m_threadCount s) (m_threadIds s) (m_activeThreadCount s)
    (m_idleThreadCount s) (m_stopping s) (m_autoStop s) (m_rootThread s) (m_rootFiber s)
    (m_workers s) (m_tickles s) (h_in s) (h_out s).
Definition set_active (v : Z) (s : sched) : sched :=
  Sched (s_fibers s) (m_threads s) (m_fibers s) (m_threadCount s) (m_threadIds s) v
    (m_idleThreadCount s) (m_stopping s) (m_autoStop s) (m_rootThread s) (m_rootFiber s)
    (m_workers s) (m_tickles s) (h_in s) (h_out s).
Definition set_idle (v : Z) (s : sched) : sched :=
  Sched (s_fibers s) (m_threads s) (m_fibers s) (m_threadCount s) (m_threadIds s) (m_activeThreadCount s)
    v (m_stopping s) (m_autoStop s) (m_rootThread s) (m_rootFiber s)
    (m_workers s) (m_tickles s) (h_in s) (h_out s).
Definition set_stop (stopping autoStop : bool) (s : sched) : sched :=
  Sched (s_fibers s) (m_threads s) (m_fibers s) (m_threadCount s) (m_threadIds s) (m_activeThreadCount s)
    (m_idleThreadCount s) stopping autoStop (m_rootThread s) (m_rootFiber s)
    (m_workers s) (m_tickles s) (h_in s) (h_out s).
Definition set_workers (v : list worker) (s : sched) : sched :=
  Sched (s_fibers s) (m_threads s) (m_fibers s) (m_threadCount s) (m_threadIds s) (m_activeThreadCount s)
    (m_idleThreadCount s) (m_stopping s) (m_autoStop s) (m_rootThread s) (m_rootFiber s)
    v (m_tickles s) (h_in s) (h_out s).
Definition set_tickles (v : Z) (s : sched) : sched :=
  Sched (s_fibers s) (m_threads s) (m_fibers s) (m_threadCount s) (m_threadIds s) (m_activeThreadCount s)
    (m_idleThreadCount s) (m_stopping s) (m_autoStop s) (m_rootThread s) (m_rootFiber s)
    (m_workers s) v (h_in s) (h_out s).
Definition set_history (i : list task) (o : list (Z * task)) (s : sched) : sched :=
  Sched (s_fibers s) (m_threads s) (m_fibers s) (m_threadCount s) (m_threadIds s) (m_activeThreadCount s)
    (m_idleThreadCount s) (m_stopping s) (m_autoStop s) (m_rootThread s) (m_rootFiber s)
    (m_workers s) (m_tickles s) i o.

(** A fiber operation inside the scheduler. *)
Definition lift {A} (m : M fibers A) : M sched A := λ s,
  match m (s_fibers s) with
  | Ret a f => Ret a (set_fibers f s)
  | Throw e f => Throw e (set_fibers f s)
  | Crash x => Crash x
  end.

Definition get_worker (i : nat) : M sched worker := λ s, deref (m_workers s !! i) s.
Definition put_worker (i : nat) (w : worker) : M sched () :=
  modify (λ s, set_workers (<[i := w]> (m_workers s)) s).
Definition goto (i : nat) (p : pc) : M sched () :=
  w ← get_worker i; put_worker i (Worker (w_tid w) p (w_idle_fiber w) (w_cb_fiber w)).
Definition set_cb_fiber (i : nat) (f : option faddr) : M sched () :=
  w ← get_worker i; put_worker i (Worker (w_tid w) (w_pc w) (w_idle_fiber w) f).

(** [Scheduler::tickle]. *)
Definition tickle : M sched () := modify (λ s, set_tickles (m_tickles s + 1) s).

(** ** schedule *)

(** The argument of [schedule]; [FFiberPtr] and [FCbPtr] are the constructors
    that take the content of a pointer and leave it empty. *)
Inductive FiberOrCb :=
  | FFiber (f : option faddr)
  | FCb (c : option func).

Definition FiberAndThread (fc : FiberOrCb) (thr : Z) : task :=
  match fc with
  | FFiber f => Task f None thr
  | FCb c => Task None c thr
  end.

Definition task_ok (ft : task) : bool :=
  bool_decide (is_Some (ft_fiber ft)) || bool_decide (is_Some (ft_cb ft)).

Definition scheduleNoLock (fc : FiberOrCb) (thread : Z) : M sched bool :=
  q ← gets m_fibers;
  let need_tickle := bool_decide (q = []) in
  let ft := FiberAndThread fc thread in
  (if task_ok ft then
     modify (λ s, set_history (h_in s ++ [ft]) (h_out s) (set_queue (m_fibers s ++ [ft]) s))
   else mret tt);;
  mret need_tickle.

Definition schedule (fc : FiberOrCb) (thread : Z) : M sched () :=
  need_tickle ← scheduleNoLock fc thread;
  if (need_tickle : bool) then tickle else mret tt.

(** [schedule(begin, end, thread)]: the elements are emptied. *)
Fixpoint schedule_loop (l : list FiberOrCb) (thread : Z) (need_tickle : bool) : M sched bool :=
  match l with
  | [] => mret need_tickle
  | fc :: l =>
      b ← scheduleNoLock fc thread;
      schedule_loop l thread (b || need_tickle)
  end.

Definition emptied (fc : FiberOrCb) : FiberOrCb :=
  match fc with FFiber _ => FFiber None | FCb _ => FCb None end.

Definition schedule_range (l : list FiberOrCb) (thread : Z) : M sched (list FiberOrCb) :=
  need_tickle ← schedule_loop l thread false;
  (if (need_tickle : bool) then tickle else mret tt);;
  mret (map emptied l).

Definition stopping : M sched bool :=
  gets (λ s, m_autoStop s && m_stopping s && bool_decide (m_fibers s = [])
             && (m_activeThreadCount s =? 0)).

Definition hasIdleThread : M sched bool := gets (λ s, 0 <? m_idleThreadCount s).

(** ** Scheduler::run *)

(** The search of the queue under [m_mutex] for thread [tid]: the task taken,
    what stays, and [tickle_me]. *)
Fixpoint search (tid : Z) (l : list task) : M fibers (option task * list task * bool) :=
  match l with
  | [] => mret (None, [], false)
  | it :: l =>
      if negb (ft_thread it =? -1) && negb (ft_thread it =? tid) then
        r ← search tid l;
        mret (r.1.1, it :: r.1.2, true)
      else
        massert (task_ok it);;
        exec ← match ft_fiber it with
               | Some f => x ← get_fiber f; mret (bool_decide (m_state x = EXEC))
               | None => mret false
               end;
        if (exec : bool) then
          r ← search tid l;
          mret (r.1.1, it :: r.1.2, r.2)
        else mret (Some it, l, negb (bool_decide (l = [])))
  end.

Definition run_take (i : nat) : M sched () :=
  w ← get_worker i;
  q ← gets m_fibers;
  r ← lift (search (w_tid w) q);
  match r.1.1 with
  | Some ft =>
      modify (λ s, set_history (h_in s) (h_out s ++ [(w_tid w, ft)]) (set_queue r.1.2 s));;
      modify (λ s, set_active (m_activeThreadCount s + 1) s)
  | None => mret tt
  end;;
  goto i (PTaken r.1.1 r.2).

Section run.
Context (g_fiber_stack_size : Z).

(** [Scheduler::run] up to its loop, on thread [i] with id [tid]. *)
Definition run_enter (i : nat) (tid : Z) : M sched () :=
  root ← gets m_rootThread;
  (if negb (tid =? root) then
     f ← lift (GetThis i); lift (set_scheduler_fiber i (Some f))
   else mret tt);;
  idle_fiber ← lift (new_Fiber g_fiber_stack_size (Some BindIdle) 0 false);
  put_worker i (Worker tid PTop (Some idle_fiber) None).

Definition finished (st : State) : bool :=
  bool_decide (st = TERM) || bool_decide (st = EXCEPT).

(** From the release of [m_mutex] to the switch to a fiber. *)
Definition run_dispatch (i : nat) (ft : option task) (tickle_me : bool) : M sched () :=
  w ← get_worker i;
  (if tickle_me then tickle else mret tt);;
  let is_active := bool_decide (is_Some ft) in
  let fib := t ← ft; ft_fiber t in
  let cb := t ← ft; ft_cb t in
  runnable ← match fib with
             | Some f =>
                 x ← lift (get_fiber f);
                 mret (if finished (m_state x) then None else Some f)
             | None => mret None
             end;
  match runnable, cb with
  | Some f, _ => lift (swapIn i f);; goto i (PRun (KFiber f))
  | None, Some c =>
      a ← match w_cb_fiber w with
          | Some a => lift (reset a (Some c));; mret a
          | None =>
              a ← lift (new_Fiber g_fiber_stack_size (Some c) 0 false);
              set_cb_fiber i (Some a);; mret a
          end;
      lift (swapIn i a);;
      goto i (PRun KCb)
  | None, None =>
      if is_active then
        modify (λ s, set_active (m_activeThreadCount s - 1) s);; goto i PTop
      else
        idle_fiber ← deref (w_idle_fiber w);
        x ← lift (get_fiber idle_fiber);
        if bool_decide (m_state x = TERM) then goto i PExit
        else
          modify (λ s, set_idle (m_idleThreadCount s + 1) s);;
          lift (swapIn i idle_fiber);;
          goto i (PRun KIdle)
  end.

(** ** Construction, start and stop *)

(** [Scheduler::Scheduler] on thread 0, with id [tid]; [other] tells whether
    the thread already has a scheduler. *)
Definition new_Scheduler (threads : Z) (use_caller : bool) (tid : Z) (other : bool) :
    M fibers sched :=
  massert (0 <? threads);;
  if use_caller then
    _ ← GetThis 0;
    massert (negb other);;
    root ← new_Fiber g_fiber_stack_size (Some BindRun) 0 true;
    set_scheduler_fiber 0 (Some root);;
    f ← get;
    mret (Sched f [] [] (threads - 1) [tid] 0 0 true false tid (Some root)
            [Worker tid PExit None None] 0 [] [])
  else
    f ← get;
    mret (Sched f [] [] threads [] 0 0 true false (-1) None
            [Worker tid PExit None None] 0 [] []).
End run.

(** A new thread with id [tid], about to enter [run]. *)
Definition new_thread (tid : Z) : M sched () := λ s,
  let n := length (m_workers s) in
  let f := s_fibers s in
  Ret tt (set_fibers (set_tls (f_tls f ++ [Tls None None None]) f)
    (set_threads (m_threads s ++ [n]) (m_threadIds s ++ [tid])
      (set_workers (m_workers s ++ [Worker tid PStart None None]) s))).

Fixpoint start_loop (new_tid : nat → Z) (n : nat) (k : nat) : M sched () :=
  match k with
  | 0%nat => mret tt
  | S k => new_thread (new_tid n);; start_loop new_tid (S n) k
  end.

(** [new_tid] gives the ids of the threads the system creates. *)
Definition start (new_tid : nat → Z) : M sched () :=
  st ← gets m_stopping;
  if negb st then mret tt else
  modify (λ s, set_stop false (m_autoStop s) s);;
  t ← gets m_threads;
  massert (bool_decide (t = []));;
  n ← gets m_threadCount;
  start_loop new_tid 0 (Z.to_nat n).

(** [Scheduler::stop] up to the joins, called where [GetThis() == this] is
    [is_this]; the root fiber then runs [run] on thread 0.  [tickle] and
    [stopping] are virtual: [on] runs an operation of the scheduler inside the
    object of a derived class with state [T]. *)
Section stop.
Context {T : Type} (on : ∀ A, M sched A → M T A) (tickle : M T ()) (stopping : M T bool).

Fixpoint tickle_loop (n : nat) : M T () :=
  match n with
  | 0%nat => mret tt
  | S n => tickle;; tickle_loop n
  end.

Definition virtual_stop (is_this : bool) : M T () :=
  on _ (modify (λ s, set_stop (m_stopping s) true s));;
  root ← on _ (gets m_rootFiber);
  n ← on _ (gets m_threadCount);
  idle_root ← match root with
              | Some r =>
                  x ← on _ (lift (get_fiber r));
                  mret ((n =? 0) && (bool_decide (m_state x = TERM) || bool_decide (m_state x = INIT)))
              | None => mret false
              end;
  done ← (if (idle_root : bool) then
            on _ (modify (λ s, set_stop true (m_autoStop s) s));; stopping
          else mret false);
  if (done : bool) then mret tt else
  rt ← on _ (gets m_rootThread);
  massert (if negb (rt =? -1) then is_this else negb is_this);;
  on _ (modify (λ s, set_stop true (m_autoStop s) s));;
  tickle_loop (Z.to_nat n);;
  match root with
  | Some r =>
      tickle;;
      b ← stopping;
      if (b : bool) then mret tt else on _ (lift (call 0 r));; on _ (goto 0 PStart)
  | None => mret tt
  end.
End stop.

(** That of a [Scheduler]. *)
Definition stop (is_this : bool) : M sched () := virtual_stop (λ A m, m) tickle stopping is_this.

(** The end of [stop]: the threads taken from [m_threads]; [true] when they
    have all left [run], so that the joins return. *)
Definition stop_join : M sched bool :=
  thrs ← gets m_threads;
  modify (λ s, set_threads [] (m_threadIds s) s);;
  ws ← gets m_workers;
  mret (forallb (λ i, match ws !! i with Some w => match w_pc w with PExit => true | _ => false end
                                    | None => true end) thrs).

(** [Scheduler::~Scheduler]. *)
Definition delete_Scheduler : M sched () := st ← gets m_stopping; massert st.

Definition run_leave (i : nat) (k : kind) (l : leave) : M sched () :=
  lift (leave_state i l);; goto i (PLeaving k).

(** One round of [Scheduler::idle]. *)
Definition idle_round (i : nat) : M sched () :=
  b ← stopping;
  run_leave i KIdle (if (b : bool) then Ends Returned else YieldHold).

(** The switch back into [run] and the release of the thread count. *)
Definition run_back (i : nat) (k : kind) : M sched () :=
  lift (swapOut i);;
  match k with
  | KIdle => modify (λ s, set_idle (m_idleThreadCount s - 1) s)
  | _ => modify (λ s, set_active (m_activeThreadCount s - 1) s)
  end;;
  goto i (PAfter k).

(** The end of the loop body. *)
Definition run_after (i : nat) (k : kind) : M sched () :=
  w ← get_worker i;
  match k with
  | KFiber f =>
      x ← lift (get_fiber f);
      if bool_decide (m_state x = READY) then schedule (FFiber (Some f)) (-1)
      else if negb (finished (m_state x)) then lift (upd_state f HOLD)
      else mret tt
  | KCb =>
      a ← deref (w_cb_fiber w);
      x ← lift (get_fiber a);
      if bool_decide (m_state x = READY) then schedule (FFiber (Some a)) (-1)
      else if finished (m_state x) then lift (reset a None)
      else lift (upd_state a HOLD);; set_cb_fiber i None
  | KIdle =>
      a ← deref (w_idle_fiber w);
      x ← lift (get_fiber a);
      if negb (finished (m_state x)) then lift (upd_state a HOLD)
      else mret tt
  end;;
  goto i PTop.

(** ** Runs of the system *)

Inductive event :=
  | EvSchedule (fc : FiberOrCb) (thread : Z)
  | EvScheduleRange (l : list FiberOrCb) (thread : Z)
  | EvStart (new_tid : nat → Z)
  | EvStop (is_this : bool)
  | EvJoin
  | EvEnter (i : nat)
  | EvTake (i : nat)
  | EvDispatch (i : nat)
  | EvLeave (i : nat) (l : leave)
  | EvIdle (i : nat)
  | EvBack (i : nat)
  | EvAfter (i : nat).

Definition at_pc (i : nat) (s : sched) : option pc := w_pc <$> m_workers s !! i.

(** The effect of an event where it can happen.  [stop] is called outside
    [run]; a thread's own steps follow its program counter. *)
Definition exec (g : Z) (e : event) (s : sched) : option (res sched ()) :=
  match e with
  | EvSchedule fc t => Some (schedule fc t s)
  | EvScheduleRange l t => Some ((_ ← schedule_range l t; mret tt) s)
  | EvStart new_tid => Some (start new_tid s)
  | EvStop is_this =>
      match at_pc 0 s with Some PExit => Some (stop is_this s) | _ => None end
  | EvJoin => Some ((_ ← stop_join; mret tt) s)
  | EvEnter i =>
      match m_workers s !! i with
      | Some (Worker tid PStart _ _) => Some (run_enter g i tid s)
      | _ => None
      end
  | EvTake i => match at_pc i s with Some PTop => Some (run_take i s) | _ => None end
  | EvDispatch i =>
      match at_pc i s with
      | Some (PTaken ft tk) => Some (run_dispatch g i ft tk s)
      | _ => None
      end
  | EvLeave i l =>
      match at_pc i s with
      | Some (PRun KIdle) => None
      | Some (PRun k) => Some (run_leave i k l s)
      | _ => None
      end
  | EvIdle i => match at_pc i s with Some (PRun KIdle) => Some (idle_round i s) | _ => None end
  | EvBack i => match at_pc i s with Some (PLeaving k) => Some (run_back i k s) | _ => None end
  | EvAfter i => match at_pc i s with Some (PAfter k) => Some (run_after i k s) | _ => None end
  end.

Inductive step (g : Z) (s : sched) : sched → Prop :=
  | step_event e s' : exec g e s = Some (Ret tt s') → step g s s'.

Inductive reachable (g : Z) : sched → Prop :=
  | reach_new threads use_caller tid other f f' s :
      new_Scheduler g threads use_caller tid other f = Ret s f' → reachable g s
  | reach_step s s' : reachable g s → step g s s' → reachable g s'.

(** ** The invariant of the counters and of the queue *)

(** Does a worker here count in [m_activeThreadCount], [m_idleThreadCount]? *)
Definition active_pc (p : pc) : bool :=
  match p with
  | PTaken (Some _) _ => true
  | PRun KIdle | PLeaving KIdle => false
  | PRun _ | PLeaving _ => true
  | _ => false
  end.

Definition idle_pc (p : pc) : bool :=
  match p with PRun KIdle | PLeaving KIdle => true | _ => false end.

Definition count_pc (f : pc → bool) (ws : list worker) : Z :=
  Z.of_nat (length (List.filter (λ w, f (w_pc w)) ws)).

Lemma count_pc_app f ws vs : count_pc f (ws ++ vs) = count_pc f ws + count_pc f vs.
Proof. unfold count_pc. rewrite List.filter_app, length_app. lia. Qed.

Lemma count_pc_insert f ws i w w' :
  ws !! i = Some w →
  count_pc f (<[i := w']> ws) =
    count_pc f ws - Z.b2z (f (w_pc w)) + Z.b2z (f (w_pc w')).
Proof.
  revert i. induction ws as [|v ws IH]; intros [|i] Hi; simplify_eq/=.
  - unfold count_pc. simpl. destruct (f (w_pc w)), (f (w_pc w')); simpl; lia.
  - specialize (IH i Hi). unfold count_pc in *. simpl. destruct (f (w_pc v)); simpl; lia.
Qed.

Lemma count_pc_zero f ws :
  count_pc f ws = 0 → ∀ i w, ws !! i = Some w → f (w_pc w) = false.
Proof.
  intros H0 i w Hi. pose proof (count_pc_insert f ws i w w Hi) as H.
  destruct (f (w_pc w)) eqn:E; [|done]. exfalso.
  assert (w ∈ List.filter (λ w, f (w_pc w)) ws) as Hin.
  { apply list_elem_of_In, List.filter_In. split; [|done].
    apply list_elem_of_In. by eapply list_elem_of_lookup_2. }
  unfold count_pc in H0. destruct (List.filter _ ws); [by apply elem_of_nil in Hin|].
  simpl in H0. lia.
Qed.

Definition pinned_ok (x : Z * task) : Prop :=
  ft_thread x.2 = -1 ∨ ft_thread x.2 = x.1.

Record inv (s : sched) : Prop := mkInv {
  inv_active : m_activeThreadCount s = count_pc active_pc (m_workers s);
  inv_idle : m_idleThreadCount s = count_pc idle_pc (m_workers s);
  inv_tasks : h_in s ≡ₚ map snd (h_out s) ++ m_fibers s;
  inv_pinned : Forall pinned_ok (h_out s);
  inv_ok : Forall (λ ft, task_ok ft = true) (m_fibers s)
}.

(** The parts of the state the invariant reads. *)
Definition ctl (s : sched) :=
  (m_workers s, m_activeThreadCount s, m_idleThreadCount s, m_fibers s, h_in s, h_out s).

Lemma inv_ctl s s' : ctl s' = ctl s → inv s → inv s'.
Proof. unfold ctl. intros [= Hw Ha Hi Hq Hin Hout] []. constructor; congruence. Qed.

(** Operations that leave those parts alone. *)
Definition frames {A} (m : M sched A) : Prop :=
  ∀ s a s', m s = Ret a s' → ctl s' = ctl s.

Create HintDb frame discriminated.

(** A primitive operation, by computation. *)
Ltac by_run := let s := fresh in intros s ? ?;
  cbv [mret M_ret gets modify tickle massert crash deref];
  let H := fresh in intros H; inversion H; subst; reflexivity.

Lemma frames_ret {A} (a : A) : frames (mret a).
Proof. by_run. Qed.
Lemma frames_gets {A} (f : sched → A) : frames (gets f).
Proof. by_run. Qed.
Lemma frames_bind {A B} (m : M sched A) (k : A → M sched B) :
  frames m → (∀ a, frames (k a)) → frames (m ≫= k).
Proof.
  intros Hm Hk s b s' H. apply bind_Ret_inv in H as (a&s1&H1&H2).
  rewrite (Hk a s1 b s' H2). by eapply Hm.
Qed.
Lemma frames_lift {A} (m : M fibers A) : frames (lift m).
Proof. intros s b s'. unfold lift. destruct (m (s_fibers s)); [|done..]. by intros [= _ <-]. Qed.
Lemma frames_tickle : frames tickle.
Proof. by_run. Qed.
Lemma frames_set_stop f g : frames (modify (λ s, set_stop (f s) (g s) s)).
Proof. by_run. Qed.
Lemma frames_set_threads f g : frames (modify (λ s, set_threads (f s) (g s) s)).
Proof. by_run. Qed.
Lemma frames_massert b : frames (massert b).
Proof. destruct b; by_run. Qed.
Lemma frames_deref {A} (o : option A) : frames (deref o).
Proof. destruct o; by_run. Qed.
Lemma frames_if {A} (b : bool) (m m' : M sched A) :
  frames m → frames m' → frames (if b then m else m').
Proof. by destruct b. Qed.
Lemma frames_get_worker i : frames (get_worker i).
Proof.
  intros s w s'. unfold get_worker. destruct (m_workers s !! i); [|done]. by intros [= _ <-].
Qed.

#[export] Hint Resolve frames_ret frames_gets frames_bind frames_lift frames_tickle
  frames_set_stop frames_set_threads frames_massert frames_deref frames_if
  frames_get_worker : frame.

Lemma frames_tickle_loop n : frames (tickle_loop tickle n).
Proof. induction n; simpl; eauto with frame. Qed.
Lemma frames_stop_join : frames stop_join.
Proof. unfold stop_join. eauto 8 with frame. Qed.
#[export] Hint Resolve frames_tickle_loop frames_stop_join : frame.

(** Inversion of a run that returned. *)
Lemma get_worker_inv i s w s' :
  get_worker i s = Ret w s' → m_workers s !! i = Some w ∧ s' = s.
Proof. unfold get_worker. destruct (m_workers s !! i); [|done]. by intros [= -> <-]. Qed.

Lemma goto_inv i p s a s' :
  goto i p s = Ret a s' →
  ∃ w, m_workers s !! i = Some w ∧
    s' = set_workers (<[i := Worker (w_tid w) p (w_idle_fiber w) (w_cb_fiber w)]> (m_workers s)) s.
Proof.
  intros H. apply bind_Ret_inv in H as (w&s1&Hw&H).
  apply get_worker_inv in Hw as [Hw ->]. exists w. split; [done|].
  cbv [put_worker modify] in H. congruence.
Qed.

(** Moving worker [i] from [w]'s position to [p]. *)
Definition moved (i : nat) (w : worker) (p : pc) (da di : Z) (s s' : sched) : Prop :=
  ∃ w', m_workers s' = <[i := w']> (m_workers s) ∧ w_pc w' = p ∧
    m_activeThreadCount s' = m_activeThreadCount s + da ∧
    m_idleThreadCount s' = m_idleThreadCount s + di.

Lemma moved_inv i w p da di s s' :
  inv s → m_workers s !! i = Some w → moved i w p da di s s' →
  da = Z.b2z (active_pc p) - Z.b2z (active_pc (w_pc w)) →
  di = Z.b2z (idle_pc p) - Z.b2z (idle_pc (w_pc w)) →
  h_in s' ≡ₚ map snd (h_out s') ++ m_fibers s' → Forall pinned_ok (h_out s') →
  Forall (λ ft, task_ok ft = true) (m_fibers s') → inv s'.
Proof.
  intros [Ha Hi _ _ _] Hw (w'&Hws&Hp&Ha'&Hi') -> -> ???.
  constructor; [| |done..]; rewrite Hws, (count_pc_insert _ _ _ _ _ Hw), Hp; lia.
Qed.

(** A task thread [tid] passes over: bound to another thread, or a fiber that
    is running. *)
Definition elsewhere (tid : Z) (it : task) : bool :=
  negb (ft_thread it =? -1) && negb (ft_thread it =? tid).
Definition running (s : fibers) (it : task) : bool :=
  match ft_fiber it with
  | Some f => match f_heap s !! f with Some x => bool_decide (m_state x = EXEC) | None => false end
  | None => false
  end.
Definition passed (s : fibers) (tid : Z) (it : task) : bool :=
  elsewhere tid it || running s it.

(** What the search returns, as a specification: the first task not passed
    over. *)
Fixpoint first_task (s : fibers) (tid : Z) (l : list task) : option task * list task :=
  match l with
  | [] => (None, [])
  | it :: l =>
      if passed s tid it then let r := first_task s tid l in (r.1, it :: r.2)
      else (Some it, l)
  end.

Lemma search_inv tid l : ∀ s r s',
  search tid l s = Ret r s' →
  s' = s ∧ r.1 = first_task s tid l ∧
  match r.1.1 with
  | Some it => ∃ l1 l2, l = l1 ++ it :: l2 ∧ r.1.2 = l1 ++ l2 ∧
      Forall (λ x, passed s tid x = true) l1 ∧ passed s tid it = false ∧ task_ok it = true ∧
      r.2 = existsb (elsewhere tid) l1 || negb (bool_decide (l2 = []))
  | None => r.1.2 = l ∧ Forall (λ x, passed s tid x = true) l ∧
      r.2 = existsb (elsewhere tid) l
  end.
Proof.
  induction l as [|it l IH]; intros s r s' H; simpl in H.
  { cbv [mret M_ret] in H. injection H as <- <-. by split_and!. }
  simpl. unfold passed at 1. fold (elsewhere tid it) in H.
  destruct (elsewhere tid it) eqn:He; simpl in H |- *.
  - apply bind_Ret_inv in H as (r0&s0&H0&H). apply IH in H0 as (->&Hr&Hm).
    cbv [mret M_ret] in H. injection H as <- <-. simpl. rewrite <- Hr.
    split; [done|]. split; [done|].
    destruct (r0.1.1) as [x|].
    + destruct Hm as (l1&l2&->&->&Hf&Hp&Hok&_). exists (it :: l1), l2. split_and!; try done.
      * constructor; [|done]. unfold passed. by rewrite He.
      * simpl. by rewrite He.
    + destruct Hm as (->&Hf&_). split_and!; [done| |done].
      constructor; [|done]. unfold passed. by rewrite He.
  - apply bind_Ret_inv in H as (u&s0&H0&H).
    assert (task_ok it = true ∧ s0 = s) as [Hok ->].
    { unfold massert in H0. destruct (task_ok it); [|done]. by inversion H0. }
    apply bind_Ret_inv in H as (ex&s0&H1&H).
    assert (ex = running s it ∧ s0 = s) as [-> ->].
    { unfold running. destruct (ft_fiber it) as [f|]; [|by inversion H1].
      apply bind_Ret_inv in H1 as (x&s1&Hg&H1). unfold get_fiber in Hg.
      destruct (f_heap s !! f) as [y|]; [|done]. inversion Hg; subst. by inversion H1. }
    destruct (running s it) eqn:Hr.
    + apply bind_Ret_inv in H as (r0&s0&H2&H). apply IH in H2 as (->&Hr0&Hm).
      cbv [mret M_ret] in H. injection H as <- <-. simpl. rewrite <- Hr0.
      split; [done|]. split; [done|].
      destruct (r0.1.1) as [x|].
      * destruct Hm as (l1&l2&->&->&Hf&Hp&Hokx&Htk). exists (it :: l1), l2. split_and!; try done.
        -- constructor; [|done]. unfold passed. by rewrite He, Hr.
        -- simpl. by rewrite He.
      * destruct Hm as (->&Hf&Htk). split_and!; [done| |done].
        constructor; [|done]. unfold passed. by rewrite He, Hr.
    + cbv [mret M_ret] in H. injection H as <- <-. simpl.
      split; [done|]. split; [done|]. exists [], l. split_and!; try done.
      unfold passed. by rewrite He, Hr.
Qed.

(** ** Every step keeps the invariant *)

Lemma scheduleNoLock_inv fc t s b s' :
  scheduleNoLock fc t s = Ret b s' → inv s → inv s' ∧ m_workers s' = m_workers s.
Proof.
  unfold scheduleNoLock. rewrite bind_gets. intros H Hinv.
  apply bind_Ret_inv in H as (u&s1&H1&H). inversion H; subst; clear H.
  destruct (task_ok (FiberAndThread fc t)) eqn:Hok; inversion H1; subst; [|done].
  destruct Hinv as [Ha Hi Ht Hp Hq]. split; [|done]. constructor; simpl; try done.
  - rewrite Ht. by rewrite app_assoc.
  - apply Forall_app; split; [done|]. by repeat constructor.
Qed.

Lemma inv_frames {A} (m : M sched A) s a s' :
  frames m → m s = Ret a s' → inv s → inv s' ∧ m_workers s' = m_workers s.
Proof.
  intros Hf H Hinv. specialize (Hf s a s' H). split; [by eapply inv_ctl|].
  unfold ctl in Hf. congruence.
Qed.

Lemma schedule_inv fc t s u s' :
  schedule fc t s = Ret u s' → inv s → inv s' ∧ m_workers s' = m_workers s.
Proof.
  intros H Hinv. apply bind_Ret_inv in H as (b&s1&H1&H).
  destruct (scheduleNoLock_inv _ _ _ _ _ H1 Hinv) as [Hinv1 Hw1].
  apply inv_frames in H as [? ?]; [|by eauto with frame|done]. split; [done|congruence].
Qed.

Lemma schedule_loop_inv l t : ∀ nt s b s',
  schedule_loop l t nt s = Ret b s' → inv s → inv s' ∧ m_workers s' = m_workers s.
Proof.
  induction l as [|fc l IH]; intros nt s b s' H Hinv; simpl in H.
  { by inversion H; subst. }
  apply bind_Ret_inv in H as (b1&s1&H1&H).
  destruct (scheduleNoLock_inv _ _ _ _ _ H1 Hinv) as [Hinv1 Hw1].
  destruct (IH _ _ _ _ H Hinv1). split; [done|congruence].
Qed.

Lemma schedule_range_inv l t s r s' :
  schedule_range l t s = Ret r s' → inv s → inv s'.
Proof.
  intros H Hinv. apply bind_Ret_inv in H as (b&s1&H1&H).
  destruct (schedule_loop_inv _ _ _ _ _ _ H1 Hinv) as [Hinv1 _].
  apply inv_frames in H as [? _]; [done|by eauto 6 with frame|done].
Qed.

Lemma start_loop_inv new_tid k : ∀ n s u s',
  start_loop new_tid n k s = Ret u s' → inv s → inv s'.
Proof.
  induction k as [|k IH]; intros n s u s' H Hinv; simpl in H; [by inversion H; subst|].
  apply bind_Ret_inv in H as (v&s1&H1&H). eapply IH; [exact H|].
  inversion H1; subst. destruct Hinv as [Ha Hi Ht Hp Hq].
  constructor; simpl; try done; rewrite count_pc_app; [by rewrite Ha, Z.add_0_r|by rewrite Hi, Z.add_0_r].
Qed.

Lemma start_inv new_tid s u s' : start new_tid s = Ret u s' → inv s → inv s'.
Proof.
  unfold start. rewrite bind_gets. destruct (negb (m_stopping s)); [by inversion 1; subst|].
  rewrite bind_modify, bind_gets. intros H Hinv.
  apply bind_Ret_inv in H as (v&s1&H1&H).
  apply inv_frames in H1 as [Hinv1 _]; [|by eauto with frame|by destruct Hinv].
  rewrite bind_gets in H. by eapply start_loop_inv.
Qed.

(** A change of one worker's position. *)
Lemma goto_moved i p s u s' :
  goto i p s = Ret u s' →
  ∃ w, m_workers s !! i = Some w ∧ moved i w p 0 0 s s' ∧
    m_fibers s' = m_fibers s ∧ h_in s' = h_in s ∧ h_out s' = h_out s.
Proof.
  intros (w&Hw&->)%goto_inv. exists w. split; [done|]. split_and!; try done.
  eexists. split; [done|]. split_and!; simpl; [done|lia..].
Qed.

(** A step that ends in [goto] after operations that leave the control state
    alone or change the counters. *)
Lemma goto_from i p s s1 u s' w da di :
  goto i p s1 = Ret u s' → m_workers s !! i = Some w →
  (∃ w1, m_workers s1 = <[i := w1]> (m_workers s)) ∨ m_workers s1 = m_workers s →
  m_activeThreadCount s1 = m_activeThreadCount s + da →
  m_idleThreadCount s1 = m_idleThreadCount s + di →
  moved i w p da di s s' ∧ m_fibers s' = m_fibers s1 ∧ h_in s' = h_in s1 ∧ h_out s' = h_out s1.
Proof.
  intros H Hw Hws Ha Hi. destruct (goto_moved _ _ _ _ _ H) as (w1&Hw1&(w2&Hw2&Hp&Ha2&Hi2)&?&?&?).
  split; [|done]. exists w2. rewrite Hw2. split; [|split_and!; [done|lia..]].
  destruct Hws as [[w3 ->]| ->]; [|done]. by rewrite list_insert_insert_eq.
Qed.

Lemma lift_inv {A} (m : M fibers A) s a s' :
  lift m s = Ret a s' → ∃ f, m (s_fibers s) = Ret a f ∧ s' = set_fibers f s.
Proof. unfold lift. destruct (m (s_fibers s)) as [b f| |]; [|done..]. intros [= -> <-]. by exists f. Qed.

(** The control state with worker [i] kept at its position. *)
Definition same_place (i : nat) (s s' : sched) : Prop :=
  ∃ w w', m_workers s !! i = Some w ∧ w_pc w' = w_pc w ∧ m_workers s' = <[i := w']> (m_workers s) ∧
    m_activeThreadCount s' = m_activeThreadCount s ∧ m_idleThreadCount s' = m_idleThreadCount s ∧
    m_fibers s' = m_fibers s ∧ h_in s' = h_in s ∧ h_out s' = h_out s.

Lemma same_place_frames {A} i (m : M sched A) s a s' w :
  frames m → m_workers s !! i = Some w → m s = Ret a s' → same_place i s s'.
Proof.
  intros Hf Hw H. specialize (Hf s a s' H). unfold ctl in Hf. exists w, w.
  rewrite (list_insert_id _ _ _ Hw). split_and!; congruence.
Qed.

Lemma same_place_trans i s1 s2 s3 : same_place i s1 s2 → same_place i s2 s3 → same_place i s1 s3.
Proof.
  intros (w1&w1'&Hw1&Hp1&Hs1&?&?&?&?&?) (w2&w2'&Hw2&Hp2&Hs2&?&?&?&?&?).
  exists w1, w2'. rewrite Hs1 in Hw2.
  rewrite list_lookup_insert_eq in Hw2 by (by eapply lookup_lt_Some).
  simplify_eq. split_and!; [done|congruence| |congruence..].
  rewrite Hs2, Hs1. by rewrite list_insert_insert_eq.
Qed.

Lemma same_place_set_cb_fiber i f s u s' :
  set_cb_fiber i f s = Ret u s' → same_place i s s'.
Proof.
  intros H. apply bind_Ret_inv in H as (w&s1&Hw&H). apply get_worker_inv in Hw as [Hw ->].
  inversion H; subst.
  exists w, (Worker (w_tid w) (w_pc w) (w_idle_fiber w) f). by split_and!.
Qed.

Lemma set_active_id s : set_active (m_activeThreadCount s) s = s.
Proof. by destruct s. Qed.
Lemma set_idle_id s v : set_idle (m_idleThreadCount s) (set_active v s) = set_active v s.
Proof. by destruct s. Qed.
Lemma set_counters_id s :
  set_idle (m_idleThreadCount s) (set_active (m_activeThreadCount s) s) = s.
Proof. by destruct s. Qed.

(** The part of a step before its [goto] and the counters it changes. *)
Lemma goto_same i p s s1 s2 u s' w da di :
  m_workers s !! i = Some w → same_place i s s1 →
  s2 = set_idle (m_idleThreadCount s1 + di) (set_active (m_activeThreadCount s1 + da) s1) →
  goto i p s2 = Ret u s' →
  moved i w p da di s s' ∧ m_fibers s' = m_fibers s ∧ h_in s' = h_in s ∧ h_out s' = h_out s.
Proof.
  intros Hw (w1&w1'&Hw1&Hp1&Hs1&Ha1&Hi1&Hq1&Hin1&Hout1) -> H.
  eapply (goto_from i p s _ u s' w da di) in H as (?&Hq&Hin&Hout);
    [|done|left; simpl; eauto|simpl; congruence..].
  simpl in *. split_and!; [done|congruence..].
Qed.

Lemma inv_step_same i p s s' w da di :
  inv s → m_workers s !! i = Some w →
  (moved i w p da di s s' ∧ m_fibers s' = m_fibers s ∧ h_in s' = h_in s ∧ h_out s' = h_out s) →
  da = Z.b2z (active_pc p) - Z.b2z (active_pc (w_pc w)) →
  di = Z.b2z (idle_pc p) - Z.b2z (idle_pc (w_pc w)) → inv s'.
Proof.
  intros Hinv Hw (Hm&Hq&Hin&Hout) ??. destruct (Hinv).
  eapply moved_inv; [done..| | |]; congruence.
Qed.

Lemma run_take_inv i s u s' :
  run_take i s = Ret u s' → at_pc i s = Some PTop → inv s → inv s'.
Proof.
  intros H Hpc Hinv. unfold at_pc in Hpc.
  destruct (m_workers s !! i) as [w|] eqn:Hw; simplify_eq/=.
  apply bind_Ret_inv in H as (w'&s0&Hg&H). apply get_worker_inv in Hg as [Hg ->].
  rewrite Hw in Hg. injection Hg as <-. rewrite bind_gets in H.
  apply bind_Ret_inv in H as (r&s1&Hs&H). apply lift_inv in Hs as (f&Hs&->).
  apply search_inv in Hs as (_&_&Hm). apply bind_Ret_inv in H as (v&s2&H2&H).
  destruct (goto_moved _ _ _ _ _ H) as (w1&Hw1&Hmv&Hq&Hin&Hout).
  destruct (Hinv) as [_ _ Ht Hp Hok]. destruct (r.1.1) as [ft|].
  - destruct Hm as (l1&l2&Hl&Hr&_&Hps&Hft&_).
    inversion H2; subst; clear H2. simpl in *. rewrite Hw in Hw1. injection Hw1 as <-.
    rewrite Hr in Hq. destruct Hmv as (w2&Hws&Hp2&Ha2&Hi2). simpl in Ha2, Hi2.
    assert (moved i w (PTaken (Some ft) r.2) 1 0 s s') as Hmv.
    { exists w2. split_and!; [done|done|lia..]. }
    apply (moved_inv i w (PTaken (Some ft) r.2) 1 0 s s' Hinv Hw Hmv);
      rewrite ?Hpc, ?Hin, ?Hout, ?Hq; [done|done| | |].
    + rewrite Ht, Hl, map_app. simpl. rewrite <- !app_assoc. apply Permutation_app_head. simpl.
      symmetry. apply Permutation_middle.
    + apply Forall_app; split; [done|]. constructor; [|done]. unfold pinned_ok. simpl.
      unfold passed, elsewhere in Hps. lia.
    + rewrite Hl in Hok. apply Forall_app in Hok as [? Hok]. inversion_clear Hok.
      by apply Forall_app.
  - inversion H2; subst; clear H2. simpl in *. rewrite Hw in Hw1. injection Hw1 as <-.
    eapply (moved_inv i w (PTaken None r.2) 0 0); [done|done|done|by rewrite Hpc..| | |];
      by rewrite ?Hin, ?Hout, ?Hq.
Qed.

Lemma run_enter_inv g i tid s u s' w :
  run_enter g i tid s = Ret u s' → m_workers s !! i = Some w → w_pc w = PStart →
  inv s → inv s'.
Proof.
  intros H Hw Hpc Hinv. unfold run_enter in H. rewrite bind_gets in H.
  apply bind_Ret_inv in H as (v&s1&H1&H).
  assert (frames (if negb (tid =? m_rootThread s)
    then f ← lift (GetThis i); lift (set_scheduler_fiber i (Some f)) else mret tt)) as Hf
    by eauto 6 with frame.
  destruct (inv_frames _ _ _ _ Hf H1 Hinv) as [Hinv1 Hw1].
  apply bind_Ret_inv in H as (a&s2&H2&H).
  destruct (inv_frames _ _ _ _ (frames_lift _) H2 Hinv1) as [Hinv2 Hw2].
  inversion H; subst; clear H. rewrite <- Hw1, <- Hw2 in Hw. destruct (Hinv2).
  eapply (moved_inv i w PTop 0 0 s2); [done|done| |by rewrite Hpc..|done|done|done].
  eexists. split; [done|]. simpl. split_and!; [done|lia..].
Qed.

Lemma run_leave_inv i k l s u s' w :
  run_leave i k l s = Ret u s' → m_workers s !! i = Some w → w_pc w = PRun k →
  inv s → inv s'.
Proof.
  intros H Hw Hpc Hinv. apply bind_Ret_inv in H as (v&s1&H1&H).
  pose proof (same_place_frames i _ _ _ _ w (frames_lift _) Hw H1) as Hsp.
  eapply (inv_step_same i (PLeaving k) s s' w 0 0); [done|done| |by rewrite Hpc; destruct k..].
  eapply goto_same; [done|done|reflexivity|]. 
  by rewrite !Z.add_0_r, set_counters_id.
Qed.

Lemma run_back_inv i k s u s' w :
  run_back i k s = Ret u s' → m_workers s !! i = Some w → w_pc w = PLeaving k →
  inv s → inv s'.
Proof.
  intros H Hw Hpc Hinv. apply bind_Ret_inv in H as (v&s1&H1&H).
  pose proof (same_place_frames i _ _ _ _ w (frames_lift _) Hw H1) as Hsp.
  apply bind_Ret_inv in H as (v2&s2&H2&H).
  destruct k; inversion H2; subst; clear H2;
    [eapply (inv_step_same i (PAfter _) s s' w (-1) 0)
    |eapply (inv_step_same i (PAfter _) s s' w (-1) 0)
    |eapply (inv_step_same i (PAfter _) s s' w 0 (-1))];
    try (by rewrite Hpc); try done;
    (eapply goto_same; [done|exact Hsp|reflexivity|]);
    rewrite ?Z.add_0_r, ?set_active_id, ?set_idle_id; exact H.
Qed.

(** The choice of the callback fiber in [run_dispatch]. *)
Lemma cb_fiber_same_place g i c (o : option faddr) s a s' w :
  (match o with
   | Some a => lift (reset a (Some c));; mret a
   | None =>
       a ← lift (new_Fiber g (Some c) 0 false);
       set_cb_fiber i (Some a);; mret a
   end) s = Ret a s' → m_workers s !! i = Some w → same_place i s s'.
Proof.
  intros H Hw. destruct o as [b|].
  - eapply (same_place_frames i (lift (reset b (Some c));; mret b)); [|done|exact H].
    eauto with frame.
  - apply bind_Ret_inv in H as (a1&s1&H1&H). apply bind_Ret_inv in H as (v&s2&H2&H).
    inversion H; subst; clear H. eapply same_place_trans.
    + eapply same_place_frames; [apply frames_lift|exact Hw|exact H1].
    + by eapply same_place_set_cb_fiber.
Qed.

Lemma same_place_worker i s s' w :
  same_place i s s' → m_workers s !! i = Some w →
  ∃ w', m_workers s' !! i = Some w' ∧ w_pc w' = w_pc w.
Proof.
  intros (w1&w'&Hw1&Hp&Hs&_) Hw. simplify_eq. exists w'. rewrite Hs. split; [|done].
  apply list_lookup_insert_eq. by eapply lookup_lt_Some.
Qed.

(** Nothing to run: the idle fiber, or the end of [run]. *)
Lemma dispatch_idle_inv i tk s s2 u s' w :
  (idle_fiber ← deref (w_idle_fiber w);
   x ← lift (get_fiber idle_fiber);
   if bool_decide (m_state x = TERM) then goto i PExit
   else
     modify (λ s, set_idle (m_idleThreadCount s + 1) s);;
     lift (swapIn i idle_fiber);;
     goto i (PRun KIdle)) s2 = Ret u s' →
  m_workers s !! i = Some w → w_pc w = PTaken None tk → same_place i s s2 →
  inv s → inv s'.
Proof.
  intros H Hw Hpc Hsp Hinv. apply bind_Ret_inv in H as (a&s3&H3&H).
  assert (s3 = s2) as -> by (destruct (w_idle_fiber w); by inversion H3).
  apply bind_Ret_inv in H as (x&s3&H4&H).
  destruct (same_place_worker _ _ _ _ Hsp Hw) as (w2&Hw2&_).
  assert (same_place i s s3) as Hsp3.
  { eapply same_place_trans; [exact Hsp|].
    eapply same_place_frames; [apply frames_lift|done|exact H4]. }
  destruct (bool_decide (m_state x = TERM)).
  - eapply (inv_step_same i PExit s s' w 0 0); [done|done| |by rewrite Hpc..].
    eapply goto_same; [done|exact Hsp3|reflexivity|]. by rewrite !Z.add_0_r, set_counters_id.
  - rewrite bind_modify in H. apply bind_Ret_inv in H as (v&s4&H5&H).
    apply lift_inv in H5 as (f&_&->).
    assert (same_place i s (set_fibers f s3)) as Hsp4 by done.
    eapply (inv_step_same i (PRun KIdle) s s' w 0 1); [done|done| |by rewrite Hpc..].
    eapply goto_same; [done|exact Hsp4|reflexivity|]. by destruct s3; rewrite Z.add_0_r.
Qed.

Lemma run_dispatch_inv g i ft tk s u s' w :
  run_dispatch g i ft tk s = Ret u s' → m_workers s !! i = Some w → w_pc w = PTaken ft tk →
  inv s → inv s'.
Proof.
  intros H Hw Hpc Hinv. apply bind_Ret_inv in H as (w'&s0&Hg&H).
  apply get_worker_inv in Hg as [Hg ->]. rewrite Hw in Hg. injection Hg as <-.
  apply bind_Ret_inv in H as (v&s1&H1&H). apply bind_Ret_inv in H as (o&s2&H2&H).
  assert (same_place i s s1) as Hsp1.
  { eapply same_place_frames; [|done|exact H1]. eauto with frame. }
  destruct (same_place_worker _ _ _ _ Hsp1 Hw) as (w1&Hw1&_).
  assert (same_place i s1 s2) as Hsp2.
  { eapply same_place_frames; [|done|exact H2].
    destruct (t ← ft; ft_fiber t); eauto with frame. }
  assert (match o with Some _ => is_Some ft | None => True end) as Hsome.
  { destruct ft; [by destruct o|]. simpl in H2. by inversion H2; subst. }
  pose proof (same_place_trans _ _ _ _ Hsp1 Hsp2) as Hsp. clear H1 H2 Hsp1 Hsp2 Hw1 w1 s1.
  destruct (same_place_worker _ _ _ _ Hsp Hw) as (w2&Hw2&_).
  destruct o as [f|].
  - apply bind_Ret_inv in H as (v3&s3&H3&H).
    assert (same_place i s s3) as Hsp3.
    { eapply same_place_trans; [done|].
      eapply same_place_frames; [apply frames_lift|done|exact H3]. }
    eapply (inv_step_same i (PRun (KFiber f)) s s' w 0 0); [done|done| | |].
    + eapply goto_same; [done|exact Hsp3|reflexivity|].
      by rewrite !Z.add_0_r, set_counters_id.
    + rewrite Hpc. by destruct Hsome as [? ->].
    + rewrite Hpc. by destruct ft.
  - destruct (t ← ft; ft_cb t) as [c|] eqn:Hcb.
    + apply bind_Ret_inv in H as (a&s3&H3&H). apply bind_Ret_inv in H as (v4&s4&H4&H).
      assert (same_place i s s4) as Hsp4.
      { pose proof (cb_fiber_same_place _ _ _ _ _ _ _ _ H3 Hw2) as Hsp3.
        destruct (same_place_worker _ _ _ _ Hsp3 Hw2) as (w3&Hw3&_).
        eapply same_place_trans; [exact Hsp|]. eapply same_place_trans; [exact Hsp3|].
        eapply same_place_frames; [apply frames_lift|exact Hw3|exact H4]. }
      eapply (inv_step_same i (PRun KCb) s s' w 0 0); [done|done| | |].
      * eapply goto_same; [done|exact Hsp4|reflexivity|].
        by rewrite !Z.add_0_r, set_counters_id.
      * rewrite Hpc. by destruct ft.
      * rewrite Hpc. by destruct ft.
    + destruct (bool_decide (is_Some ft)) eqn:Hft.
      * rewrite bind_modify in H. apply bool_decide_eq_true in Hft as [t ->].
        eapply (inv_step_same i PTop s s' w (-1) 0); [done|done| |by rewrite Hpc..].
        eapply goto_same; [done|exact Hsp|reflexivity|].
        by rewrite Z.add_0_r, set_idle_id.
      * apply bool_decide_eq_false in Hft. destruct ft as [t|]; [by destruct Hft|].
        by eapply (dispatch_idle_inv i tk s s2 u s' w).
Qed.

Lemma inv_same_place i s s' : inv s → same_place i s s' → inv s'.
Proof.
  intros Hinv (w&w'&Hw&Hp&Hws&Ha&Hi&Hq&Hin&Hout). destruct Hinv.
  constructor; [rewrite Hws, (count_pc_insert _ _ _ _ _ Hw), Hp; lia..|congruence|congruence|congruence].
Qed.

Lemma run_after_inv i k s u s' w :
  run_after i k s = Ret u s' → m_workers s !! i = Some w → w_pc w = PAfter k →
  inv s → inv s'.
Proof.
  intros H Hw Hpc Hinv. apply bind_Ret_inv in H as (w'&s0&Hg&H).
  apply get_worker_inv in Hg as [Hg ->]. rewrite Hw in Hg. injection Hg as <-.
  apply bind_Ret_inv in H as (v&s1&H1&H).
  (* the state before [goto], reached from [s] by scheduling or staying *)
  assert (inv s1 ∧ ∃ w1, m_workers s1 !! i = Some w1 ∧ w_pc w1 = PAfter k) as (Hinv1&w1&Hw1&Hp1).
  { assert (∀ s2 f s3 u3, inv s2 → m_workers s2 = m_workers s →
      schedule (FFiber (Some f)) (-1) s2 = Ret u3 s3 →
      inv s3 ∧ ∃ w1, m_workers s3 !! i = Some w1 ∧ w_pc w1 = PAfter k) as Hsch.
    { intros s2 f s3 u3 Hi2 Hw2 Hs. apply schedule_inv in Hs as [? Hw3]; [|done].
      split; [done|]. exists w. by rewrite Hw3, Hw2. }
    assert (∀ (m : M sched ()) s2 s3 u3, frames m → inv s2 → m_workers s2 = m_workers s →
      m s2 = Ret u3 s3 → inv s3 ∧ m_workers s3 = m_workers s) as Hfr.
    { intros m s2 s3 u3 Hf Hi2 Hw2 Hm. destruct (inv_frames _ _ _ _ Hf Hm Hi2). split; [done|congruence]. }
    destruct k as [f| |].
    - apply bind_Ret_inv in H1 as (x&s2&H2&H1). apply lift_inv in H2 as (fs&_&->).
      assert (inv (set_fibers fs s)) as Hi2 by (by destruct Hinv).
      destruct (bool_decide _); [by eapply (Hsch (set_fibers fs s))|].
      eapply (Hfr _ (set_fibers fs s)) in H1 as [? Hw1]; [|eauto with frame|done|done].
      split; [done|]. exists w. by rewrite Hw1.
    - apply bind_Ret_inv in H1 as (a&s2&H2&H1).
      assert (s2 = s) as -> by (destruct (w_cb_fiber w); by inversion H2).
      apply bind_Ret_inv in H1 as (x&s2&H3&H1). apply lift_inv in H3 as (fs&_&->).
      assert (inv (set_fibers fs s)) as Hi2 by (by destruct Hinv).
      destruct (bool_decide _); [by eapply (Hsch (set_fibers fs s))|].
      destruct (finished _).
      + eapply (Hfr _ (set_fibers fs s)) in H1 as [? Hw1]; [|eauto with frame|done|done].
        split; [done|]. exists w. by rewrite Hw1.
      + apply bind_Ret_inv in H1 as (v2&s3&H4&H1).
        eapply (Hfr _ (set_fibers fs s)) in H4 as [Hi3 Hw3]; [|eauto with frame|done|done].
        rewrite <- Hw3 in Hw. apply same_place_set_cb_fiber in H1.
        destruct (same_place_worker _ _ _ _ H1 Hw) as (w1&Hw1&Hpw). split.
        * eapply inv_same_place; [exact Hi3|exact H1].
        * exists w1. by rewrite Hpw.
    - apply bind_Ret_inv in H1 as (a&s2&H2&H1).
      assert (s2 = s) as -> by (destruct (w_idle_fiber w); by inversion H2).
      eapply (Hfr _ s) in H1 as [? Hw1]; [|eauto with frame|done|done].
      split; [done|]. exists w. by rewrite Hw1. }
  destruct (goto_moved _ _ _ _ _ H) as (w2&Hw2&Hm&Hq&Hin&Hout). rewrite Hw1 in Hw2.
  injection Hw2 as <-. destruct (Hinv1).
  eapply (moved_inv i w1 PTop 0 0 s1); [done|done|done|by rewrite Hp1..|congruence|congruence|congruence].
Qed.

Lemma idle_round_inv i s u s' w :
  idle_round i s = Ret u s' → m_workers s !! i = Some w → w_pc w = PRun KIdle →
  inv s → inv s'.
Proof.
  intros H Hw Hpc Hinv. unfold idle_round, stopping in H. rewrite bind_gets in H.
  by eapply run_leave_inv.
Qed.

Lemma stop_inv b s u s' :
  stop b s = Ret u s' → at_pc 0 s = Some PExit → inv s → inv s'.
Proof.
  intros H Hpc Hinv. unfold stop, virtual_stop in H. rewrite bind_modify, !bind_gets in H. simpl in H.
  apply bind_Ret_inv in H as (idle_root&s1&H1&H).
  apply inv_frames in H1 as [Hi1 Hw1]; [| |by destruct Hinv].
  2: { destruct (m_rootFiber s); eauto with frame. }
  apply bind_Ret_inv in H as (dn&s2&H2&H).
  apply inv_frames in H2 as [Hi2 Hw2]; [| |done].
  2: { unfold stopping. eauto with frame. }
  destruct dn; [by inversion H; subst|]. rewrite bind_gets in H.
  apply bind_Ret_inv in H as (v3&s3&H3&H).
  apply inv_frames in H3 as [Hi3 Hw3]; [|by eauto with frame|done].
  rewrite bind_modify in H. apply bind_Ret_inv in H as (v4&s4&H4&H).
  apply inv_frames in H4 as [Hi4 Hw4]; [|by eauto with frame|by destruct Hi3].
  destruct (m_rootFiber s) as [r|]; [|by inversion H; subst].
  apply bind_Ret_inv in H as (v5&s5&H5&H).
  apply inv_frames in H5 as [Hi5 Hw5]; [|by eauto with frame|done].
  unfold stopping in H. rewrite bind_gets in H.
  destruct (_ && _); [by inversion H; subst|].
  apply bind_Ret_inv in H as (v6&s6&H6&H).
  apply inv_frames in H6 as [Hi6 Hw6]; [|by eauto with frame|done].
  destruct (goto_moved _ _ _ _ _ H) as (w&Hw&Hm&Hq&Hin&Hout).
  assert (w_pc w = PExit) as Hp.
  { unfold at_pc in Hpc. simpl in Hw1, Hw3, Hw4. rewrite Hw6, Hw5, Hw4 in Hw.
    simpl in Hw. rewrite Hw3, Hw2, Hw1 in Hw. rewrite Hw in Hpc. simpl in Hpc. congruence. }
  destruct (Hi6).
  eapply (moved_inv 0 w PStart 0 0 s6); [done|done|done|by rewrite Hp..|congruence|congruence|congruence].
Qed.

Lemma exec_inv g e s s' : exec g e s = Some (Ret tt s') → inv s → inv s'.
Proof.
  intros H Hinv. unfold exec, at_pc in H.
  destruct e as [fc t|l t|nt|b| |i|i|i|i l|i|i|i]; cbv beta iota in H.
  - apply (inj Some) in H. by apply schedule_inv in H as [? _].
  - apply (inj Some) in H. apply bind_Ret_inv in H as (r&s1&H1&H). inversion H; subst.
    by eapply schedule_range_inv.
  - apply (inj Some) in H. by eapply start_inv.
  - destruct (w_pc <$> m_workers s !! 0%nat) as [[]|] eqn:E; try done. apply (inj Some) in H.
    by eapply stop_inv.
  - apply (inj Some) in H. apply bind_Ret_inv in H as (r&s1&H1&H). inversion H; subst.
    apply inv_frames in H1 as [? _]; [done|apply frames_stop_join|done].
  - destruct (m_workers s !! i) as [[tid [] idl cb]|] eqn:E; try done. apply (inj Some) in H.
    by eapply run_enter_inv.
  - destruct (m_workers s !! i) as [w|] eqn:E; [|done]. simpl in H.
    destruct (w_pc w) eqn:Ep; try done. apply (inj Some) in H.
    eapply run_take_inv; [exact H| |done]. unfold at_pc. rewrite E. simpl. by rewrite Ep.
  - destruct (m_workers s !! i) as [w|] eqn:E; [|done]. simpl in H.
    destruct (w_pc w) eqn:Ep; try done. apply (inj Some) in H. by eapply run_dispatch_inv.
  - destruct (m_workers s !! i) as [w|] eqn:E; [|done]. simpl in H.
    destruct (w_pc w) as [| | |k| | |] eqn:Ep; try done.
    destruct k; try done; injection H as H; by eapply run_leave_inv.
  - destruct (m_workers s !! i) as [w|] eqn:E; [|done]. simpl in H.
    destruct (w_pc w) as [| | |k| | |] eqn:Ep; try done.
    destruct k; try done; injection H as H; by eapply idle_round_inv.
  - destruct (m_workers s !! i) as [w|] eqn:E; [|done]. simpl in H.
    destruct (w_pc w) eqn:Ep; try done. apply (inj Some) in H. by eapply run_back_inv.
  - destruct (m_workers s !! i) as [w|] eqn:E; [|done]. simpl in H.
    destruct (w_pc w) eqn:Ep; try done. apply (inj Some) in H. by eapply run_after_inv.
Qed.

Lemma new_Scheduler_inv g threads use_caller tid other f f' s :
  new_Scheduler g threads use_caller tid other f = Ret s f' → inv s.
Proof.
  unfold new_Scheduler. intros H. apply bind_Ret_inv in H as (u&f1&_&H).
  destruct use_caller.
  - apply bind_Ret_inv in H as (?&?&_&H). apply bind_Ret_inv in H as (?&?&_&H).
    apply bind_Ret_inv in H as (?&?&_&H). apply bind_Ret_inv in H as (?&?&_&H).
    inversion H; subst. by constructor.
  - inversion H; subst. by constructor.
Qed.

Lemma reachable_inv g s : reachable g s → inv s.
Proof.
  induction 1 as [threads uc tid o f f' s H|s s' _ IH [e s'' H]].
  - by eapply new_Scheduler_inv.
  - by eapply exec_inv.
Qed.

(** ** A worker that is left alone *)

Lemma lift_ok {A} (m : M fibers A) s a f :
  m (s_fibers s) = Ret a f → lift m s = Ret a (set_fibers f s).
Proof. intros H. unfold lift. by rewrite H. Qed.

Lemma get_worker_ok i s w : m_workers s !! i = Some w → get_worker i s = Ret w s.
Proof. intros H. unfold get_worker. by rewrite H. Qed.

Lemma goto_ok i p s w :
  m_workers s !! i = Some w →
  goto i p s = Ret tt (set_workers
    (<[i := Worker (w_tid w) p (w_idle_fiber w) (w_cb_fiber w)]> (m_workers s)) s).
Proof. intros H. unfold goto. by mstep (get_worker_ok _ _ _ H). Qed.

(** What a worker's steps depend on: worker [i], with thread id [tid],
    scheduler fiber [m], idle fiber [a] in state [sa], callback fiber [cb] in
    state [sb]. *)
Record facts (i : nat) (tid : Z) (m a : faddr) (p : pc) (cb : option faddr) (q : list task)
    (sa sb : State) (cur : option faddr) (act : Z) (out : list (Z * task)) (s : sched) : Prop := mkFacts {
  fa_worker : m_workers s !! i = Some (Worker tid p (Some a) cb);
  fa_tls : ∃ th, f_tls (s_fibers s) !! i = Some (Tls cur th (Some m));
  fa_idle : a < f_brk (s_fibers s) ∧ ∃ x, f_heap (s_fibers s) !! a = Some x ∧ m_state x = sa;
  fa_cb : match cb with
          | Some b => b ≠ a ∧ ∃ y, f_heap (s_fibers s) !! b = Some y ∧
                        m_stack y = true ∧ m_state y = sb
          | None => True
          end;
  fa_queue : m_fibers s = q;
  fa_active : m_activeThreadCount s = act;
  fa_stop : m_stopping s = true ∧ m_autoStop s = true;
  fa_out : h_out s = out
}.

(** The tasks of the drained queue: callbacks this thread may run. *)
Definition plain_cb (tid : Z) (ft : task) : Prop :=
  ft_fiber ft = None ∧ is_Some (ft_cb ft) ∧ (ft_thread ft = -1 ∨ ft_thread ft = tid).

Lemma worker_insert i (ws : list worker) w w' :
  ws !! i = Some w → <[i := w']> ws !! i = Some w'.
Proof. intros H. apply list_lookup_insert_eq. by eapply lookup_lt_Some. Qed.

Lemma tls_insert i (l : list tls) t t' : l !! i = Some t → <[i := t']> l !! i = Some t'.
Proof. intros H. apply list_lookup_insert_eq. by eapply lookup_lt_Some. Qed.

Lemma take_plain i tid m a cb ft q sa sb cur out s :
  facts i tid m a PTop cb (ft :: q) sa sb cur 0 out s → plain_cb tid ft →
  ∃ tk s', run_take i s = Ret tt s' ∧
    facts i tid m a (PTaken (Some ft) tk) cb q sa sb cur 1 (out ++ [(tid, ft)]) s'.
Proof.
  intros [Hw Ht Hi Hc Hq Ha Hs Ho] (Hf&Hcb&Hth). unfold run_take.
  mstep (get_worker_ok _ _ _ Hw). msteps. simpl. rewrite Hq.
  assert (search tid (ft :: q) (s_fibers s) =
    Ret (Some ft, q, negb (bool_decide (q = []))) (s_fibers s)) as Hsearch.
  { simpl. assert (negb (ft_thread ft =? -1) && negb (ft_thread ft =? tid) = false) as -> by lia.
    unfold task_ok. rewrite Hf, (bool_decide_true (is_Some (ft_cb ft))) by done. done. }
  mstep (lift_ok _ _ _ _ Hsearch). simpl fst. simpl snd. cbv beta iota. rewrite bind_assoc. msteps.
  eexists _, _. split.
  - apply goto_ok. exact Hw.
  - constructor; simpl; [by erewrite worker_insert|done..|lia|done|congruence].
Qed.

Lemma take_none i tid m a cb sa sb cur out s :
  facts i tid m a PTop cb [] sa sb cur 0 out s →
  ∃ s', run_take i s = Ret tt s' ∧ facts i tid m a (PTaken None false) cb [] sa sb cur 0 out s'.
Proof.
  intros [Hw Ht Hi Hc Hq Ha Hs Ho]. unfold run_take.
  mstep (get_worker_ok _ _ _ Hw). msteps. simpl. rewrite Hq.
  assert (search tid [] (s_fibers s) = Ret (None, [], false) (s_fibers s)) as Hsearch by done.
  mstep (lift_ok _ _ _ _ Hsearch). simpl. msteps. eexists. split; [by apply goto_ok|].
  constructor; simpl; [by erewrite worker_insert|done..].
Qed.

Lemma facts_tickle i tid m a p cb q sa sb cur act out s n :
  facts i tid m a p cb q sa sb cur act out s →
  facts i tid m a p cb q sa sb cur act out (set_tickles n s).
Proof. by intros [? ? ? ? ? ? ? ?]. Qed.

Lemma maybe_tickle (tk : bool) i tid m a p cb q sa sb cur act out s :
  facts i tid m a p cb q sa sb cur act out s →
  ∃ s', (if tk then tickle else mret tt) s = Ret tt s' ∧
    facts i tid m a p cb q sa sb cur act out s'.
Proof.
  intros H. destruct tk; [|by eexists]. eexists. split; [done|]. by apply facts_tickle.
Qed.

Lemma new_Fiber_ok g c s :
  ∃ x s', new_Fiber g c 0 false s = Ret (f_brk s) s' ∧
    f_heap s' = <[f_brk s := x]> (f_heap s) ∧ m_stack x = true ∧ m_state x = INIT ∧
    f_brk s' = f_brk s + 1 ∧ f_tls s' = f_tls s.
Proof.
  unfold new_Fiber, next_id, alloc, modify. cbv [mbind M_bind]. simpl.
  eexists _, _. split; [reflexivity|]. by split_and!.
Qed.

(** A fiber made ready for the callback [c], in state [INIT]. *)
Lemma cb_fiber_ready g c i tid m a p cb q sa cur act out s :
  facts i tid m a p cb q sa INIT cur act out s →
  ∃ b s', (match cb with
           | Some a => lift (reset a (Some c));; mret a
           | None =>
               a ← lift (new_Fiber g (Some c) 0 false);
               set_cb_fiber i (Some a);; mret a
           end) s = Ret b s' ∧
    facts i tid m a p (Some b) q sa INIT cur act out s'.
Proof.
  intros [Hw Ht [Hi (x&Hx&Hsx)] Hc Hq Ha Hs Ho]. destruct cb as [b|].
  - destruct Hc as (Hne&y&Hy&Hst&Hsy). exists b. eexists. split.
    + erewrite bind_ret by (eapply lift_ok, fiber_reset_ok; [exact Hy|done|by right]). done.
    + constructor; simpl; try done.
      * split; [done|]. exists x. by rewrite lookup_insert_ne.
      * split; [done|]. eexists. by rewrite lookup_insert_eq.
  - destruct (new_Fiber_ok g (Some c) (s_fibers s)) as (y&f&Hn&Hh&Hst&Hsy&Hb&Htl).
    exists (f_brk (s_fibers s)). eexists. split.
    + erewrite bind_ret by (apply lift_ok, Hn). unfold set_cb_fiber. rewrite bind_assoc.
      erewrite bind_ret by (by apply get_worker_ok). unfold put_worker. by rewrite bind_modify.
    + constructor; simpl; rewrite ?Hh, ?Hb, ?Htl; try done.
      * by erewrite worker_insert.
      * split; [lia|]. exists x. rewrite lookup_insert_ne by lia. done.
      * split; [lia|]. exists y. by rewrite lookup_insert_eq.
Qed.

Lemma facts_swapIn_cb i tid m a p b q sa cur act out s :
  facts i tid m a p (Some b) q sa INIT cur act out s →
  ∃ s', lift (swapIn i b) s = Ret tt s' ∧
    facts i tid m a p (Some b) q sa EXEC (Some b) act out s'.
Proof.
  intros [Hw [th Ht] [Hi (x&Hx&Hsx)] (Hne&y&Hy&Hst&Hsy) Hq Ha Hs Ho].
  eexists. split; [eapply lift_ok, swapIn_ok; [exact Ht|exact Hy|by rewrite Hsy|done]|].
  constructor; simpl; try done.
  - exists th. by erewrite tls_insert.
  - split; [done|]. exists x. by rewrite lookup_insert_ne.
  - split; [done|]. eexists. by rewrite lookup_insert_eq.
Qed.

Lemma facts_goto i tid m a p p' cb q sa sb cur act out s :
  facts i tid m a p cb q sa sb cur act out s →
  ∃ s', goto i p' s = Ret tt s' ∧ facts i tid m a p' cb q sa sb cur act out s'.
Proof.
  intros [Hw Ht Hi Hc Hq Ha Hs Ho]. eexists. split; [by apply goto_ok|].
  constructor; simpl; try done. by erewrite worker_insert.
Qed.

Lemma facts_get_worker i tid m a p cb q sa sb cur act out s :
  facts i tid m a p cb q sa sb cur act out s →
  get_worker i s = Ret (Worker tid p (Some a) cb) s.
Proof. intros [Hw _ _ _ _ _ _ _]. by apply get_worker_ok. Qed.

Lemma facts_active i tid m a p cb q sa sb cur act out s v :
  facts i tid m a p cb q sa sb cur act out s →
  facts i tid m a p cb q sa sb cur v out (set_active v s).
Proof. by intros [? ? ? ? ? ? ? ?]. Qed.

Lemma facts_idle_count i tid m a p cb q sa sb cur act out s v :
  facts i tid m a p cb q sa sb cur act out s →
  facts i tid m a p cb q sa sb cur act out (set_idle v s).
Proof. by intros [? ? ? ? ? ? ? ?]. Qed.

Lemma dispatch_cb g i tid m a ft tk cb q sa cur act out s :
  facts i tid m a (PTaken (Some ft) tk) cb q sa INIT cur act out s → plain_cb tid ft →
  ∃ b s', run_dispatch g i (Some ft) tk s = Ret tt s' ∧
    facts i tid m a (PRun KCb) (Some b) q sa EXEC (Some b) act out s'.
Proof.
  intros F (Hf&[c Hc]&_). unfold run_dispatch. mstep (facts_get_worker _ _ _ _ _ _ _ _ _ _ _ _ _ F).
  destruct (maybe_tickle tk _ _ _ _ _ _ _ _ _ _ _ _ _ F) as (s1&H1&F1). mstep H1.
  cbn [mbind option_bind]. rewrite Hf, Hc. rewrite bind_mret. cbv beta iota.
  destruct (cb_fiber_ready g c _ _ _ _ _ _ _ _ _ _ _ _ F1) as (b&s2&H2&F2).
  cbn [w_cb_fiber]. mstep H2.
  destruct (facts_swapIn_cb _ _ _ _ _ _ _ _ _ _ _ _ F2) as (s3&H3&F3). mstep H3.
  destruct (facts_goto _ _ _ _ _ (PRun KCb) _ _ _ _ _ _ _ _ F3) as (s4&H4&F4).
  exists b, s4. done.
Qed.

(** The callback returns: [MainFunc] sets [TERM]. *)
Lemma leave_cb i tid m a b q sa act out s :
  facts i tid m a (PRun KCb) (Some b) q sa EXEC (Some b) act out s →
  ∃ s', run_leave i KCb (Ends Returned) s = Ret tt s' ∧
    facts i tid m a (PLeaving KCb) (Some b) q sa TERM (Some b) act out s'.
Proof.
  intros [Hw [th Ht] [Hi (x&Hx&Hsx)] (Hne&y&Hy&Hst&Hsy) Hq Ha Hs Ho]. unfold run_leave.
  erewrite bind_ret by (eapply lift_ok, main_end_ok; [exact Ht|done|exact Hy]).
  eapply (facts_goto i tid m a (PRun KCb)). constructor; simpl; try done.
  - by exists th.
  - split; [done|]. exists x. by rewrite lookup_insert_ne.
  - split; [done|]. eexists. by rewrite lookup_insert_eq.
Qed.

Lemma facts_swapOut i tid m a p cb q sa sb cur act out s :
  facts i tid m a p cb q sa sb cur act out s →
  ∃ s', lift (swapOut i) s = Ret tt s' ∧ facts i tid m a p cb q sa sb (Some m) act out s'.
Proof.
  intros [Hw [th Ht] Hi Hc Hq Ha Hs Ho].
  eexists. split; [eapply lift_ok, swapOut_ok; [exact Ht|done]|].
  constructor; simpl; try done. exists th. by erewrite tls_insert.
Qed.

Lemma back_cb i tid m a cb q sa sb cur act out s :
  facts i tid m a (PLeaving KCb) cb q sa sb cur act out s →
  ∃ s', run_back i KCb s = Ret tt s' ∧
    facts i tid m a (PAfter KCb) cb q sa sb (Some m) (act - 1) out s'.
Proof.
  intros F. unfold run_back. destruct (facts_swapOut _ _ _ _ _ _ _ _ _ _ _ _ _ F) as (s1&H1&F1).
  mstep H1. msteps. rewrite (fa_active _ _ _ _ _ _ _ _ _ _ _ _ _ F1).
  eapply facts_goto. by apply (facts_active _ _ _ _ _ _ _ _ _ _ act).
Qed.

Lemma after_cb i tid m a b q sa act out s :
  facts i tid m a (PAfter KCb) (Some b) q sa TERM (Some m) act out s →
  ∃ s', run_after i KCb s = Ret tt s' ∧
    facts i tid m a PTop (Some b) q sa INIT (Some m) act out s'.
Proof.
  intros F. unfold run_after. mstep (facts_get_worker _ _ _ _ _ _ _ _ _ _ _ _ _ F).
  destruct F as [Hw Ht [Hi (x&Hx&Hsx)] (Hne&y&Hy&Hst&Hsy) Hq Ha Hs Ho].
  rewrite bind_assoc. simpl. rewrite bind_mret.
  rewrite bind_assoc. erewrite bind_ret by (by eapply lift_ok, get_fiber_ok).
  rewrite Hsy. cbn [finished]. rewrite bool_decide_false by done. cbv iota beta.
  erewrite bind_ret by (eapply lift_ok, fiber_reset_ok; [exact Hy|done|by left]).
  eapply (facts_goto i tid m a (PAfter KCb)). constructor; simpl; try done.
  - split; [done|]. exists x. by rewrite lookup_insert_ne.
  - split; [done|]. eexists. by rewrite lookup_insert_eq.
Qed.

Lemma dispatch_idle g i tid m a cb sa sb cur act out s :
  facts i tid m a (PTaken None false) cb [] sa sb cur act out s → sa ≠ EXEC → sa ≠ TERM →
  ∃ s', run_dispatch g i None false s = Ret tt s' ∧
    facts i tid m a (PRun KIdle) cb [] EXEC sb (Some a) act out s'.
Proof.
  intros F He Ht. unfold run_dispatch. mstep (facts_get_worker _ _ _ _ _ _ _ _ _ _ _ _ _ F).
  rewrite bind_mret. cbn [mbind option_bind]. rewrite bind_mret. cbv beta iota.
  rewrite bool_decide_false by (by intros [? ?]). cbn [w_idle_fiber deref]. rewrite bind_mret.
  destruct F as [Hw [th Htl] [Hi (x&Hx&Hsx)] Hc Hq Ha Hs Ho].
  erewrite bind_ret by (by eapply lift_ok, get_fiber_ok). rewrite Hsx.
  rewrite bool_decide_false by done. msteps.
  erewrite bind_ret by (eapply lift_ok, swapIn_ok; [exact Htl|exact Hx|by rewrite Hsx|done]).
  eapply (facts_goto i tid m a (PTaken None false)). constructor; simpl; try done.
  - exists th. by erewrite tls_insert.
  - split; [done|]. eexists. by rewrite lookup_insert_eq.
  - destruct cb as [b|]; [|done]. destruct Hc as (Hne&y&Hy&Hst&Hsy). split; [done|].
    exists y. by rewrite lookup_insert_ne.
Qed.

Lemma dispatch_exit g i tid m a cb sb cur act out s :
  facts i tid m a (PTaken None false) cb [] TERM sb cur act out s →
  ∃ s', run_dispatch g i None false s = Ret tt s' ∧
    facts i tid m a PExit cb [] TERM sb cur act out s'.
Proof.
  intros F. unfold run_dispatch. mstep (facts_get_worker _ _ _ _ _ _ _ _ _ _ _ _ _ F).
  rewrite bind_mret. cbn [mbind option_bind]. rewrite bind_mret. cbv beta iota.
  rewrite bool_decide_false by (by intros [? ?]). cbn [w_idle_fiber deref]. rewrite bind_mret.
  assert (F' := F). destruct F' as [Hw [th Htl] [Hi (x&Hx&Hsx)] Hc Hq Ha Hs Ho].
  erewrite bind_ret by (by eapply lift_ok, get_fiber_ok). rewrite Hsx.
  rewrite bool_decide_true by done.
  eapply (facts_goto i tid m a (PTaken None false)). by constructor; eauto.
Qed.

Lemma idle_round_stops i tid m a cb sb out s :
  facts i tid m a (PRun KIdle) cb [] EXEC sb (Some a) 0 out s →
  ∃ s', idle_round i s = Ret tt s' ∧
    facts i tid m a (PLeaving KIdle) cb [] TERM sb (Some a) 0 out s'.
Proof.
  intros [Hw [th Htl] [Hi (x&Hx&Hsx)] Hc Hq Ha [Hs1 Hs2] Ho]. unfold idle_round, stopping.
  rewrite bind_gets, Hs1, Hs2, Hq, Ha. simpl. unfold run_leave.
  erewrite bind_ret by (eapply lift_ok, main_end_ok; [exact Htl|done|exact Hx]).
  eapply (facts_goto i tid m a (PRun KIdle)). constructor; simpl; try done.
  - by exists th.
  - split; [done|]. eexists. by rewrite lookup_insert_eq.
  - destruct cb as [b|]; [|done]. destruct Hc as (Hne&y&Hy&Hst&Hsy). split; [done|].
    exists y. by rewrite lookup_insert_ne.
Qed.

Lemma back_idle i tid m a cb q sa sb cur act out s :
  facts i tid m a (PLeaving KIdle) cb q sa sb cur act out s →
  ∃ s', run_back i KIdle s = Ret tt s' ∧
    facts i tid m a (PAfter KIdle) cb q sa sb (Some m) act out s'.
Proof.
  intros F. unfold run_back. destruct (facts_swapOut _ _ _ _ _ _ _ _ _ _ _ _ _ F) as (s1&H1&F1).
  mstep H1. msteps. eapply facts_goto. by apply facts_idle_count.
Qed.

Lemma after_idle i tid m a cb q sb cur act out s :
  facts i tid m a (PAfter KIdle) cb q TERM sb cur act out s →
  ∃ s', run_after i KIdle s = Ret tt s' ∧ facts i tid m a PTop cb q TERM sb cur act out s'.
Proof.
  intros F. unfold run_after. mstep (facts_get_worker _ _ _ _ _ _ _ _ _ _ _ _ _ F).
  assert (F' := F). destruct F' as [Hw Ht [Hi (x&Hx&Hsx)] Hc Hq Ha Hs Ho].
  rewrite bind_assoc. simpl. rewrite bind_mret.
  rewrite bind_assoc. erewrite bind_ret by (by eapply lift_ok, get_fiber_ok).
  rewrite Hsx. simpl. rewrite bind_mret.
  eapply (facts_goto i tid m a (PAfter KIdle)). by constructor; eauto.
Qed.

(** Worker [i] runs to the end of [run], each callback returning at once. *)
Definition turn (i : nat) (s : sched) : event :=
  match at_pc i s with
  | Some PStart => EvEnter i
  | Some PTop => EvTake i
  | Some (PTaken _ _) => EvDispatch i
  | Some (PRun KIdle) => EvIdle i
  | Some (PRun _) => EvLeave i (Ends Returned)
  | Some (PLeaving _) => EvBack i
  | Some (PAfter _) => EvAfter i
  | Some PExit | None => EvJoin
  end.

Fixpoint drive (g : Z) (i : nat) (fuel : nat) (s : sched) : res sched () :=
  match at_pc i s with
  | Some PExit => Ret tt s
  | _ =>
      match fuel with
      | 0%nat => Crash Diverges
      | S fuel =>
          match exec g (turn i s) s with
          | Some (Ret _ s') => drive g i fuel s'
          | Some r => r
          | None => Crash Diverges
          end
      end
  end.

Lemma facts_at_pc i tid m a p cb q sa sb cur act out s :
  facts i tid m a p cb q sa sb cur act out s → at_pc i s = Some p.
Proof. intros F. unfold at_pc. by rewrite (fa_worker _ _ _ _ _ _ _ _ _ _ _ _ _ F). Qed.

Lemma drive_step g i p s s' fuel :
  at_pc i s = Some p → p ≠ PExit → exec g (turn i s) s = Some (Ret tt s') →
  drive g i (S fuel) s = drive g i fuel s'.
Proof. intros Hp Hne Hex. simpl. rewrite Hp, Hex. by destruct p. Qed.

Lemma drive_callback g i tid m a ft cb q sa cur out s fuel :
  facts i tid m a PTop cb (ft :: q) sa INIT cur 0 out s → plain_cb tid ft →
  ∃ b s', drive g i (5 + fuel) s = drive g i fuel s' ∧
    facts i tid m a PTop (Some b) q sa INIT (Some m) 0 (out ++ [(tid, ft)]) s'.
Proof.
  intros F Hft. pose proof (facts_at_pc _ _ _ _ _ _ _ _ _ _ _ _ _ F) as Hp.
  destruct (take_plain _ _ _ _ _ _ _ _ _ _ _ _ F Hft) as (tk&s1&H1&F1).
  pose proof (facts_at_pc _ _ _ _ _ _ _ _ _ _ _ _ _ F1) as Hp1.
  destruct (dispatch_cb g _ _ _ _ _ _ _ _ _ _ _ _ _ F1 Hft) as (b&s2&H2&F2).
  pose proof (facts_at_pc _ _ _ _ _ _ _ _ _ _ _ _ _ F2) as Hp2.
  destruct (leave_cb _ _ _ _ _ _ _ _ _ _ F2) as (s3&H3&F3).
  pose proof (facts_at_pc _ _ _ _ _ _ _ _ _ _ _ _ _ F3) as Hp3.
  destruct (back_cb _ _ _ _ _ _ _ _ _ _ _ _ F3) as (s4&H4&F4).
  pose proof (facts_at_pc _ _ _ _ _ _ _ _ _ _ _ _ _ F4) as Hp4.
  destruct (after_cb _ _ _ _ _ _ _ _ _ _ F4) as (s5&H5&F5).
  exists b, s5. split; [|done]. change (5 + fuel)%nat with (S (S (S (S (S fuel))))).
  erewrite (drive_step g i _ s s1), (drive_step g i _ s1 s2), (drive_step g i _ s2 s3),
    (drive_step g i _ s3 s4), (drive_step g i _ s4 s5); try eassumption; try done;
    unfold turn; rewrite ?Hp, ?Hp1, ?Hp2, ?Hp3, ?Hp4; unfold exec;
    rewrite ?Hp, ?Hp1, ?Hp2, ?Hp3, ?Hp4; by rewrite ?H1, ?H2, ?H3, ?H4, ?H5.
Qed.

Lemma drive_callbacks g i tid m a q : ∀ cb sa cur out s fuel,
  facts i tid m a PTop cb q sa INIT cur 0 out s → Forall (plain_cb tid) q →
  ∃ cb' s' cur', drive g i (5 * length q + fuel) s = drive g i fuel s' ∧
    facts i tid m a PTop cb' [] sa INIT cur' 0 (out ++ map (pair tid) q) s'.
Proof.
  induction q as [|ft q IH]; intros cb sa cur out s fuel F Hq.
  { exists cb, s, cur. simpl. by rewrite app_nil_r. }
  inversion_clear Hq as [|?? Hft Hq'].
  replace (5 * length (ft :: q) + fuel)%nat with (5 + (5 * length q + fuel))%nat by (simpl; lia).
  destruct (drive_callback g i tid m a ft cb q sa cur out s (5 * length q + fuel) F Hft)
    as (b&s1&->&F1).
  destruct (IH _ _ _ _ _ fuel F1 Hq') as (cb'&s'&cur'&->&F'). exists cb', s', cur'.
  split; [done|]. by rewrite <- app_assoc in F'.
Qed.

Lemma drive_exit g i tid m a cb sa cur out s fuel :
  facts i tid m a PTop cb [] sa INIT cur 0 out s → sa ≠ EXEC → sa ≠ TERM →
  ∃ s' cur', drive g i (7 + fuel) s = Ret tt s' ∧
    facts i tid m a PExit cb [] TERM INIT cur' 0 out s'.
Proof.
  intros F Hne Hnt. pose proof (facts_at_pc _ _ _ _ _ _ _ _ _ _ _ _ _ F) as Hp.
  destruct (take_none _ _ _ _ _ _ _ _ _ _ F) as (s1&H1&F1).
  pose proof (facts_at_pc _ _ _ _ _ _ _ _ _ _ _ _ _ F1) as Hp1.
  destruct (dispatch_idle g _ _ _ _ _ _ _ _ _ _ _ F1 Hne Hnt) as (s2&H2&F2).
  pose proof (facts_at_pc _ _ _ _ _ _ _ _ _ _ _ _ _ F2) as Hp2.
  destruct (idle_round_stops _ _ _ _ _ _ _ _ F2) as (s3&H3&F3).
  pose proof (facts_at_pc _ _ _ _ _ _ _ _ _ _ _ _ _ F3) as Hp3.
  destruct (back_idle _ _ _ _ _ _ _ _ _ _ _ _ F3) as (s4&H4&F4).
  pose proof (facts_at_pc _ _ _ _ _ _ _ _ _ _ _ _ _ F4) as Hp4.
  destruct (after_idle _ _ _ _ _ _ _ _ _ _ _ F4) as (s5&H5&F5).
  pose proof (facts_at_pc _ _ _ _ _ _ _ _ _ _ _ _ _ F5) as Hp5.
  destruct (take_none _ _ _ _ _ _ _ _ _ _ F5) as (s6&H6&F6).
  pose proof (facts_at_pc _ _ _ _ _ _ _ _ _ _ _ _ _ F6) as Hp6.
  destruct (dispatch_exit g _ _ _ _ _ _ _ _ _ _ F6) as (s7&H7&F7).
  pose proof (facts_at_pc _ _ _ _ _ _ _ _ _ _ _ _ _ F7) as Hp7.
  exists s7, (Some m). split; [|done].
  change (7 + fuel)%nat with (S (S (S (S (S (S (S fuel))))))).
  erewrite (drive_step g i _ s s1), (drive_step g i _ s1 s2), (drive_step g i _ s2 s3),
    (drive_step g i _ s3 s4), (drive_step g i _ s4 s5), (drive_step g i _ s5 s6),
    (drive_step g i _ s6 s7); try eassumption; try done;
    try (unfold turn; rewrite ?Hp, ?Hp1, ?Hp2, ?Hp3, ?Hp4, ?Hp5, ?Hp6; unfold exec;
    rewrite ?Hp, ?Hp1, ?Hp2, ?Hp3, ?Hp4, ?Hp5, ?Hp6;
    by rewrite ?H1, ?H2, ?H3, ?H4, ?H5, ?H6, ?H7).
  destruct fuel; simpl; by rewrite Hp7.
Qed.

(** ** Properties *)

Definition fibers_exist (s : fibers) (l : list task) : Prop :=
  Forall (λ it, match ft_fiber it with Some f => is_Some (f_heap s !! f) | None => True end) l.

Lemma search_returns s tid l :
  Forall (λ it, task_ok it = true) l → fibers_exist s l → ∃ r, search tid l s = Ret r s.
Proof.
  induction l as [|it l IH]; intros Hok Hex; simpl; [by eexists|].
  inversion_clear Hok as [|?? Hit Hok']. inversion_clear Hex as [|?? Hf Hex'].
  destruct (IH Hok' Hex') as [r Hr]. fold (elsewhere tid it).
  destruct (elsewhere tid it); [mstep Hr; by eexists|].
  rewrite Hit. simpl. rewrite bind_mret.
  destruct (ft_fiber it) as [f|].
  - destruct Hf as [x Hx]. rewrite bind_assoc.
    erewrite bind_ret by (by apply get_fiber_ok). rewrite bind_mret.
    destruct (bool_decide _); [mstep Hr|]; by eexists.
  - rewrite bind_mret. by eexists.
Qed.

(** The search a worker makes under the lock takes the first task it may
    run: every task before it is bound to another thread or is a fiber that is
    running, the order of the others is kept, and [tickle_me] tells whether a
    task bound elsewhere was passed over or tasks remain behind. *)
Theorem search_takes_first_runnable (s : fibers) (tid : Z) (l : list task)
    (Hok : Forall (λ it, task_ok it = true) l) (Hex : fibers_exist s l) :
  ∃ o rest tickle_me, search tid l s = Ret (o, rest, tickle_me) s ∧
    match o with
    | Some it => ∃ l1 l2, l = l1 ++ it :: l2 ∧ rest = l1 ++ l2 ∧
        Forall (λ x, passed s tid x = true) l1 ∧ passed s tid it = false ∧
        tickle_me = existsb (elsewhere tid) l1 || negb (bool_decide (l2 = []))
    | None => rest = l ∧ Forall (λ x, passed s tid x = true) l ∧
        tickle_me = existsb (elsewhere tid) l
    end.
Proof.
  destruct (search_returns s tid l Hok Hex) as [[[o rest] tk] Hr].
  exists o, rest, tk. split; [done|]. apply search_inv in Hr as (_&_&H).
  destruct o as [it|]; [|done]. destruct H as (l1&l2&?&?&?&?&_&?). by exists l1, l2.
Qed.

(** C3. Whatever threads do (schedule, start, stop, run, yield, fail), no task
    is lost, duplicated or run on a thread it is not bound to: the tasks
    scheduled are the tasks taken and the tasks queued, and
    [m_activeThreadCount] and [m_idleThreadCount] are the numbers of workers
    that run a task and that idle. *)
Theorem scheduler_conserves_tasks (g : Z) (s : sched) (H : reachable g s) :
  h_in s ≡ₚ map snd (h_out s) ++ m_fibers s ∧
  Forall pinned_ok (h_out s) ∧
  m_activeThreadCount s = count_pc active_pc (m_workers s) ∧
  m_idleThreadCount s = count_pc idle_pc (m_workers s).
Proof. by destruct (reachable_inv g s H). Qed.

(** A worker gives up only when all is done: if its idle fiber leaves its
    loop in a reachable state, [stop] was called, the queue is empty, every
    task ever scheduled was taken, and no worker is running one. *)
Theorem idle_leaves_only_when_drained (g : Z) (s s' : sched)
    (H : reachable g s) (Hb : stopping s = Ret true s') :
  m_stopping s = true ∧ m_autoStop s = true ∧ m_fibers s = [] ∧
  h_in s ≡ₚ map snd (h_out s) ∧
  ∀ j w, m_workers s !! j = Some w → active_pc (w_pc w) = false.
Proof.
  destruct (reachable_inv g s H) as [Ha _ Ht _ _]. unfold stopping in Hb.
  cbv [gets] in Hb. injection Hb as Hb _.
  apply andb_true_iff in Hb as [Hb H0]. apply andb_true_iff in Hb as [Hb Hq].
  apply andb_true_iff in Hb as [H1 H2]. apply bool_decide_eq_true in Hq. apply Z.eqb_eq in H0.
  split_and!; [done..| |].
  - by rewrite Ht, Hq, app_nil_r.
  - apply count_pc_zero. by rewrite <- Ha.
Qed.

(** C19. After [stop], a worker left to itself drains the queue and ends: with
    callbacks that return, [5 n + 7] steps take the [n] queued callbacks in
    order and bring the worker out of [run]. *)
Theorem worker_drains_and_exits (g : Z) (i : nat) (tid m a : Z) (cb : option faddr)
    (q : list task) (sa : State) (cur : option faddr) (out : list (Z * task)) (s : sched)
    (F : facts i tid m a PTop cb q sa INIT cur 0 out s) (Hq : Forall (plain_cb tid) q)
    (Hne : sa ≠ EXEC) (Hnt : sa ≠ TERM) :
  ∃ s', drive g i (5 * length q + 7) s = Ret tt s' ∧ at_pc i s' = Some PExit ∧
    m_fibers s' = [] ∧ h_out s' = out ++ map (pair tid) q ∧ m_activeThreadCount s' = 0.
Proof.
  destruct (drive_callbacks g i tid m a q cb sa cur out s 7 F Hq) as (cb'&s1&cur'&->&F1).
  destruct (drive_exit g i tid m a cb' sa cur' _ s1 0 F1 Hne Hnt) as (s2&cur2&Hd&F2).
  exists s2. split; [exact Hd|]. split; [by eapply facts_at_pc|]. by destruct F2.
Qed.

Lemma leave_cb_state i tid m a b q sa act out s l st :
  facts i tid m a (PRun KCb) (Some b) q sa EXEC (Some b) act out s →
  st = match l with YieldReady => READY | YieldHold => HOLD | Ends Returned => TERM | Ends Threw => EXCEPT end →
  ∃ s', run_leave i KCb l s = Ret tt s' ∧
    facts i tid m a (PLeaving KCb) (Some b) q sa st (Some b) act out s'.
Proof.
  intros [Hw [th Ht] [Hi (x&Hx&Hsx)] (Hne&y&Hy&Hst&Hsy) Hq Ha Hs Ho] ->.
  assert (∃ y', leave_state i l (s_fibers s) = Ret tt
      (set_heap (<[b := y']> (f_heap (s_fibers s))) (s_fibers s)) ∧ m_stack y' = true ∧
      m_state y' = match l with YieldReady => READY | YieldHold => HOLD
                   | Ends Returned => TERM | Ends Threw => EXCEPT end) as (y'&Hl&Hst'&Hs').
  { destruct l as [| |e]; simpl.
    - eexists. split; [by erewrite bind_ret by (by eapply yield_state_ok)|done].
    - eexists. split; [by erewrite bind_ret by (by eapply yield_state_ok)|done].
    - destruct e; (eexists; split; [by eapply main_end_ok|done]). }
  unfold run_leave. erewrite bind_ret by (by apply lift_ok).
  eapply (facts_goto i tid m a (PRun KCb)). constructor; simpl; try done.
  - by exists th.
  - split; [done|]. exists x. by rewrite lookup_insert_ne.
  - split; [done|]. eexists. by rewrite lookup_insert_eq.
Qed.

(** A callback that throws stops the process: the worker calls
    [cb_fiber->reset(nullptr)] on a fiber in state [EXCEPT], which [reset]
    asserts against. *)
Theorem callback_exception_aborts (i : nat) (tid m a b : Z) (q : list task) (sa : State)
    (act : Z) (out : list (Z * task)) (s : sched)
    (F : facts i tid m a (PRun KCb) (Some b) q sa EXEC (Some b) act out s) :
  (run_leave i KCb (Ends Threw);; run_back i KCb;; run_after i KCb) s = Crash AssertFailed.
Proof.
  destruct (leave_cb_state _ _ _ _ _ _ _ _ _ _ (Ends Threw) EXCEPT F eq_refl) as (s1&H1&F1).
  mstep H1. destruct (back_cb _ _ _ _ _ _ _ _ _ _ _ _ F1) as (s2&H2&F2). mstep H2.
  unfold run_after. mstep (facts_get_worker _ _ _ _ _ _ _ _ _ _ _ _ _ F2).
  destruct F2 as [_ _ _ (_&y&Hy&_&Hsy) _ _ _ _].
  rewrite bind_assoc. simpl. rewrite bind_mret.
  rewrite bind_assoc. erewrite bind_ret by (by eapply lift_ok, get_fiber_ok).
  rewrite Hsy. simpl. apply bind_crash. unfold lift.
  by erewrite reset_assert by (exact Hy || by rewrite Hsy).
Qed.

Lemma schedule_nonempty fc t s :
  m_fibers s ≠ [] → task_ok (FiberAndThread fc t) = true →
  schedule fc t s = Ret tt
    (set_history (h_in s ++ [FiberAndThread fc t]) (h_out s)
       (set_queue (m_fibers s ++ [FiberAndThread fc t]) s)).
Proof.
  intros Hq Hok. unfold schedule, scheduleNoLock. rewrite bind_assoc, bind_gets, Hok.
  rewrite bind_assoc, bind_modify, bind_mret. by rewrite bool_decide_false.
Qed.

(** A callback that yields with [YieldToReady] while another callback is
    queued stops the process: [cb_fiber] is put in the queue but kept, and the
    next callback resets it in state [READY], which [reset] asserts against. *)
Theorem ready_callback_aborts (g : Z) (i : nat) (tid m a b : Z) (ft : task) (q : list task)
    (sa : State) (out : list (Z * task)) (s : sched)
    (F : facts i tid m a (PRun KCb) (Some b) (ft :: q) sa EXEC (Some b) 1 out s)
    (Hft : plain_cb tid ft) :
  ∃ s1 tk, (run_leave i KCb YieldReady;; run_back i KCb;; run_after i KCb;; run_take i) s =
      Ret tt s1 ∧ at_pc i s1 = Some (PTaken (Some ft) tk) ∧
    run_dispatch g i (Some ft) tk s1 = Crash AssertFailed.
Proof.
  destruct (leave_cb_state _ _ _ _ _ _ _ _ _ _ YieldReady READY F eq_refl) as (s1&H1&F1).
  destruct (back_cb _ _ _ _ _ _ _ _ _ _ _ _ F1) as (s2&H2&F2).
  assert (∃ s3, run_after i KCb s2 = Ret tt s3 ∧
    facts i tid m a PTop (Some b) (ft :: (q ++ [Task (Some b) None (-1)])) sa READY (Some m) 0 out s3)
    as (s3&H3&F3).
  { unfold run_after. mstep (facts_get_worker _ _ _ _ _ _ _ _ _ _ _ _ _ F2).
    destruct F2 as [Hw Ht [Hi (x&Hx&Hsx)] (Hne&y&Hy&Hst&Hsy) Hq Ha Hs Ho].
    rewrite bind_assoc. simpl. rewrite bind_mret.
    rewrite bind_assoc. erewrite bind_ret by (by eapply lift_ok, get_fiber_ok).
    rewrite Hsy, bool_decide_true by done.
    erewrite bind_ret by (apply schedule_nonempty; [simpl; by rewrite Hq|done]). eapply (facts_goto i tid m a (PAfter KCb)). constructor; simpl; try done.
    - exact (conj Hi (ex_intro _ x (conj Hx Hsx))).
    - split; [done|]. by exists y.
    - by rewrite Hq. }
  destruct (take_plain _ _ _ _ _ _ _ _ _ _ _ _ F3 Hft) as (tk&s4&H4&F4).
  exists s4, tk. split; [by mstep H1; mstep H2; mstep H3|].
  split; [by eapply facts_at_pc|].
  destruct Hft as (Hf&[c Hc]&_). unfold run_dispatch.
  mstep (facts_get_worker _ _ _ _ _ _ _ _ _ _ _ _ _ F4).
  destruct (maybe_tickle tk _ _ _ _ _ _ _ _ _ _ _ _ _ F4) as (s5&H5&F5). mstep H5.
  cbn [mbind option_bind]. rewrite Hf, Hc, bind_mret. cbv beta iota. cbn [w_cb_fiber].
  apply bind_crash, bind_crash. destruct F5 as [_ _ _ (_&y&Hy&_&Hsy) _ _ _ _].
  unfold lift. by erewrite reset_assert by (exact Hy || by rewrite Hsy).
Qed.

(** ** Instances *)

Fixpoint run_events (g : Z) (es : list event) (s : sched) : option sched :=
  match es with
  | [] => Some s
  | e :: es =>
      match exec g e s with Some (Ret _ s') => run_events g es s' | _ => None end
  end.

Lemma run_events_reachable g es : ∀ s s',
  reachable g s → run_events g es s = Some s' → reachable g s'.
Proof.
  induction es as [|e es IH]; intros s s' Hr H; simpl in H; [by simplify_eq|].
  destruct (exec g e s) as [[[] s1| |]|] eqn:E; try done.
  eapply IH; [|exact H]. eapply reach_step; [exact Hr|]. by eapply step_event.
Qed.

Definition no_fibers : fibers := Fibers ∅ 1 0 0 [Tls None None None].
Definition new_sys (threads : Z) : option sched :=
  match new_Scheduler 131072 threads false 100 false no_fibers with
  | Ret s _ => Some s
  | _ => None
  end.
Definition sys (threads : Z) (es : list event) : option sched :=
  s ← new_sys threads; run_events 131072 es s.

Definition tid_of (n : nat) : Z := 101 + Z.of_nat n.
Definition cb1 : task := Task None (Some (User 1)) (-1).
Definition cb2 : task := Task None (Some (User 2)) 101.

(** One worker, two callbacks queued, and [stop] called. *)
Definition queued_events : list event :=
  [EvStart tid_of; EvEnter 1; EvSchedule (FCb (Some (User 1))) (-1);
   EvSchedule (FCb (Some (User 2))) 101; EvStop false].

Definition dummy : sched := Sched no_fibers [] [] 0 [] 0 0 true false (-1) None [] 0 [] [].
Definition ex_queued : sched := default dummy (sys 1 queued_events).
Definition ex_running : sched := default dummy (sys 1 (queued_events ++ [EvTake 1; EvDispatch 1])).
Definition ex_done : sched :=
  match drive 131072 1 17 ex_queued with Ret _ s => s | _ => dummy end.

Lemma sys_reachable threads es s : sys threads es = Some s → reachable 131072 s.
Proof.
  unfold sys, new_sys. destruct (new_Scheduler _ _ _ _ _ _) as [s0 f| |] eqn:E; try done.
  simpl. intros H. eapply run_events_reachable; [|exact H]. by eapply reach_new.
Qed.

Ltac by_vm := vm_compute; reflexivity.

Lemma ex_queued_facts :
  facts 1 101 1 2 PTop None [cb1; cb2] INIT INIT (Some 1) 0 [] ex_queued.
Proof.
  constructor; [by_vm|eexists; by_vm|split; [by_vm|eexists; split; by_vm]|done|by_vm|by_vm|split; by_vm|by_vm].
Defined.

Lemma ex_running_facts :
  facts 1 101 1 2 (PRun KCb) (Some 3) [cb2] INIT EXEC (Some 3) 1 [(101, cb1)] ex_running.
Proof.
  constructor; [by_vm|eexists; by_vm|split; [by_vm|eexists; split; by_vm]| |by_vm|by_vm|split; by_vm|by_vm].
  split; [done|]. eexists. split; [by_vm|split; by_vm].
Defined.

Lemma cb2_plain : plain_cb 101 cb2.
Proof. split; [done|]. split; [by eexists|by right]. Defined.
Lemma cb1_plain : plain_cb 101 cb1.
Proof. split; [done|]. split; [by eexists|by left]. Defined.

Lemma search_takes_first_runnable_witness :
  ∃ o rest tickle_me, search 101 [Task None (Some (User 3)) 102; cb1] (s_fibers ex_queued) =
      Ret (o, rest, tickle_me) (s_fibers ex_queued) ∧
    match o with
    | Some it => ∃ l1 l2, [Task None (Some (User 3)) 102; cb1] = l1 ++ it :: l2 ∧ rest = l1 ++ l2 ∧
        Forall (λ x, passed (s_fibers ex_queued) 101 x = true) l1 ∧
        passed (s_fibers ex_queued) 101 it = false ∧
        tickle_me = existsb (elsewhere 101) l1 || negb (bool_decide (l2 = []))
    | None => rest = [Task None (Some (User 3)) 102; cb1] ∧
        Forall (λ x, passed (s_fibers ex_queued) 101 x = true) [Task None (Some (User 3)) 102; cb1] ∧
        tickle_me = existsb (elsewhere 101) [Task None (Some (User 3)) 102; cb1]
    end.
Proof.
  apply (search_takes_first_runnable (s_fibers ex_queued) 101 [Task None (Some (User 3)) 102; cb1]).
  - repeat constructor.
  - repeat constructor.
Defined.

Lemma scheduler_conserves_tasks_witness :
  h_in ex_running ≡ₚ map snd (h_out ex_running) ++ m_fibers ex_running ∧
  Forall pinned_ok (h_out ex_running) ∧
  m_activeThreadCount ex_running = count_pc active_pc (m_workers ex_running) ∧
  m_idleThreadCount ex_running = count_pc idle_pc (m_workers ex_running).
Proof.
  apply (scheduler_conserves_tasks 131072 ex_running).
  apply (sys_reachable 1 (queued_events ++ [EvTake 1; EvDispatch 1])). by_vm.
Defined.

(** The worker idles after both callbacks; [stopping] holds. *)
Definition idling_events : list event :=
  queued_events ++
  [EvTake 1; EvDispatch 1; EvLeave 1 (Ends Returned); EvBack 1; EvAfter 1;
   EvTake 1; EvDispatch 1; EvLeave 1 (Ends Returned); EvBack 1; EvAfter 1; EvTake 1; EvDispatch 1].
Definition ex_idling : sched := default dummy (sys 1 idling_events).

Lemma idle_leaves_only_when_drained_witness :
  m_stopping ex_idling = true ∧ m_autoStop ex_idling = true ∧ m_fibers ex_idling = [] ∧
  h_in ex_idling ≡ₚ map snd (h_out ex_idling) ∧
  ∀ j w, m_workers ex_idling !! j = Some w → active_pc (w_pc w) = false.
Proof.
  apply (idle_leaves_only_when_drained 131072 ex_idling ex_idling).
  - apply (sys_reachable 1 idling_events). by_vm.
  - by_vm.
Defined.

Lemma worker_drains_and_exits_witness :
  ∃ s', drive 131072 1 17 ex_queued = Ret tt s' ∧ at_pc 1 s' = Some PExit ∧
    m_fibers s' = [] ∧ h_out s' = [] ++ map (pair 101) [cb1; cb2] ∧ m_activeThreadCount s' = 0.
Proof.
  apply (worker_drains_and_exits 131072 1 101 1 2 None [cb1; cb2] INIT (Some 1) [] ex_queued
           ex_queued_facts); [|done|done].
  constructor; [apply cb1_plain|constructor; [apply cb2_plain|constructor]].
Defined.

Lemma callback_exception_aborts_witness :
  (run_leave 1 KCb (Ends Threw);; run_back 1 KCb;; run_after 1 KCb) ex_running =
    Crash AssertFailed.
Proof. exact (callback_exception_aborts 1 101 1 2 3 _ _ _ _ ex_running ex_running_facts). Defined.

Lemma ready_callback_aborts_witness :
  ∃ s1 tk, (run_leave 1 KCb YieldReady;; run_back 1 KCb;; run_after 1 KCb;; run_take 1) ex_running =
      Ret tt s1 ∧ at_pc 1 s1 = Some (PTaken (Some cb2) tk) ∧
    run_dispatch 131072 1 (Some cb2) tk s1 = Crash AssertFailed.
Proof.
  exact (ready_callback_aborts 131072 1 101 1 2 3 cb2 [] INIT _ ex_running ex_running_facts cb2_plain).
Defined.

(** A fiber is resumed by one worker while another still runs it: the fiber is
    scheduled (as a timer or an I/O event does for a fiber that waits), then
    [YieldToHold] sets [HOLD], and before its [swapOut] saves the context
    another worker takes the fiber and swaps it in. *)
Definition race_events : list event :=
  [EvStart tid_of; EvEnter 1; EvEnter 2; EvSchedule (FCb (Some (User 1))) (-1);
   EvTake 1; EvDispatch 1; EvSchedule (FFiber (Some 5)) (-1); EvLeave 1 YieldHold;
   EvTake 2; EvDispatch 2].

Lemma fiber_resumed_before_switch :
  ∃ s, reachable 131072 s ∧
    (∃ w, m_workers s !! 1%nat = Some w ∧ w_pc w = PLeaving KCb ∧ w_cb_fiber w = Some 5) ∧
    at_pc 2 s = Some (PRun (KFiber 5)).
Proof.
  exists (default dummy (sys 2 race_events)). split.
  - apply (sys_reachable 2 race_events). by_vm.
  - split; [eexists; split; [by_vm|split; by_vm]|by_vm].
Qed.
