(* ===== verification/IOManager.v ===== *)
(** * IOManager (megalo/iomanager.h, megalo/iomanager.cc)

    The table of descriptor contexts, the count of pending events, the timers
    it inherits from [TimerManager] and the schedulers its contexts point to.
    What it needs of a scheduler is the class [SchedulerOps] with the laws of
    [SchedulerLaws]; [Scheduler.sched] is an instance.  The results of
    [epoll_ctl], [epoll_wait] and [write] are arguments of the operations that
    make the calls.  A context's mutex makes each operation one step, except
    [addEvent], which gives [m_mutex] back before it takes it again to resize:
    [addEvent_find], [contextResize] and [addEvent_locked] are its parts. *)
From S2P Require Import Prelude Timer Fiber Scheduler.
From stdpp Require Import gmap.
#[local] Open Scope Z_scope.

(** ** What a scheduler promises *)

Class SchedulerOps (S : Type) := {
  sch_schedule : FiberOrCb → M S ();
  sch_schedule_range : list FiberOrCb → M S ();
  sch_stopping : M S bool;
  sch_hasIdleThread : M S bool;
  sch_tasks : S → list task
}.

(** The tasks [schedule] makes of its argument: none of an empty one. *)
Definition tasks_of (fc : FiberOrCb) : list task :=
  if task_ok (FiberAndThread fc (-1)) then [FiberAndThread fc (-1)] else [].

Class SchedulerLaws (S : Type) `{SchedulerOps S} := {
  law_schedule fc s : ∃ s', sch_schedule fc s = Ret tt s' ∧ sch_tasks s' = sch_tasks s ++ tasks_of fc;
  law_range l s : ∃ s', sch_schedule_range l s = Ret tt s' ∧
    sch_tasks s' = sch_tasks s ++ concat (map tasks_of l);
  law_stopping s : ∃ b, sch_stopping s = Ret b s ∧ (b = true → sch_tasks s = []);
  law_hasIdleThread s : ∃ b, sch_hasIdleThread s = Ret b s
}.

#[global] Instance sched_ops : SchedulerOps sched := {
  sch_schedule fc := schedule fc (-1);
  sch_schedule_range l := _ ← schedule_range l (-1); mret tt;
  sch_stopping := stopping;
  sch_hasIdleThread := hasIdleThread;
  sch_tasks := m_fibers
}.

Lemma scheduleNoLock_tasks fc s :
  ∃ b s', scheduleNoLock fc (-1) s = Ret b s' ∧ m_fibers s' = m_fibers s ++ tasks_of fc.
Proof.
  unfold scheduleNoLock, tasks_of. rewrite bind_gets. cbv zeta.
  destruct (task_ok _); eexists _, _; (split; [reflexivity|]); simpl; by rewrite ?app_nil_r.
Qed.

Lemma schedule_loop_tasks l : ∀ b s, ∃ b' s',
  schedule_loop l (-1) b s = Ret b' s' ∧ m_fibers s' = m_fibers s ++ concat (map tasks_of l).
Proof.
  induction l as [|fc l IH]; intros b s; simpl.
  { exists b, s. by rewrite app_nil_r. }
  destruct (scheduleNoLock_tasks fc s) as (b1&s1&H1&E1). mstep H1.
  destruct (IH (b1 || b) s1) as (b2&s2&H2&E2). exists b2, s2. split; [exact H2|].
  by rewrite E2, E1, app_assoc.
Qed.

#[global] Instance sched_laws : SchedulerLaws sched.
Proof.
  split; simpl.
  - intros fc s. unfold schedule. destruct (scheduleNoLock_tasks fc s) as (b&s1&H1&E1).
    mstep H1. destruct b; eexists; (split; [reflexivity|]); done.
  - intros l s. unfold schedule_range. destruct (schedule_loop_tasks l false s) as (b&s1&H1&E1).
    rewrite bind_assoc. mstep H1. destruct b; eexists; (split; [reflexivity|]); done.
  - intros s. eexists. split; [reflexivity|]. rewrite !andb_true_iff.
    by intros [[_ Hq%bool_decide_eq_true] _].
  - intros s. by eexists.
Qed.

(** ** The state *)

(** [enum Event], a bit mask. *)
Definition NONE : Z := 0.
Definition READ : Z := 1.
Definition WRITE : Z := 4.
Definition EPOLLIN : Z := 1.
Definition EPOLLOUT : Z := 4.
Definition EPOLLERR : Z := 8.
Definition EPOLLHUP : Z := 16.

Record EventContext := mkEventContext {
  ec_scheduler : option Z;
  ec_fiber : option faddr;
  ec_cb : option func
}.
Definition empty_context : EventContext := mkEventContext None None None.

Record FdContext := mkFdContext {
  fc_read : EventContext;
  fc_write : EventContext;
  fc_fd : Z;
  fc_events : Z
}.
Definition new_FdContext (fd : Z) : FdContext := mkFdContext empty_context empty_context fd NONE.

Section iomanager.
Context {S : Type} `{SchedulerOps S}.

Record io := mkIO {
  m_fdContexts : list FdContext;
  m_pendingEventCount : Z;
  io_timers : TimerManager;
  io_scheds : gmap Z S;       (* every scheduler, by address *)
  io_this : Z                 (* this one *)
}.

Definition set_ctxs (l : list FdContext) (s : io) : io :=
  mkIO l (m_pendingEventCount s) (io_timers s) (io_scheds s) (io_this s).
Definition set_pending (n : Z) (s : io) : io :=
  mkIO (m_fdContexts s) n (io_timers s) (io_scheds s) (io_this s).
Definition set_io_timers (t : TimerManager) (s : io) : io :=
  mkIO (m_fdContexts s) (m_pendingEventCount s) t (io_scheds s) (io_this s).
Definition set_scheds (m : gmap Z S) (s : io) : io :=
  mkIO (m_fdContexts s) (m_pendingEventCount s) (io_timers s) m (io_this s).

Definition on_timers {A} (m : M TimerManager A) : M io A := λ s,
  match m (io_timers s) with
  | Ret a t => Ret a (set_io_timers t s)
  | Throw e t => Throw e (set_io_timers t s)
  | Crash f => Crash f
  end.

(** A call on the scheduler at address [id]. *)
Definition on_sched {A} (id : Z) (m : M S A) : M io A := λ s,
  match io_scheds s !! id with
  | None => Crash OutOfBounds
  | Some c =>
      match m c with
      | Ret a c' => Ret a (set_scheds (<[id := c']> (io_scheds s)) s)
      | Throw e c' => Throw e (set_scheds (<[id := c']> (io_scheds s)) s)
      | Crash f => Crash f
      end
  end.

(** [m_fdContexts[fd]]. *)
Definition get_ctx (fd : Z) : M io FdContext := λ s,
  match (if 0 <=? fd then m_fdContexts s !! Z.to_nat fd else None) with
  | Some c => Ret c s
  | None => Crash OutOfBounds
  end.
Definition put_ctx (fd : Z) (c : FdContext) : M io () :=
  modify (λ s, set_ctxs (<[Z.to_nat fd := c]> (m_fdContexts s)) s).

(** ** FdContext *)

Definition getContext (event : Z) (c : FdContext) : M io EventContext :=
  if event =? READ then mret (fc_read c)
  else if event =? WRITE then mret (fc_write c)
  else crash AssertFailed.

(** The context with the part for [event] replaced. *)
Definition set_context (event : Z) (e : EventContext) (c : FdContext) : FdContext :=
  if event =? READ then mkFdContext e (fc_write c) (fc_fd c) (fc_events c)
  else mkFdContext (fc_read c) e (fc_fd c) (fc_events c).
Definition set_events (v : Z) (c : FdContext) : FdContext :=
  mkFdContext (fc_read c) (fc_write c) (fc_fd c) v.

Definition resetContext (e : EventContext) : EventContext := empty_context.

Definition triggerEvent (fd event : Z) : M io () :=
  c ← get_ctx fd;
  massert (negb (Z.land (fc_events c) event =? 0));;
  let c := set_events (Z.land (fc_events c) (Z.lnot event)) c in
  put_ctx fd c;;
  e ← getContext event c;
  sch ← deref (ec_scheduler e);
  match ec_cb e with
  | Some f =>
      on_sched sch (sch_schedule (FCb (Some f)));;
      put_ctx fd (set_context event (mkEventContext None (ec_fiber e) None) c)
  | None =>
      on_sched sch (sch_schedule (FFiber (ec_fiber e)));;
      put_ctx fd (set_context event (mkEventContext None None None) c)
  end.

(** ** IOManager *)

Definition contextResize (size : Z) : M io () :=
  modify (λ s,
    let l := m_fdContexts s in let n := Z.to_nat size in
    set_ctxs (take n l ++ map (λ i, new_FdContext (Z.of_nat i)) (seq (length l) (n - length l))) s).

(** The state after the constructor (before [start]). *)
Definition new_IOManager (now this_ : Z) (scheds : gmap Z S) : io :=
  mkIO (map (λ i, new_FdContext (Z.of_nat i)) (seq 0 32)) 0 (new_TimerManager now) scheds this_.

(** [(int)m_fdContexts.size() > fd]. *)
Definition addEvent_find (fd : Z) : M io bool :=
  gets (λ s, fd <? i32 (Z.of_nat (length (m_fdContexts s)))).

(** The part of [addEvent] under the context's mutex; [rt] is the result of
    [epoll_ctl], [this_sched], [this_fiber] and [exec] what [GetThis] of the
    scheduler and of the fiber give, and whether the fiber is in state EXEC. *)
Definition addEvent_locked (fd event : Z) (cb : option func) (rt : Z) (this_sched : option Z)
    (this_fiber : faddr) (exec : bool) : M io Z :=
  c ← get_ctx fd;
  massert (Z.land (fc_events c) event =? 0);;
  if negb (rt =? 0) then mret (-1) else
  modify (λ s, set_pending (u64 (m_pendingEventCount s + 1)) s);;
  let c := set_events (Z.lor (fc_events c) event) c in
  put_ctx fd c;;
  e ← getContext event c;
  massert (bool_decide (ec_scheduler e = None) && bool_decide (ec_cb e = None)
           && bool_decide (ec_fiber e = None));;
  match cb with
  | Some f => put_ctx fd (set_context event (mkEventContext this_sched (ec_fiber e) (Some f)) c)
  | None =>
      put_ctx fd (set_context event (mkEventContext this_sched (Some this_fiber) (ec_cb e)) c);;
      massert exec
  end;;
  mret 0.

(** [addEvent]; [fd * 1.5] truncated is [fd * 3 / 2]. *)
Definition addEvent (fd event : Z) (cb : option func) (rt : Z) (this_sched : option Z)
    (this_fiber : faddr) (exec : bool) : M io Z :=
  b ← addEvent_find fd;
  (if (b : bool) then mret tt else contextResize (u64 ((fd * 3) `quot` 2)));;
  addEvent_locked fd event cb rt this_sched this_fiber exec.

(** The common start of [delEvent] and [cancelEvent]: [None] is [return false],
    otherwise the events left. *)
Definition remove_event (fd event rt : Z) : M io (option Z) :=
  n ← gets (λ s, i32 (Z.of_nat (length (m_fdContexts s))));
  if n <=? fd then mret None else
  c ← get_ctx fd;
  if Z.land (fc_events c) event =? 0 then mret None else
  if negb (rt =? 0) then mret None else
  mret (Some (Z.land (fc_events c) (Z.lnot event))).

Definition dec_pending : M io () :=
  modify (λ s, set_pending (u64 (m_pendingEventCount s - 1)) s).

Definition delEvent (fd event rt : Z) : M io bool :=
  r ← remove_event fd event rt;
  match r with
  | None => mret false
  | Some new_event =>
      dec_pending;;
      c ← get_ctx fd;
      let c := set_events new_event c in
      e ← getContext event c;
      put_ctx fd (set_context event (resetContext e) c);;
      mret true
  end.

Definition cancelEvent (fd event rt : Z) : M io bool :=
  r ← remove_event fd event rt;
  match r with
  | None => mret false
  | Some _ => triggerEvent fd event;; dec_pending;; mret true
  end.

(** [if(fd_ctx->events & event) { triggerEvent(event); --m_pendingEventCount; }]. *)
Definition trigger_if (fd event mask : Z) : M io () :=
  if Z.land mask event =? 0 then mret tt else triggerEvent fd event;; dec_pending.

Definition cancelAll (fd rt : Z) : M io bool :=
  n ← gets (λ s, i32 (Z.of_nat (length (m_fdContexts s))));
  if n <=? fd then mret false else
  c ← get_ctx fd;
  if fc_events c =? 0 then mret false else
  if negb (rt =? 0) then mret false else
  trigger_if fd READ (fc_events c);;
  c ← get_ctx fd;
  trigger_if fd WRITE (fc_events c);;
  c ← get_ctx fd;
  massert (fc_events c =? 0);;
  mret true.

(** [IOManager::tickle]; [rt] is what [write] to the pipe returns. *)
Definition tickle (rt : Z) : M io () :=
  this_ ← gets io_this;
  b ← on_sched this_ sch_hasIdleThread;
  if negb b then mret tt else massert (rt =? 1).

Definition onTimerInsertAtFront (rt : Z) : M io () := tickle rt.

(** [stopping(timeout)]: the answer and the timeout. *)
Definition stopping_timeout (now : Z) : M io (bool * Z) :=
  timeout ← on_timers (getNextTimer now);
  n ← gets m_pendingEventCount;
  if (timeout =? u64 (Z.lnot 0)) && (n =? 0) then
    this_ ← gets io_this;
    b ← on_sched this_ sch_stopping;
    mret (b, timeout)
  else mret (false, timeout).

Definition stopping (now : Z) : M io bool := r ← stopping_timeout now; mret r.1.

(** The last argument of [epoll_wait], an [int]. *)
Definition wait_timeout (next_timeout : Z) : Z :=
  i32 (if negb (next_timeout =? u64 (Z.lnot 0)) then
         if 1000 <? i32 next_timeout then 1000 else next_timeout
       else 1000).

(** One event of [epoll_wait] on the context of [fd]: the events reported and
    the result of [epoll_ctl]. *)
Definition handle_event (fd revents rt2 : Z) : M io () :=
  c ← get_ctx fd;
  let revents :=
    if negb (Z.land revents (Z.lor EPOLLERR EPOLLHUP) =? 0)
    then Z.lor revents (Z.land (Z.lor EPOLLIN EPOLLOUT) (fc_events c)) else revents in
  let real_events :=
    Z.lor (if negb (Z.land revents EPOLLIN =? 0) then READ else NONE)
          (if negb (Z.land revents EPOLLOUT =? 0) then WRITE else NONE) in
  if Z.land (fc_events c) real_events =? NONE then mret tt else
  if negb (rt2 =? 0) then mret tt else
  trigger_if fd READ real_events;;
  trigger_if fd WRITE real_events.

(** The loop over the events; [None] is the pipe of [tickle]. *)
Fixpoint handle_events (l : list (option (Z * Z * Z))) : M io () :=
  match l with
  | [] => mret tt
  | None :: l => handle_events l
  | Some (fd, revents, rt2) :: l => handle_event fd revents rt2;; handle_events l
  end.

(** One round of [idle] up to [swapOut]: [now] is read by [stopping], [now2] by
    [listExpiredCb] ([a0] the address of its [now_timer]); [epoll_wait] gives
    the events for a timeout; [func_of] names the functions timers hold.  The
    result tells whether the loop is left. *)
Definition idle_round (func_of : callback → func) (now now2 : Z) (a0 : addr)
    (epoll_wait : Z → list (option (Z * Z * Z))) : M io bool :=
  r ← stopping_timeout now;
  if (r.1 : bool) then mret true else
  let events := epoll_wait (wait_timeout r.2) in
  cbs ← on_timers (listExpiredCb now2 a0);
  (if bool_decide (cbs = []) then mret tt else
     this_ ← gets io_this;
     on_sched this_ (sch_schedule_range (map (λ c, FCb (func_of <$> c)) cbs)));;
  handle_events events;;
  mret false.
End iomanager.
Arguments io S : clear implicits.

(** ** The invariant *)

Section invariant.
Context {S : Type} `{SchedulerLaws S}.
Implicit Types s : io S.

(** The part of a context for an event: full when the event is registered,
    with a live scheduler and a callback or a fiber; else empty. *)
Definition slot_ok (scheds : gmap Z S) (registered : bool) (e : EventContext) : Prop :=
  if registered then
    (∃ id, ec_scheduler e = Some id ∧ is_Some (scheds !! id)) ∧
    (is_Some (ec_cb e) ∧ ec_fiber e = None ∨ ec_cb e = None ∧ is_Some (ec_fiber e))
  else e = empty_context.

Definition has (event : Z) (c : FdContext) : bool := negb (Z.land (fc_events c) event =? 0).

Definition ctx_ok (scheds : gmap Z S) (i : nat) (c : FdContext) : Prop :=
  fc_fd c = Z.of_nat i ∧ fc_events c ∈ [0; 1; 4; 5] ∧
  slot_ok scheds (has READ c) (fc_read c) ∧ slot_ok scheds (has WRITE c) (fc_write c).

(** The number of registered events. *)
Definition registered (c : FdContext) : Z := Z.b2z (has READ c) + Z.b2z (has WRITE c).
Fixpoint count_events (l : list FdContext) : Z :=
  match l with [] => 0 | c :: l => registered c + count_events l end.

(** [k] events have been triggered and not yet counted down. *)
Record io_inv (k : Z) (s : io S) : Prop := mkInv {
  inv_ctxs : ∀ i c, m_fdContexts s !! i = Some c → ctx_ok (io_scheds s) i c;
  inv_count : m_pendingEventCount s = count_events (m_fdContexts s) + k;
  inv_size : (32 ≤ length (m_fdContexts s))%nat ∧ Z.of_nat (length (m_fdContexts s)) < 2 ^ 31;
  inv_k : 0 ≤ k ≤ 2;
  inv_this : is_Some (io_scheds s !! io_this s);
  inv_timers : wf (io_timers s)
}.

Lemma registered_range c : 0 ≤ registered c ≤ 2.
Proof. unfold registered. destruct (has READ c), (has WRITE c); simpl; lia. Qed.

Lemma count_range l : 0 ≤ count_events l ≤ 2 * Z.of_nat (length l).
Proof.
  induction l as [|c l IH]; simpl; [lia|]. pose proof (registered_range c). lia.
Qed.

Lemma count_insert l : ∀ i c c', l !! i = Some c →
  count_events (<[i := c']> l) = count_events l - registered c + registered c'.
Proof.
  induction l as [|x l IH]; intros [|i] c c' Hi; simplify_eq/=; [lia|].
  rewrite (IH _ _ _ Hi). lia.
Qed.

Lemma count_app l l' : count_events (l ++ l') = count_events l + count_events l'.
Proof. induction l as [|c l IH]; simpl; lia. Qed.

Lemma count_new l : count_events (map (λ i, new_FdContext (Z.of_nat i)) l) = 0.
Proof. by induction l. Qed.

Lemma pending_small k s : io_inv k s → 0 ≤ m_pendingEventCount s < 2 ^ 33.
Proof.
  intros [_ Hc [_ Hs] Hk _ _]. pose proof (count_range (m_fdContexts s)). lia.
Qed.

(** The context of a descriptor. *)
Definition ctx_at (s : io S) (fd : Z) (c : FdContext) : Prop :=
  0 ≤ fd ∧ m_fdContexts s !! Z.to_nat fd = Some c.

Lemma get_ctx_ok s fd c : ctx_at s fd c → get_ctx fd s = Ret c s.
Proof. intros [Hfd Hc]. unfold get_ctx. by rewrite (proj2 (Z.leb_le _ _) Hfd), Hc. Qed.

(** The scheduler map only changes in the tasks of one scheduler. *)
Definition sched_tasks (s : io S) (id : Z) : list task :=
  match io_scheds s !! id with Some c => sch_tasks c | None => [] end.
Definition same_live (m m' : gmap Z S) : Prop := ∀ id, is_Some (m !! id) ↔ is_Some (m' !! id).

Lemma ctx_ok_live m m' i c : same_live m m' → ctx_ok m i c → ctx_ok m' i c.
Proof.
  intros Hl (H1&H2&H3&H4). unfold ctx_ok, slot_ok in *. split_and!; [done..| |].
  - destruct (has READ c); [|done]. destruct H3 as [(id&?&?) ?]. split; [|done]. exists id.
    by rewrite <- (Hl id).
  - destruct (has WRITE c); [|done]. destruct H4 as [(id&?&?) ?]. split; [|done]. exists id.
    by rewrite <- (Hl id).
Qed.

Lemma on_sched_schedule s id fc :
  is_Some (io_scheds s !! id) →
  ∃ m, on_sched id (sch_schedule fc) s = Ret tt (set_scheds m s) ∧ same_live (io_scheds s) m ∧
    (∀ j, sched_tasks (set_scheds m s) j =
       sched_tasks s j ++ if bool_decide (j = id) then tasks_of fc else []).
Proof.
  intros [c Hc]. unfold on_sched. rewrite Hc. destruct (law_schedule fc c) as (c'&->&Ht).
  eexists. split; [reflexivity|]. split.
  - intros j. destruct (decide (j = id)) as [->|].
    + rewrite lookup_insert_eq, Hc. split; by eexists.
    + by rewrite lookup_insert_ne.
  - intros j. unfold sched_tasks. simpl. case_bool_decide as Hj.
    + subst j. by rewrite lookup_insert_eq, Hc.
    + by rewrite lookup_insert_ne, app_nil_r.
Qed.

(** What an event's slot schedules. *)
Definition slot_task (e : EventContext) : FiberOrCb :=
  match ec_cb e with Some f => FCb (Some f) | None => FFiber (ec_fiber e) end.
Definition slot (event : Z) (c : FdContext) : EventContext :=
  if event =? READ then fc_read c else fc_write c.
Definition is_event (event : Z) : Prop := event = READ ∨ event = WRITE.

(** The context after its event was triggered or deleted. *)
Definition without (event : Z) (c : FdContext) : FdContext :=
  set_context event empty_context (set_events (Z.land (fc_events c) (Z.lnot event)) c).

Lemma has_cases c : fc_events c ∈ [0; 1; 4; 5] →
  (has READ c, has WRITE c, fc_events c) ∈
    [(false, false, 0); (true, false, 1); (false, true, 4); (true, true, 5)].
Proof.
  unfold has. rewrite !elem_of_cons, elem_of_nil.
  intros [-> | [-> | [-> | [-> | []]]]]; simpl; tauto.
Qed.

Ltac event_cases H :=
  rewrite !elem_of_cons, elem_of_nil in H; destruct H as [H|[H|[H|[H|[]]]]].

Lemma without_ok m i c event :
  is_event event → ctx_ok m i c → has event c = true →
  ctx_ok m i (without event c) ∧ registered (without event c) = registered c - 1 ∧
  has event (without event c) = false ∧
  (∀ e, is_event e → e ≠ event → has e (without event c) = has e c ∧ slot e (without event c) = slot e c).
Proof.
  intros He (H1&H2&H3&H4) Hh. destruct c as [r w fd ev]. unfold ctx_ok, slot_ok, registered, without, has in *.
  simpl in *. event_cases H2; subst ev; destruct He as [-> | ->]; simpl in *; try done;
    (split; [split_and!; first [done | apply H3 | apply H4 | set_solver]|]; split; [done|]; split; [done|];
     intros e [-> | ->] Hne; done).
Qed.

(** [triggerEvent] on a registered event: the task is put in the queue of the
    scheduler that registered it, and the event is gone. *)
Lemma triggerEvent_ok k s fd event c :
  io_inv k s → k < 2 → ctx_at s fd c → is_event event → has event c = true →
  ∃ id m, ec_scheduler (slot event c) = Some id ∧ same_live (io_scheds s) m ∧
    let s' := set_scheds m (set_ctxs (<[Z.to_nat fd := without event c]> (m_fdContexts s)) s) in
    triggerEvent fd event s = Ret tt s' ∧ io_inv (k + 1) s' ∧
    (∀ j, sched_tasks s' j =
       sched_tasks s j ++ if bool_decide (j = id) then tasks_of (slot_task (slot event c)) else []).
Proof.
  intros Hinv Hk Hc He Hh. destruct Hinv as [Hctx Hcnt Hsz Hk0 Hthis Htm].
  destruct Hc as [Hfd Hc]. pose proof (Hctx _ _ Hc) as Hok.
  destruct (without_ok _ _ _ event He Hok Hh) as (Hok'&Hreg&_).
  assert (slot_ok (io_scheds s) true (slot event c)) as [(id&Hid&Hlive) Hslot].
  { destruct Hok as (_&_&H3&H4). destruct He as [-> | ->]; rewrite Hh in *; done. }
  set (c1 := set_events (Z.land (fc_events c) (Z.lnot event)) c).
  set (s1 := set_ctxs (<[Z.to_nat fd := c1]> (m_fdContexts s)) s).
  destruct (on_sched_schedule s1 id (slot_task (slot event c)) Hlive) as (m&Hm&Hl&Ht).
  exists id, m. split; [done|]. split; [done|]. cbv zeta.
  split; [|split].
  - unfold triggerEvent. mstep (get_ctx_ok s fd c (conj Hfd Hc)). unfold has in Hh. rewrite Hh. unfold massert.
    rewrite bind_mret. cbv zeta. fold c1. rewrite (bind_ret (put_ctx fd c1) _ s tt s1) by done.
    assert (getContext event c1 s1 = Ret (slot event c) s1) as Hg.
    { destruct He as [-> | ->]; done. }
    mstep Hg. rewrite Hid. unfold deref. rewrite bind_mret. unfold slot_task in Hm.
    assert (∀ e, set_ctxs (<[Z.to_nat fd := set_context event e c1]> (m_fdContexts s1))
      (set_scheds m s1) = set_scheds m (set_ctxs (<[Z.to_nat fd := set_context event e c1]> (m_fdContexts s)) s)) as Hset
      by (intros e; unfold set_ctxs; simpl; by rewrite list_insert_insert_eq).
    destruct (ec_cb (slot event c)) as [f|] eqn:Ecb; mstep Hm; unfold put_ctx, modify;
      f_equal; rewrite Hset; [|done].
    assert (ec_fiber (slot event c) = None) as -> by (destruct Hslot as [[_ ?]|[? _]]; done). done.
  - constructor; simpl; [|..|done].
    + intros i x Hx. apply (ctx_ok_live (io_scheds s)); [done|].
      destruct (decide (i = Z.to_nat fd)) as [->|].
      * rewrite list_lookup_insert_eq in Hx by (by eapply lookup_lt_Some). by simplify_eq.
      * rewrite list_lookup_insert_ne in Hx by done. by apply Hctx.
    + rewrite (count_insert _ _ _ _ Hc), Hreg. lia.
    + by rewrite length_insert.
    + lia.
    + by apply Hl.
  - intros j. exact (Ht j).
Qed.
End invariant.

Section operations.
Context {S : Type} `{SchedulerLaws S}.
Implicit Types s : io S.

(** What firing an event of [fd] does. *)
Record fires (fd event : Z) (c : FdContext) (s s' : io S) : Prop := mkFires {
  fires_ctxs : m_fdContexts s' = <[Z.to_nat fd := without event c]> (m_fdContexts s);
  fires_pending : m_pendingEventCount s' = m_pendingEventCount s - 1;
  fires_timers : io_timers s' = io_timers s;
  fires_this : io_this s' = io_this s;
  fires_live : same_live (io_scheds s) (io_scheds s');
  fires_tasks : ∃ id, ec_scheduler (slot event c) = Some id ∧ ∀ j, sched_tasks s' j =
    sched_tasks s j ++ if bool_decide (j = id) then tasks_of (slot_task (slot event c)) else []
}.

Lemma dec_pending_ok k s :
  io_inv (k + 1) s → 0 ≤ k →
  ∃ s', dec_pending s = Ret tt s' ∧ io_inv k s' ∧ s' = set_pending (m_pendingEventCount s - 1) s.
Proof.
  intros Hinv Hk. pose proof (pending_small _ _ Hinv) as Hs. destruct Hinv as [H1 H2 H3 H4 H5 H6].
  pose proof (count_range (m_fdContexts s)).
  eexists. split; [reflexivity|].
  rewrite wrap_id by (unfold unsigned_in; lia). split; [|done].
  constructor; simpl; try done; lia.
Qed.

Lemma fire_ok s fd event c :
  io_inv 0 s → ctx_at s fd c → is_event event → has event c = true →
  ∃ s', (triggerEvent fd event;; dec_pending) s = Ret tt s' ∧ io_inv 0 s' ∧ fires fd event c s s' ∧
    ctx_at s' fd (without event c).
Proof.
  intros Hinv Hc He Hh.
  destruct (triggerEvent_ok 0 s fd event c Hinv ltac:(lia) Hc He Hh) as (id&m&Hid&Hl&Hr&Hi&Ht).
  destruct (dec_pending_ok 0 _ Hi ltac:(lia)) as (s'&Hd&Hi'&Heq).
  exists s'. split; [by mstep Hr|]. split; [done|]. split.
  - rewrite Heq. constructor; try done. by exists id.
  - rewrite Heq. destruct Hc as [Hfd Hc]. split; [done|]. simpl.
    apply list_lookup_insert_eq. by eapply lookup_lt_Some.
Qed.

(** [remove_event] finds a registered event. *)
Lemma size_i32 k s : io_inv k s →
  i32 (Z.of_nat (length (m_fdContexts s))) = Z.of_nat (length (m_fdContexts s)).
Proof. intros [_ _ [_ Hs] _ _ _]. apply swrap_id; [done|]. unfold signed_in. lia. Qed.

Lemma ctx_below s fd c : ctx_at s fd c → fd < Z.of_nat (length (m_fdContexts s)).
Proof. intros [Hfd Hc]. apply lookup_lt_Some in Hc. lia. Qed.

Lemma remove_event_ok k s fd event rt c :
  io_inv k s → ctx_at s fd c →
  remove_event fd event rt s =
    Ret (if has event c && (rt =? 0) then Some (Z.land (fc_events c) (Z.lnot event)) else None) s.
Proof.
  intros Hinv Hc. unfold remove_event. rewrite bind_gets, (size_i32 _ _ Hinv).
  rewrite (proj2 (Z.leb_gt _ _)) by (by eapply ctx_below). mstep (get_ctx_ok _ _ _ Hc). unfold has.
  destruct (_ =? 0); [done|]. by destruct (rt =? 0).
Qed.

Lemma remove_event_out k s fd event rt :
  io_inv k s → Z.of_nat (length (m_fdContexts s)) ≤ fd → remove_event fd event rt s = Ret None s.
Proof.
  intros Hinv Hfd. unfold remove_event. rewrite bind_gets, (size_i32 _ _ Hinv).
  by rewrite (proj2 (Z.leb_le _ _)).
Qed.

Lemma ctx_total s fd : 0 ≤ fd < Z.of_nat (length (m_fdContexts s)) → ∃ c, ctx_at s fd c.
Proof.
  intros Hfd. destruct (lookup_lt_is_Some_2 (m_fdContexts s) (Z.to_nat fd)) as [c Hc]; [lia|].
  exists c. split; [lia|done].
Qed.

Lemma ctx_at_ok k s fd c : io_inv k s → ctx_at s fd c → ctx_ok (io_scheds s) (Z.to_nat fd) c.
Proof. intros Hinv [_ Hc]. by apply (inv_ctxs _ _ Hinv). Qed.

(** Replacing a context by one that is well formed. *)
Lemma put_inv s fd c c' n :
  io_inv 0 s → ctx_at s fd c → ctx_ok (io_scheds s) (Z.to_nat fd) c' →
  n = m_pendingEventCount s - registered c + registered c' →
  io_inv 0 (set_pending n (set_ctxs (<[Z.to_nat fd := c']> (m_fdContexts s)) s)).
Proof.
  intros [H1 H2 H3 H4 H5 H6] [Hfd Hc] Hok Hn. constructor; simpl; try done.
  - intros i x Hx. destruct (decide (i = Z.to_nat fd)) as [->|].
    + rewrite list_lookup_insert_eq in Hx by (by eapply lookup_lt_Some). by simplify_eq.
    + rewrite list_lookup_insert_ne in Hx by done. by apply H1.
  - rewrite (count_insert _ _ _ _ Hc). lia.
  - by rewrite length_insert.
Qed.

(** [delEvent]: the event is gone, nothing is scheduled. *)
Definition deleted (fd event : Z) (c : FdContext) s : io S :=
  set_pending (m_pendingEventCount s - 1)
    (set_ctxs (<[Z.to_nat fd := without event c]> (m_fdContexts s)) s).

Lemma delEvent_ok s fd event rt c :
  io_inv 0 s → ctx_at s fd c → is_event event →
  ∃ s', delEvent fd event rt s = Ret (has event c && (rt =? 0)) s' ∧ io_inv 0 s' ∧
    s' = if has event c && (rt =? 0) then deleted fd event c s else s.
Proof.
  intros Hinv Hc He. unfold delEvent. mstep (remove_event_ok 0 s fd event rt c Hinv Hc).
  destruct (has event c && (rt =? 0)) eqn:E; [|by exists s].
  apply andb_true_iff in E as [Hh _].
  destruct (without_ok _ _ _ event He (ctx_at_ok _ _ _ _ Hinv Hc) Hh) as (Hok'&Hreg&_).
  pose proof (pending_small _ _ Hinv) as Hp.
  assert (1 ≤ m_pendingEventCount s) as Hp1.
  { pose proof (registered_range (without event c)). destruct Hinv as [_ -> _ _ _ _].
    destruct Hc as [_ Hc].
    pose proof (count_insert _ _ _ (without event c) Hc) as Hci.
    pose proof (count_range (<[Z.to_nat fd := without event c]> (m_fdContexts s))). lia. }
  exists (deleted fd event c s). split; [|split; [|done]].
  - unfold dec_pending. rewrite bind_modify, wrap_id by (unfold unsigned_in; lia).
    mstep (get_ctx_ok (set_pending (m_pendingEventCount s - 1) s) fd c Hc). cbv zeta.
    assert (∀ s, getContext event (set_events (Z.land (fc_events c) (Z.lnot event)) c) s =
      Ret (slot event c) s) as Hg by (by destruct He as [-> | ->]).
    mstep (Hg (set_pending (m_pendingEventCount s - 1) s)). done.
  - apply (put_inv s fd c); [done|done|done|]. lia.
Qed.

Lemma cancelEvent_ok s fd event rt c :
  io_inv 0 s → ctx_at s fd c → is_event event →
  ∃ s', cancelEvent fd event rt s = Ret (has event c && (rt =? 0)) s' ∧ io_inv 0 s' ∧
    if has event c && (rt =? 0) then fires fd event c s s' else s' = s.
Proof.
  intros Hinv Hc He. unfold cancelEvent. mstep (remove_event_ok 0 s fd event rt c Hinv Hc).
  destruct (has event c && (rt =? 0)) eqn:E; [|by exists s].
  apply andb_true_iff in E as [Hh _].
  destruct (fire_ok s fd event c Hinv Hc He Hh) as (s'&Hr&Hi&Hf&_).
  exists s'. split; [|done]. rewrite <- bind_assoc. by mstep Hr.
Qed.

Lemma trigger_if_ok s fd event mask c :
  io_inv 0 s → ctx_at s fd c → is_event event → negb (Z.land mask event =? 0) = has event c →
  ∃ s' c', trigger_if fd event mask s = Ret tt s' ∧ io_inv 0 s' ∧ ctx_at s' fd c' ∧
    has event c' = false ∧
    (if has event c then fires fd event c s s' ∧ c' = without event c else s' = s ∧ c' = c).
Proof.
  intros Hinv Hc He Hm. unfold trigger_if. rewrite <- (negb_involutive (Z.land mask event =? 0)), Hm.
  destruct (has event c) eqn:Hh; simpl.
  - destruct (fire_ok s fd event c Hinv Hc He Hh) as (s'&Hr&Hi&Hf&Hc').
    destruct (without_ok _ _ _ event He (ctx_at_ok _ _ _ _ Hinv Hc) Hh) as (_&_&Hno&_).
    by exists s', (without event c).
  - by exists s, c.
Qed.
End operations.

(** ** Bits *)

Lemma land_bit x k : 0 ≤ k → negb (Z.land x (2 ^ k) =? 0) = Z.testbit x k.
Proof.
  intros Hk. destruct (Z.testbit x k) eqn:E.
  - apply negb_true_iff, Z.eqb_neq. intros Hz.
    assert (Z.testbit (Z.land x (2 ^ k)) k = false) as Hb by (by rewrite Hz, Z.bits_0).
    rewrite Z.land_spec, E, Z.pow2_bits_true in Hb by done. done.
  - apply negb_false_iff, Z.eqb_eq. apply Z.bits_inj'. intros n Hn.
    rewrite Z.land_spec, Z.bits_0, Z.pow2_bits_eqb by done.
    destruct (Z.eqb_spec k n) as [<-|]; [by rewrite E|by rewrite andb_false_r].
Qed.

(** Bit 0 for READ, bit 2 for WRITE. *)
Definition event_bit (event : Z) : Z := if event =? READ then 0 else 2.

Lemma land_event x event :
  is_event event → negb (Z.land x event =? 0) = Z.testbit x (event_bit event).
Proof. intros [-> | ->]; [apply (land_bit x 0)|apply (land_bit x 2)]; done. Qed.

Lemma has_bit c event : is_event event → has event c = Z.testbit (fc_events c) (event_bit event).
Proof. apply land_event. Qed.

(** An error or a hang-up. *)
Definition broken (revents : Z) : bool := negb (Z.land revents (Z.lor EPOLLERR EPOLLHUP) =? 0).

(** The events [handle_event] computes. *)
Definition widened (revents events : Z) : Z :=
  if broken revents then Z.lor revents (Z.land (Z.lor EPOLLIN EPOLLOUT) events) else revents.
Definition real_events_of (revents events : Z) : Z :=
  Z.lor (if negb (Z.land (widened revents events) EPOLLIN =? 0) then READ else NONE)
        (if negb (Z.land (widened revents events) EPOLLOUT =? 0) then WRITE else NONE).

Lemma real_events_bit revents events event :
  is_event event →
  Z.testbit (real_events_of revents events) (event_bit event) =
    Z.testbit revents (event_bit event) || broken revents && Z.testbit events (event_bit event).
Proof.
  intros He. unfold real_events_of.
  assert (∀ e, is_event e → negb (Z.land (widened revents events) e =? 0) =
    Z.testbit revents (event_bit e) || broken revents && Z.testbit events (event_bit e)) as Hw.
  { intros e He'. rewrite land_event by done. unfold widened. destruct (broken revents); simpl;
      [|by rewrite orb_false_r]. rewrite Z.lor_spec, Z.land_spec. by destruct He' as [-> | ->]. }
  change EPOLLIN with READ. change EPOLLOUT with WRITE.
  rewrite (Hw READ (or_introl eq_refl)), (Hw WRITE (or_intror eq_refl)).
  change (event_bit READ) with 0. change (event_bit WRITE) with 2.
  destruct He as [-> | ->]; [change (event_bit READ) with 0|change (event_bit WRITE) with 2];
    destruct (Z.testbit revents 0 || (broken revents && Z.testbit events 0)),
      (Z.testbit revents 2 || (broken revents && Z.testbit events 2)); done.
Qed.

Section handling.
Context {S : Type} `{SchedulerLaws S}.
Implicit Types s : io S.

(** The event fires: it is reported, or the descriptor is broken. *)
Definition fires_on (revents : Z) (c : FdContext) (event : Z) : bool :=
  has event c && (Z.testbit revents (event_bit event) || broken revents).

(** The kernel reports only registered events (besides errors). *)
Definition genuine (revents : Z) (c : FdContext) : Prop :=
  ∀ event, is_event event → Z.testbit revents (event_bit event) = true → has event c = true.

Lemma real_fires revents c event :
  is_event event → genuine revents c →
  negb (Z.land (real_events_of revents (fc_events c)) event =? 0) = fires_on revents c event.
Proof.
  intros He Hg. rewrite land_event, real_events_bit by done. unfold fires_on. rewrite has_bit by done.
  specialize (Hg event He). rewrite has_bit in Hg by done.
  destruct (Z.testbit revents (event_bit event)); simpl; [by rewrite Hg|].
  apply andb_comm.
Qed.

(** [mask & event] where the mask has the event only if it is to fire. *)
Lemma trigger_if_fires s fd event mask c (b : bool) :
  io_inv 0 s → ctx_at s fd c → is_event event → negb (Z.land mask event =? 0) = b →
  (b = true → has event c = true) →
  ∃ s' c', trigger_if fd event mask s = Ret tt s' ∧ io_inv 0 s' ∧ ctx_at s' fd c' ∧
    (if b then fires fd event c s s' ∧ c' = without event c else s' = s ∧ c' = c).
Proof.
  intros Hinv Hc He Hm Hb. destruct b.
  - destruct (trigger_if_ok s fd event mask c Hinv Hc He) as (s'&c'&Hr&Hi&Hc'&_&Hf);
      [by rewrite Hm, Hb|]. rewrite Hb in Hf by done. by exists s', c'.
  - exists s, c. unfold trigger_if. apply negb_false_iff in Hm. by rewrite Hm.
Qed.

Lemma handle_event_eq fd revents rt2 s :
  handle_event fd revents rt2 s =
    (c ← get_ctx fd;
     if Z.land (fc_events c) (real_events_of revents (fc_events c)) =? NONE then mret tt else
     if negb (rt2 =? 0) then mret tt else
     trigger_if fd READ (real_events_of revents (fc_events c));;
     trigger_if fd WRITE (real_events_of revents (fc_events c))) s.
Proof. reflexivity. Qed.

(** One event of [epoll_wait]. *)
Lemma handle_event_ok s fd revents rt2 c :
  io_inv 0 s → ctx_at s fd c → genuine revents c →
  ∃ s1 c1 s2 c2,
    handle_event fd revents rt2 s = Ret tt s2 ∧ io_inv 0 s1 ∧ io_inv 0 s2 ∧
    ctx_at s1 fd c1 ∧ ctx_at s2 fd c2 ∧
    (if (rt2 =? 0) && fires_on revents c READ
     then fires fd READ c s s1 ∧ c1 = without READ c else s1 = s ∧ c1 = c) ∧
    (if (rt2 =? 0) && fires_on revents c WRITE
     then fires fd WRITE c1 s1 s2 ∧ c2 = without WRITE c1 else s2 = s1 ∧ c2 = c1).
Proof.
  intros Hinv Hc Hg. rewrite handle_event_eq. mstep (get_ctx_ok _ _ _ Hc).
  pose proof (real_fires revents c READ (or_introl eq_refl) Hg) as Hr.
  pose proof (real_fires revents c WRITE (or_intror eq_refl) Hg) as Hw.
  set (real := real_events_of revents (fc_events c)) in *.
  destruct (Z.eqb_spec (Z.land (fc_events c) real) NONE) as [Hz|Hz].
  { assert (∀ e, is_event e → fires_on revents c e = false) as Hno.
    { intros e He. assert (negb (Z.land (Z.land (fc_events c) real) e =? 0) = false) as Hb by (by rewrite Hz).
      rewrite land_event, Z.land_spec, <- has_bit in Hb by done.
      unfold fires_on. destruct (has e c) eqn:Eh; [|done]. simpl in Hb |- *.
      rewrite <- land_event in Hb by done. unfold real in Hb. rewrite real_fires in Hb by done.
      unfold fires_on in Hb. by rewrite Eh in Hb. }
    exists s, c, s, c. rewrite (Hno READ (or_introl eq_refl)), (Hno WRITE (or_intror eq_refl)).
    by rewrite !andb_false_r. }
  destruct (Z.eqb_spec rt2 0) as [->|]; [|by exists s, c, s, c]. cbn [negb].
  destruct (trigger_if_fires s fd READ real c (fires_on revents c READ) Hinv Hc
    (or_introl eq_refl) Hr) as (s1&c1&H1&Hi1&Hc1&Hf1).
  { unfold fires_on. by intros [? _]%andb_true_iff. }
  mstep H1.
  assert (has WRITE c1 = has WRITE c) as Hsame.
  { destruct (fires_on revents c READ) eqn:Ef; [|by destruct Hf1 as [_ ->]]. destruct Hf1 as [_ ->].
    apply andb_true_iff in Ef as [Eh _].
    destruct (without_ok _ _ _ READ (or_introl eq_refl) (ctx_at_ok _ _ _ _ Hinv Hc) Eh) as (_&_&_&Hrest).
    by apply Hrest; [right|]. }
  destruct (trigger_if_fires s1 fd WRITE real c1 (fires_on revents c WRITE) Hi1 Hc1
    (or_intror eq_refl) Hw) as (s2&c2&H2&Hi2&Hc2&Hf2).
  { rewrite Hsame. unfold fires_on. by intros [? _]%andb_true_iff. }
  exists s1, c1, s2, c2. done.
Qed.

Lemma cancelAll_ok s fd rt c :
  io_inv 0 s → ctx_at s fd c →
  ∃ s1 c1 s2 c2 b,
    cancelAll fd rt s = Ret b s2 ∧ b = (rt =? 0) && negb (fc_events c =? 0) ∧
    io_inv 0 s2 ∧ ctx_at s2 fd c2 ∧ (b = true → fc_events c2 = 0) ∧
    (if (rt =? 0) && has READ c then fires fd READ c s s1 ∧ c1 = without READ c else s1 = s ∧ c1 = c) ∧
    (if (rt =? 0) && has WRITE c then fires fd WRITE c1 s1 s2 ∧ c2 = without WRITE c1
     else s2 = s1 ∧ c2 = c1) ∧
    io_inv 0 s1 ∧ ctx_at s1 fd c1 ∧ has WRITE c1 = has WRITE c.
Proof.
  intros Hinv Hc. unfold cancelAll. rewrite bind_gets, (size_i32 _ _ Hinv).
  rewrite (proj2 (Z.leb_gt _ _)) by (by eapply ctx_below). mstep (get_ctx_ok _ _ _ Hc).
  destruct (Z.eqb_spec (fc_events c) 0) as [Hz|Hz].
  { exists s, c, s, c, false. unfold has. rewrite Hz, !andb_false_r. done. }
  destruct (Z.eqb_spec rt 0) as [->|]; [|by exists s, c, s, c, false]. cbn [negb].
  destruct (trigger_if_ok s fd READ (fc_events c) c Hinv Hc (or_introl eq_refl) eq_refl)
    as (s1&c1&H1&Hi1&Hc1&Hn1&Hf1). mstep H1. mstep (get_ctx_ok _ _ _ Hc1).
  destruct (trigger_if_ok s1 fd WRITE (fc_events c1) c1 Hi1 Hc1 (or_intror eq_refl) eq_refl)
    as (s2&c2&H2&Hi2&Hc2&Hn2&Hf2). mstep H2. mstep (get_ctx_ok _ _ _ Hc2).
  assert (has WRITE c1 = has WRITE c) as Hsame.
  { destruct (has READ c) eqn:Eh; [|by destruct Hf1 as [_ ->]]. destruct Hf1 as [_ ->].
    destruct (without_ok _ _ _ READ (or_introl eq_refl) (ctx_at_ok _ _ _ _ Hinv Hc) Eh) as (_&_&_&Hrest).
    by apply Hrest; [right|]. }
  assert (has READ c2 = false) as Hr2.
  { destruct (has WRITE c1) eqn:Eh; [|by destruct Hf2 as [_ ->]]. destruct Hf2 as [_ ->].
    destruct (without_ok _ _ _ WRITE (or_intror eq_refl) (ctx_at_ok _ _ _ _ Hi1 Hc1) Eh) as (_&_&_&Hrest).
    rewrite <- Hn1. by apply Hrest; [left|]. }
  assert (fc_events c2 = 0) as Hz2.
  { pose proof (ctx_at_ok _ _ _ _ Hi2 Hc2) as (_&Hev&_). pose proof (has_cases c2 Hev) as Hcs.
    rewrite Hr2, Hn2 in Hcs. rewrite !elem_of_cons, elem_of_nil in Hcs. naive_solver. }
  exists s1, c1, s2, c2, true. rewrite Hz2. simpl. split; [done|]. split; [done|].
  rewrite <- Hsame. done.
Qed.
End handling.

Section add.
Context {S : Type} `{SchedulerLaws S}.
Implicit Types s : io S.

(** The context with an event added. *)
Definition added (event : Z) (cb : option func) (sid : Z) (fiber : faddr) (c : FdContext) : FdContext :=
  set_context event
    (mkEventContext (Some sid) (match cb with Some _ => None | None => Some fiber end) cb)
    (set_events (Z.lor (fc_events c) event) c).

Lemma added_ok (m : gmap Z S) i c event cb sid fiber :
  is_event event → ctx_ok m i c → has event c = false → is_Some (m !! sid) →
  let c' := added event cb sid fiber c in
  ctx_ok m i c' ∧ registered c' = registered c + 1 ∧ has event c' = true ∧ without event c' = c ∧
  slot event c' = mkEventContext (Some sid) (match cb with Some _ => None | None => Some fiber end) cb ∧
  slot event c = empty_context ∧
  (∀ e, is_event e → e ≠ event → has e c' = has e c).
Proof.
  intros He (H1&H2&H3&H4) Hh Hs. destruct c as [r w fd ev].
  unfold ctx_ok, slot_ok, registered, added, without, has in *. simpl in *.
  rewrite !elem_of_cons, elem_of_nil in H2. destruct H2 as [H2|[H2|[H2|[H2|[]]]]]; subst ev;
    destruct He as [-> | ->]; simpl in *; try done; subst;
    (split; [split_and!; first [done | apply H3 | apply H4 | set_solver
       | eexists; split; [done|exact Hs] | destruct cb; [left|right]; (split; [by eexists|done]) || (split; [done|by eexists])]|]);
    (split; [done|]; split; [done|]; split; [done|]; split; [done|]; split; [done|];
     intros e [-> | ->] Hne; done).
Qed.

(** The table after [addEvent] made room for [fd]. *)
Definition resized (fd : Z) (l : list FdContext) : list FdContext :=
  if fd <? Z.of_nat (length l) then l else
  l ++ map (λ i, new_FdContext (Z.of_nat i)) (seq (length l) (Z.to_nat ((fd * 3) `quot` 2) - length l)).

Lemma resized_inv s fd :
  io_inv 0 s → 0 ≤ fd < 2 ^ 30 →
  let s' := set_ctxs (resized fd (m_fdContexts s)) s in
  io_inv 0 s' ∧ (∃ c, ctx_at s' fd c) ∧
  (∀ c, ctx_at s' fd c → ctx_at s fd c ∨ c = new_FdContext fd) ∧
  (b ← addEvent_find fd;
   (if (b : bool) then mret tt else contextResize (u64 ((fd * 3) `quot` 2)))) s = Ret tt s'.
Proof.
  intros Hinv Hfd. pose proof (size_i32 _ _ Hinv) as Hsz.
  unfold resized, addEvent_find. rewrite bind_gets, Hsz.
  destruct (Z.ltb_spec fd (Z.of_nat (length (m_fdContexts s)))) as [Hlt|Hge]; cbv zeta.
  { assert (set_ctxs (m_fdContexts s) s = s) as -> by (by destruct s).
    split; [done|]. split; [apply ctx_total; lia|]. split; [by left|done]. }
  destruct Hinv as [H1 H2 [H3a H3b] H4 H5 H6].
  assert (Hq : fd < (fd * 3) `quot` 2 < 2 ^ 31).
  { rewrite Z.quot_div_nonneg by lia. split; [|apply Z.div_lt_upper_bound; lia].
    enough (fd + 1 ≤ (fd * 3) `div` 2) by lia. apply Z.div_le_lower_bound; lia. }
  set (n := Z.to_nat ((fd * 3) `quot` 2)) in *.
  set (k := (n - length (m_fdContexts s))%nat).
  assert (Hn : Z.of_nat n = (fd * 3) `quot` 2) by (unfold n; lia).
  assert (Hlk : ∀ i c, (m_fdContexts s ++ map (λ i, new_FdContext (Z.of_nat i)) (seq (length (m_fdContexts s)) k)) !! i
      = Some c → m_fdContexts s !! i = Some c ∨ c = new_FdContext (Z.of_nat i)).
  { intros i c Hi. apply lookup_app_Some in Hi as [Hi|[Hge' Hi]]; [by left|right].
    apply list_lookup_fmap_Some in Hi as (j&->&Hj). apply lookup_seq in Hj as [-> Hlt].
    f_equal. lia. }
  split_and!.
  - constructor; simpl; try done.
    + intros i c Hi. destruct (Hlk i c Hi) as [Hc| ->]; [by apply H1|].
      split; [done|]. split; [set_solver|done].
    + rewrite count_app, count_new. lia.
    + rewrite length_app, length_map, length_seq. unfold k. lia.
  - apply ctx_total. simpl. rewrite length_app, length_map, length_seq. unfold k. lia.
  - intros c [_ Hc]. destruct (Hlk _ _ Hc) as [?| ->]; [left; split; [lia|done]|right]. f_equal. lia.
  - unfold contextResize, modify. rewrite wrap_id by (unfold unsigned_in; lia).
    fold n. do 2 f_equal. f_equal. apply take_ge. lia.
Qed.

(** [addEvent] of an event that is not registered. *)
Lemma addEvent_ok s fd event cb rt sid fiber :
  io_inv 0 s → 0 ≤ fd < 2 ^ 30 → is_event event → is_Some (io_scheds s !! sid) →
  (∀ c, ctx_at s fd c → has event c = false) →
  let s0 := set_ctxs (resized fd (m_fdContexts s)) s in
  ∃ c, ctx_at s0 fd c ∧ io_inv 0 s0 ∧ has event c = false ∧
    addEvent fd event cb rt (Some sid) fiber true s =
      if rt =? 0 then
        Ret 0 (set_pending (m_pendingEventCount s + 1)
          (set_ctxs (<[Z.to_nat fd := added event cb sid fiber c]> (m_fdContexts s0)) s))
      else Ret (-1) s0.
Proof.
  intros Hinv Hfd He Hs Hno s0.
  destruct (resized_inv s fd Hinv Hfd) as (Hinv0&[c Hc]&Hcs&Hr). fold s0 in Hinv0, Hc, Hcs, Hr.
  assert (has event c = false) as Hh.
  { destruct (Hcs c Hc) as [?| ->]; [by apply Hno|]. by destruct He as [-> | ->]. }
  exists c. split; [done|]. split; [done|]. split; [done|].
  unfold addEvent. rewrite <- bind_assoc. mstep Hr. unfold addEvent_locked.
  mstep (get_ctx_ok s0 fd c Hc).
  pose proof (added_ok (io_scheds s) _ c event cb sid fiber He (ctx_at_ok _ s0 _ _ Hinv0 Hc) Hh Hs)
    as (_&_&_&_&_&Hslot&_).
  unfold has in Hh. apply negb_false_iff in Hh. rewrite Hh. unfold massert. rewrite bind_mret.
  destruct (rt =? 0); [|done]. cbn [negb]. rewrite bind_modify.
  pose proof (pending_small _ _ Hinv0) as Hp. rewrite wrap_id by (unfold unsigned_in; simpl in *; lia).
  cbv zeta. set (c1 := set_events (Z.lor (fc_events c) event) c).
  set (s1 := set_pending (m_pendingEventCount s0 + 1) s0).
  set (s2 := set_ctxs (<[Z.to_nat fd := c1]> (m_fdContexts s0)) s1).
  rewrite (bind_ret (put_ctx fd c1) _ s1 tt s2) by done.
  assert (getContext event c1 s2 = Ret empty_context s2) as Hg.
  { destruct He as [-> | ->]; unfold slot in Hslot; simpl in Hslot; rewrite <- Hslot; done. }
  mstep Hg. simpl. rewrite bind_mret.
  assert (∀ e, put_ctx fd (set_context event e c1) s2 =
    Ret tt (set_pending (m_pendingEventCount s + 1)
      (set_ctxs (<[Z.to_nat fd := set_context event e c1]> (m_fdContexts s0)) s))) as Hput.
  { intros e. unfold put_ctx, modify, s2, s1. simpl. by rewrite list_insert_insert_eq. }
  destruct cb as [f|]; rewrite ?bind_assoc; mstep (Hput _); done.
Qed.

Lemma added_inv s fd event cb sid fiber c :
  let s0 := set_ctxs (resized fd (m_fdContexts s)) s in
  io_inv 0 s0 → ctx_at s0 fd c → is_event event → has event c = false → is_Some (io_scheds s !! sid) →
  let s1 := set_pending (m_pendingEventCount s + 1)
    (set_ctxs (<[Z.to_nat fd := added event cb sid fiber c]> (m_fdContexts s0)) s) in
  io_inv 0 s1 ∧ ctx_at s1 fd (added event cb sid fiber c).
Proof.
  intros s0 Hinv Hc He Hh Hs s1.
  destruct (added_ok _ _ c event cb sid fiber He (ctx_at_ok _ _ _ _ Hinv Hc) Hh Hs) as (Hok&Hreg&_).
  split.
  - apply (put_inv s0 fd c); [done|done|done|]. simpl. lia.
  - destruct Hc as [Hfd Hc]. split; [done|]. simpl. apply list_lookup_insert_eq.
    by eapply lookup_lt_Some.
Qed.
End add.

(** ** Rounds of [idle] *)

Section rounds.
Context {S : Type} `{SchedulerLaws S}.
Implicit Types s : io S.

(** The events of one [epoll_wait]: each descriptor once, only registered
    events besides errors. *)
Definition event_fds (l : list (option (Z * Z * Z))) : list Z :=
  omap (λ x, fst ∘ fst <$> x) l.
Definition reported (s : io S) (l : list (option (Z * Z * Z))) : Prop :=
  NoDup (event_fds l) ∧
  ∀ fd revents rt2, Some (fd, revents, rt2) ∈ l → ∃ c, ctx_at s fd c ∧ genuine revents c.

(** One scheduler's queue grew. *)
Definition grows (s s' : io S) : Prop :=
  ∀ j, ∃ k, sched_tasks s' j = sched_tasks s j ++ k.

Lemma grows_trans s1 s2 s3 : grows s1 s2 → grows s2 s3 → grows s1 s3.
Proof.
  intros H12 H23 j. destruct (H12 j) as [k1 E1], (H23 j) as [k2 E2].
  exists (k1 ++ k2). by rewrite E2, E1, app_assoc.
Qed.
Lemma grows_refl s : grows s s.
Proof. intros j. exists []. by rewrite app_nil_r. Qed.

(** What an event leaves alone. *)
Definition elsewhere (fd : Z) (s s' : io S) : Prop :=
  grows s s' ∧ io_timers s' = io_timers s ∧ io_this s' = io_this s ∧
  ∀ fd' c, fd' ≠ fd → ctx_at s fd' c → ctx_at s' fd' c.

Lemma elsewhere_refl fd s : elsewhere fd s s.
Proof. split; [apply grows_refl|done]. Qed.

Lemma elsewhere_trans fd s1 s2 s3 : elsewhere fd s1 s2 → elsewhere fd s2 s3 → elsewhere fd s1 s3.
Proof.
  intros (G1&T1&I1&C1) (G2&T2&I2&C2). split; [by eapply grows_trans|].
  split; [congruence|]. split; [congruence|]. intros fd' c Hne Hc. by apply C2, C1.
Qed.

Lemma fires_elsewhere fd event c s s' : 0 ≤ fd → fires fd event c s s' → elsewhere fd s s'.
Proof.
  intros Hfd [H1 H2 H3 H4 H5 (id&_&Ht)]. split; [by intros j; eexists|].
  split; [done|]. split; [done|]. intros fd' x Hne [Hfd' Hx]. split; [done|].
  rewrite H1. rewrite list_lookup_insert_ne; [done|]. lia.
Qed.

Lemma handle_event_elsewhere s fd revents rt2 c :
  io_inv 0 s → ctx_at s fd c → genuine revents c →
  ∃ s', handle_event fd revents rt2 s = Ret tt s' ∧ io_inv 0 s' ∧ elsewhere fd s s'.
Proof.
  intros Hinv Hc Hg.
  destruct (handle_event_ok s fd revents rt2 c Hinv Hc Hg) as (s1&c1&s2&c2&Hr&_&Hi2&_&_&H1&H2).
  exists s2. split; [done|]. split; [done|]. apply (elsewhere_trans fd s s1 s2).
  - destruct ((rt2 =? 0) && fires_on revents c READ); [|by destruct H1 as [-> _]; apply elsewhere_refl].
    destruct Hc. by eapply fires_elsewhere; [|apply H1].
  - destruct ((rt2 =? 0) && fires_on revents c WRITE); [|by destruct H2 as [-> _]; apply elsewhere_refl].
    destruct Hc. by eapply fires_elsewhere; [|apply H2].
Qed.

Lemma handle_events_ok l : ∀ s, io_inv 0 s → reported s l →
  ∃ s', handle_events l s = Ret tt s' ∧ io_inv 0 s' ∧ grows s s' ∧
    io_timers s' = io_timers s ∧ io_this s' = io_this s ∧ (l = [] → s' = s).
Proof.
  induction l as [|[[[fd revents] rt2]|] l IH]; intros s Hinv [Hnd Hrep]; simpl.
  - exists s. split; [done|]. split; [done|]. split; [apply grows_refl|done].
  - destruct (Hrep fd revents rt2) as (c&Hc&Hg); [by left|].
    destruct (handle_event_elsewhere s fd revents rt2 c Hinv Hc Hg) as (s1&H1&Hi1&Hg1&Ht1&Hd1&Hc1).
    apply NoDup_cons in Hnd as [Hnin Hnd].
    destruct (IH s1 Hi1) as (s2&H2&Hi2&Hg2&Ht2&Hd2&_).
    { split; [done|]. intros fd' r rt Hin. destruct (Hrep fd' r rt) as (c'&Hc'&Hgen); [by right|].
      exists c'. split; [|done]. apply Hc1; [|done]. intros ->. apply Hnin.
      apply list_elem_of_omap. by exists (Some (fd, r, rt)). }
    exists s2. split; [by mstep H1|]. split; [done|]. split; [by eapply grows_trans|].
    split; [congruence|]. split; [congruence|done].
  - destruct (IH s Hinv) as (s2&H2&Hi2&Hg2&Ht2&Hd2&Hn2).
    { split; [done|]. intros fd' r rt Hin. apply (Hrep fd' r rt). by right. }
    exists s2. done.
Qed.

Lemma timers_inv k s t : io_inv k s → wf t → io_inv k (set_io_timers t s).
Proof. intros [] Hwf. by constructor. Qed.

Lemma set_scheds_inv k s m : io_inv k s → same_live (io_scheds s) m → io_inv k (set_scheds m s).
Proof.
  intros [H1 H2 H3 H4 H5 H6] Hl. constructor; simpl; try done; [|by apply Hl].
  intros i c Hc. apply (ctx_ok_live (io_scheds s)); [done|]. by apply H1.
Qed.

Lemma on_sched_range s l :
  is_Some (io_scheds s !! io_this s) →
  ∃ m, on_sched (io_this s) (sch_schedule_range l) s = Ret tt (set_scheds m s) ∧
    same_live (io_scheds s) m ∧ (∀ j, sched_tasks (set_scheds m s) j =
       sched_tasks s j ++ if bool_decide (j = io_this s) then concat (map tasks_of l) else []).
Proof.
  intros [c Hc]. unfold on_sched. rewrite Hc. destruct (law_range l c) as (c'&->&Ht).
  eexists. split; [reflexivity|]. split.
  - intros j. destruct (decide (j = io_this s)) as [->|].
    + rewrite lookup_insert_eq, Hc. split; by eexists.
    + by rewrite lookup_insert_ne.
  - intros j. unfold sched_tasks. simpl. case_bool_decide as Hj.
    + subst j. by rewrite lookup_insert_eq, Hc.
    + by rewrite lookup_insert_ne, app_nil_r.
Qed.

(** [stopping]. *)
Lemma stopping_timeout_ok s now :
  io_inv 0 s →
  ∃ b t m, stopping_timeout now s = Ret (b, t) (set_scheds m (set_io_timers (set_tickled false (io_timers s)) s)) ∧
    io_inv 0 (set_scheds m (set_io_timers (set_tickled false (io_timers s)) s)) ∧
    (∀ j, sched_tasks (set_scheds m s) j = sched_tasks s j) ∧
    getNextTimer now (io_timers s) = Ret t (set_tickled false (io_timers s)) ∧
    (b = true → t = 2 ^ 64 - 1 ∧ m_pendingEventCount s = 0 ∧ sched_tasks s (io_this s) = []) ∧
    m = io_scheds s.
Proof.
  intros Hinv. pose proof (inv_timers _ _ Hinv) as Hwf.
  pose proof (getNextTimer_ok _ now Hwf) as Hn. set (t := match m_timers _ with [] => _ | _ => _ end) in Hn.
  set (s1 := set_io_timers (set_tickled false (io_timers s)) s).
  assert (on_timers (getNextTimer now) s = Ret t s1) as H1 by (unfold on_timers; by rewrite Hn).
  assert (io_inv 0 s1) as Hi1 by (apply timers_inv; [done|]; by destruct Hwf; constructor).
  unfold stopping_timeout. rewrite (bind_ret _ _ _ _ _ H1). rewrite bind_gets.
  destruct ((t =? u64 (Z.lnot 0)) && (m_pendingEventCount s1 =? 0)) eqn:E.
  - rewrite bind_gets. apply andb_true_iff in E as [Et%Z.eqb_eq Ep%Z.eqb_eq].
    destruct (inv_this _ _ Hinv) as [c Hc]. change (io_this s1) with (io_this s).
    destruct (law_stopping c) as (b&Hb&Hq).
    assert (on_sched (io_this s) sch_stopping s1 = Ret b s1) as Hs.
    { unfold on_sched. simpl. rewrite Hc, Hb. by rewrite insert_id. }
    exists b, t, (io_scheds s). mstep Hs. split; [done|]. split; [by destruct Hi1|].
    split; [done|]. split; [done|]. split; [|done]. intros Hbt. split; [done|]. split; [done|].
    unfold sched_tasks. by rewrite Hc, Hq.
  - exists false, t, (io_scheds s). split; [done|]. split; [by destruct Hi1|]. done.
Qed.

(** The tasks of the timers that are due. *)
Definition due_tasks (func_of : callback → func) (s : TimerManager) (now : Z) : list task :=
  concat (map (λ a, tasks_of (FCb (func_of <$> cb_of (m_heap s) a)))
    (List.filter (due s now) (m_timers s))).

Lemma idle_round_ok s func_of now now2 a0 epoll_wait :
  io_inv 0 s → (∀ t, reported s (epoll_wait t)) →
  ∃ b s', idle_round func_of now now2 a0 epoll_wait s = Ret b s' ∧ io_inv 0 s' ∧
    (b = true → m_pendingEventCount s = 0 ∧ sched_tasks s (io_this s) = [] ∧
       getNextTimer now (io_timers s) = Ret (2 ^ 64 - 1) (set_tickled false (io_timers s))) ∧
    (b = false → after_expiry now2 (set_tickled false (io_timers s)) (io_timers s') ∧
       ∃ k, sched_tasks s' (io_this s) =
         sched_tasks s (io_this s) ++ due_tasks func_of (io_timers s) now2 ++ k ∧
         ((∀ t, epoll_wait t = []) → k = [])).
Proof.
  intros Hinv Hrep. unfold idle_round.
  destruct (stopping_timeout_ok s now Hinv) as (b&t&m&H1&Hi1&Htk&Hn&Hb&_). mstep H1. cbn [fst snd].
  set (s1 := set_scheds m _) in *. destruct b.
  { exists true, s1. split; [done|]. split; [done|]. split; [|done]. intros _.
    destruct (Hb eq_refl) as (->&?&?). done. }
  destruct (listExpired_ok (set_tickled false (io_timers s)) now2 a0) as (tm&Hle&Hwf2&Hae);
    [by destruct (inv_timers _ _ Hinv); constructor|].
  set (cbs := map (cb_of (m_heap (set_tickled false (io_timers s)))) _) in Hle.
  set (s2 := set_io_timers tm s1).
  assert (on_timers (listExpiredCb now2 a0) s1 = Ret cbs s2) as H2.
  { unfold on_timers. change (io_timers s1) with (set_tickled false (io_timers s)). by rewrite Hle. }
  mstep H2. assert (io_inv 0 s2) as Hi2 by (by apply timers_inv).
  assert (∃ m3, (if bool_decide (cbs = []) then mret tt else
     this_ ← gets io_this;
     on_sched this_ (sch_schedule_range (map (λ c, FCb (func_of <$> c)) cbs))) s2 =
     Ret tt (set_scheds m3 s2) ∧ io_inv 0 (set_scheds m3 s2) ∧
     sched_tasks (set_scheds m3 s2) (io_this s) = sched_tasks s (io_this s) ++ due_tasks func_of (io_timers s) now2)
    as (m3&H3&Hi3&Ht3).
  { assert (concat (map tasks_of (map (λ c, FCb (func_of <$> c)) cbs)) = due_tasks func_of (io_timers s) now2)
      as Hdt by (unfold cbs, due_tasks; by rewrite !map_map).
    assert (sched_tasks s2 (io_this s) = sched_tasks s (io_this s)) as Hs2 by (exact (Htk (io_this s))).
    case_bool_decide as Hcb.
    - exists (io_scheds s2). assert (set_scheds (io_scheds s2) s2 = s2) as -> by done.
      split; [done|]. split; [done|]. rewrite <- Hdt, Hcb. simpl. by rewrite app_nil_r.
    - rewrite bind_gets. destruct (on_sched_range s2 (map (λ c, FCb (func_of <$> c)) cbs)
        (inv_this _ _ Hi2)) as (m3&Hm&Hl&Ht). exists m3. split; [done|].
      split; [by apply set_scheds_inv|]. rewrite (Ht (io_this s)), bool_decide_eq_true_2 by done.
      by rewrite Hdt, Hs2. }
  mstep H3. set (s3 := set_scheds m3 s2) in *.
  destruct (handle_events_ok (epoll_wait (wait_timeout t)) s3 Hi3) as (s4&H4&Hi4&Hg4&Ht4&_&Hn4).
  { destruct (Hrep (wait_timeout t)) as [Hnd Hr]. split; [done|]. exact Hr. }
  mstep H4. exists false, s4. split; [done|]. split; [done|]. split; [done|]. intros _.
  split; [by rewrite Ht4|]. destruct (Hg4 (io_this s)) as [k Hk].
  exists k. rewrite Hk, Ht3, <- app_assoc. split; [done|]. intros Hnil.
  rewrite (Hn4 (Hnil _)) in Hk. rewrite <- (app_nil_r (sched_tasks s3 _)) in Hk at 1.
  by apply app_inv_head in Hk.
Qed.
End rounds.

(** ** Runs *)

Section runs.
Context {S : Type} `{SchedulerLaws S}.
Implicit Types s : io S.

(** A call on the manager by a client fiber, or a round of [idle]; the
    results of the system calls are part of the operation. *)
Inductive io_op :=
  | AddEvent (fd event : Z) (cb : option func) (rt sid : Z) (fiber : faddr)
  | DelEvent (fd event rt : Z)
  | CancelEvent (fd event rt : Z)
  | CancelAll (fd rt : Z)
  | IdleRound (func_of : callback → func) (now now2 : Z) (a0 : addr)
      (epoll_wait : Z → list (option (Z * Z * Z))).

Definition io_exec (o : io_op) : M (io S) () :=
  match o with
  | AddEvent fd event cb rt sid fiber =>
      _ ← addEvent fd event cb rt (Some sid) fiber true; mret tt
  | DelEvent fd event rt => _ ← delEvent fd event rt; mret tt
  | CancelEvent fd event rt => _ ← cancelEvent fd event rt; mret tt
  | CancelAll fd rt => _ ← cancelAll fd rt; mret tt
  | IdleRound func_of now now2 a0 epoll_wait =>
      _ ← idle_round func_of now now2 a0 epoll_wait; mret tt
  end.

(** A descriptor, READ or WRITE, an event added only when it is not yet
    registered and from a fiber of a scheduler, and a kernel that reports only
    registered events. *)
Definition io_allowed (s : io S) (o : io_op) : Prop :=
  match o with
  | AddEvent fd event _ _ sid _ =>
      0 ≤ fd < 2 ^ 30 ∧ is_event event ∧ is_Some (io_scheds s !! sid) ∧
      ∀ c, ctx_at s fd c → has event c = false
  | DelEvent fd event _ | CancelEvent fd event _ => 0 ≤ fd ∧ is_event event
  | CancelAll fd _ => 0 ≤ fd
  | IdleRound _ _ _ _ epoll_wait => ∀ t, reported s (epoll_wait t)
  end.

Inductive io_reachable : io S → Prop :=
  | io_start now this_ scheds : is_Some (scheds !! this_) → io_reachable (new_IOManager now this_ scheds)
  | io_step s o s' : io_reachable s → io_allowed s o → io_exec o s = Ret tt s' → io_reachable s'.

Lemma new_IOManager_inv now this_ (scheds : gmap Z S) :
  is_Some (scheds !! this_) → io_inv 0 (new_IOManager now this_ scheds).
Proof.
  intros Hs. constructor; cbn [m_fdContexts m_pendingEventCount io_scheds io_this io_timers new_IOManager].
  - intros i c Hc. apply list_lookup_fmap_Some in Hc as (j&->&Hj). apply lookup_seq in Hj as [-> Hj].
    split; [done|]. split; [set_solver|done].
  - by rewrite count_new.
  - rewrite length_map, length_seq. lia.
  - lia.
  - done.
  - apply new_TimerManager_wf.
Qed.

Lemma io_exec_ok s o : io_inv 0 s → io_allowed s o → ∃ s', io_exec o s = Ret tt s' ∧ io_inv 0 s'.
Proof.
  intros Hinv Ha.
  destruct o as [fd event cb rt sid fiber|fd event rt|fd event rt|fd rt|func_of now now2 a0 epoll_wait];
    simpl in *.
  - destruct Ha as (Hfd&He&Hs&Hno).
    destruct (addEvent_ok s fd event cb rt sid fiber Hinv Hfd He Hs Hno) as (c&Hc&Hi0&Hh&Hr).
    destruct (added_inv s fd event cb sid fiber c Hi0 Hc He Hh Hs) as [Hi1 _].
    destruct (rt =? 0); mstep Hr; eexists; (split; [reflexivity|done]).
  - destruct Ha as [Hfd He]. destruct (Z.ltb_spec fd (Z.of_nat (length (m_fdContexts s)))) as [Hlt|Hge].
    + destruct (ctx_total s fd) as [c Hc]; [lia|].
      destruct (delEvent_ok s fd event rt c Hinv Hc He) as (s'&Hr&Hi&_). exists s'. by mstep Hr.
    + exists s. unfold delEvent. rewrite bind_assoc.
      mstep (remove_event_out 0 s fd event rt Hinv Hge). done.
  - destruct Ha as [Hfd He]. destruct (Z.ltb_spec fd (Z.of_nat (length (m_fdContexts s)))) as [Hlt|Hge].
    + destruct (ctx_total s fd) as [c Hc]; [lia|].
      destruct (cancelEvent_ok s fd event rt c Hinv Hc He) as (s'&Hr&Hi&_). exists s'. by mstep Hr.
    + exists s. unfold cancelEvent. rewrite bind_assoc.
      mstep (remove_event_out 0 s fd event rt Hinv Hge). done.
  - destruct (Z.ltb_spec fd (Z.of_nat (length (m_fdContexts s)))) as [Hlt|Hge].
    + destruct (ctx_total s fd) as [c Hc]; [lia|].
      destruct (cancelAll_ok s fd rt c Hinv Hc) as (s1&c1&s2&c2&b&Hr&_&Hi&_). exists s2. by mstep Hr.
    + exists s. unfold cancelAll. rewrite bind_assoc, bind_gets, (size_i32 _ _ Hinv).
      by rewrite (proj2 (Z.leb_le _ _)).
  - destruct (idle_round_ok s func_of now now2 a0 epoll_wait Hinv Ha) as (b&s'&Hr&Hi&_).
    exists s'. by mstep Hr.
Qed.

Lemma io_reachable_inv s : io_reachable s → io_inv 0 s.
Proof.
  induction 1 as [|s o s' _ IH Ha Hr]; [by apply new_IOManager_inv|].
  destruct (io_exec_ok s o IH Ha) as (s1&Hr1&Hi). congruence.
Qed.

Lemma no_events l : count_events l = 0 →
  (∀ i c, l !! i = Some c → fc_events c ∈ [0; 1; 4; 5]) →
  ∀ i c, l !! i = Some c → fc_events c = 0.
Proof.
  induction l as [|x l IH]; intros Hz Hev i c Hc; [done|]. simpl in Hz.
  pose proof (registered_range x). pose proof (count_range l).
  destruct i as [|i]; simplify_eq/=.
  - pose proof (has_cases c (Hev 0%nat c eq_refl)) as Hcs. unfold registered in *.
    rewrite !elem_of_cons, elem_of_nil in Hcs.
    destruct Hcs as [E|[E|[E|[E|[]]]]]; injection E as Er Ew Ev; rewrite Er, Ew in *; simpl in *;
      lia || done.
  - apply (IH ltac:(lia) (λ i c Hi, Hev (Datatypes.S i) c Hi) i c Hc).
Qed.


(** What is left of an event that was registered and then came to an end, with
    the tasks [ts] added to the queue of [sid]. *)
Definition undone (fd : Z) (s s' : io S) (sid : Z) (ts : list task) : Prop :=
  m_fdContexts s' = resized fd (m_fdContexts s) ∧
  m_pendingEventCount s' = m_pendingEventCount s ∧
  ∀ j, sched_tasks s' j = sched_tasks s j ++ if bool_decide (j = sid) then ts else [].

Lemma fires_added s fd event cb sid fiber c s' :
  let s0 := set_ctxs (resized fd (m_fdContexts s)) s in
  let s1 := set_pending (m_pendingEventCount s + 1)
    (set_ctxs (<[Z.to_nat fd := added event cb sid fiber c]> (m_fdContexts s0)) s) in
  io_inv 0 s0 → ctx_at s0 fd c → is_event event → has event c = false → is_Some (io_scheds s !! sid) →
  fires fd event (added event cb sid fiber c) s1 s' →
  undone fd s s' sid (tasks_of (match cb with Some f => FCb (Some f) | None => FFiber (Some fiber) end)).
Proof.
  intros s0 s1 Hi0 Hc He Hh Hs [H1 H2 _ _ _ (id&Hid&Ht)].
  destruct (added_ok _ _ c event cb sid fiber He (ctx_at_ok _ _ _ _ Hi0 Hc) Hh Hs)
    as (_&_&_&Hw&Hsl&_). rewrite Hsl in Hid, Ht. simpl in Hid. simplify_eq.
  split; [|split].
  - rewrite H1, Hw. unfold s1. simpl. rewrite list_insert_insert_eq. apply list_insert_id. apply Hc.
  - rewrite H2. unfold s1. simpl. lia.
  - intros j. rewrite (Ht j). by destruct cb.
Qed.

(** A report of an event that was just added fires it and nothing else. *)
Lemma report_added s fd event cb sid fiber (c : FdContext) :
  let d := added event cb sid fiber c in
  io_inv 0 s → ctx_at s fd d → is_event event → has event d = true →
  ∃ s', handle_event fd event 0 s = Ret tt s' ∧ fires fd event d s s'.
Proof.
  intros d Hi Hc He Hha. assert (genuine event d) as Hg.
  { intros e He' Hb. destruct (decide (e = event)) as [->|Hne]; [done|]. exfalso.
    by destruct He as [-> | ->], He' as [-> | ->]. }
  destruct (handle_event_ok s fd event 0 _ Hi Hc Hg) as (sa&ca&sb&cb'&Hrun&Hia&Hib&_&_&H1&H2).
  assert (∀ e, is_event e → fires_on event d e = bool_decide (e = event)) as Hf.
  { intros e He'. unfold fires_on. destruct (decide (e = event)) as [->|Hne].
    - rewrite Hha, bool_decide_eq_true_2 by done. by destruct He as [-> | ->].
    - rewrite bool_decide_eq_false_2 by done. by destruct He as [-> | ->], He' as [-> | ->]; rewrite ?andb_false_r. }
  rewrite (Hf READ (or_introl eq_refl)), (Hf WRITE (or_intror eq_refl)) in *. exists sb. split; [done|].
  destruct He as [-> | ->]; simpl in H1, H2.
  - destruct H2 as [-> _]. apply H1.
  - destruct H1 as [-> ->]. apply H2.
Qed.

(** C14. The life of an event: [addEvent] counts it and stores the callback, or
    the calling fiber when there is none; from there a report of the kernel
    and [cancelEvent] each put exactly that callback or fiber in the queue of
    the scheduler that added it, [delEvent] puts nothing, and all three leave
    the table and the count as they were before the event was added, so the
    event cannot fire twice. *)
Theorem event_life (s : io S) (fd event : Z) (cb : option func) (sid : Z) (fiber : faddr)
    (Hr : io_reachable s) (Hfd : 0 ≤ fd < 2 ^ 30) (He : is_event event)
    (Hs : is_Some (io_scheds s !! sid)) (Hno : ∀ c, ctx_at s fd c → has event c = false) :
  let ts := tasks_of (match cb with Some f => FCb (Some f) | None => FFiber (Some fiber) end) in
  ∃ s1, addEvent fd event cb 0 (Some sid) fiber true s = Ret 0 s1 ∧
    m_pendingEventCount s1 = m_pendingEventCount s + 1 ∧
    (∃ s2, handle_event fd event 0 s1 = Ret tt s2 ∧ undone fd s s2 sid ts ∧
           handle_event fd event 0 s2 = Ret tt s2) ∧
    (∃ s3, cancelEvent fd event 0 s1 = Ret true s3 ∧ undone fd s s3 sid ts ∧
           cancelEvent fd event 0 s3 = Ret false s3) ∧
    (∃ s4, delEvent fd event 0 s1 = Ret true s4 ∧ undone fd s s4 sid [] ∧
           delEvent fd event 0 s4 = Ret false s4).
Proof.
  intros ts. pose proof (io_reachable_inv s Hr) as Hinv.
  destruct (addEvent_ok s fd event cb 0 sid fiber Hinv Hfd He Hs Hno) as (c&Hc&Hi0&Hh&Ha).
  destruct (added_inv s fd event cb sid fiber c Hi0 Hc He Hh Hs) as [Hi1 Hc1].
  pose proof (added_ok _ _ c event cb sid fiber He (ctx_at_ok _ _ _ _ Hi0 Hc) Hh Hs)
    as (_&_&Hha&Hw&_&_&Hother).
  set (s1 := set_pending _ _) in *. exists s1. split; [done|]. split; [done|].
  assert (∀ s', ctx_at s' fd c → handle_event fd event 0 s' = Ret tt s') as Hagain.
  { intros s' Hc'. rewrite handle_event_eq. mstep (get_ctx_ok _ _ _ Hc').
    assert (real_events_of event (fc_events c) = event) as -> by (by destruct He as [-> | ->]).
    unfold has in Hh. apply negb_false_iff in Hh. change NONE with 0. by rewrite Hh. }
  assert (∀ s', m_fdContexts s' = resized fd (m_fdContexts s) → ctx_at s' fd c) as Hback.
  { intros s' Hl. destruct Hc as [? Hc]. split; [done|]. by rewrite Hl. }
  split; [|split].
  - destruct (report_added s1 fd event cb sid fiber c Hi1 Hc1 He Hha) as (sb&Hrun&Hfire).
    assert (undone fd s sb sid ts) as Hu by (by apply (fires_added s fd event cb sid fiber c)).
    exists sb. split; [done|]. split; [done|]. apply Hagain, Hback, Hu.
  - destruct (cancelEvent_ok s1 fd event 0 _ Hi1 Hc1 He) as (s3&H3&Hi3&Hf3).
    rewrite Hha in H3, Hf3. simpl in H3, Hf3.
    assert (undone fd s s3 sid ts) as Hu by (by apply (fires_added s fd event cb sid fiber c)).
    exists s3. split; [done|]. split; [done|].
    destruct (cancelEvent_ok s3 fd event 0 c Hi3 (Hback _ (proj1 Hu)) He) as (s5&H5&_&Hf5).
    rewrite Hh in H5, Hf5. simpl in H5, Hf5. by subst s5.
  - destruct (delEvent_ok s1 fd event 0 _ Hi1 Hc1 He) as (s4&H4&Hi4&Hf4).
    rewrite Hha in H4, Hf4. simpl in H4, Hf4.
    assert (undone fd s s4 sid []) as Hu.
    { rewrite Hf4. unfold deleted, undone. rewrite Hw. simpl. split; [|split].
      - rewrite list_insert_insert_eq. apply list_insert_id. apply Hc.
      - lia.
      - intros j. by destruct (bool_decide _); rewrite app_nil_r. }
    exists s4. split; [done|]. split; [done|].
    destruct (delEvent_ok s4 fd event 0 c Hi4 (Hback _ (proj1 Hu)) He) as (s5&H5&_&Hf5).
    rewrite Hh in H5, Hf5. simpl in H5, Hf5. by subst s5.
Qed.

(** A round of [idle]: the loop is left only when no timer is set, no
    event is registered and the queue of the scheduler is empty; otherwise the
    callbacks of the timers that are due are put in the queue, in the order of
    their times and before those of the events reported, and nothing else is
    when no event is. *)
Theorem idle_round_spec (s : io S) (func_of : callback → func) (now now2 : Z) (a0 : addr)
    (epoll_wait : Z → list (option (Z * Z * Z)))
    (Hr : io_reachable s) (Hrep : ∀ t, reported s (epoll_wait t)) :
  ∃ b s', idle_round func_of now now2 a0 epoll_wait s = Ret b s' ∧
    (b = true → (∀ i c, m_fdContexts s !! i = Some c → fc_events c = 0) ∧
       sched_tasks s (io_this s) = [] ∧
       getNextTimer now (io_timers s) = Ret (2 ^ 64 - 1) (set_tickled false (io_timers s))) ∧
    (b = false → after_expiry now2 (set_tickled false (io_timers s)) (io_timers s') ∧
       ∃ k, sched_tasks s' (io_this s) =
         sched_tasks s (io_this s) ++ due_tasks func_of (io_timers s) now2 ++ k ∧
         ((∀ t, epoll_wait t = []) → k = [])).
Proof.
  pose proof (io_reachable_inv s Hr) as Hinv.
  destruct (idle_round_ok s func_of now now2 a0 epoll_wait Hinv Hrep) as (b&s'&Hrun&Hi&Ht&Hf).
  exists b, s'. split; [done|]. split; [|done]. intros Hb. destruct (Ht Hb) as (Hp&Hq&Hn).
  split; [|done]. intros i c Hc. rewrite (inv_count _ _ Hinv), Z.add_0_r in Hp.
  apply (no_events _ Hp) with i; [|done]. intros j x Hx. apply (inv_ctxs _ _ Hinv j x Hx).
Qed.

(** A report that is older than the registration it meets: when a
    descriptor with one event registered is reported with both, as when the
    other was deleted or cancelled after [epoll_wait] returned, the round
    fails the assertion of [triggerEvent]. *)
Theorem stale_event_aborts (s : io S) (fd : Z) (c : FdContext)
    (Hr : io_reachable s) (Hc : ctx_at s fd c)
    (Hone : xorb (has READ c) (has WRITE c) = true) :
  handle_event fd (Z.lor EPOLLIN EPOLLOUT) 0 s = Crash AssertFailed.
Proof.
  pose proof (io_reachable_inv s Hr) as Hinv. rewrite handle_event_eq.
  mstep (get_ctx_ok _ _ _ Hc).
  assert (real_events_of (Z.lor EPOLLIN EPOLLOUT) (fc_events c) = 5) as -> by done.
  pose proof (ctx_at_ok _ _ _ _ Hinv Hc) as (_&Hev&_). apply has_cases in Hev.
  unfold trigger_if. cbn [Z.eqb negb]. change (Z.land 5 READ =? 0) with false.
  change (Z.land 5 WRITE =? 0) with false. cbv iota.
  rewrite !elem_of_cons, elem_of_nil in Hev.
  destruct Hev as [E|[E|[E|[E|[]]]]]; injection E as Er Ew Ev; rewrite Er, Ew in Hone; try done.
  - rewrite Ev. change (Z.land 1 5 =? NONE) with false. cbv iota.
    destruct (fire_ok s fd READ c Hinv Hc (or_introl eq_refl) Er) as (s1&H1&Hi1&_&Hc1).
    mstep H1. apply bind_crash. unfold triggerEvent. mstep (get_ctx_ok _ _ _ Hc1).
    unfold without. simpl. rewrite Ev. done.
  - rewrite Ev. change (Z.land 4 5 =? NONE) with false. cbv iota.
    apply bind_crash, bind_crash. unfold triggerEvent. mstep (get_ctx_ok _ _ _ Hc).
    rewrite Ev. done.
Qed.
End runs.

(** ** Examples *)

Definition ex_sched : sched :=
  Sched (Fibers ∅ 0 0 0 []) [] [] 1 [] 0 0 false true (-1) None [] 0 [] [].

Definition ex_scheds : gmap Z sched := <[1 := ex_sched]> ∅.
Definition ex_io0 : io sched := new_IOManager 0 1 ex_scheds.
Definition ex_add : io_op := AddEvent 40 READ (Some (User 7)) 0 1 0.
Definition ex_io1 : io sched :=
  match io_exec ex_add ex_io0 with Ret _ s => s | _ => ex_io0 end.

Lemma ex_io0_reachable : io_reachable ex_io0.
Proof. apply io_start. by eexists. Qed.

Lemma ex_add_allowed : io_allowed ex_io0 ex_add.
Proof.
  split; [lia|]. split; [by left|]. split; [by eexists|]. intros c [_ Hc]. discriminate Hc.
Qed.

Lemma ex_io1_reachable : io_reachable ex_io1.
Proof.
  apply (io_step ex_io0 ex_add); [apply ex_io0_reachable|apply ex_add_allowed|].
  vm_compute. reflexivity.
Qed.

Definition ex_ctx : FdContext :=
  mkFdContext (mkEventContext (Some 1) None (Some (User 7))) empty_context 40 1.

Lemma ex_ctx_at : ctx_at ex_io1 40 ex_ctx.
Proof. split; [lia|]. vm_compute. reflexivity. Qed.


Lemma event_life_witness :
  ∃ s1, addEvent 40 READ (Some (User 7)) 0 (Some 1) 0 true ex_io0 = Ret 0 s1 ∧
    ∃ s2, handle_event 40 READ 0 s1 = Ret tt s2 ∧ sched_tasks s2 1 = [Task None (Some (User 7)) (-1)].
Proof.
  destruct (event_life ex_io0 40 READ (Some (User 7)) 1 0) as (s1&Ha&_&(s2&Hh&(_&_&Ht)&_)&_&_).
  - apply ex_io0_reachable.
  - lia.
  - by left.
  - by eexists.
  - apply ex_add_allowed.
  - exists s1. split; [exact Ha|]. exists s2. split; [exact Hh|]. rewrite (Ht 1). reflexivity.
Defined.

(** A round with nothing set leaves the loop. *)
Lemma idle_round_witness :
  ∃ b s', idle_round (λ _, User 0) 0 0 9 (λ _, []) ex_io1 = Ret b s' ∧ b = false ∧
    sched_tasks s' 1 = [].
Proof.
  destruct (idle_round_spec ex_io1 (λ _, User 0) 0 0 9 (λ _, []) ex_io1_reachable) as (b&s'&Hr&Ht&Hf).
  { intros t. split; [constructor|]. intros fd r rt Hin. by apply elem_of_nil in Hin. }
  exists b, s'. split; [exact Hr|]. destruct b.
  - exfalso. destruct (Ht eq_refl) as (Hz&_&_).
    specialize (Hz 40%nat ex_ctx (proj2 ex_ctx_at)). discriminate Hz.
  - split; [reflexivity|]. destruct (Hf eq_refl) as (_&k&Hk&Hn). change (io_this ex_io1) with 1 in Hk.
    rewrite Hk, (Hn (λ _, eq_refl)). vm_compute. reflexivity.
Defined.

Lemma stale_event_witness : handle_event 40 (Z.lor EPOLLIN EPOLLOUT) 0 ex_io1 = Crash AssertFailed.
Proof.
  apply (stale_event_aborts ex_io1 40 ex_ctx); [apply ex_io1_reachable|apply ex_ctx_at|reflexivity].
Defined.

(** The timeout of [epoll_wait] is at most a second and does not pass the next
    timer when that is less than 2^31 ms away; beyond that the conversion to
    [int] can make it negative, which is no timeout at all. *)
Lemma wait_timeout_bound t : 0 ≤ t < 2 ^ 31 → 0 ≤ wait_timeout t ≤ Z.min t 1000.
Proof.
  intros Ht. unfold wait_timeout. rewrite (proj2 (Z.eqb_neq t _)) by (change (u64 (Z.lnot 0)) with (2 ^ 64 - 1); lia).
  simpl negb. cbv iota. rewrite (swrap_id 32 t) by (unfold signed_in; lia).
  destruct (Z.ltb_spec 1000 t); rewrite swrap_id by (unfold signed_in; lia); lia.
Qed.

Example wait_timeout_overflow : wait_timeout (2 ^ 31) = - 2 ^ 31.
Proof. reflexivity. Qed.

(** Two calls of [addEvent] that both found the table too small: the one for
    the lower descriptor shrinks the table the other made room in. *)
Example resize_race :
  match (_ ← addEvent_find 100; _ ← addEvent_find 40; contextResize 150;;
         _ ← addEvent_locked 100 READ (Some (User 7)) 0 (Some 1) 0 true;
         contextResize 60;; addEvent_locked 40 READ (Some (User 8)) 0 (Some 1) 0 true) ex_io0 with
  | Ret r s => r = 0 ∧ m_pendingEventCount s = 2 ∧ count_events (m_fdContexts s) = 1
  | _ => False
  end.
Proof. vm_compute. auto. Qed.
