(* ===== verification/IoWait.v ===== *)
(** * Fibers that wait for the I/O manager (megalo/hook.cc, iomanager.cc, scheduler.cc)

    A hooked call that would block registers its fiber with [addEvent] and
    yields; a report of the kernel, [cancelEvent] from its timer or [cancelAll]
    from [close] puts the fiber in the queue of a scheduler, from which a worker
    takes it.  Here these operations, as IOManager and Scheduler define them,
    run in any order for any number of fibers.  A fiber that waits has one
    token: its registration with the I/O manager, or its place in a queue. *)
From S2P Require Import Prelude Timer Fiber Scheduler IOManager.
From stdpp Require Import gmap relations.
#[local] Open Scope Z_scope.

(** ** The callback of a call's timer *)

Definition ETIMEDOUT : Z := 110.

Section callback.
Context {S : Type} `{SchedulerOps S}.

(** The function [do_io] gives to [addConditionTimer]: [info] is the
    [timer_info] when it is still alive; the result is its content afterwards. *)
Definition timeout_callback (info : option Z) (fd event rt : Z) : M (io S) (option Z) :=
  match info with
  | None => mret None
  | Some cancelled =>
      if negb (cancelled =? 0) then mret info
      else _ ← cancelEvent fd event rt; mret (Some ETIMEDOUT)
  end.
End callback.

(** ** Tokens *)

Definition holds_fiber (f : faddr) (e : EventContext) : bool := bool_decide (ec_fiber e = Some f).
Definition for_fiber (f : faddr) (t : task) : bool := bool_decide (ft_fiber t = Some f).

(** Registrations of a fiber in a context and in the table. *)
Definition waits_in (f : faddr) (c : FdContext) : Z := Z.b2z (holds_fiber f (fc_read c)) + Z.b2z (holds_fiber f (fc_write c)).
Fixpoint waiting (f : faddr) (l : list FdContext) : Z :=
  match l with [] => 0 | c :: l => waits_in f c + waiting f l end.

(** Places of a fiber in a queue, and in the queues of some schedulers. *)
Definition places (f : faddr) (l : list task) : Z := Z.of_nat (length (filter (λ t, for_fiber f t = true) l)).
Fixpoint queued_in (f : faddr) (q : Z → list task) (ids : list Z) : Z :=
  match ids with [] => 0 | id :: ids => places f (q id) + queued_in f q ids end.

Lemma waits_in_range f c : 0 ≤ waits_in f c.
Proof. unfold waits_in. destruct (holds_fiber f (fc_read c)), (holds_fiber f (fc_write c)); simpl; lia. Qed.
Lemma waiting_nonneg f l : 0 ≤ waiting f l.
Proof. induction l as [|c l IH]; simpl; [lia|]. pose proof (waits_in_range f c). lia. Qed.
Lemma waiting_insert f l : ∀ i c c', l !! i = Some c →
  waiting f (<[i := c']> l) = waiting f l - waits_in f c + waits_in f c'.
Proof.
  induction l as [|x l IH]; intros [|i] c c' Hi; simplify_eq/=; [lia|]. rewrite (IH _ _ _ Hi). lia.
Qed.
Lemma waiting_app f l l' : waiting f (l ++ l') = waiting f l + waiting f l'.
Proof. induction l as [|c l IH]; simpl; lia. Qed.
Lemma waiting_new f l : waiting f (map (λ i, new_FdContext (Z.of_nat i)) l) = 0.
Proof. by induction l. Qed.
Lemma waiting_le f l i c : l !! i = Some c → waits_in f c ≤ waiting f l.
Proof.
  intros Hi. pose proof (waiting_insert f l i c (new_FdContext 0) Hi) as Hw.
  pose proof (waiting_nonneg f (<[i := new_FdContext 0]> l)). simpl in Hw. change (waits_in f (new_FdContext 0)) with 0 in Hw. lia.
Qed.

Lemma places_nonneg f l : 0 ≤ places f l.
Proof. unfold places. lia. Qed.
Lemma places_app f l l' : places f (l ++ l') = places f l + places f l'.
Proof. unfold places. rewrite filter_app, length_app. lia. Qed.
Lemma places_cons f t l : places f (t :: l) = Z.b2z (for_fiber f t) + places f l.
Proof.
  change (t :: l) with ([t] ++ l). rewrite places_app. f_equal. unfold places. rewrite filter_cons.
  by destruct (for_fiber f t).
Qed.

Lemma queued_in_nonneg f q ids : 0 ≤ queued_in f q ids.
Proof. induction ids as [|id ids IH]; simpl; [lia|]. pose proof (places_nonneg f (q id)). lia. Qed.
Lemma queued_in_same f q q' ids : (∀ j, j ∈ ids → places f (q' j) = places f (q j)) → queued_in f q' ids = queued_in f q ids.
Proof.
  induction ids as [|id ids IH]; intros Hq; simpl; [done|]. rewrite (Hq id) by (by left). f_equal. apply IH. intros j Hj. apply Hq. by right.
Qed.
Lemma queued_in_change f q q' ids id d : NoDup ids → id ∈ ids →
  (∀ j, places f (q' j) = places f (q j) + if bool_decide (j = id) then d else 0) →
  queued_in f q' ids = queued_in f q ids + d.
Proof.
  intros Hnd Hid Hq. induction Hnd as [|x ids Hx Hnd IH]; [by apply elem_of_nil in Hid|]. simpl. rewrite Hq.
  case_bool_decide as Heq.
  - subst x. rewrite (queued_in_same f q q' ids); [lia|]. intros j Hj. rewrite Hq, bool_decide_eq_false_2; [lia|].
    by intros ->.
  - apply elem_of_cons in Hid as [->|Hid]; [done|]. rewrite IH by done. lia.
Qed.

Section tokens.
Context {S : Type} `{SchedulerLaws S}.
Implicit Types s : io S.

Definition queued (f : faddr) s : Z := queued_in f (sched_tasks s) (elements (dom (io_scheds s))).
Definition tokens (f : faddr) s : Z := waiting f (m_fdContexts s) + queued f s.

(** The schedulers stay; some queues change. *)
Lemma same_live_dom (m m' : gmap Z S) : same_live m m' → dom m' = dom m.
Proof. intros Hl. apply set_eq. intros id. rewrite !elem_of_dom. symmetry. apply Hl. Qed.
Lemma queued_change f s s' id ts : same_live (io_scheds s) (io_scheds s') → is_Some (io_scheds s !! id) →
  (∀ j, sched_tasks s' j = sched_tasks s j ++ if bool_decide (j = id) then ts else []) →
  queued f s' = queued f s + places f ts.
Proof.
  intros Hl Hid Ht. unfold queued. rewrite (same_live_dom _ _ Hl). apply (queued_in_change f _ _ _ id).
  - apply NoDup_elements.
  - by apply elem_of_elements, elem_of_dom.
  - intros j. rewrite Ht, places_app. by case_bool_decide.
Qed.
Lemma queued_same f s s' : dom (io_scheds s') = dom (io_scheds s) → (∀ j, sched_tasks s' j = sched_tasks s j) → queued f s' = queued f s.
Proof. intros Hd Ht. unfold queued. rewrite Hd. apply queued_in_same. intros j _. by rewrite Ht. Qed.

(** Tasks of callbacks are for no fiber. *)
Lemma places_cb f c : places f (tasks_of (FCb c)) = 0.
Proof. unfold tasks_of. by destruct c. Qed.
Lemma places_fiber f g : places f (tasks_of (FFiber (Some g))) = Z.b2z (bool_decide (g = f)).
Proof.
  unfold tasks_of, task_ok. cbn [FiberAndThread ft_fiber ft_cb]. rewrite bool_decide_eq_true_2 by (by eexists). cbn [orb].
  rewrite places_cons. unfold for_fiber. cbn [ft_fiber]. change (places f []) with 0. rewrite Z.add_0_r. f_equal.
  apply bool_decide_ext. split; [by intros [= ->]|by intros ->].
Qed.
Lemma places_cbs f l : places f (concat (map (λ c, tasks_of (FCb c)) l)) = 0.
Proof. induction l as [|c l IH]; [done|]. simpl. by rewrite places_app, places_cb, IH. Qed.
Lemma places_slot f scheds e : slot_ok (S := S) scheds true e → places f (tasks_of (slot_task e)) = Z.b2z (holds_fiber f e).
Proof.
  intros [_ He]. unfold slot_task, holds_fiber. destruct He as [[[c Hc] Hf]|[Hc [g Hg]]].
  - rewrite Hc, Hf, places_cb. by rewrite bool_decide_eq_false_2.
  - rewrite Hc, Hg, places_fiber. f_equal. apply bool_decide_ext. split; [by intros ->|by intros [= ->]].
Qed.

(** A context without an event: the registration of that event is gone. *)
Lemma waits_without f m i c event : is_event event → ctx_ok (S := S) m i c → has event c = true →
  waits_in f (without event c) = waits_in f c - Z.b2z (holds_fiber f (slot event c)).
Proof.
  intros He Hok Hh. destruct c as [r w fd ev]. unfold waits_in, without.
  destruct He as [-> | ->]; cbn [set_context set_events slot fc_read fc_write Z.eqb READ WRITE Pos.eqb];
    change (holds_fiber f empty_context) with false; simpl; lia.
Qed.

(** Registrations do not appear from nowhere. *)
Definition no_new s s' : Prop := ∀ f fd c' event, is_event event → ctx_at s' fd c' → holds_fiber f (slot event c') = true →
  ∃ c, ctx_at s fd c ∧ holds_fiber f (slot event c) = true.

(** Tokens move, at most. *)
Definition conserves s s' : Prop :=
  dom (io_scheds s') = dom (io_scheds s) ∧ (∀ f, tokens f s' = tokens f s) ∧ no_new s s'.
Lemma conserves_same s s' : dom (io_scheds s') = dom (io_scheds s) → m_fdContexts s' = m_fdContexts s →
  (∀ f, queued f s' = queued f s) → conserves s s'.
Proof.
  intros Hd Hc Hq. split; [done|]. split; [intros f; unfold tokens; by rewrite Hc, Hq|].
  intros f fd c' event _ [Hfd Hc'] Hh. exists c'. rewrite Hc in Hc'. by split; [split|].
Qed.
#[local] Instance conserves_refl : Reflexive conserves.
Proof. intros s. by apply conserves_same. Qed.
#[local] Instance conserves_trans : Transitive conserves.
Proof.
  intros s s' s'' (Hd&Ht&Hn) (Hd'&Ht'&Hn'). split; [congruence|]. split; [intros f; by rewrite Ht', Ht|].
  intros f fd c event He Hc Hh. destruct (Hn' f fd c event He Hc Hh) as (c'&Hc'&Hh'). by apply (Hn f fd c').
Qed.

Lemma without_slots f event event' c : is_event event → is_event event' →
  holds_fiber f (slot event' (without event c)) = true → holds_fiber f (slot event' c) = true.
Proof.
  intros He He'. destruct c as [r w fd ev]. unfold without.
  by destruct He as [-> | ->], He' as [-> | ->].
Qed.

(** An event that fires moves the token. *)
Lemma fires_conserves fd event c s s' : io_inv 0 s → ctx_at s fd c → is_event event → has event c = true →
  fires fd event c s s' → conserves s s' ∧
  ∀ f, queued f s' = queued f s + Z.b2z (holds_fiber f (slot event c)).
Proof.
  intros Hinv Hc He Hh Hf. pose proof (ctx_at_ok _ _ _ _ Hinv Hc) as Hok.
  destruct Hf as [Hctx _ _ _ Hlive (id&Hid&Ht)].
  assert (slot_ok (io_scheds s) true (slot event c)) as Hslot.
  { destruct Hok as (_&_&H3&H4). destruct He as [-> | ->]; rewrite Hh in *; done. }
  assert (is_Some (io_scheds s !! id)) as Hsid.
  { destruct Hslot as [(id'&Hid'&Hs') _]. rewrite Hid in Hid'. by injection Hid' as <-. }
  assert (∀ f, queued f s' = queued f s + Z.b2z (holds_fiber f (slot event c))) as Hq.
  { intros f. rewrite (queued_change f s s' id _ Hlive Hsid Ht). by rewrite (places_slot f _ _ Hslot). }
  split; [|done]. destruct Hc as [Hfd Hc]. split; [by apply same_live_dom|]. split.
  - intros f. unfold tokens. rewrite Hq, Hctx, (waiting_insert f _ _ _ _ Hc), (waits_without f _ _ c event He Hok Hh). lia.
  - intros f fd' c' event' He' [Hfd' Hc'] Hh'. rewrite Hctx in Hc'. destruct (decide (fd' = fd)) as [->|Hne].
    + rewrite list_lookup_insert_eq in Hc' by (by eapply lookup_lt_Some). injection Hc' as <-.
      exists c. split; [done|]. by apply (without_slots f event).
    + rewrite list_lookup_insert_ne in Hc' by lia. by exists c'.
Qed.

(** ** The operations *)

Lemma fires_if_conserves (b : bool) fd event c c' s s' : io_inv 0 s → ctx_at s fd c → is_event event →
  (b = true → has event c = true) →
  (if b then fires fd event c s s' ∧ c' = without event c else s' = s ∧ c' = c) → conserves s s'.
Proof.
  intros Hinv Hc He Hb Hf. destruct b; [|by destruct Hf as [-> _]]. destruct Hf as [Hf _].
  by eapply fires_conserves; [..|exact Hf]; auto.
Qed.

Lemma handle_event_conserves s fd revents rt2 c : io_inv 0 s → ctx_at s fd c → genuine revents c →
  ∃ s', handle_event fd revents rt2 s = Ret tt s' ∧ io_inv 0 s' ∧ elsewhere fd s s' ∧ conserves s s'.
Proof.
  intros Hinv Hc Hg. destruct (handle_event_elsewhere s fd revents rt2 c Hinv Hc Hg) as (s'&Hr&Hi&Hel).
  destruct (handle_event_ok s fd revents rt2 c Hinv Hc Hg) as (s1&c1&s2&c2&Hr'&Hi1&_&Hc1&_&H1&H2).
  rewrite Hr in Hr'. injection Hr' as <-. exists s'. do 3 (split; [done|]). transitivity s1.
  - eapply (fires_if_conserves _ fd READ c c1); [done|done|by left| |exact H1].
    unfold fires_on. by intros [_ [? _]%andb_true_iff]%andb_true_iff.
  - eapply (fires_if_conserves _ fd WRITE c1 c2); [done|done|by right| |exact H2].
    intros [_ [Hw _]%andb_true_iff]%andb_true_iff.
    destruct ((rt2 =? 0) && fires_on revents c READ) eqn:Eb; destruct H1 as [_ ->]; [|done].
    apply andb_true_iff in Eb as [_ [Hh _]%andb_true_iff].
    destruct (without_ok _ _ _ READ (or_introl eq_refl) (ctx_at_ok _ _ _ _ Hinv Hc) Hh) as (_&_&_&Hrest).
    by rewrite (proj1 (Hrest WRITE ltac:(by right) ltac:(done))).
Qed.

Lemma handle_events_conserve l : ∀ s, io_inv 0 s → reported s l →
  ∃ s', handle_events l s = Ret tt s' ∧ conserves s s'.
Proof.
  induction l as [|[[[fd revents] rt2]|] l IH]; intros s Hinv [Hnd Hrep]; simpl.
  - by exists s.
  - destruct (Hrep fd revents rt2) as (c&Hc&Hg); [by left|].
    destruct (handle_event_conserves s fd revents rt2 c Hinv Hc Hg) as (s1&H1&Hi1&(_&_&_&Hc1)&Hcons).
    apply NoDup_cons in Hnd as [Hnin Hnd]. destruct (IH s1 Hi1) as (s2&H2&Hcons2).
    { split; [done|]. intros fd' r rt Hin. destruct (Hrep fd' r rt) as (c'&Hc'&Hgen); [by right|].
      exists c'. split; [|done]. apply Hc1; [|done]. intros ->. apply Hnin.
      apply list_elem_of_omap. by exists (Some (fd, r, rt)). }
    exists s2. split; [by mstep H1|]. by transitivity s1.
  - apply IH; [done|]. split; [done|]. intros fd' r rt Hin. apply (Hrep fd' r rt). by right.
Qed.

Lemma queue_cbs_conserves s m id l : io_inv 0 s → same_live (io_scheds s) m → is_Some (io_scheds s !! id) →
  (∀ j, sched_tasks (set_scheds m s) j = sched_tasks s j ++ if bool_decide (j = id) then concat (map (λ c, tasks_of (FCb c)) l) else []) →
  conserves s (set_scheds m s).
Proof.
  intros Hinv Hl Hid Ht. apply conserves_same; [by apply same_live_dom|done|]. intros f.
  rewrite (queued_change f s (set_scheds m s) id _ Hl Hid Ht), places_cbs. lia.
Qed.

Lemma idle_round_conserves s func_of now now2 a0 epoll_wait b s' : io_inv 0 s → (∀ t, reported s (epoll_wait t)) →
  idle_round func_of now now2 a0 epoll_wait s = Ret b s' → conserves s s'.
Proof.
  intros Hinv Hrep. unfold idle_round.
  destruct (stopping_timeout_ok s now Hinv) as (b1&t&m&H1&Hi1&_&_&_&->). mstep H1. cbn [fst snd].
  set (s1 := set_scheds (io_scheds s) _) in *. assert (conserves s s1) as Hc1 by (by apply conserves_same).
  destruct b1; [by intros [= _ <-]|].
  destruct (listExpired_ok (set_tickled false (io_timers s)) now2 a0) as (tm&Hle&Hwf2&_);
    [by destruct (inv_timers _ _ Hinv); constructor|].
  set (cbs := map (cb_of (m_heap (set_tickled false (io_timers s)))) _) in Hle. set (s2 := set_io_timers tm s1).
  assert (on_timers (listExpiredCb now2 a0) s1 = Ret cbs s2) as H2.
  { unfold on_timers. change (io_timers s1) with (set_tickled false (io_timers s)). by rewrite Hle. }
  mstep H2. assert (io_inv 0 s2) as Hi2 by (by apply timers_inv). assert (conserves s s2) as Hc2 by (by apply conserves_same).
  assert (∃ s3, (if bool_decide (cbs = []) then mret tt else
     this_ ← gets io_this;
     on_sched this_ (sch_schedule_range (map (λ c, FCb (func_of <$> c)) cbs))) s2 = Ret tt s3 ∧ io_inv 0 s3 ∧
     conserves s2 s3 ∧ m_fdContexts s3 = m_fdContexts s) as (s3&H3&Hi3&Hc3&Hctx).
  { case_bool_decide as Hcb; [by exists s2|]. rewrite bind_gets.
    destruct (on_sched_range s2 (map (λ c, FCb (func_of <$> c)) cbs) (inv_this _ _ Hi2)) as (m3&Hm&Hl&Ht).
    exists (set_scheds m3 s2). split; [done|]. split; [by apply set_scheds_inv|]. split; [|done].
    apply (queue_cbs_conserves s2 m3 (io_this s2) (map (fmap func_of) cbs)); [done|done|apply (inv_this _ _ Hi2)|].
    intros j. rewrite Ht. by rewrite !map_map. }
  mstep H3. destruct (handle_events_conserve (epoll_wait (wait_timeout t)) s3 Hi3) as (s4&H4&Hc4).
  { destruct (Hrep (wait_timeout t)) as [Hnd Hr]. split; [done|]. intros fd r rt Hin.
    destruct (Hr fd r rt Hin) as (c&Hc&Hg). exists c. split; [|done]. destruct Hc as [? Hc]. split; [done|]. by rewrite Hctx. }
  mstep H4. intros [= _ <-]. transitivity s2; [done|]. by transitivity s3.
Qed.

Lemma cancelEvent_conserves s fd event rt b s' : io_inv 0 s → 0 ≤ fd → is_event event →
  cancelEvent fd event rt s = Ret b s' → conserves s s'.
Proof.
  intros Hinv Hfd He Hr. destruct (Z.ltb_spec fd (Z.of_nat (length (m_fdContexts s)))) as [Hlt|Hge].
  - destruct (ctx_total s fd) as [c Hc]; [lia|].
    destruct (cancelEvent_ok s fd event rt c Hinv Hc He) as (s1&Hr1&_&Hf). rewrite Hr in Hr1. injection Hr1 as -> <-.
    destruct (has event c && (rt =? 0)) eqn:Eb; [|by subst]. apply andb_true_iff in Eb as [Hh _].
    by eapply fires_conserves; [..|exact Hf].
  - unfold cancelEvent in Hr. rewrite (bind_ret _ _ _ _ _ (remove_event_out 0 s fd event rt Hinv Hge)) in Hr.
    by injection Hr as _ <-.
Qed.

Lemma cancelAll_conserves s fd rt b s' : io_inv 0 s → 0 ≤ fd → cancelAll fd rt s = Ret b s' → conserves s s'.
Proof.
  intros Hinv Hfd Hr. destruct (Z.ltb_spec fd (Z.of_nat (length (m_fdContexts s)))) as [Hlt|Hge].
  - destruct (ctx_total s fd) as [c Hc]; [lia|].
    destruct (cancelAll_ok s fd rt c Hinv Hc) as (s1&c1&s2&c2&b'&Hr1&_&_&_&_&H1&H2&Hi1&Hc1&Hw).
    rewrite Hr in Hr1. injection Hr1 as -> <-. transitivity s1.
    + eapply (fires_if_conserves _ fd READ c c1); [done|done|by left| |exact H1]. by intros [_ ?]%andb_true_iff.
    + eapply (fires_if_conserves _ fd WRITE c1 c2); [done|done|by right| |exact H2]. rewrite Hw. by intros [_ ?]%andb_true_iff.
  - unfold cancelAll in Hr. rewrite bind_gets, (size_i32 _ _ Hinv), (proj2 (Z.leb_le _ _) Hge) in Hr. by injection Hr as _ <-.
Qed.

Lemma waiting_resized f fd l : waiting f (resized fd l) = waiting f l.
Proof. unfold resized. destruct (fd <? _); [done|]. rewrite waiting_app, waiting_new. lia. Qed.
Lemma resized_lookup fd l i c : resized fd l !! i = Some c → l !! i = Some c ∨ c = new_FdContext (Z.of_nat i).
Proof.
  unfold resized. destruct (fd <? _); [by left|]. intros [Hi|[Hge Hi]]%lookup_app_Some; [by left|right].
  apply list_lookup_fmap_Some in Hi as (j&->&Hj). apply lookup_seq in Hj as [-> _]. f_equal. lia.
Qed.
Lemma holds_new f event i : holds_fiber f (slot event (new_FdContext i)) = false.
Proof. unfold slot. by destruct (event =? READ). Qed.
Lemma conserves_resized s fd : conserves s (set_ctxs (resized fd (m_fdContexts s)) s).
Proof.
  split; [done|]. split.
  - intros f. unfold tokens. cbn [m_fdContexts set_ctxs]. by rewrite waiting_resized.
  - intros f fd' c event He [Hfd Hc] Hh. apply resized_lookup in Hc as [Hc| ->]; [by exists c|]. by rewrite holds_new in Hh.
Qed.

(** [addEvent] of a fiber makes its token. *)
Lemma waits_added f event cb sid fiber c : is_event event → slot event c = empty_context →
  waits_in f (added event cb sid fiber c) = waits_in f c + match cb with Some _ => 0 | None => Z.b2z (bool_decide (fiber = f)) end ∧
  (∀ event', is_event event' → holds_fiber f (slot event' (added event cb sid fiber c)) = true →
     holds_fiber f (slot event' c) = true ∨ cb = None ∧ fiber = f ∧ event' = event).
Proof.
  intros He Hslot. destruct c as [r w fd ev].
  assert (∀ g, holds_fiber f (mkEventContext (Some sid) (Some g) cb) = bool_decide (g = f)) as Hh.
  { intros g. unfold holds_fiber. apply bool_decide_ext. split; [by intros [= ->]|by intros ->]. }
  unfold waits_in, added. destruct He as [-> | ->]; cbn in Hslot; subst;
    (split; [destruct cb; cbn [set_context set_events fc_read fc_write Z.eqb READ WRITE Pos.eqb]; rewrite ?Hh;
      change (holds_fiber f empty_context) with false; change (holds_fiber f (mkEventContext (Some sid) None _)) with false; simpl; lia|]);
    intros event' He' Hf; destruct He' as [-> | ->]; destruct cb; cbn in Hf; try (by left); try done;
    right; (split; [done|]); rewrite Hh in Hf; by apply bool_decide_eq_true in Hf.
Qed.

Lemma addEvent_tokens s fd event cb rt sid fiber : io_inv 0 s → io_allowed s (AddEvent fd event cb rt sid fiber) →
  ∃ s', addEvent fd event cb rt (Some sid) fiber true s = Ret (if rt =? 0 then 0 else -1) s' ∧ io_inv 0 s' ∧
    io_scheds s' = io_scheds s ∧
    (∀ f, tokens f s' = tokens f s +
       if rt =? 0 then match cb with Some _ => 0 | None => Z.b2z (bool_decide (fiber = f)) end else 0) ∧
    (∀ f fd' c event', is_event event' → ctx_at s' fd' c → holds_fiber f (slot event' c) = true →
       (∃ c0, ctx_at s fd' c0 ∧ holds_fiber f (slot event' c0) = true) ∨
       rt = 0 ∧ cb = None ∧ fiber = f ∧ fd' = fd ∧ event' = event).
Proof.
  intros Hinv (Hfd&He&Hs&Hno).
  destruct (addEvent_ok s fd event cb rt sid fiber Hinv Hfd He Hs Hno) as (c&Hc&Hi0&Hh&Hr).
  destruct (added_inv s fd event cb sid fiber c Hi0 Hc He Hh Hs) as [Hi1 Hc1].
  destruct (conserves_resized s fd) as (_&Htok&Hnew). set (s0 := set_ctxs _ s) in *.
  destruct (rt =? 0) eqn:Ert.
  2: { exists s0. rewrite Hr. do 3 (split; [done|]). split; [intros f; rewrite Htok; lia|].
    intros f fd' c' event' He' Hc' Hh'. left. by apply (Hnew f fd' c'). }
  apply Z.eqb_eq in Ert. subst rt. set (s1 := set_pending _ _) in *. exists s1. rewrite Hr. do 3 (split; [done|]).
  assert (slot event c = empty_context) as Hslot.
  { pose proof (added_ok _ _ c event cb sid fiber He (ctx_at_ok _ _ _ _ Hi0 Hc) Hh Hs) as Ha. apply Ha. }
  split.
  - intros f. rewrite <- Htok. destruct (waits_added f event cb sid fiber c He Hslot) as [Hw _]. unfold tokens, s1.
    cbn [m_fdContexts set_pending set_ctxs]. rewrite (waiting_insert f _ _ _ _ (proj2 Hc)), Hw.
    change (queued f s0) with (queued f s). unfold s0. cbn [m_fdContexts set_ctxs].
    assert (queued f (set_pending (m_pendingEventCount s + 1) (set_ctxs (<[Z.to_nat fd:=added event cb sid fiber c]> (resized fd (m_fdContexts s))) s)) = queued f s) as -> by done. lia.
  - intros f fd' c' event' He' Hc' Hh'. destruct (decide (fd' = fd)) as [->|Hne].
    + destruct Hc' as [_ Hc'], Hc1 as [_ Hc1]. rewrite Hc1 in Hc'. injection Hc' as <-.
      destruct (waits_added f event cb sid fiber c He Hslot) as [_ Hw].
      destruct (Hw event' He' Hh') as [Hold|(->&->&->)]; [left; by apply (Hnew f fd c)|by right].
    + left. apply (Hnew f fd' c' event' He'); [|done]. destruct Hc' as [Hfd' Hc']. split; [done|].
      unfold s1 in Hc'. cbn [m_fdContexts set_pending set_ctxs] in Hc'. by rewrite list_lookup_insert_ne in Hc' by lia.
Qed.
End tokens.

(** ** Any number of fibers *)

Section system.
Context {S : Type} `{SchedulerLaws S}.
Implicit Types s : io S.

(** The manager with its schedulers; the fibers that do not run, with the
    descriptor and the event for which [do_io] registered them, if it did; and the
    [timer_info]s of the calls in progress. *)
Record waits := mkWaits {
  w_io : io S;
  w_held : gmap faddr (option (Z * Z));
  w_infos : gmap addr Z
}.

(** A worker takes a task out of a queue. *)
Definition taken (t : task) s s' : Prop :=
  ∃ m id l1 l2, s' = set_scheds m s ∧ same_live (io_scheds s) m ∧ is_Some (io_scheds s !! id) ∧
    sched_tasks s id = l1 ++ t :: l2 ∧ sched_tasks s' id = l1 ++ l2 ∧
    ∀ j, j ≠ id → sched_tasks s' j = sched_tasks s j.

Inductive step : waits → waits → Prop :=
  (** [do_io] registers its fiber and yields, or is refused. *)
  | step_block s h i f fd event rt sid r s' : h !! f = None → io_allowed s (AddEvent fd event None rt sid f) →
      addEvent fd event None rt (Some sid) f true s = Ret r s' →
      step (mkWaits s h i) (mkWaits s' (if r =? 0 then <[f := Some (fd, event)]> h else h) i)
  (** A callback is registered instead. *)
  | step_watch s h i f fd event cb rt sid r s' : io_allowed s (AddEvent fd event (Some cb) rt sid f) →
      addEvent fd event (Some cb) rt (Some sid) f true s = Ret r s' → step (mkWaits s h i) (mkWaits s' h i)
  (** A round of [idle]: timers that are due, events that are reported. *)
  | step_idle s h i func_of now now2 a0 epoll_wait b s' : (∀ t, reported s (epoll_wait t)) →
      idle_round func_of now now2 a0 epoll_wait s = Ret b s' → step (mkWaits s h i) (mkWaits s' h i)
  (** [close] cancels all events of a descriptor. *)
  | step_cancelAll s h i fd rt b s' : 0 ≤ fd → cancelAll fd rt s = Ret b s' → step (mkWaits s h i) (mkWaits s' h i)
  (** A call begins, the callback of its timer runs, it returns. *)
  | step_call s h i a : i !! a = None → step (mkWaits s h i) (mkWaits s h (<[a := 0]> i))
  | step_timeout s h i a fd event rt v s' : 0 ≤ fd → is_event event →
      timeout_callback (i !! a) fd event rt s = Ret v s' →
      step (mkWaits s h i) (mkWaits s' h (match v with Some c => <[a := c]> i | None => i end))
  | step_return s h i a : step (mkWaits s h i) (mkWaits s h (delete a i))
  (** Client code schedules a fiber that does not run, or a callback. *)
  | step_schedule s h i f id s' : h !! f = None → is_Some (io_scheds s !! id) →
      on_sched id (sch_schedule (FFiber (Some f))) s = Ret tt s' → step (mkWaits s h i) (mkWaits s' (<[f := None]> h) i)
  | step_post s h i c id s' : is_Some (io_scheds s !! id) → on_sched id (sch_schedule (FCb c)) s = Ret tt s' →
      step (mkWaits s h i) (mkWaits s' h i)
  (** A worker takes a fiber and resumes it, or takes a callback. *)
  | step_resume s h i f thr s' : taken (Task (Some f) None thr) s s' → step (mkWaits s h i) (mkWaits s' (delete f h) i)
  | step_run s h i c thr s' : taken (Task None (Some c) thr) s s' → step (mkWaits s h i) (mkWaits s' h i).

Definition initial (w : waits) : Prop :=
  ∃ now this_ scheds, is_Some (scheds !! this_) ∧ (∀ id c, scheds !! id = Some c → sch_tasks c = []) ∧
    w = mkWaits (new_IOManager now this_ scheds) ∅ ∅.
Definition reachable (w : waits) : Prop := ∃ w0, initial w0 ∧ rtc step w0 w.

(** A fiber that does not run has one token, a running one none; a registered fiber
    is registered for what it waits for. *)
Record wait_inv (w : waits) : Prop := mkWaitInv {
  winv_io : io_inv 0 (w_io w);
  winv_tokens : ∀ f, tokens f (w_io w) = if decide (is_Some (w_held w !! f)) then 1 else 0;
  winv_place : ∀ f fd c event, is_event event → ctx_at (w_io w) fd c → holds_fiber f (slot event c) = true →
    w_held w !! f = Some (Some (fd, event))
}.

Lemma waiting_holds f l : 0 < waiting f l →
  ∃ i c event, l !! i = Some c ∧ is_event event ∧ holds_fiber f (slot event c) = true.
Proof.
  induction l as [|c l IH]; simpl; [lia|]. intros Hw. unfold waits_in in Hw.
  destruct (holds_fiber f (fc_read c)) eqn:Er; [exists 0%nat, c, READ; by split_and!; [|left|]|].
  destruct (holds_fiber f (fc_write c)) eqn:Ew; [exists 0%nat, c, WRITE; by split_and!; [|right|]|].
  destruct IH as (i&c'&event&Hi&He&Hh); [simpl in Hw; lia|]. by exists (Datatypes.S i), c', event.
Qed.
Lemma holds_waiting f s fd c event : is_event event → ctx_at s fd c → holds_fiber f (slot event c) = true →
  1 ≤ waiting f (m_fdContexts s).
Proof.
  intros He [_ Hc] Hh. pose proof (waiting_le f _ _ _ Hc) as Hw. unfold waits_in in Hw.
  destruct He as [-> | ->]; unfold slot in Hh; simpl in Hh; rewrite Hh in Hw;
    destruct (holds_fiber f (fc_read c)), (holds_fiber f (fc_write c)); simpl in Hw; lia.
Qed.

(** Steps that conserve the tokens. *)
Lemma conserved_inv s s' h i i' : io_inv 0 s' → conserves s s' → wait_inv (mkWaits s h i) → wait_inv (mkWaits s' h i').
Proof.
  intros Hi (_&Ht&Hn) [_ Htok Hpl]. split; simpl in *; [done|intros f; by rewrite Ht|].
  intros f fd c event He Hc Hh. destruct (Hn f fd c event He Hc Hh) as (c0&Hc0&Hh0). by apply (Hpl f fd c0).
Qed.

Lemma taken_inv t s s' : io_inv 0 s → taken t s s' → io_inv 0 s' ∧
  (∀ f, tokens f s' = tokens f s - Z.b2z (for_fiber f t)) ∧ m_fdContexts s' = m_fdContexts s.
Proof.
  intros Hi (m&id&l1&l2&->&Hl&Hid&Hq&Hq'&Hj). split; [by apply set_scheds_inv|]. split; [|done].
  intros f. unfold tokens. cbn [m_fdContexts set_scheds]. enough (queued f (set_scheds m s) = queued f s - Z.b2z (for_fiber f t)) by lia.
  unfold queued. cbn [io_scheds set_scheds]. rewrite (same_live_dom _ _ Hl).
  rewrite (queued_in_change f (sched_tasks s) (sched_tasks (set_scheds m s)) _ id (- Z.b2z (for_fiber f t)));
    [lia|apply NoDup_elements|by apply elem_of_elements, elem_of_dom|].
  intros j. case_bool_decide as Hjd; [|by rewrite Hj, Z.add_0_r by done]. subst j.
  rewrite Hq, Hq', !places_app, places_cons. lia.
Qed.

Lemma queue_inv s id fc s' : io_inv 0 s → is_Some (io_scheds s !! id) → on_sched id (sch_schedule fc) s = Ret tt s' →
  io_inv 0 s' ∧ (∀ f, tokens f s' = tokens f s + places f (tasks_of fc)) ∧ m_fdContexts s' = m_fdContexts s.
Proof.
  intros Hi Hid Hr. destruct (on_sched_schedule s id fc Hid) as (m&Hm&Hl&Ht). rewrite Hr in Hm. injection Hm as ->.
  split; [by apply set_scheds_inv|]. split; [|done]. intros f. unfold tokens. cbn [m_fdContexts set_scheds].
  rewrite (queued_change f s (set_scheds m s) id _ Hl Hid Ht). lia.
Qed.

Lemma initial_inv w : initial w → wait_inv w.
Proof.
  intros (now&this_&scheds&Hthis&Hnil&->). split; cbn [w_io w_held].
  - by apply new_IOManager_inv.
  - intros f. rewrite lookup_empty, decide_False by (by intros [? ?]). unfold tokens. cbn [m_fdContexts new_IOManager].
    rewrite waiting_new. unfold queued. rewrite (queued_in_same f (λ _, []) _ (elements (dom (io_scheds (new_IOManager now this_ scheds))))).
    { generalize (elements (dom (io_scheds (new_IOManager now this_ scheds)))) as l. induction l as [|x l IH]; [done|exact IH]. }
    intros j _. unfold sched_tasks. cbn [io_scheds new_IOManager]. destruct (scheds !! j) as [c|] eqn:Hc; [|done]. by rewrite (Hnil j c).
  - intros f fd c event He [_ Hc] Hh. cbn [m_fdContexts new_IOManager] in Hc. apply list_lookup_fmap_Some in Hc as (j&->&_).
    by rewrite holds_new in Hh.
Qed.

Lemma timeout_conserves s info fd event rt v s' : io_inv 0 s → 0 ≤ fd → is_event event →
  timeout_callback info fd event rt s = Ret v s' → conserves s s' ∧ io_inv 0 s'.
Proof.
  intros Hi Hfd He. assert (conserves s s ∧ io_inv 0 s) as Hid by (split; [by apply conserves_same|done]).
  unfold timeout_callback. destruct info as [c|]; [|by intros [= _ <-]].
  destruct (c =? 0); cbn [negb]; [|by intros [= _ <-]]. intros (b&s1&Hc&[= _ <-])%bind_Ret_inv.
  split; [by eapply cancelEvent_conserves|].
  destruct (io_exec_ok s (CancelEvent fd event rt) Hi (conj Hfd He)) as (s2&Hr&Hi2). cbn [io_exec] in Hr.
  rewrite (bind_ret _ _ _ _ _ Hc) in Hr. by injection Hr as <-.
Qed.

Lemma exec_keeps s o s' : io_inv 0 s → io_allowed s o → io_exec o s = Ret tt s' → io_inv 0 s'.
Proof. intros Hi Ha Hr. destruct (io_exec_ok s o Hi Ha) as (s1&Hr1&Hi1). rewrite Hr in Hr1. by injection Hr1 as ->. Qed.

(** The steps that make a token or use one up. *)
Lemma block_inv s h i f fd event rt sid r s' : wait_inv (mkWaits s h i) → h !! f = None →
  io_allowed s (AddEvent fd event None rt sid f) → addEvent fd event None rt (Some sid) f true s = Ret r s' →
  wait_inv (mkWaits s' (if r =? 0 then <[f := Some (fd, event)]> h else h) i).
Proof.
  intros [Hi Htok Hpl] Hf Ha Hr. cbn [w_io w_held] in *.
  destruct (addEvent_tokens s fd event None rt sid f Hi Ha) as (s1&Hr1&Hi1&_&Htok1&Hnew).
  rewrite Hr in Hr1. injection Hr1 as -> <-. split; cbn [w_io w_held]; [done| |].
  - intros g. rewrite Htok1, Htok. destruct (rt =? 0) eqn:Ert; cbn [Z.eqb]; [|by rewrite Z.add_0_r].
    case_bool_decide as Hg.
    + subst g. rewrite lookup_insert_eq, Hf, decide_False, decide_True by (by (intros [? ?]) || by eexists). done.
    + rewrite lookup_insert_ne by done. by rewrite Z.add_0_r.
  - intros g fd' c event' He' Hc' Hh'. destruct (Hnew g fd' c event' He' Hc' Hh') as [(c0&Hc0&Hh0)|(->&_&->&->&->)].
    + pose proof (Hpl g fd' c0 event' He' Hc0 Hh0) as Hg. destruct (rt =? 0); cbn [Z.eqb]; [|done].
      rewrite lookup_insert_ne; [done|]. by intros ->; congruence.
    + cbn [Z.eqb]. by rewrite lookup_insert_eq.
Qed.

Lemma watch_inv s h i f fd event cb rt sid r s' : wait_inv (mkWaits s h i) →
  io_allowed s (AddEvent fd event (Some cb) rt sid f) → addEvent fd event (Some cb) rt (Some sid) f true s = Ret r s' →
  wait_inv (mkWaits s' h i).
Proof.
  intros [Hi Htok Hpl] Ha Hr. cbn [w_io w_held] in *.
  destruct (addEvent_tokens s fd event (Some cb) rt sid f Hi Ha) as (s1&Hr1&Hi1&_&Htok1&Hnew).
  rewrite Hr in Hr1. injection Hr1 as -> <-. split; cbn [w_io w_held]; [done| |].
  - intros g. rewrite Htok1, Htok. destruct (rt =? 0); by rewrite Z.add_0_r.
  - intros g fd' c event' He' Hc' Hh'. destruct (Hnew g fd' c event' He' Hc' Hh') as [(c0&Hc0&Hh0)|(_&[=]&_)].
    by apply (Hpl g fd' c0).
Qed.

Lemma schedule_fiber_inv s h i f id s' : wait_inv (mkWaits s h i) → h !! f = None → is_Some (io_scheds s !! id) →
  on_sched id (sch_schedule (FFiber (Some f))) s = Ret tt s' → wait_inv (mkWaits s' (<[f := None]> h) i).
Proof.
  intros [Hi Htok Hpl] Hf Hid Hr. cbn [w_io w_held] in *.
  destruct (queue_inv s id (FFiber (Some f)) s' Hi Hid Hr) as (Hi'&Ht&Hctx). split; cbn [w_io w_held]; [done| |].
  - intros g. rewrite Ht, Htok, places_fiber. case_bool_decide as Hg.
    + subst g. rewrite lookup_insert_eq, Hf, decide_False, decide_True by (by (intros [? ?]) || by eexists). done.
    + rewrite lookup_insert_ne by done. by rewrite Z.add_0_r.
  - intros g fd c event He [Hfd Hc] Hh. rewrite Hctx in Hc. pose proof (Hpl g fd c event He (conj Hfd Hc) Hh) as Hg.
    rewrite lookup_insert_ne; [done|]. by intros ->; congruence.
Qed.

Lemma post_inv s h i c id s' : wait_inv (mkWaits s h i) → is_Some (io_scheds s !! id) →
  on_sched id (sch_schedule (FCb c)) s = Ret tt s' → wait_inv (mkWaits s' h i).
Proof.
  intros [Hi Htok Hpl] Hid Hr. cbn [w_io w_held] in *.
  destruct (queue_inv s id (FCb c) s' Hi Hid Hr) as (Hi'&Ht&Hctx). split; cbn [w_io w_held]; [done| |].
  - intros g. rewrite Ht, Htok, places_cb. lia.
  - intros g fd c' event He [Hfd Hc] Hh. rewrite Hctx in Hc. by apply (Hpl g fd c').
Qed.

Lemma resume_inv s h i f thr s' : wait_inv (mkWaits s h i) → taken (Task (Some f) None thr) s s' →
  wait_inv (mkWaits s' (delete f h) i).
Proof.
  intros [Hi Htok Hpl] Ht. cbn [w_io w_held] in *.
  destruct (taken_inv _ s s' Hi Ht) as (Hi'&Ht'&Hctx). unfold for_fiber in Ht'. cbn [ft_fiber] in Ht'.
  pose proof (waiting_nonneg f (m_fdContexts s')) as Hwn.
  pose proof (queued_in_nonneg f (sched_tasks s') (elements (dom (io_scheds s')))) as Hqn. fold (queued f s') in Hqn.
  assert (tokens f s' = 0) as Hzero.
  { pose proof (Ht' f) as Hz. rewrite Htok, bool_decide_eq_true_2 in Hz by done. unfold tokens in *.
    destruct (decide (is_Some (h !! f))); simpl in Hz; lia. }
  split; cbn [w_io w_held]; [done| |].
  - intros g. destruct (decide (g = f)) as [->|Hne].
    + rewrite lookup_delete_eq, decide_False by (by intros [? ?]). done.
    + rewrite lookup_delete_ne by done. rewrite Ht', Htok, bool_decide_eq_false_2 by congruence. simpl. lia.
  - intros g fd c event He Hc Hh. destruct (decide (g = f)) as [->|Hne].
    + pose proof (holds_waiting f s' fd c event He Hc Hh). unfold tokens in Hzero. lia.
    + rewrite lookup_delete_ne by done. destruct Hc as [Hfd Hc]. rewrite Hctx in Hc. by apply (Hpl g fd c).
Qed.

Lemma run_inv s h i c thr s' : wait_inv (mkWaits s h i) → taken (Task None (Some c) thr) s s' → wait_inv (mkWaits s' h i).
Proof.
  intros [Hi Htok Hpl] Ht. cbn [w_io w_held] in *. destruct (taken_inv _ s s' Hi Ht) as (Hi'&Ht'&Hctx).
  split; cbn [w_io w_held]; [done| |].
  - intros g. rewrite Ht', Htok. unfold for_fiber. cbn [ft_fiber]. rewrite bool_decide_eq_false_2 by done. simpl. lia.
  - intros g fd c' event He [Hfd Hc] Hh. rewrite Hctx in Hc. by apply (Hpl g fd c').
Qed.

Lemma step_inv w w' : wait_inv w → step w w' → wait_inv w'.
Proof.
  intros Hw Hst. pose proof (winv_io _ Hw) as Hi.
  destruct Hst as [s h i f fd event rt sid r s' Hf Ha Hr|s h i f fd event cb rt sid r s' Ha Hr
    |s h i func_of now now2 a0 ew b s' Hrep Hr|s h i fd rt b s' Hfd Hr|s h i a Hn
    |s h i a fd event rt v s' Hfd He Hr|s h i a|s h i f id s' Hf Hid Hr|s h i c id s' Hid Hr
    |s h i f thr s' Ht|s h i c thr s' Ht]; cbn [w_io] in *.
  - by eapply block_inv.
  - by eapply watch_inv.
  - eapply conserved_inv; [|by eapply idle_round_conserves|exact Hw].
    apply (exec_keeps s (IdleRound func_of now now2 a0 ew)); [done|done|]. cbn [io_exec]. by mstep Hr.
  - eapply conserved_inv; [|by eapply cancelAll_conserves|exact Hw].
    apply (exec_keeps s (CancelAll fd rt)); [done|done|]. cbn [io_exec]. by mstep Hr.
  - by destruct Hw.
  - destruct (timeout_conserves s (i !! a) fd event rt v s' Hi Hfd He Hr) as [Hc Hi']. by apply (conserved_inv s s' h i).
  - by destruct Hw.
  - by eapply schedule_fiber_inv.
  - by eapply post_inv.
  - by eapply resume_inv.
  - by eapply run_inv.
Qed.

Lemma waits_inv w : reachable w → wait_inv w.
Proof.
  intros (w0&Hw0&Hs). apply initial_inv in Hw0. induction Hs as [w|w w1 w2 Hst _ IH]; [done|].
  apply IH. by apply (step_inv w).
Qed.

(** Where the token of a fiber is. *)
Lemma token_place w f x : wait_inv w → w_held w !! f = Some x →
  queued f (w_io w) = 1 ∧ waiting f (m_fdContexts (w_io w)) = 0 ∨
  queued f (w_io w) = 0 ∧ waiting f (m_fdContexts (w_io w)) = 1 ∧
    ∃ fd event c, x = Some (fd, event) ∧ is_event event ∧ ctx_at (w_io w) fd c ∧ holds_fiber f (slot event c) = true.
Proof.
  intros [_ Htok Hpl] Hx. pose proof (Htok f) as Ht. rewrite Hx, decide_True in Ht by (by eexists). unfold tokens in Ht.
  pose proof (waiting_nonneg f (m_fdContexts (w_io w))). pose proof (queued_in_nonneg f (sched_tasks (w_io w)) (elements (dom (io_scheds (w_io w))))) as Hq.
  fold (queued f (w_io w)) in Hq. destruct (decide (waiting f (m_fdContexts (w_io w)) = 0)) as [Hz|Hz]; [left; lia|right].
  split; [lia|]. split; [lia|]. destruct (waiting_holds f (m_fdContexts (w_io w))) as (i&c&event&Hi&He&Hh); [lia|].
  assert (ctx_at (w_io w) (Z.of_nat i) c) as Hc by (split; [lia|by rewrite Nat2Z.id]).
  exists (Z.of_nat i), event, c. pose proof (Hpl f (Z.of_nat i) c event He Hc Hh) as Hp. split; [congruence|done].
Qed.

(** A registered fiber is woken by [cancelEvent]. *)
Lemma cancel_wakes s f fd event c : io_inv 0 s → is_event event → ctx_at s fd c → holds_fiber f (slot event c) = true →
  ∃ s', cancelEvent fd event 0 s = Ret true s' ∧ queued f s' = queued f s + 1 ∧ tokens f s' = tokens f s.
Proof.
  intros Hi He Hc Hh. destruct (cancelEvent_ok s fd event 0 c Hi Hc He) as (s'&Hr&_&Hf).
  assert (has event c = true) as Hhas.
  { destruct (ctx_at_ok _ _ _ _ Hi Hc) as (_&_&H3&H4). unfold slot_ok in H3, H4.
    destruct (has event c) eqn:Eh; [done|]. destruct He as [-> | ->]; rewrite Eh in *; unfold slot in Hh; simpl in Hh.
    - by rewrite H3 in Hh.
    - by rewrite H4 in Hh. }
  rewrite Hhas in Hr, Hf. cbn [andb Z.eqb] in Hr, Hf. destruct (fires_conserves fd event c s s' Hi Hc He Hhas Hf) as [(_&Ht&_) Hq].
  exists s'. split; [done|]. split; [by rewrite Hq, Hh|apply Ht].
Qed.

End system.

(** ** Examples *)

(** Fiber 5 blocks on descriptor 40; its call times out. *)
Definition ex_w0 : waits := mkWaits ex_io0 ∅ ∅.
Definition ex_blocked : io sched :=
  match addEvent 40 READ None 0 (Some 1) 5 true ex_io0 with Ret _ s => s | _ => ex_io0 end.
Definition ex_w2 : waits := mkWaits ex_blocked (<[5 := Some (40, READ)]> ∅) (<[9 := 0]> ∅).

Lemma ex_w2_reachable : reachable ex_w2.
Proof.
  exists ex_w0. split.
  - exists 0, 1, ex_scheds. split; [by eexists|]. split; [|done]. intros id c Hc.
    unfold ex_scheds in Hc. apply lookup_insert_Some in Hc as [[<- <-]|[_ Hc]]; [by vm_compute|]. by rewrite lookup_empty in Hc.
  - eapply rtc_l; [apply (step_call ex_io0 ∅ ∅ 9); by vm_compute|].
    eapply rtc_l; [|apply rtc_refl]. apply (step_block ex_io0 ∅ _ 5 40 READ 0 1 0 ex_blocked); [done|apply ex_add_allowed|by vm_compute].
Qed.


(** [delEvent] takes the registration away without waking the fiber: the hooks do not
    use it. *)
Example delEvent_loses_the_fiber :
  match delEvent 40 READ 0 ex_blocked with
  | Ret b s' => b = true ∧ queued 5 s' = 0 ∧ waiting 5 (m_fdContexts s') = 0
  | _ => False
  end.
Proof. by vm_compute. Qed.

(** When [epoll_ctl] fails, the callback of the timer marks the call as timed out and leaves
    its fiber registered: without another event it waits on. *)
Example timeout_without_wakeup :
  match timeout_callback (Some 0) 40 READ (-1) ex_blocked with
  | Ret v s' => v = Some ETIMEDOUT ∧ s' = ex_blocked
  | _ => False
  end.
Proof. by vm_compute. Qed.
