(* ===== verification/IOLife.v ===== *)
(** * The life of an I/O manager (megalo/iomanager.cc, scheduler.cc)

    The constructor, which opens an epoll descriptor and a pipe and starts the
    threads; the run of the threads with [IOManager::idle] in the place of
    [Scheduler::idle]; [stop] with the virtual functions of the derived class;
    the destructor.  What the process has open is part of the state. *)
From S2P Require Import Prelude Timer Fiber Scheduler IOManager.
From stdpp Require Import gmap.
#[local] Open Scope Z_scope.

(** ** Descriptors *)

Definition EPOLLET : Z := 2 ^ 31.

(** Open descriptors, those set non-blocking, and what each epoll descriptor
    watches: a descriptor and a mask. *)
Record kernel := mkKernel {
  k_open : gset Z;
  k_nonblock : gset Z;
  k_watched : gmap (Z * Z) Z
}.
Definition opened (fds : gset Z) (k : kernel) : kernel :=
  mkKernel (fds ∪ k_open k) (k_nonblock k ∖ fds) (k_watched k).
Definition close_f (fd : Z) (k : kernel) : kernel :=
  mkKernel (k_open k ∖ {[fd]}) (k_nonblock k ∖ {[fd]})
    (filter (λ x, x.1.1 ≠ fd ∧ x.1.2 ≠ fd) (k_watched k)).

(** ** The object *)

Record life := mkLife {
  l_io : io sched;
  m_epfd : Z;
  m_tickleFds : Z * Z;
  l_kernel : kernel
}.
Definition on_io {A} (m : M (io sched) A) : M life A := λ s,
  match m (l_io s) with
  | Ret a i => Ret a (mkLife i (m_epfd s) (m_tickleFds s) (l_kernel s))
  | Throw e i => Throw e (mkLife i (m_epfd s) (m_tickleFds s) (l_kernel s))
  | Crash f => Crash f
  end.
Definition on_kernel (f : kernel → kernel) : M life () :=
  modify (λ s, mkLife (l_io s) (m_epfd s) (m_tickleFds s) (f (l_kernel s))).

(** A call of a method of the base class on this object. *)
Definition on_this {A} (m : M sched A) : M (io sched) A := this_ ← gets io_this; on_sched this_ m.

(** [IOManager::IOManager] after the constructor of [Scheduler] made the
    scheduler at [this_]: the results of [epoll_create], [pipe] (and the two
    descriptors it gives), [fcntl] and [epoll_ctl]; [new_tid] names the threads
    [start] makes. *)
Definition construct (now this_ : Z) (scheds : gmap Z sched) (epfd rt_pipe p0 p1 rt_fcntl rt_ctl : Z)
    (new_tid : nat → Z) : M kernel life :=
  massert (0 <? epfd);;
  modify (opened {[epfd]});;
  massert (rt_pipe =? 0);;
  modify (opened {[p0; p1]});;
  massert (rt_fcntl =? 0);;
  modify (λ k, mkKernel (k_open k) ({[p0]} ∪ k_nonblock k) (k_watched k));;
  massert (rt_ctl =? 0);;
  modify (λ k, mkKernel (k_open k) (k_nonblock k) (<[(epfd, p0) := Z.lor EPOLLIN EPOLLET]> (k_watched k)));;
  k ← gets id;
  match on_this (start new_tid) (new_IOManager now this_ scheds) with
  | Ret _ s => mret (mkLife s epfd (p0, p1) k)
  | Throw e _ => throw e
  | Crash f => crash f
  end.

(** [stop]: a round of [stopping] at [now], and [rt] the result of the writes
    of [tickle]. *)
Definition stop (now rt : Z) (is_this : bool) : M (io sched) () :=
  virtual_stop (λ A, on_this) (IOManager.tickle rt) (IOManager.stopping now) is_this.

(** A round of [IOManager::idle] by worker [i]: at its end the fiber returns, or
    is switched out in the state it runs in. *)
Definition idle_turn (i : nat) (func_of : callback → func) (now now2 : Z) (a0 : addr)
    (epoll_wait : Z → list (option (Z * Z * Z))) : M (io sched) bool :=
  b ← idle_round func_of now now2 a0 epoll_wait;
  on_this (if (b : bool) then run_leave i KIdle (Ends Returned) else goto i (PLeaving KIdle));;
  mret b.

(** [delete m_fdContexts[i]] for all contexts. *)
Definition delete_contexts : M (io sched) () := modify (set_ctxs []).

(** The destructor after [stop]: [false] when a thread has not left [run], so
    that the joins at the end of [stop] do not return. *)
Definition delete_IOManager : M life bool :=
  joined ← on_io (on_this stop_join);
  if negb joined then mret false else
  e ← gets m_epfd;
  on_kernel (close_f e);;
  p ← gets m_tickleFds;
  on_kernel (close_f p.1);;
  on_kernel (close_f p.2);;
  on_io delete_contexts;;
  on_io (on_this delete_Scheduler);;
  mret true.

(** ** Runs *)

(** The events of a scheduler that the derived class leaves as they are, once
    it is started. *)
Definition inherited (e : event) : bool :=
  match e with EvStart _ | EvStop _ | EvJoin | EvIdle _ => false | _ => true end.

Definition pc_of (i : nat) (s : io sched) : option pc := io_scheds s !! io_this s ≫= at_pc i.

Section runs.
Context (g : Z).

Inductive io_turn : io sched → io sched → Prop :=
  (** A fiber or a thread outside calls the manager. *)
  | turn_call s o s' : match o with IdleRound _ _ _ _ _ => False | _ => True end →
      io_allowed s o → io_exec o s = Ret tt s' → io_turn s s'
  (** A scheduler moves: this one in what [IOManager] inherits, another in anything. *)
  | turn_sched s id e c c' : (id = io_this s → inherited e = true) → io_scheds s !! id = Some c →
      exec g e c = Some (Ret tt c') → io_turn s (set_scheds (<[id := c']> (io_scheds s)) s)
  (** A round of [idle]. *)
  | turn_idle s i func_of now now2 a0 epoll_wait b s' : pc_of i s = Some (PRun KIdle) →
      (∀ t, reported s (epoll_wait t)) → idle_turn i func_of now now2 a0 epoll_wait s = Ret b s' → io_turn s s'.

(** The process may open and close other descriptors. *)
Inductive life_step : life → life → Prop :=
  | step_io s i : io_turn (l_io s) i → life_step s (mkLife i (m_epfd s) (m_tickleFds s) (l_kernel s))
  | step_kernel s k : {[m_epfd s; (m_tickleFds s).1; (m_tickleFds s).2]} ⊆ k_open k →
      life_step s (mkLife (l_io s) (m_epfd s) (m_tickleFds s) k).

(** From the constructor; [true] when [stop], which is called outside [run],
    has come to its joins. *)
Inductive life_reachable : bool → life → Prop :=
  | life_start now this_ scheds epfd rt_pipe p0 p1 rt_fcntl rt_ctl new_tid k s k' :
      is_Some (scheds !! this_) → (∀ id c, scheds !! id = Some c → reachable g c) →
      construct now this_ scheds epfd rt_pipe p0 p1 rt_fcntl rt_ctl new_tid k = Ret s k' →
      life_reachable false s
  | life_next b s s' : life_reachable b s → life_step s s' → life_reachable b s'
  | life_stop b s now rt is_this i : life_reachable b s → pc_of 0 (l_io s) = Some PExit →
      stop now rt is_this (l_io s) = Ret tt i →
      life_reachable true (mkLife i (m_epfd s) (m_tickleFds s) (l_kernel s)).
End runs.

(** ** What operations of the manager keep of the schedulers *)

Section spares.
Context {S : Type} `{SchedulerLaws S} (P : Z → S → Prop).
Context (P_schedule : ∀ fc id c u c', P id c → sch_schedule fc c = Ret u c' → P id c')
  (P_range : ∀ l id c u c', P id c → sch_schedule_range l c = Ret u c' → P id c').
Implicit Types s : io S.

Definition all s : Prop := ∀ id c, io_scheds s !! id = Some c → P id c.
Definition spares {A} (m : M (io S) A) : Prop :=
  ∀ s a s', m s = Ret a s' → all s → all s' ∧ io_this s' = io_this s.

Lemma spares_pure {A} (m : M (io S) A) :
  (∀ s a s', m s = Ret a s' → io_scheds s' = io_scheds s ∧ io_this s' = io_this s) → spares m.
Proof. intros Hm s a s' Hr Ha. destruct (Hm _ _ _ Hr) as [E1 E2]. split; [|done]. unfold all. by rewrite E1. Qed.
Lemma spares_ret {A} (a : A) : spares (mret a).
Proof. apply spares_pure. by intros s b s' [= _ <-]. Qed.
Lemma spares_gets {A} (f : io S → A) : spares (gets f).
Proof. apply spares_pure. by intros s b s' [= _ <-]. Qed.
Lemma spares_bind {A B} (m : M (io S) A) (k : A → M (io S) B) :
  spares m → (∀ a, spares (k a)) → spares (m ≫= k).
Proof.
  intros Hm Hk s b s' (a&s1&H1&H2)%bind_Ret_inv Ha. destruct (Hm _ _ _ H1 Ha) as [Ha1 E1].
  destruct (Hk a _ _ _ H2 Ha1) as [Ha2 E2]. split; [done|congruence].
Qed.
Lemma spares_massert b : spares (massert b).
Proof. apply spares_pure. destruct b; intros s a s'; [by intros [= _ <-]|done]. Qed.
Lemma spares_crash {A} f : spares (crash (A := A) f).
Proof. by intros s a s' ?. Qed.
Lemma spares_deref {A} (o : option A) : spares (deref o).
Proof. destruct o; [apply spares_ret|by intros s a s' ?]. Qed.
Lemma spares_get_ctx fd : spares (get_ctx fd).
Proof. apply spares_pure. intros s c s'. unfold get_ctx. destruct (if 0 <=? fd then _ else _); by intros [= _ <-]. Qed.
Lemma spares_put_ctx fd c : spares (put_ctx fd c).
Proof. apply spares_pure. by intros s a s' [= _ <-]. Qed.
Lemma spares_set_pending f : spares (modify (λ s, set_pending (f s) s)).
Proof. apply spares_pure. by intros s a s' [= _ <-]. Qed.
Lemma spares_set_ctxs f : spares (modify (λ s, set_ctxs (f s) s)).
Proof. apply spares_pure. by intros s a s' [= _ <-]. Qed.
Lemma spares_on_timers {A} (m : M TimerManager A) : spares (on_timers m).
Proof. apply spares_pure. intros s a s'. unfold on_timers. destruct (m _); [|done..]. by intros [= _ <-]. Qed.
Lemma spares_if {A} (b : bool) (m m' : M (io S) A) : spares m → spares m' → spares (if b then m else m').
Proof. by destruct b. Qed.

Lemma spares_on_sched {A} id (m : M S A) :
  (∀ c a c', P id c → m c = Ret a c' → P id c') → spares (on_sched id m).
Proof.
  intros Hm s a s'. unfold on_sched. destruct (io_scheds s !! id) as [c|] eqn:Hc; [|done].
  destruct (m c) as [a1 c1| |] eqn:Hr; [|done..]. intros [= _ <-] Ha. split; [|done].
  intros j d Hj. simpl in Hj. destruct (decide (j = id)) as [->|Hne].
  - rewrite lookup_insert_eq in Hj. injection Hj as <-. eapply Hm; [by apply Ha|exact Hr].
  - rewrite lookup_insert_ne in Hj by done. by apply Ha.
Qed.
Lemma spares_hasIdle id : spares (on_sched id sch_hasIdleThread).
Proof.
  apply spares_on_sched. intros c a c' Hp Hr. destruct (law_hasIdleThread c) as [b Hb]. rewrite Hb in Hr.
  by injection Hr as _ <-.
Qed.
Lemma spares_sch_stopping id : spares (on_sched id sch_stopping).
Proof.
  apply spares_on_sched. intros c a c' Hp Hr. destruct (law_stopping c) as (b&Hb&_). rewrite Hb in Hr.
  by injection Hr as _ <-.
Qed.
Lemma spares_schedule id fc : spares (on_sched id (sch_schedule fc)).
Proof. apply spares_on_sched. intros c a c'. apply P_schedule. Qed.
Lemma spares_range id l : spares (on_sched id (sch_schedule_range l)).
Proof. apply spares_on_sched. intros c a c'. apply P_range. Qed.

(** An operation made of these: through its binds and its case distinctions. *)
Ltac spares := repeat first
  [ apply spares_ret | apply spares_gets | apply spares_massert | apply spares_crash | apply spares_deref
  | apply spares_get_ctx | apply spares_put_ctx | apply spares_set_pending | apply spares_set_ctxs
  | apply spares_on_timers | apply spares_hasIdle | apply spares_sch_stopping | apply spares_schedule
  | apply spares_range | apply spares_bind; [|intros ?] | apply spares_if | done
  | match goal with |- spares (match ?o with _ => _ end) => destruct o end ].

Lemma spares_triggerEvent fd event : spares (triggerEvent fd event).
Proof. unfold triggerEvent, getContext. spares. Qed.
Lemma spares_trigger_if fd event mask : spares (trigger_if fd event mask).
Proof. unfold trigger_if, dec_pending. spares. Qed.
Lemma spares_handle_events l : spares (handle_events l).
Proof.
  induction l as [|[[[fd revents] rt2]|] l IH]; simpl; [apply spares_ret| |done].
  apply spares_bind; [|done]. unfold handle_event. spares.
Qed.
Lemma spares_tickle rt : spares (IOManager.tickle rt).
Proof. unfold IOManager.tickle. spares. Qed.
Lemma spares_stopping_timeout now : spares (stopping_timeout now).
Proof. unfold stopping_timeout. spares. Qed.
Lemma spares_idle_round func_of now now2 a0 epoll_wait : spares (idle_round func_of now now2 a0 epoll_wait).
Proof. unfold idle_round. spares; try apply spares_handle_events. Qed.

Lemma spares_io_exec o : spares (io_exec o).
Proof.
  destruct o as [fd event cb rt sid fiber|fd event rt|fd event rt|fd rt|func_of now now2 a0 epoll_wait]; simpl.
  - unfold addEvent, addEvent_find, contextResize, addEvent_locked, getContext. spares.
  - unfold delEvent, remove_event, dec_pending, getContext. spares.
  - unfold cancelEvent, remove_event, dec_pending. spares.
  - unfold cancelAll. spares.
  - apply spares_bind; [apply spares_idle_round|intros _; apply spares_ret].
Qed.
End spares.

(** ** What a scheduler's own events keep of [stop] *)

Definition flags (c : sched) : bool * bool := (Scheduler.m_stopping c, m_autoStop c).
Definition same_flags {A} (m : M sched A) : Prop := ∀ c a c', m c = Ret a c' → flags c' = flags c.

Lemma flags_eq c c' : flags c' = flags c →
  Scheduler.m_stopping c' = Scheduler.m_stopping c ∧ m_autoStop c' = m_autoStop c.
Proof. by intros [= -> ->]. Qed.
Lemma flags_ret {A} (a : A) : same_flags (mret a).
Proof. by intros c b c' [= _ <-]. Qed.
Lemma flags_gets {A} (f : sched → A) : same_flags (gets f).
Proof. by intros c b c' [= _ <-]. Qed.
Lemma flags_bind {A B} (m : M sched A) (k : A → M sched B) :
  same_flags m → (∀ a, same_flags (k a)) → same_flags (m ≫= k).
Proof. intros Hm Hk c b c' (a&c1&H1&H2)%bind_Ret_inv. rewrite (Hk _ _ _ _ H2). by apply (Hm _ a). Qed.
Lemma flags_massert b : same_flags (massert b).
Proof. destruct b; intros c a c'; [by intros [= _ <-]|done]. Qed.
Lemma flags_crash {A} f : same_flags (crash (A := A) f).
Proof. by intros c a c' ?. Qed.
Lemma flags_deref {A} (o : option A) : same_flags (deref o).
Proof. destruct o; [apply flags_ret|by intros c a c' ?]. Qed.
Lemma flags_lift {A} (m : M fibers A) : same_flags (lift m).
Proof. intros c a c'. unfold lift. destruct (m _); [|done..]. by intros [= _ <-]. Qed.
Lemma flags_get_worker i : same_flags (get_worker i).
Proof. intros c a c'. by intros [_ ->]%get_worker_inv. Qed.
Lemma flags_modify f : (∀ c, flags (f c) = flags c) → same_flags (modify f).
Proof. intros Hf c a c' [= _ <-]. apply Hf. Qed.

Ltac flags := repeat first
  [ apply flags_ret | apply flags_gets | apply flags_massert | apply flags_crash | apply flags_deref
  | apply flags_lift | apply flags_get_worker | apply flags_modify; by intros ?
  | apply flags_bind; [|intros ?]
  | match goal with |- same_flags (match ?o with _ => _ end) => destruct o end ].

Lemma flags_schedule fc t : same_flags (schedule fc t).
Proof. unfold schedule, scheduleNoLock. flags. Qed.
Lemma flags_range l t : same_flags (schedule_range l t).
Proof.
  assert (∀ b, same_flags (schedule_loop l t b)) as Hl.
  { induction l as [|fc l IH]; intros b; simpl; [flags|]. unfold scheduleNoLock. flags. apply IH. }
  unfold schedule_range. apply flags_bind; [apply Hl|]. intros b. flags.
Qed.

(** By the operation that ran. *)
Lemma flags_run {A} (m : M sched A) c a c' : m c = Ret a c' → same_flags m → flags c' = flags c.
Proof. intros Hr Hm. by eapply Hm. Qed.
Ltac flags_by H := (apply (inj Some) in H); refine (flags_run _ _ _ _ H _);
  unfold run_enter, run_take, run_leave, set_cb_fiber, goto, put_worker.

Lemma inherited_flags g e c c' : inherited e = true → exec g e c = Some (Ret tt c') → flags c' = flags c.
Proof.
  intros He H. destruct e as [fc t|l t|nt|b| |i|i|i|i l|i|i|i]; try done; unfold exec in H; cbv beta iota in H.
  - flags_by H. apply flags_schedule.
  - flags_by H. apply flags_bind; [apply flags_range|]. intros r. flags.
  - destruct (m_workers c !! i) as [[tid [] idl cb]|]; try done. flags_by H. flags.
  - destruct (at_pc i c) as [[]|]; try done. flags_by H. flags.
  - destruct (at_pc i c) as [[]|]; try done. flags_by H. unfold run_dispatch, tickle, set_cb_fiber, goto, put_worker. flags.
  - destruct (at_pc i c) as [[| | |[]| | |]|]; try done; flags_by H; flags.
  - destruct (at_pc i c) as [[| | | |k| |]|]; try done. flags_by H. destruct k; unfold run_back, goto, put_worker; flags.
  - destruct (at_pc i c) as [[| | | | |k|]|]; try done. flags_by H.
    destruct k; unfold run_after, schedule, scheduleNoLock, set_cb_fiber, goto, put_worker; flags.
Qed.

(** ** The invariant *)

Section life_invariant.
Context (g : Z).

(** The schedulers are sound; when [b], this one was told to stop. *)
Definition sound (b : bool) (this_ id : Z) (c : sched) : Prop :=
  inv c ∧ (id = this_ → b = true → flags c = (true, true)).
Definition io_ok (b : bool) (s : io sched) : Prop := io_inv 0 s ∧ all (sound b (io_this s)) s.
Definition own (s : life) : gset Z := {[m_epfd s; (m_tickleFds s).1; (m_tickleFds s).2]}.
Definition life_ok (b : bool) (s : life) : Prop := io_ok b (l_io s) ∧ own s ⊆ k_open (l_kernel s).

(** A scheduler that changes in its place. *)
Lemma all_insert (P : Z → sched → Prop) s id c' :
  (∀ j d, j ≠ id → io_scheds s !! j = Some d → P j d) → P id c' → all P (set_scheds (<[id := c']> (io_scheds s)) s).
Proof.
  intros Ha Hp j d Hj. simpl in Hj. destruct (decide (j = id)) as [->|Hne].
  - rewrite lookup_insert_eq in Hj. by injection Hj as <-.
  - rewrite lookup_insert_ne in Hj by done. by apply Ha.
Qed.
Lemma live_insert (s : io sched) id c c' : io_scheds s !! id = Some c →
  same_live (io_scheds s) (<[id := c']> (io_scheds s)).
Proof.
  intros Hc j. destruct (decide (j = id)) as [->|Hne].
  - rewrite lookup_insert_eq, Hc. split; by eexists.
  - by rewrite lookup_insert_ne.
Qed.
Lemma on_this_inv {A} (m : M sched A) s a s' : on_this m s = Ret a s' →
  ∃ c c', io_scheds s !! io_this s = Some c ∧ m c = Ret a c' ∧
    s' = set_scheds (<[io_this s := c']> (io_scheds s)) s.
Proof.
  unfold on_this. rewrite bind_gets. unfold on_sched.
  destruct (io_scheds s !! io_this s) as [c|]; [|done]. destruct (m c) as [b c'| |] eqn:Hm; [|done..].
  intros [= -> <-]. by exists c, c'.
Qed.
Lemma this_changes (b b' : bool) s c c' : io_ok b s → io_scheds s !! io_this s = Some c → inv c' →
  (b' = true → flags c' = (true, true)) → io_ok b' (set_scheds (<[io_this s := c']> (io_scheds s)) s).
Proof.
  intros [Hi Ha] Hc Hinv Hf. split; [apply set_scheds_inv; [done|by eapply live_insert]|].
  apply all_insert; [|by split]. intros j d Hne Hj. by destruct (Ha j d Hj).
Qed.

(** What [spares] asks of a predicate: [schedule] keeps it. *)
Definition steady (P : Z → sched → Prop) : Prop :=
  (∀ fc id c u c', P id c → sch_schedule fc c = Ret u c' → P id c') ∧
  (∀ l id c u c', P id c → sch_schedule_range l c = Ret u c' → P id c').

(** At worker [i] of this scheduler the program counter is [p]. *)
Definition sound_at (b : bool) (this_ : Z) (i : nat) (p : pc) (id : Z) (c : sched) : Prop :=
  sound b this_ id c ∧ (id = this_ → at_pc i c = Some p).

Lemma range_workers l c u c' : sch_schedule_range l c = Ret u c' → inv c →
  inv c' ∧ m_workers c' = m_workers c ∧ flags c' = flags c.
Proof.
  intros (r&c1&H1&[= _ <-])%bind_Ret_inv Hc. split; [by eapply schedule_range_inv|].
  split; [|by eapply flags_range]. apply bind_Ret_inv in H1 as (x&c2&H1&H2).
  destruct (schedule_loop_inv _ _ _ _ _ _ H1 Hc) as [Hi <-].
  apply inv_frames in H2 as [_ ?]; [done|by eauto 6 with frame|done].
Qed.
Lemma sound_at_steady b this_ i p : steady (sound_at b this_ i p).
Proof.
  unfold sound_at, sound, at_pc. split; intros x id c u c' [[Hc Hf] Hp] Hr.
  - destruct (schedule_inv _ _ _ _ _ Hr Hc) as [Hi ->]. rewrite (flags_schedule _ _ _ _ _ Hr). done.
  - destruct (range_workers _ _ _ _ Hr Hc) as (Hi&->&->). done.
Qed.
Lemma sound_steady b this_ : steady (sound b this_).
Proof.
  split; intros x id c u c' [Hc Hf] Hr.
  - destruct (schedule_inv _ _ _ _ _ Hr Hc) as [Hi _]. split; [done|]. by rewrite (flags_schedule _ _ _ _ _ Hr).
  - destruct (range_workers _ _ _ _ Hr Hc) as (Hi&_&Hfl). split; [done|]. by rewrite Hfl.
Qed.

(** A worker moves between two places that count alike. *)
Lemma goto_spares_inv i p q c u c' : goto i q c = Ret u c' → at_pc i c = Some p →
  active_pc q = active_pc p → idle_pc q = idle_pc p → inv c → inv c'.
Proof.
  intros H Hp Ha Hi Hinv. destruct (goto_moved _ _ _ _ _ H) as (w&Hw&Hm&Hq&Hin&Hout).
  unfold at_pc in Hp. rewrite Hw in Hp. injection Hp as <-. pose proof Hinv as [_ _ ? ? ?].
  eapply (moved_inv i w q 0 0 c c'); rewrite ?Hq, ?Hin, ?Hout; try done; by rewrite ?Ha, ?Hi, Z.sub_diag.
Qed.

Lemma turn_ok b s s' : io_turn g s s' → io_ok b s → io_ok b s' ∧ io_this s' = io_this s.
Proof.
  intros Ht [Hi Ha]. destruct (sound_steady b (io_this s)) as [P1 P2].
  destruct Ht as [s o s' _ Hal Hr|s id e c c' He Hc Hr|s i f now now2 a0 ew r s' Hpc Hrep Hr].
  - destruct (io_exec_ok s o Hi Hal) as (s1&H1&Hi1). rewrite Hr in H1. injection H1 as <-.
    destruct (spares_io_exec (sound b (io_this s)) P1 P2 o s tt s' Hr Ha) as [Ha' Ht].
    by split; [split; [|rewrite Ht]|].
  - split; [|done]. split; [apply set_scheds_inv; [done|by eapply live_insert]|].
    destruct (Ha id c Hc) as [Hinv Hf]. apply all_insert; [by auto|]. split; [by eapply exec_inv|].
    intros Hid Hb. rewrite (inherited_flags g e c c'); auto.
  - apply bind_Ret_inv in Hr as (r1&s1&H1&H2). apply bind_Ret_inv in H2 as ([]&s2&H2&[= _ <-]).
    destruct (idle_round_ok s f now now2 a0 ew Hi Hrep) as (b2&s3&H3&Hi3&_). rewrite H1 in H3. injection H3 as _ <-.
    assert (all (sound_at b (io_this s) i (PRun KIdle)) s) as Hat.
    { intros j d Hj. split; [by apply Ha|]. intros ->. unfold pc_of in Hpc. by rewrite Hj in Hpc. }
    destruct (sound_at_steady b (io_this s) i (PRun KIdle)) as [Q1 Q2].
    destruct (spares_idle_round _ Q1 Q2 f now now2 a0 ew s r1 s1 H1 Hat) as [Hat1 Ht1].
    apply on_this_inv in H2 as (c&c'&Hc&Hl&->). split; [|done]. rewrite Ht1 in Hc.
    destruct (Hat1 _ _ Hc) as [[Hinv Hf] Hp]. specialize (Hp eq_refl).
    rewrite <- Ht1 in Hc. apply (this_changes b b s1 c c'); [|done| |].
    + split; [done|]. rewrite Ht1. intros j d Hj. by destruct (Hat1 j d Hj).
    + destruct r1; [|by eapply goto_spares_inv]. unfold at_pc in Hp.
      destruct (m_workers c !! i) as [w|] eqn:Hw; [|done]. injection Hp as Hp. by eapply run_leave_inv.
    + intros Hb. rewrite <- (Hf eq_refl Hb). revert Hl.
      match goal with |- ?m c = _ → _ => assert (same_flags m) as Hfl end.
      { unfold run_leave, goto, put_worker. destruct r1; flags. }
      apply Hfl.
Qed.
End life_invariant.

(** ** [stop] *)

Section stopping.
Context (this_ : Z).

(** A run from [I] that returns [a] ends in [J a]. *)
Definition takes {A} (I : io sched → Prop) (m : M (io sched) A) (J : A → io sched → Prop) : Prop :=
  ∀ s a s', m s = Ret a s' → I s → J a s'.
Lemma takes_bind {A B} I J K (m : M (io sched) A) (k : A → M (io sched) B) :
  takes I m J → (∀ a, takes (J a) (k a) K) → takes I (m ≫= k) K.
Proof. intros Hm Hk s b s' (a&s1&H1&H2)%bind_Ret_inv Hi. eapply Hk; [exact H2|]. by eapply Hm. Qed.
Lemma takes_ret {A} (I : io sched → Prop) (a : A) : takes I (mret a) (λ _, I).
Proof. by intros s b s' [= _ <-]. Qed.
Lemma takes_weaken {A} I (J K : A → io sched → Prop) m : takes I m J → (∀ a s, J a s → K a s) → takes I m K.
Proof. intros Hm Hk s a s' Hr Hi. by eapply Hk, Hm. Qed.

(** Before the switch to the root fiber: what was set so far. *)
Definition at_stage (st auto : bool) (id : Z) (c : sched) : Prop :=
  inv c ∧ (id = this_ → at_pc 0 c = Some PExit ∧ (auto = true → m_autoStop c = true) ∧
                        (st = true → Scheduler.m_stopping c = true)).
Definition stage (st auto : bool) (s : io sched) : Prop :=
  io_inv 0 s ∧ io_this s = this_ ∧ all (at_stage st auto) s.

Lemma takes_on_this {A} (m : M sched A) st auto st' auto' :
  frames m → (∀ c a c', m c = Ret a c' → at_stage st auto this_ c →
    (auto' = true → m_autoStop c' = true) ∧ (st' = true → Scheduler.m_stopping c' = true)) →
  takes (stage st auto) (on_this m) (λ _, stage st' auto').
Proof.
  intros Hf Hm s a s' (c&c'&Hc&Hr&->)%on_this_inv (Hi&Ht&Ha). rewrite Ht in Hc.
  destruct (Ha _ _ Hc) as [Hinv Hat]. destruct (inv_frames m c a c' Hf Hr Hinv) as [Hi' Hw].
  split; [apply set_scheds_inv; [done|rewrite Ht; by eapply live_insert]|]. split; [done|].
  apply all_insert; rewrite Ht.
  - intros j d Hne Hj. by destruct (Ha j d Hj).
  - split; [done|]. intros _. unfold at_pc. rewrite Hw. destruct (Hat eq_refl) as [Hp _].
    split; [exact Hp|]. eapply Hm; [exact Hr|]. by split.
Qed.

(** An operation that changes neither. *)
Lemma takes_same {A} (m : M sched A) st auto : frames m → same_flags m →
  takes (stage st auto) (on_this m) (λ _, stage st auto).
Proof.
  intros Hf Hs. apply takes_on_this; [done|]. intros c a c' Hr [_ Hat]. destruct (Hat eq_refl) as (_&H1&H2).
  destruct (flags_eq _ _ (Hs _ _ _ Hr)) as [-> ->]. done.
Qed.

Lemma at_stage_steady st auto : steady (at_stage st auto).
Proof.
  unfold at_stage, at_pc. split; intros x id c u c' [Hc Hf] Hr.
  - destruct (schedule_inv _ _ _ _ _ Hr Hc) as [Hi ->]. by destruct (flags_eq _ _ (flags_schedule _ _ _ _ _ Hr)) as [-> ->].
  - destruct (range_workers _ _ _ _ Hr Hc) as (Hi&->&[-> ->]%flags_eq). done.
Qed.

Lemma takes_stopping st auto now : takes (stage st auto) (IOManager.stopping now) (λ _, stage st auto).
Proof.
  intros s b s' Hr (Hi&Ht&Ha). unfold IOManager.stopping in Hr.
  apply bind_Ret_inv in Hr as (r&s1&H1&[= _ <-]). destruct (at_stage_steady st auto) as [Q1 Q2].
  destruct (spares_stopping_timeout (at_stage st auto) now s r s1 H1 Ha) as [Ha1 Ht1].
  destruct (stopping_timeout_ok s now Hi) as (b1&t&m&H2&Hi1&_). rewrite H1 in H2. injection H2 as _ Es.
  split; [by rewrite Es|]. split; [congruence|done].
Qed.
Lemma takes_tickle st auto rt : takes (stage st auto) (IOManager.tickle rt) (λ _, stage st auto).
Proof.
  intros s b s' Hr (Hi&Ht&Ha). unfold IOManager.tickle in Hr. rewrite bind_gets in Hr.
  apply bind_Ret_inv in Hr as (idl&s1&H1&H2).
  assert (s1 = s) as ->.
  { unfold on_sched in H1. destruct (io_scheds s !! io_this s) as [c|] eqn:Hc; [|done].
    injection H1 as _ <-. simpl. by rewrite insert_id by done; destruct s. }
  assert (s' = s) as -> by (destruct idl; simpl in H2; [destruct (rt =? 1)|]; by inversion H2).
  by split.
Qed.

(** [stop] sets both flags whether it returns at once or goes on to the joins. *)
Lemma stop_stage now rt is_this :
  takes (stage false false) (stop now rt is_this) (λ _, io_ok true).
Proof.
  assert (∀ s, stage true true s → io_ok true s) as Hend.
  { intros s (Hi&Ht&Ha). split; [done|]. intros id c Hc. destruct (Ha id c Hc) as [Hinv Hat]. split; [done|].
    rewrite Ht. intros Hid _. destruct (Hat Hid) as (_&H1&H2). unfold flags. by rewrite H1, H2. }
  unfold stop, virtual_stop.
  apply (takes_bind _ (λ _, stage false true)).
  { apply takes_on_this; [apply frames_set_stop|]. by intros c a c' [= _ <-] _. }
  intros _. apply (takes_bind _ (λ _, stage false true)); [apply takes_same; [apply frames_gets|apply flags_gets]|].
  intros root. apply (takes_bind _ (λ _, stage false true)); [apply takes_same; [apply frames_gets|apply flags_gets]|].
  intros n. apply (takes_bind _ (λ _, stage false true)).
  { destruct root as [r|]; [|apply takes_ret]. eapply takes_bind; [apply takes_same; [apply frames_lift|apply flags_lift]|].
    intros x. apply takes_ret. }
  intros idle_root. apply (takes_bind _ (λ d : bool, if d then stage true true else stage false true)).
  { destruct idle_root; [|by intros s a s' [= <- <-]]. apply (takes_bind _ (λ _, stage true true)).
    - apply takes_on_this; [apply (frames_set_stop (λ _, true))|]. intros c a c' [= _ <-] [_ Hat].
      destruct (Hat eq_refl) as (_&Ha&_). by split.
    - intros _. eapply takes_weaken; [apply takes_stopping|]. intros [] s; [done|]. intros (Hi&Ht&Ha).
      split; [done|]. split; [done|]. intros id c Hc. destruct (Ha id c Hc) as [Hinv Hat]. split; [done|].
      intros Hid. destruct (Hat Hid) as (?&?&_). by split_and!. }
  intros []; [by intros s a s' [= _ <-] Hs; apply Hend|].
  apply (takes_bind _ (λ _, stage false true)); [apply takes_same; [apply frames_gets|apply flags_gets]|].
  intros rt0. apply (takes_bind _ (λ _, stage false true)).
  { destruct (if negb _ then _ else _); [apply takes_ret|by intros s a s' ?]. }
  intros _. apply (takes_bind _ (λ _, stage true true)).
  { apply takes_on_this; [apply (frames_set_stop (λ _, true))|]. intros c a c' [= _ <-] [_ Hat].
    destruct (Hat eq_refl) as (_&Ha&_). by split. }
  intros _. apply (takes_bind _ (λ _, stage true true)).
  { induction (Z.to_nat n) as [|k IH]; simpl; [apply takes_ret|].
    eapply takes_bind; [apply takes_tickle|]. intros []. exact IH. }
  intros _. destruct root as [r|]; [|by intros s a s' [= _ <-] Hs; apply Hend].
  eapply takes_bind; [apply takes_tickle|]. intros []. eapply takes_bind; [apply takes_stopping|].
  intros []; [by intros s a s' [= _ <-] Hs; apply Hend|].
  eapply takes_bind; [apply takes_same; [apply frames_lift|apply flags_lift]|]. intros [].
  intros s a s' Hr (Hi&Ht&Ha). apply on_this_inv in Hr as (c&c'&Hc&Hr&->). pose proof Hc as Hc'. rewrite Ht in Hc'.
  destruct (Ha _ _ Hc') as [Hinv Hat]. destruct (Hat eq_refl) as (Hp&H1&H2).
  apply (this_changes true true s c c'); [apply Hend; by split_and!|done|by eapply goto_spares_inv|].
  intros _. assert (same_flags (goto 0 PStart)) as Hf by (unfold goto, put_worker; flags).
  rewrite (Hf _ _ _ Hr). unfold flags. by rewrite H1, H2.
Qed.
End stopping.

(** ** What holds in every reachable state *)

(** The constructor opens three descriptors; the end of the pipe that [idle]
    reads does not block and is watched. *)
Lemma construct_ok g now this_ scheds epfd rt_pipe p0 p1 rt_fcntl rt_ctl new_tid k s k' :
  is_Some (scheds !! this_) → (∀ id c, scheds !! id = Some c → reachable g c) →
  construct now this_ scheds epfd rt_pipe p0 p1 rt_fcntl rt_ctl new_tid k = Ret s k' →
  life_ok false s ∧ io_this (l_io s) = this_ ∧ l_kernel s = k' ∧
  k_open k' = {[p0; p1]} ∪ ({[epfd]} ∪ k_open k) ∧ own s = {[epfd; p0; p1]} ∧
  p0 ∈ k_nonblock k' ∧ k_watched k' !! (epfd, p0) = Some (Z.lor EPOLLIN EPOLLET).
Proof.
  intros Hs Hr H. unfold construct in H.
  destruct (0 <? epfd), (rt_pipe =? 0), (rt_fcntl =? 0), (rt_ctl =? 0); try done.
  cbv [massert] in H. repeat first [rewrite bind_mret in H|rewrite bind_modify in H]. rewrite bind_gets in H.
  destruct (on_this _ _) as [[] i|e i|f] eqn:E; [|done..]. injection H as <- <-.
  apply on_this_inv in E as (c&c'&Hc&Hst&->). unfold life_ok, own. cbn [l_io m_epfd m_tickleFds l_kernel fst snd].
  change (id ?x) with x. unfold opened. cbn [k_open k_nonblock k_watched].
  split; [split; [|set_solver]|split_and!; try done; [set_solver|by rewrite lookup_insert_eq]].
  apply (this_changes false false _ c c'); [|done| |done].
  - split; [by apply new_IOManager_inv|]. intros id d Hd. split; [by eapply reachable_inv, Hr|done].
  - eapply start_inv; [exact Hst|]. by eapply reachable_inv, Hr.
Qed.

Lemma life_inv g b s : life_reachable g b s → life_ok b s.
Proof.
  induction 1 as [now this_ scheds epfd rt_pipe p0 p1 rt_fcntl rt_ctl new_tid k s k' Hs Hr Hc
    |b s s' _ [IH Hk] Hst|b s now rt is_this i _ [[Hi Ha] Hk] Hp Hst].
  - by eapply construct_ok.
  - destruct Hst as [s i Ht|s k Hk']; [|by split]. split; [|done]. by eapply turn_ok.
  - split; [|done]. apply (stop_stage (io_this (l_io s)) now rt is_this _ _ _ Hst).
    split; [done|]. split; [done|]. intros id c Hc. destruct (Ha id c Hc) as [Hinv _]. split; [done|].
    intros ->. unfold pc_of in Hp. by rewrite Hc in Hp.
Qed.

(** [idle] leaves its loop only when the scheduler's own [stopping] holds. *)
Lemma idle_round_stopping (s : io sched) func_of now now2 a0 epoll_wait s' :
  idle_round func_of now now2 a0 epoll_wait s = Ret true s' →
  ∃ c, io_scheds s !! io_this s = Some c ∧ Scheduler.stopping c = Ret true c.
Proof.
  intros ([b t]&s1&H1&H2)%bind_Ret_inv. simpl in H2. destruct b.
  2: { apply bind_Ret_inv in H2 as (cbs&s2&_&H2). apply bind_Ret_inv in H2 as (u&s3&_&H2).
       by apply bind_Ret_inv in H2 as (v&s4&_&H2). }
  clear H2. unfold stopping_timeout in H1. apply bind_Ret_inv in H1 as (t1&s2&Ht&H1).
  assert (io_scheds s2 = io_scheds s ∧ io_this s2 = io_this s) as [E1 E2].
  { unfold on_timers in Ht. destruct (getNextTimer now _); [|done..]. by injection Ht as _ <-. }
  rewrite bind_gets in H1. destruct (_ && _); [|by inversion H1]. rewrite bind_gets in H1.
  apply bind_Ret_inv in H1 as (b&s3&H1&H3). injection H3 as -> _ _.
  unfold on_sched in H1. rewrite E1, E2 in H1. destruct (io_scheds s !! io_this s) as [c|]; [|done].
  exists c. split; [done|]. cbv [sch_stopping sched_ops Scheduler.stopping gets] in *. congruence.
Qed.

Lemma stopping_means c : inv c → Scheduler.stopping c = Ret true c →
  flags c = (true, true) ∧ m_fibers c = [] ∧ ∀ j w, m_workers c !! j = Some w → active_pc (w_pc w) = false.
Proof.
  intros [Hact _ _ _ _] [= Hb]. apply andb_true_iff in Hb as [[[H1 H2]%andb_true_iff Hq]%andb_true_iff H0].
  split; [unfold flags; by rewrite H1, H2|]. split; [by apply bool_decide_eq_true in Hq|].
  apply count_pc_zero. rewrite <- Hact. by apply Z.eqb_eq.
Qed.

Lemma on_this_ok {A} (m : M sched A) s c a c' : io_scheds s !! io_this s = Some c → m c = Ret a c' →
  on_this m s = Ret a (set_scheds (<[io_this s := c']> (io_scheds s)) s).
Proof. intros Hc Hm. unfold on_this. rewrite bind_gets. unfold on_sched. by rewrite Hc, Hm. Qed.
Lemma on_io_ok {A} (m : M (io sched) A) s a i : m (l_io s) = Ret a i →
  on_io m s = Ret a (mkLife i (m_epfd s) (m_tickleFds s) (l_kernel s)).
Proof. intros Hm. unfold on_io. by rewrite Hm. Qed.

Lemma delete_ok s : life_ok true s → ∃ joined s', delete_IOManager s = Ret joined s' ∧
  if joined then k_open (l_kernel s') = k_open (l_kernel s) ∖ own s ∧ m_fdContexts (l_io s') = []
  else k_open (l_kernel s') = k_open (l_kernel s).
Proof.
  intros [[Hi Ha] Hk]. destruct (inv_this _ _ Hi) as [c Hc]. destruct (Ha _ _ Hc) as [_ Hf].
  destruct (flags_eq (set_stop true true c) c (Hf eq_refl eq_refl)) as [Hst _]. simpl in Hst.
  unfold delete_IOManager.
  mstep (on_io_ok _ _ _ _ (on_this_ok stop_join _ c _ _ Hc eq_refl)).
  destruct (forallb _ _); cbn [negb]; [|by exists false; eexists].
  exists true. unfold on_kernel. rewrite bind_gets, bind_modify, bind_gets, !bind_modify.
  eexists. split.
  - mstep (on_io_ok delete_contexts _ tt _ eq_refl).
    assert (∀ d, Scheduler.m_stopping d = true → delete_Scheduler d = Ret tt d) as Hd.
    { intros d Hd. unfold delete_Scheduler. rewrite bind_gets. by rewrite Hd. }
    etransitivity; [eapply bind_ret, on_io_ok, on_this_ok; [apply lookup_insert_eq|by apply Hd]|reflexivity].
  - simpl. split; [|done]. unfold own. set_solver.
Qed.

Lemma tickle_returns s : is_Some (io_scheds s !! io_this s) → IOManager.tickle 1 s = Ret tt s.
Proof.
  intros [c Hc]. unfold IOManager.tickle. rewrite bind_gets.
  assert (on_sched (io_this s) sch_hasIdleThread s = Ret (0 <? m_idleThreadCount c) s) as H1.
  { unfold on_sched. rewrite Hc. simpl. by rewrite insert_id by done; destruct s. }
  mstep H1. by destruct (0 <? m_idleThreadCount c).
Qed.
Lemma tickles_return n s : is_Some (io_scheds s !! io_this s) → tickle_loop (IOManager.tickle 1) n s = Ret tt s.
Proof. intros Hs. induction n as [|n IH]; simpl; [done|]. by mstep (tickle_returns s Hs). Qed.

(** A scheduler without a root fiber, whose threads are all its own. *)
Lemma stop_returns s now c : io_scheds s !! io_this s = Some c → m_rootFiber c = None → m_rootThread c = -1 →
  ∃ i, stop now 1 false s = Ret tt i.
Proof.
  intros Hc Hf Ht. unfold stop, virtual_stop.
  mstep (on_this_ok (modify (λ s, set_stop (Scheduler.m_stopping s) true s)) _ c _ _ Hc eq_refl).
  mstep (on_this_ok (gets m_rootFiber) _ _ _ _ (lookup_insert_eq _ _ _) eq_refl).
  mstep (on_this_ok (gets m_threadCount) _ _ _ _ (lookup_insert_eq _ _ _) eq_refl).
  simpl m_rootFiber. rewrite Hf, !bind_mret. cbv iota.
  mstep (on_this_ok (gets m_rootThread) _ _ _ _ (lookup_insert_eq _ _ _) eq_refl).
  simpl m_rootThread. rewrite Ht. cbn [Z.eqb Pos.eqb negb massert]. rewrite bind_mret.
  mstep (on_this_ok (modify (λ s, set_stop true (m_autoStop s) s)) _ _ _ _ (lookup_insert_eq _ _ _) eq_refl).
  eexists. etransitivity; [eapply bind_ret, tickles_return|reflexivity].
  eexists. apply lookup_insert_eq.
Qed.


(** ** A run to the end *)

Inductive move := MSched (e : event) | MIdle (i : nat) | MStop.

Definition with_io (s : life) (i : io sched) : life := mkLife i (m_epfd s) (m_tickleFds s) (l_kernel s).
Definition run_move (m : move) (x : bool * life) : option (bool * life) :=
  let (b, s) := x in let i := l_io s in
  match m with
  | MSched e =>
      if inherited e then
        c ← io_scheds i !! io_this i;
        match exec 131072 e c with
        | Some (Ret tt c') => Some (b, with_io s (set_scheds (<[io_this i := c']> (io_scheds i)) i))
        | _ => None
        end
      else None
  | MIdle w =>
      match pc_of w i with
      | Some (PRun KIdle) =>
          match idle_turn w (λ _, User 0) 0 0 9 (λ _, []) i with Ret _ i' => Some (b, with_io s i') | _ => None end
      | _ => None
      end
  | MStop =>
      match pc_of 0 i with
      | Some PExit => match stop 0 1 false i with Ret _ i' => Some (true, with_io s i') | _ => None end
      | _ => None
      end
  end.
Fixpoint run_moves (l : list move) (x : bool * life) : option (bool * life) :=
  match l with [] => Some x | m :: l => x ← run_move m x; run_moves l x end.

Lemma run_move_reachable m x y :
  life_reachable 131072 x.1 x.2 → run_move m x = Some y → life_reachable 131072 y.1 y.2.
Proof.
  destruct x as [b s]. intros Hr H. destruct m as [e|w|]; simpl in H.
  - destruct (inherited e) eqn:He; [|done]. apply bind_Some in H as (c&Hc&H).
    destruct (exec 131072 e c) as [[[] c'| |]|] eqn:Hx; try done. injection H as <-.
    eapply life_next; [exact Hr|]. by eapply step_io, turn_sched.
  - destruct (pc_of w (l_io s)) as [[| | |[]| | |]|] eqn:Hp; try done.
    destruct (idle_turn _ _ _ _ _ _ _) as [r i'| |] eqn:Hi; try done. injection H as <-.
    eapply life_next; [exact Hr|]. eapply step_io, turn_idle; [done| |exact Hi].
    intros t. split; [apply NoDup_nil_2|]. by intros fd r0 rt Hin%elem_of_nil.
  - destruct (pc_of 0 (l_io s)) as [[]|] eqn:Hp; try done.
    destruct (stop _ _ _ _) as [[] i'| |] eqn:Hi; try done. injection H as <-.
    by eapply life_stop.
Qed.
Lemma run_moves_reachable l : ∀ x y,
  life_reachable 131072 x.1 x.2 → run_moves l x = Some y → life_reachable 131072 y.1 y.2.
Proof.
  induction l as [|m l IH]; intros x y Hr H; simpl in H; [by injection H as <-|].
  apply bind_Some in H as (z&Hz&H). eapply IH; [|exact H]. by eapply run_move_reachable.
Qed.

(** One worker; descriptors 5, 6 and 7 besides the standard ones.  The worker
    idles, takes a callback, idles again and leaves after [stop]. *)
Definition std_kernel : kernel := mkKernel {[0; 1; 2]} ∅ ∅.
Definition ex_start : life :=
  match construct 0 1 {[1 := default dummy (new_sys 1)]} 5 0 6 7 0 0 tid_of std_kernel with
  | Ret s _ => s
  | _ => mkLife ex_io0 0 (0, 0) std_kernel
  end.
Definition to_idle : list move := [MSched (EvTake 1); MSched (EvDispatch 1)].
Definition back : list move := [MSched (EvBack 1); MSched (EvAfter 1)].
Definition ex_moves : list move :=
  MSched (EvEnter 1) :: to_idle ++ MSched (EvSchedule (FCb (Some (User 7))) (-1)) :: MIdle 1 :: back ++
  to_idle ++ MSched (EvLeave 1 (Ends Returned)) :: back ++
  to_idle ++ MStop :: MIdle 1 :: back ++ to_idle.
Definition ex_end : life := match run_moves ex_moves (false, ex_start) with Some (_, s) => s | None => ex_start end.

Lemma ex_end_reachable : life_reachable 131072 true ex_end.
Proof.
  change (life_reachable 131072 (true, ex_end).1 (true, ex_end).2).
  apply (run_moves_reachable ex_moves (false, ex_start)); [|vm_compute; reflexivity].
  apply (life_start 131072 0 1 {[1 := default dummy (new_sys 1)]} 5 0 6 7 0 0 tid_of std_kernel ex_start (l_kernel ex_start));
    [by eexists| |vm_compute; reflexivity].
  intros id c [<- <-]%lookup_singleton_Some. apply (sys_reachable 1 []). by vm_compute.
Qed.


(** The standard descriptors are left. *)
Example all_returned :
  match delete_IOManager ex_end with
  | Ret j s => j = true ∧ elements (k_open (l_kernel s)) = elements (k_open std_kernel)
  | _ => False
  end.
Proof. vm_compute. auto. Qed.
