(* ===== verification/Util.v ===== *)
(** * String helpers (megalo/util.h, megalo/util.cc)

    A [std::string] is its list of bytes.  The loops of [UrlEncode] and
    [UrlDecode] keep the string they build behind a pointer [ss] that stays
    null as long as the result is the input so far; the model keeps the same
    option.  [::toupper], [::tolower] and [isxdigit] are those of the C locale,
    and [cstr s] is what a function that takes [s.c_str()] sees. *)
From S2P Require Import Prelude Bytes.

(** A byte from its code, and the test of a byte against a character. *)
Definition chr (z : Z) : byte := byte.of_Z z.
Definition code (c : byte) : Z := byte.unsigned c.
Definition is_chr (z : Z) (c : byte) : bool := code c =? z.

Definition uri_chars : list Z :=
   [0;0;0;0;0;0;0;0;0;0;0;0;0;0;0;0;0;0;0;0;0;0;0;0;0;0;0;0;0;0;0;0;
    0;0;0;0;0;0;0;0;0;0;0;0;0;1;1;0;1;1;1;1;1;1;1;1;1;1;0;0;0;1;0;0;
    0;1;1;1;1;1;1;1;1;1;1;1;1;1;1;1;1;1;1;1;1;1;1;1;1;1;1;0;0;0;0;1;
    0;1;1;1;1;1;1;1;1;1;1;1;1;1;1;1;1;1;1;1;1;1;1;1;1;1;1;0;0;0;1;0;
    0;0;0;0;0;0;0;0;0;0;0;0;0;0;0;0;0;0;0;0;0;0;0;0;0;0;0;0;0;0;0;0;
    0;0;0;0;0;0;0;0;0;0;0;0;0;0;0;0;0;0;0;0;0;0;0;0;0;0;0;0;0;0;0;0;
    0;0;0;0;0;0;0;0;0;0;0;0;0;0;0;0;0;0;0;0;0;0;0;0;0;0;0;0;0;0;0;0;
    0;0;0;0;0;0;0;0;0;0;0;0;0;0;0;0;0;0;0;0;0;0;0;0;0;0;0;0;0;0;0;0].

Definition xdigit_chars : list Z :=
   [0;0;0;0;0;0;0;0;0;0;0;0;0;0;0;0;0;0;0;0;0;0;0;0;0;0;0;0;0;0;0;0;
    0;0;0;0;0;0;0;0;0;0;0;0;0;0;0;0;0;1;2;3;4;5;6;7;8;9;0;0;0;0;0;0;
    0;10;11;12;13;14;15;0;0;0;0;0;0;0;0;0;0;0;0;0;0;0;0;0;0;0;0;0;0;0;0;0;
    0;10;11;12;13;14;15;0;0;0;0;0;0;0;0;0;0;0;0;0;0;0;0;0;0;0;0;0;0;0;0;0;
    0;0;0;0;0;0;0;0;0;0;0;0;0;0;0;0;0;0;0;0;0;0;0;0;0;0;0;0;0;0;0;0;
    0;0;0;0;0;0;0;0;0;0;0;0;0;0;0;0;0;0;0;0;0;0;0;0;0;0;0;0;0;0;0;0;
    0;0;0;0;0;0;0;0;0;0;0;0;0;0;0;0;0;0;0;0;0;0;0;0;0;0;0;0;0;0;0;0;
    0;0;0;0;0;0;0;0;0;0;0;0;0;0;0;0;0;0;0;0;0;0;0;0;0;0;0;0;0;0;0;0].

Definition CHAR_IS_UNRESERVED (c : byte) : bool :=
  negb (nth (Z.to_nat (code c)) uri_chars 0 =? 0).
Definition xdigit (c : byte) : Z := nth (Z.to_nat (code c)) xdigit_chars 0.
Definition isxdigit (c : byte) : bool :=
  let v := code c in
  ((48 <=? v) && (v <=? 57)) || ((65 <=? v) && (v <=? 70)) || ((97 <=? v) && (v <=? 102)).
Definition hexdigits : bytes := str "0123456789ABCDEF".
Definition hexdigit (v : Z) : byte := nth (Z.to_nat v) hexdigits x00.

(** [ss], created with the first [i] bytes of [s] when it is null. *)
Definition started (s : bytes) (i : nat) (ss : option bytes) : bytes :=
  match ss with Some a => a | None => take i s end.

(** ** UrlEncode *)

Fixpoint encode_loop (s : bytes) (space_as_plus : bool) (i : nat) (l : bytes)
    (ss : option bytes) : option bytes :=
  match l with
  | [] => ss
  | c :: l =>
      let ss :=
        if negb (CHAR_IS_UNRESERVED c) then
          let a := started s i ss in
          if is_chr 32 c && space_as_plus then Some (a ++ [chr 43])
          else Some (a ++ [chr 37] ++ [hexdigit (Z.shiftr (code c) 4)]
                       ++ [hexdigit (Z.land (code c) 15)])
        else match ss with Some a => Some (a ++ [c]) | None => None end in
      encode_loop s space_as_plus (S i) l ss
  end.

Definition UrlEncode (s : bytes) (space_as_plus : bool) : bytes :=
  match encode_loop s space_as_plus 0 s None with
  | None => s
  | Some rt => rt
  end.

(** ** UrlDecode *)

Fixpoint decode_loop (s : bytes) (space_as_plus : bool) (i : nat) (l : bytes)
    (ss : option bytes) : option bytes :=
  match l with
  | [] => ss
  | c :: l1 =>
      let keep := decode_loop s space_as_plus (S i) l1
        (match ss with Some a => Some (a ++ [c]) | None => None end) in
      if is_chr 43 c && space_as_plus then
        decode_loop s space_as_plus (S i) l1 (Some (started s i ss ++ [chr 32]))
      else if is_chr 37 c then
        match l1 with
        | h1 :: h2 :: l2 =>
            if isxdigit h1 && isxdigit h2 then
              decode_loop s space_as_plus (S (S (S i))) l2
                (Some (started s i ss ++ [chr (u8 (Z.lor (Z.shiftl (xdigit h1) 4) (xdigit h2)))]))
            else keep
        | _ => keep
        end
      else keep
  end.

Definition UrlDecode (s : bytes) (space_as_plus : bool) : bytes :=
  match decode_loop s space_as_plus 0 s None with
  | None => s
  | Some rt => rt
  end.

(** ** Trim *)

Definition in_set (delimit : bytes) (c : byte) : bool := bool_decide (c ∈ delimit).

(** [find_first_not_of] and [find_last_not_of]; [None] is [npos]. *)
Fixpoint find_first_not_of (delimit s : bytes) : option nat :=
  match s with
  | [] => None
  | c :: s => if in_set delimit c then S <$> find_first_not_of delimit s else Some 0%nat
  end.
Definition find_last_not_of (delimit s : bytes) : option nat :=
  i ← find_first_not_of delimit (rev s); Some (length s - 1 - i)%nat.

(** [substr(pos, n)]; it throws [std::out_of_range] when [pos > size()], which
    these callers never do. *)
Definition substr (s : bytes) (pos n : nat) : bytes := take n (drop pos s).

Definition Trim (s delimit : bytes) : bytes :=
  match find_first_not_of delimit s with
  | None => []
  | Some b =>
      match find_last_not_of delimit s with
      | Some e => substr s b (e - b + 1)
      | None => substr s b (length s)
      end
  end.
Definition TrimLeft (s delimit : bytes) : bytes :=
  match find_first_not_of delimit s with
  | None => []
  | Some b => drop b s
  end.
Definition TrimRight (s delimit : bytes) : bytes :=
  match find_last_not_of delimit s with
  | None => []
  | Some e => substr s 0 e
  end.

Definition whitespace : bytes := [chr 32; chr 9; chr 13; chr 10].

(** ** Case and time *)

Definition toupper (c : byte) : byte :=
  if (97 <=? code c) && (code c <=? 122) then chr (code c - 32) else c.
Definition tolower (c : byte) : byte :=
  if (65 <=? code c) && (code c <=? 90) then chr (code c + 32) else c.
Definition ToUpper (name : bytes) : bytes := map toupper name.
Definition ToLower (name : bytes) : bytes := map tolower name.

(** [GetCurrentMS] and [GetCurrentUS] from the [timeval] of [gettimeofday]. *)
Definition GetCurrentMS (tv_sec tv_usec : Z) : Z := u64 (u64 (tv_sec * 1000) + u64 (tv_usec ÷ 1000)).
Definition GetCurrentUS (tv_sec tv_usec : Z) : Z := u64 (u64 (u64 (tv_sec * 1000) * 1000) + u64 tv_usec).

(** ** C strings *)

(** The bytes before the first NUL. *)
Fixpoint cstr (s : bytes) : bytes :=
  match s with
  | [] => []
  | c :: s => if is_chr 0 c then [] else c :: cstr s
  end.

(** [strcasecmp(a, b)]: the sign, [-1], [0] or [1]. *)
Fixpoint casecmp (a b : bytes) : Z :=
  match a, b with
  | [], [] => 0
  | [], _ :: _ => -1
  | _ :: _, [] => 1
  | x :: a, y :: b =>
      let p := code (tolower x) in
      let q := code (tolower y) in
      if p <? q then -1 else if q <? p then 1 else casecmp a b
  end.
Definition strcasecmp (a b : bytes) : Z := casecmp (cstr a) (cstr b).

(** ** Numbers written in decimal *)

Definition digit (v : Z) : byte := chr (48 + v).

Fixpoint show_digits (fuel : nat) (z : Z) (acc : bytes) : bytes :=
  match fuel with
  | 0%nat => acc
  | S fuel =>
      let acc := digit (z mod 10) :: acc in
      if z / 10 =? 0 then acc else show_digits fuel (z / 10) acc
  end.

(** [os << z] for an integer; a number [z] has at most [log2 z + 1] digits. *)
Definition show_Z (z : Z) : bytes :=
  if z <? 0 then chr 45 :: show_digits (S (Z.to_nat (Z.log2 (- z)))) (- z) []
  else show_digits (S (Z.to_nat (Z.log2 z))) z [].

(** The value of a string of digits. *)
Definition digits_value (s : bytes) : Z := fold_left (λ v c, v * 10 + (code c - 48)) s 0.

(** ** What the loops compute *)

Definition encode_byte (space_as_plus : bool) (c : byte) : bytes :=
  if CHAR_IS_UNRESERVED c then [c]
  else if is_chr 32 c && space_as_plus then [chr 43]
  else [chr 37; hexdigit (Z.shiftr (code c) 4); hexdigit (Z.land (code c) 15)].

Definition encode (space_as_plus : bool) (s : bytes) : bytes :=
  concat (map (encode_byte space_as_plus) s).

Fixpoint decode (space_as_plus : bool) (l : bytes) : bytes :=
  match l with
  | [] => []
  | c :: l1 =>
      if is_chr 43 c && space_as_plus then chr 32 :: decode space_as_plus l1
      else if is_chr 37 c then
        match l1 with
        | h1 :: h2 :: l2 =>
            if isxdigit h1 && isxdigit h2 then
              chr (u8 (Z.lor (Z.shiftl (xdigit h1) 4) (xdigit h2))) :: decode space_as_plus l2
            else c :: decode space_as_plus l1
        | _ => c :: decode space_as_plus l1
        end
      else c :: decode space_as_plus l1
  end.

(** The state of a loop after [i] bytes: null while the result is the input. *)
Definition built (s : bytes) (i : nat) (r : bytes) (ss : option bytes) : Prop :=
  match ss with Some a => a = r | None => r = take i s end.

Lemma built_started s i r ss : built s i r ss → started s i ss = r.
Proof. by destruct ss; simpl. Qed.

Lemma take_snoc {A} (s : list A) i c l : drop i s = c :: l → take (S i) s = take i s ++ [c].
Proof. intros H. apply take_S_r. rewrite <- (Nat.add_0_r i), <- lookup_drop. by rewrite H. Qed.

Lemma drop_next {A} (s : list A) i c l : drop i s = c :: l → drop (S i) s = l.
Proof. intros H. replace (S i) with (i + 1)%nat by lia. by rewrite <- drop_drop, H. Qed.

Lemma built_keep s i r ss c l :
  built s i r ss → drop i s = c :: l →
  built s (S i) (r ++ [c]) (match ss with Some a => Some (a ++ [c]) | None => None end).
Proof.
  intros Hb Hd. destruct ss; simpl in *; [by subst|]. by rewrite Hb, (take_snoc _ _ _ _ Hd).
Qed.

Lemma encode_loop_spec s p l : ∀ i ss r,
  drop i s = l → built s i r ss →
  match encode_loop s p i l ss with
  | Some rt => rt = r ++ encode p l
  | None => r ++ encode p l = s
  end.
Proof.
  induction l as [|c l IH]; intros i ss r Hd Hb; simpl.
  - unfold encode. simpl. rewrite app_nil_r. destruct ss; simpl in Hb; [done|].
    rewrite Hb. rewrite <- (take_drop i s) at 2. by rewrite Hd, app_nil_r.
  - change (encode p (c :: l)) with (encode_byte p c ++ encode p l). rewrite app_assoc.
    apply IH; [by eapply drop_next|]. unfold encode_byte.
    destruct (CHAR_IS_UNRESERVED c); simpl; [by eapply built_keep|].
    rewrite (built_started _ _ _ _ Hb). by destruct (is_chr 32 c && p).
Qed.

Lemma UrlEncode_spec s p : UrlEncode s p = encode p s.
Proof.
  unfold UrlEncode. pose proof (encode_loop_spec s p s 0 None [] eq_refl eq_refl) as H.
  destruct (encode_loop _ _ _ _ _); simpl in H; congruence.
Qed.

Lemma decode_loop_spec s p : ∀ n l i ss r,
  (length l ≤ n)%nat → drop i s = l → built s i r ss →
  match decode_loop s p i l ss with
  | Some rt => rt = r ++ decode p l
  | None => r ++ decode p l = s
  end.
Proof.
  induction n as [|n IH]; intros l i ss r Hn Hd Hb.
  { destruct l; [|simpl in Hn; lia]. simpl. rewrite app_nil_r. destruct ss; simpl in Hb; [done|].
    rewrite Hb. rewrite <- (take_drop i s) at 2. by rewrite Hd, app_nil_r. }
  destruct l as [|c l1].
  { simpl. rewrite app_nil_r. destruct ss; simpl in Hb; [done|].
    rewrite Hb. rewrite <- (take_drop i s) at 2. by rewrite Hd, app_nil_r. }
  simpl in Hn. simpl.
  assert (match decode_loop s p (S i) l1 (match ss with Some a => Some (a ++ [c]) | None => None end) with
    | Some rt => rt = r ++ c :: decode p l1
    | None => r ++ c :: decode p l1 = s end) as Hkeep.
  { replace (r ++ c :: decode p l1) with ((r ++ [c]) ++ decode p l1) by (by rewrite <- app_assoc).
    apply IH; [lia|by eapply drop_next|by eapply built_keep]. }
  destruct (is_chr 43 c && p).
  { replace (r ++ chr 32 :: decode p l1) with ((r ++ [chr 32]) ++ decode p l1)
      by (by rewrite <- app_assoc).
    apply IH; [lia|by eapply drop_next|]. simpl. by rewrite (built_started _ _ _ _ Hb). }
  destruct (is_chr 37 c); [|exact Hkeep].
  destruct l1 as [|h1 [|h2 l2]]; [exact Hkeep..|].
  destruct (isxdigit h1 && isxdigit h2); [|exact Hkeep].
  rewrite (built_started _ _ _ _ Hb).
  set (d := chr _). replace (r ++ d :: decode p l2) with ((r ++ [d]) ++ decode p l2)
    by (by rewrite <- app_assoc).
  apply IH; [simpl in Hn; lia| |done].
  eapply drop_next, drop_next, drop_next; exact Hd.
Qed.

Lemma UrlDecode_spec s p : UrlDecode s p = decode p s.
Proof.
  unfold UrlDecode.
  pose proof (decode_loop_spec s p (length s) s 0 None [] (Nat.le_refl _) eq_refl eq_refl) as H.
  destruct (decode_loop _ _ _ _ _); simpl in H; congruence.
Qed.

(** A property of all bytes, checked on each. *)
Definition all_bytes : bytes := map (λ n, chr (Z.of_nat n)) (seq 0 256).

Lemma all_bytes_complete c : c ∈ all_bytes.
Proof.
  apply list_elem_of_In, in_map_iff. exists (Z.to_nat (code c)).
  pose proof (byte_range c). unfold code, chr. split.
  - rewrite Z2Nat.id by lia. apply byte.of_Z_unsigned.
  - apply in_seq. lia.
Qed.

Lemma forall_bytes (f : byte → bool) : forallb f all_bytes = true → ∀ c, f c = true.
Proof.
  intros H c. rewrite List.forallb_forall in H. apply H, list_elem_of_In, all_bytes_complete.
Qed.

Lemma code_inj a b : code a = code b → a = b.
Proof.
  unfold code. intros H. rewrite <- (byte.of_Z_unsigned a), <- (byte.of_Z_unsigned b). by rewrite H.
Qed.

(** Decoding what one byte was encoded to gives the byte back. *)
Lemma decode_encode_byte p q c l :
  (p = true → q = true) → decode q (encode_byte p c ++ l) = c :: decode q l.
Proof.
  intros Hpq.
  pose proof (forall_bytes (λ c,
    let u := CHAR_IS_UNRESERVED c in
    let h1 := hexdigit (Z.shiftr (code c) 4) in let h2 := hexdigit (Z.land (code c) 15) in
    (if u then negb (is_chr 43 c) && negb (is_chr 37 c) else true) &&
    (isxdigit h1 && isxdigit h2 &&
     (code (chr (u8 (Z.lor (Z.shiftl (xdigit h1) 4) (xdigit h2)))) =? code c)))
    ltac:(vm_compute; reflexivity) c) as H.
  cbv beta zeta in H. apply andb_true_iff in H as [Hu Hh].
  apply andb_true_iff in Hh as [Hx Hd]. apply Z.eqb_eq, code_inj in Hd.
  unfold encode_byte. destruct (CHAR_IS_UNRESERVED c).
  - apply andb_true_iff in Hu as [H1%negb_true_iff H2%negb_true_iff]. simpl.
    by rewrite H1, H2.
  - destruct (is_chr 32 c) eqn:E32; simpl.
    + destruct p; simpl.
      * rewrite Hpq by done. by apply Z.eqb_eq, (code_inj c (chr 32)) in E32 as ->.
      * change (is_chr 43 (chr 37) && q) with false. change (is_chr 37 (chr 37)) with true.
        cbv iota. by rewrite Hx, Hd.
    + change (is_chr 43 (chr 37) && q) with false. change (is_chr 37 (chr 37)) with true.
      cbv iota. by rewrite Hx, Hd.
Qed.

Lemma decode_encode p q s l :
  (p = true → q = true) → decode q (encode p s ++ l) = s ++ decode q l.
Proof.
  intros Hpq. induction s as [|c s IH]; [done|].
  change (encode p (c :: s)) with (encode_byte p c ++ encode p s).
  rewrite <- app_assoc, decode_encode_byte by done. simpl. by rewrite IH.
Qed.

(** Characters that never occur in an encoded string. *)
Lemma encode_avoids p s c :
  CHAR_IS_UNRESERVED c = false → is_chr 37 c = false → is_chr 43 c = false →
  c ∉ encode p s.
Proof.
  intros Hu H37 H43 Hin. apply list_elem_of_In, in_concat in Hin as (l&Hl&Hc).
  apply in_map_iff in Hl as (d&<-&_). unfold encode_byte in Hc.
  destruct (CHAR_IS_UNRESERVED d) eqn:Ed; [destruct Hc as [<-|[]]; congruence|].
  destruct (is_chr 32 d && p); [destruct Hc as [<-|[]]; by vm_compute in H43|].
  pose proof (forall_bytes (λ c, CHAR_IS_UNRESERVED (hexdigit (Z.shiftr (code c) 4)) &&
    CHAR_IS_UNRESERVED (hexdigit (Z.land (code c) 15))) ltac:(vm_compute; reflexivity) d) as H.
  cbv beta in H. apply andb_true_iff in H as [H1 H2].
  destruct Hc as [<-|[<-|[<-|[]]]]; [by vm_compute in H37|congruence..].
Qed.

(** ** Decimal numbers are read back *)

Lemma code_digit v : 0 ≤ v < 10 → code (digit v) = 48 + v.
Proof. intros. apply unsigned_of_Z_small. lia. Qed.

Lemma fold_digits_app s v :
  fold_left (λ v c, v * 10 + (code c - 48)) s v = v * 10 ^ Z.of_nat (length s) + digits_value s.
Proof.
  unfold digits_value. revert v. induction s as [|c s IH]; intros v; [simpl; lia|].
  cbn [fold_left length]. rewrite IH, (IH (0 * 10 + _)), Nat2Z.inj_succ, Z.pow_succ_r by lia. lia.
Qed.

Lemma show_digits_value fuel : ∀ z acc,
  0 ≤ z < 2 ^ Z.of_nat fuel →
  digits_value (show_digits fuel z acc) = z * 10 ^ Z.of_nat (length acc) + digits_value acc.
Proof.
  induction fuel as [|fuel IH]; intros z acc Hz; [simpl in Hz; simpl; nia|].
  cbn [show_digits]. pose proof (Z.div_mod z 10 ltac:(lia)) as Hdm.
  pose proof (Z.mod_pos_bound z 10 ltac:(lia)) as Hm.
  assert (digits_value (digit (z mod 10) :: acc) =
    (z mod 10) * 10 ^ Z.of_nat (length acc) + digits_value acc) as Hcons.
  { unfold digits_value at 1. cbn [fold_left]. rewrite fold_digits_app, code_digit by lia. lia. }
  destruct (Z.eqb_spec (z / 10) 0) as [H0|H0].
  - rewrite Hcons. replace (z mod 10) with z by lia. done.
  - rewrite IH.
    + rewrite Hcons. cbn [length]. rewrite Nat2Z.inj_succ, Z.pow_succ_r by lia. nia.
    + rewrite Nat2Z.inj_succ, Z.pow_succ_r in Hz by lia. split; [apply Z.div_pos; lia|].
      apply Z.div_lt_upper_bound; lia.
Qed.

Lemma digits_value_show z : 0 ≤ z → digits_value (show_Z z) = z.
Proof.
  intros Hz. unfold show_Z. destruct (Z.ltb_spec z 0); [lia|].
  rewrite show_digits_value; [unfold digits_value; simpl; lia|].
  split; [done|]. rewrite Nat2Z.inj_succ, Z2Nat.id by apply Z.log2_nonneg.
  destruct (decide (z = 0)) as [->|]; [done|]. apply Z.log2_spec. lia.
Qed.

Lemma show_digits_all fuel : ∀ z acc,
  Forall (λ c, 48 ≤ code c ≤ 57) acc → Forall (λ c, 48 ≤ code c ≤ 57) (show_digits fuel z acc).
Proof.
  induction fuel as [|fuel IH]; intros z acc Hacc; simpl; [done|].
  pose proof (Z.mod_pos_bound z 10 ltac:(lia)) as Hm.
  assert (Forall (λ c, 48 ≤ code c ≤ 57) (digit (z mod 10) :: acc)) as H.
  { constructor; [|done]. rewrite code_digit by lia. lia. }
  destruct (z / 10 =? 0); [done|]. by apply IH.
Qed.

Lemma show_Z_digits z : 0 ≤ z → Forall (λ c, 48 ≤ code c ≤ 57) (show_Z z).
Proof.
  intros. unfold show_Z. destruct (Z.ltb_spec z 0); [lia|]. by apply show_digits_all.
Qed.

Lemma show_digits_length fuel : ∀ z acc, (length acc ≤ length (show_digits fuel z acc))%nat.
Proof.
  induction fuel as [|fuel IH]; intros z acc; simpl; [done|].
  destruct (z / 10 =? 0); simpl; [lia|]. specialize (IH (z / 10) (digit (z mod 10) :: acc)). simpl in IH. lia.
Qed.

Lemma show_Z_nonempty z : show_Z z ≠ [].
Proof.
  unfold show_Z. destruct (z <? 0); [done|]. simpl. destruct (z / 10 =? 0); [done|].
  pose proof (show_digits_length (Z.to_nat (Z.log2 z)) (z / 10) [digit (z mod 10)]) as H.
  intros E. rewrite E in H. simpl in H. lia.
Qed.

(** ** Strings out of memory *)

(** [std::string(at, length)] for [at] at offset [at_] of the memory: a length
    no string can have throws [std::length_error], a [std::logic_error]. *)
Definition mem_string {S} (mem : bytes) (at_ length_ : Z) : M S bytes :=
  if 2 ^ 63 <=? length_ then throw logic_error
  else if at_ + length_ <=? Z.of_nat (length mem) then
    mret (slice (Z.to_nat at_) (Z.to_nat length_) mem)
  else crash OutOfBounds.

(** ** Trimming *)

Lemma find_first_spec d s :
  match find_first_not_of d s with
  | Some i => ∃ a c b, s = a ++ c :: b ∧ length a = i ∧ Forall (λ x, in_set d x = true) a ∧
                in_set d c = false
  | None => Forall (λ x, in_set d x = true) s
  end.
Proof.
  induction s as [|c s IH]; simpl; [constructor|]. destruct (in_set d c) eqn:Ec.
  - destruct (find_first_not_of d s) as [i|]; simpl; [|by constructor].
    destruct IH as (a&x&b&->&<-&Ha&Hx). exists (c :: a), x, b. split_and!; try done. by constructor.
  - exists [], c, s. by split_and!.
Qed.

Lemma find_last_spec d s :
  match find_last_not_of d s with
  | Some e => ∃ a c b, s = a ++ c :: b ∧ length a = e ∧ Forall (λ x, in_set d x = true) b ∧
                in_set d c = false
  | None => Forall (λ x, in_set d x = true) s
  end.
Proof.
  unfold find_last_not_of. pose proof (find_first_spec d (rev s)) as H.
  destruct (find_first_not_of d (rev s)) as [i|]; cbn [mbind option_bind].
  - destruct H as (a&c&b&Hs&Hl&Ha&Hc). exists (rev b), c, (rev a).
    assert (s = rev b ++ c :: rev a) as ->.
    { rewrite <- (rev_involutive s), Hs, rev_app_distr. simpl. by rewrite <- app_assoc. }
    split; [done|]. split; [rewrite length_app, !length_rev; simpl; rewrite length_rev; lia|].
    split; [|done]. apply Forall_forall. intros x Hx. rewrite Forall_forall in Ha.
    apply Ha, list_elem_of_In, in_rev. by apply list_elem_of_In.
  - apply Forall_forall. intros x Hx. rewrite Forall_forall in H.
    apply H, list_elem_of_In, in_rev. rewrite rev_involutive. by apply list_elem_of_In.
Qed.

(** [Trim] takes away what it should: the rest starts and ends with a
    character outside [delimit], and only delimiters were removed. *)
Lemma Trim_spec s d :
  ∃ a b, s = a ++ Trim s d ++ b ∧ Forall (λ x, in_set d x = true) a ∧
    Forall (λ x, in_set d x = true) b ∧
    (∀ c, head (Trim s d) = Some c → in_set d c = false).
Proof.
  unfold Trim. pose proof (find_first_spec d s) as Hf. pose proof (find_last_spec d s) as Hl.
  destruct (find_first_not_of d s) as [i|].
  2: { exists s, []. by rewrite app_nil_r. }
  destruct Hf as (a&c&r&Hs&Hi&Ha&Hc).
  destruct (find_last_not_of d s) as [e|].
  2: { exfalso. rewrite Hs in Hl. apply Forall_app in Hl as [_ Hl]. inversion Hl. congruence. }
  destruct Hl as (p&c'&b&Hs'&He&Hb&Hc').
  assert (i ≤ e)%nat as Hle.
  { destruct (decide (i ≤ e)%nat) as [|Hn]; [done|exfalso].
    assert (a !! e = Some c') as Hac.
    { assert (s !! e = Some c') as Hse by (rewrite Hs', lookup_app_r by lia; by rewrite He, Nat.sub_diag).
      rewrite Hs, lookup_app_l in Hse by lia. done. }
    rewrite Forall_forall in Ha. rewrite (Ha c') in Hc'; [done|by eapply list_elem_of_lookup_2]. }
  assert (substr s i (e - i + 1) ++ b = drop i s) as Hsub.
  { unfold substr. rewrite take_drop_commute.
    replace (i + (e - i + 1))%nat with (length (p ++ [c'])) by (rewrite length_app; simpl; lia).
    rewrite Hs', (cons_middle c' p b), app_assoc, take_app_length.
    rewrite (drop_app_le (p ++ [c']) b) by (rewrite length_app; simpl; lia). done. }
  exists (take i s), b. split; [by rewrite Hsub, take_drop|].
  assert (take i s = a) as -> by (by rewrite Hs, <- Hi, take_app_length).
  split; [done|]. split; [done|]. intros x.
  assert (drop i s = c :: r) as Hd by (by rewrite Hs, <- Hi, drop_app_length).
  unfold substr. rewrite Hd, Nat.add_1_r. simpl. congruence.
Qed.

(** [TrimRight] also drops the last character it should keep. *)
Lemma TrimRight_drops_last s c b d :
  in_set d c = false → Forall (λ x, in_set d x = true) b → TrimRight (s ++ c :: b) d = s.
Proof.
  intros Hc Hb. unfold TrimRight. pose proof (find_last_spec d (s ++ c :: b)) as H.
  destruct (find_last_not_of d (s ++ c :: b)) as [e|].
  - destruct H as (a&c'&b'&Heq&He&Hb'&Hc').
    assert (a = s) as ->; [|by rewrite <- He; unfold substr; rewrite drop_0, Heq, take_app_length].
    apply app_eq_inv in Heq as [(k&->&Hk)|(k&->&Hk)]; destruct k as [|x k];
      simplify_eq/=; rewrite ?app_nil_r; try done.
    + rewrite Forall_app in Hb'. destruct Hb' as [_ Hb']. inversion Hb'. congruence.
    + rewrite Forall_app in Hb. destruct Hb as [_ Hb]. inversion Hb. congruence.
  - apply Forall_app in H as [_ H]. inversion H. congruence.
Qed.

(** URL encoding is invertible: decoding an encoded string gives the string
    back for every string of bytes, provided a space encoded as a plus is
    decoded as one; and the encoded string has no separator in it (only
    unreserved characters, the percent sign and the plus). *)
Theorem url_round_trip (s : bytes) (p q : bool) (Hpq : p = true → q = true) :
  UrlDecode (UrlEncode s p) q = s ∧
  ∀ c, c ∈ UrlEncode s p → CHAR_IS_UNRESERVED c = true ∨ code c = 37 ∨ code c = 43.
Proof.
  rewrite UrlDecode_spec, UrlEncode_spec. split.
  - rewrite <- (app_nil_r (encode p s)), decode_encode by done. simpl. apply app_nil_r.
  - intros c Hc. destruct (CHAR_IS_UNRESERVED c) eqn:Hu; [by left|right].
    destruct (is_chr 37 c) eqn:H37; [left; by apply Z.eqb_eq|].
    destruct (is_chr 43 c) eqn:H43; [right; by apply Z.eqb_eq|].
    by destruct (encode_avoids p s c Hu H37 H43).
Qed.

Lemma url_round_trip_witness :
  UrlDecode (UrlEncode (str "a b&c=100%+") true) true = str "a b&c=100%+" ∧
  ∀ c, c ∈ UrlEncode (str "a b&c=100%+") true →
    CHAR_IS_UNRESERVED c = true ∨ code c = 37 ∨ code c = 43.
Proof. apply (url_round_trip (str "a b&c=100%+") true true). done. Defined.

Example encode_example : UrlEncode (str "a b&c") true = str "a+b%26c".
Proof. vm_compute. reflexivity. Qed.
Example trim_right_example : TrimRight (str "abc  ") whitespace = str "ab".
Proof. vm_compute. reflexivity. Qed.
