(* ===== verification/UtilSystem.v ===== *)
(** * Calls of the C library wrapped by megalo/util.cc

    The clock, the conversion of times, formatted output, backtraces and wide
    strings.  What the C library does is the class [CLib]; a result of
    [None] is its error.  The state is the locale of the process, which the two
    conversions of wide strings set. *)
From S2P Require Import Prelude Bytes Util.
#[local] Open Scope Z_scope.

(** A wide string is a list of [wchar_t]. *)
Definition wide : Type := list Z.

Class CLib := {
  tm : Type;                                     (* [struct tm] *)
  zero_tm : tm;                                  (* all of its bytes 0 *)
  localtime_r : Z → option tm;
  strftime : nat → bytes → tm → option bytes;    (* the text, when it and its NUL fit the size *)
  strptime : bytes → bytes → tm → option tm;
  mktime : tm → Z;
  arguments : Type;                              (* a [va_list] *)
  vasprintf : bytes → arguments → option bytes;
  frame : Type;
  backtrace_symbols : list frame → option (list bytes);
  environment_locale : option bytes;             (* what [setlocale] with an empty name selects *)
  wcstombs : bytes → wide → option bytes;        (* in a locale *)
  mbstowcs : bytes → bytes → option wide
}.

Section system.
Context `{CLib}.

(** ** Times *)

(** [strftime] leaves [buf] indeterminate when the text does not fit it, and
    [localtime_r] leaves [tm] so when the year does not fit it. *)
Definition Time2Str {St} (ts : Z) (format : bytes) : M St bytes :=
  match localtime_r ts with
  | None => crash Uninitialised
  | Some t =>
      match strftime 64 (cstr format) t with
      | None => crash Uninitialised
      | Some buf => mret (cstr buf)
      end
  end.

Definition Str2Time (s format : bytes) : Z :=
  match strptime (cstr s) (cstr format) zero_tm with
  | None => 0
  | Some t => mktime t
  end.

(** ** Formatted output *)

Definition Formatv (fmt : bytes) (ap : arguments) : bytes :=
  match vasprintf (cstr fmt) ap with None => [] | Some buf => buf end.
Definition Format (fmt : bytes) (ap : arguments) : bytes := Formatv fmt ap.

(** ** Backtraces *)

(** The loop from [skip], an [int] that is compared as a [size_t]. *)
Definition Backtrace (stack : list frame) (size skip : Z) (bt : list bytes) : list bytes :=
  let array := take (Z.to_nat size) stack in
  match backtrace_symbols array with
  | None => bt
  | Some strings => bt ++ drop (Z.to_nat (u64 skip)) (take (length array) strings)
  end.

Definition BacktraceToString (stack : list frame) (size skip : Z) (prefix : bytes) : bytes :=
  concat (map (λ b, prefix ++ b ++ [chr 10]) (Backtrace stack size skip [])).

(** ** Wide strings *)

(** [setlocale(LC_ALL, name)] and the name it returns, made a [std::string]. *)
Definition setlocale (name : bytes) : M bytes bytes :=
  match (match name with [] => environment_locale | _ => Some name end) with
  | None => crash NullDeref
  | Some l => put l;; mret l
  end.

(** The part of a buffer of elements before the first 0, which it has to hold. *)
Fixpoint before_zero {A} (zero : A → bool) (dest : list A) : option (list A) :=
  match dest with
  | [] => None
  | c :: dest => if zero c then Some [] else option_map (cons c) (before_zero zero dest)
  end.
Definition c_str {A} (zero : A → bool) (s : list A) : list A := default s (before_zero zero s).

(** Both conversions: [convert] is the library's one, [zero] tells the
    terminator of the target.  The size is counted first, with -1 for an error;
    the buffer of that size plus one is cleared and then written. *)
Definition through {A B} (is_zero_a : A → bool) (zero : B) (is_zero : B → bool)
    (convert : bytes → list A → option (list B)) (s : list A) : M bytes (list B) :=
  str_locale ← setlocale [];
  loc ← gets id;
  let src := c_str is_zero_a s in
  let n_dest_size := u64 (match convert loc src with Some t => Z.of_nat (length t) | None => -1 end + 1) in
  let dest := replicate (Z.to_nat n_dest_size) zero in
  let dest := match convert loc src with
              | Some t => splice 0 (take (length dest) (t ++ [zero])) dest
              | None => dest end in
  match before_zero is_zero dest with
  | None => crash OutOfBounds
  | Some r => _ ← setlocale str_locale; mret r
  end.

Definition WStringToString (ws : wide) : M bytes bytes := through (Z.eqb 0) x00 (is_chr 0) wcstombs ws.
Definition StringToWString (s : bytes) : M bytes wide := through (is_chr 0) 0 (Z.eqb 0) mbstowcs s.
End system.

(** ** What they do *)

Section facts.
Context `{CLib}.

Lemma before_zero_app {A} (zero : A → bool) t z r :
  Forall (λ c, zero c = false) t → zero z = true → before_zero zero (t ++ z :: r) = Some t.
Proof. induction 1 as [|c t Hc _ IH]; intros Hz; simpl; [by rewrite Hz|]. by rewrite Hc, IH. Qed.

Lemma before_zero_none {A} (zero : A → bool) s :
  Forall (λ c, zero c = false) s → before_zero zero s = None.
Proof. induction 1 as [|c s Hc _ IH]; simpl; [done|]. by rewrite Hc, IH. Qed.

Lemma setlocale_ok name l s : (name = [] ∨ name = l) → environment_locale = Some l →
  setlocale name s = Ret l l.
Proof. intros Hn He. unfold setlocale. by destruct Hn as [->| ->]; [|destruct l]; rewrite ?He. Qed.

(** A conversion that succeeds gives its text and leaves the locale of the
    environment set, whatever it was before. *)
Lemma through_ok {A B} (is_zero_a : A → bool) (zero : B) is_zero convert s l loc0 t :
  environment_locale = Some l → convert l (c_str is_zero_a s) = Some t →
  Forall (λ c, is_zero c = false) t → is_zero zero = true → Z.of_nat (length t) < 2 ^ 64 - 1 →
  through is_zero_a zero is_zero convert s loc0 = Ret t l.
Proof.
  intros He Hc Ht Hz Hlen. unfold through.
  mstep (setlocale_ok [] l loc0 (or_introl eq_refl) He). rewrite bind_gets. unfold id. cbv beta zeta. rewrite Hc.
  rewrite wrap_id by (unfold unsigned_in; lia).
  replace (Z.to_nat (Z.of_nat (length t) + 1)) with (length (t ++ [zero])) by (rewrite length_app; simpl; lia).
  rewrite length_replicate, firstn_all. unfold splice. simpl take. rewrite drop_ge by (rewrite length_replicate; lia).
  rewrite app_nil_l, app_nil_r. rewrite (before_zero_app _ _ _ [] Ht Hz).
  mstep (setlocale_ok l l l (or_intror eq_refl) He). done.
Qed.

(** One that fails counts -1 characters, makes a buffer of none, and reads its
    first element. *)
Lemma through_fails {A B} (is_zero_a : A → bool) (zero : B) is_zero convert s l loc0 :
  environment_locale = Some l → convert l (c_str is_zero_a s) = None →
  through is_zero_a zero is_zero convert s loc0 = Crash OutOfBounds.
Proof.
  intros He Hc. unfold through. mstep (setlocale_ok [] l loc0 (or_introl eq_refl) He).
  rewrite bind_gets. unfold id. cbv beta zeta. by rewrite Hc.
Qed.

(** Characters the locale of the environment can write come back, and are
    converted in that locale and not in the one that was set. *)
Theorem wide_round_trip (ws : wide) (s l loc0 : bytes) (He : environment_locale = Some l)
    (Hw : Forall (λ c, (0 =? c) = false) ws) (Hs : Forall (λ c, is_chr 0 c = false) s)
    (Hto : wcstombs l ws = Some s) (Hfrom : mbstowcs l s = Some ws)
    (Hlen : Z.of_nat (length ws) < 2 ^ 64 - 1 ∧ Z.of_nat (length s) < 2 ^ 64 - 1) :
  (x ← WStringToString ws; StringToWString x) loc0 = Ret ws l.
Proof.
  assert (c_str (Z.eqb 0) ws = ws) as Hcw by (unfold c_str; by rewrite before_zero_none).
  assert (c_str (is_chr 0) s = s) as Hcs by (unfold c_str; by rewrite before_zero_none).
  mstep (through_ok (Z.eqb 0) x00 (is_chr 0) wcstombs ws l loc0 s He ltac:(by rewrite Hcw) Hs eq_refl (proj2 Hlen)).
  exact (through_ok (is_chr 0) 0 (Z.eqb 0) mbstowcs s l l ws He ltac:(by rewrite Hcs) Hw eq_refl (proj1 Hlen)).
Qed.

(** A backtrace appends the names of the frames after [skip]. *)
Theorem Backtrace_appends (stack : list frame) (size skip : Z) (bt strings : list bytes)
    (Hskip : 0 ≤ skip < 2 ^ 31) (Hs : backtrace_symbols (take (Z.to_nat size) stack) = Some strings)
    (Hl : length strings = length (take (Z.to_nat size) stack)) :
  Backtrace stack size skip bt = bt ++ drop (Z.to_nat skip) strings.
Proof.
  unfold Backtrace. cbv zeta. rewrite Hs, <- Hl, firstn_all, wrap_id by (unfold unsigned_in; lia). done.
Qed.
End facts.

(** ** A C library on ASCII

    Its locale is C; a [tm] is a number of seconds, written in decimal. *)
Definition ascii (c : Z) : bool := (0 <=? c) && (c <? 128).
Definition c_wcstombs (_ : bytes) (ws : wide) : option bytes :=
  if forallb ascii ws then Some (map chr ws) else None.
Definition c_mbstowcs (_ : bytes) (s : bytes) : option wide :=
  let ws := map code s in if forallb ascii ws then Some ws else None.
#[local] Instance c_lib : CLib := {
  tm := Z;
  zero_tm := 0;
  localtime_r t := Some t;
  strftime n fmt t := if (length (fmt ++ show_Z t) <? n)%nat then Some (fmt ++ show_Z t) else None;
  strptime s _ _ := Some (digits_value s);
  mktime t := t;
  arguments := list bytes;
  vasprintf fmt l := Some (fmt ++ concat l);
  frame := bytes;
  backtrace_symbols l := Some l;
  environment_locale := Some (str "C");
  wcstombs := c_wcstombs;
  mbstowcs := c_mbstowcs
}.

Lemma wide_witness :
  (x ← WStringToString [72; 105]; StringToWString x) (str "POSIX") = Ret [72; 105] (str "C").
Proof.
  apply (wide_round_trip [72; 105] (str "Hi") (str "C"));
    [reflexivity|repeat constructor|repeat constructor|reflexivity|reflexivity|split; simpl; lia].
Defined.
Lemma Backtrace_witness :
  Backtrace (([str "f"; str "g"; str "main"] : list bytes) : list (@frame c_lib)) 2 1 [str "top"] = [str "top"; str "g"].
Proof.
  apply (Backtrace_appends (([str "f"; str "g"; str "main"] : list bytes) : list (@frame c_lib)) 2 1 [str "top"] [str "f"; str "g"]); [lia|reflexivity..].
Defined.

(** A character the locale cannot write. *)
Example wide_invalid : WStringToString [233] (str "POSIX") = Crash OutOfBounds.
Proof. reflexivity. Qed.
(** A text of more than 63 characters is not put in the buffer. *)
Example long_time_format :
  Time2Str (St := unit) 5 (replicate 63 (chr 45)) tt = Crash Uninitialised ∧
  Time2Str (St := unit) 5 (replicate 62 (chr 45)) tt = Ret (replicate 62 (chr 45) ++ [chr 53]) tt.
Proof. by vm_compute. Qed.
