(* ===== verification/Config.v ===== *)
(** * Configuration (megalo/config.h, megalo/config.cc)

    The first part is the registry: variables are objects, [GetDatas] maps names
    to them, and a variable has listeners, which act on a world [W].  Types of
    values are tags [T] and values of all types are one type [V], with the
    conversions of [Castable].  The second part is [LexicalCast] for nested
    containers, which makes such conversions from those of the basic types.
    [YamlOps] is what the code uses of yaml-cpp. *)
From stdpp Require Import countable.
From S2P Require Import Prelude Bytes Util.
#[local] Open Scope Z_scope.

(** ** YAML *)

(** What [Load] makes of a text ([None]: it throws), the text of a node, and the
    observations of a node.  [y_entries] is what iterating over a node gives,
    with the text of the keys; [None] when a key has none. *)
Class YamlOps (N : Type) := {
  y_load : bytes → option N;
  y_dump : N → bytes;
  y_size : N → nat;
  y_index : N → nat → N;
  y_entries : N → option (list (bytes * N));
  y_IsMap : N → bool;
  y_Scalar : N → option bytes;         (* of a scalar node *)
  y_seq : list N → N;                  (* [push_back] on an empty sequence *)
  y_map : list (bytes * N) → N         (* assignments to an empty map *)
}.

(** The outcome of a conversion. *)
Inductive cast (A : Type) := Casted (a : A) | CastThrows (e : exn).
Arguments Casted {A} a. Arguments CastThrows {A} e.
Definition cast_bind {A B} (c : cast A) (k : A → cast B) : cast B :=
  match c with Casted a => k a | CastThrows e => CastThrows e end.
Fixpoint cast_all {A B} (f : A → cast B) (l : list A) : cast (list B) :=
  match l with
  | [] => Casted []
  | a :: l => cast_bind (f a) (λ b, cast_bind (cast_all f l) (λ bs, Casted (b :: bs)))
  end.

Class Castable (T V : Type) := {
  from_str : T → bytes → cast V;
  to_str : T → V → cast bytes;
  val_eqb : V → V → bool
}.

Definition valid_chars : bytes := str "abcdefghijklmnopqrstuvwxyz_.0123456789".
Definition valid_name (name : bytes) : bool := bool_decide (find_first_not_of valid_chars name = None).

Section registry.
Context {T V W N : Type} `{EqDecision T} `{Castable T V} `{YamlOps N}.

Record ConfigVar := mkConfigVar {
  m_name : bytes;
  m_description : bytes;
  m_type : T;
  m_val : V;
  m_cbs : list (Z * (V → V → M W ()))
}.
Record config := mkConfig {
  vars : list ConfigVar;
  datas : list (bytes * nat);
  s_fun_id : T → Z;
  world : W
}.
Abbreviation C := config.

Definition on_world {A} (m : M W A) : M C A := λ c,
  match m (world c) with
  | Ret a w => Ret a (mkConfig (vars c) (datas c) (s_fun_id c) w)
  | Throw e w => Throw e (mkConfig (vars c) (datas c) (s_fun_id c) w)
  | Crash f => Crash f
  end.
Definition the_var (i : nat) : M C ConfigVar := l ← gets vars; deref (l !! i).
Definition update_var (i : nat) (f : ConfigVar → ConfigVar) : M C () :=
  modify (λ c, mkConfig (alter f i (vars c)) (datas c) (s_fun_id c) (world c)).
Definition with_val (v : V) (x : ConfigVar) : ConfigVar := mkConfigVar (m_name x) (m_description x) (m_type x) v (m_cbs x).
Definition with_cbs (l : list (Z * (V → V → M W ()))) (x : ConfigVar) : ConfigVar :=
  mkConfigVar (m_name x) (m_description x) (m_type x) (m_val x) l.

Definition new_ConfigVar (t : T) (name : bytes) (default_val : V) (description : bytes) : ConfigVar :=
  mkConfigVar (map tolower name) description t default_val [].

(** ** A variable *)

Definition getValue (i : nat) : M C V := x ← the_var i; mret (m_val x).

Fixpoint notify (cbs : list (Z * (V → V → M W ()))) (old_value new_value : V) : M C () :=
  match cbs with
  | [] => mret tt
  | (_, cb) :: cbs => on_world (cb old_value new_value);; notify cbs old_value new_value
  end.
Definition setValue (i : nat) (v : V) : M C () :=
  x ← the_var i;
  if val_eqb (m_val x) v then mret tt else
  notify (m_cbs x) (m_val x) v;; update_var i (with_val v).

Definition toString (i : nat) : M C bytes :=
  x ← the_var i;
  match to_str (m_type x) (m_val x) with
  | Casted s => mret s
  | CastThrows bad_lexical_cast => mret []
  | CastThrows e => throw e
  end.
(** The [catch] clause also sees what the listeners throw. *)
Definition fromString (i : nat) (val : bytes) : M C bool := λ c,
  match (x ← the_var i;
         match from_str (m_type x) val with
         | Casted v => setValue i v
         | CastThrows e => throw e
         end) c with
  | Ret _ c => Ret true c
  | Throw bad_lexical_cast c => Ret false c
  | Throw e c => Throw e c
  | Crash f => Crash f
  end.

(** Listeners are numbered per type; the numbers grow, so the map stays in
    order. *)
Definition addListener (i : nat) (cb : V → V → M W ()) : M C Z :=
  x ← the_var i;
  ids ← gets s_fun_id;
  let id := u64 (ids (m_type x) + 1) in
  modify (λ c, mkConfig (vars c) (datas c) (λ t, if decide (t = m_type x) then id else s_fun_id c t) (world c));;
  update_var i (with_cbs (m_cbs x ++ [(id, cb)]));;
  mret id.
Definition delListener (i : nat) (key : Z) : M C () :=
  x ← the_var i; update_var i (with_cbs (filter (λ p, p.1 ≠ key) (m_cbs x))).
Definition getListener (i : nat) (key : Z) : M C (option (V → V → M W ())) :=
  x ← the_var i; mret ((λ r, r.2.2) <$> list_find (λ p, p.1 = key) (m_cbs x)).
Definition clearListener (i : nat) : M C () := update_var i (with_cbs []).

(** ** The registry *)

Fixpoint find_var (name : bytes) (l : list (bytes * nat)) : option nat :=
  match l with
  | [] => None
  | (n, i) :: l => if decide (n = name) then Some i else find_var name l
  end.
(** [GetDatas()[name] = v]. *)
Fixpoint assign_var (name : bytes) (i : nat) (l : list (bytes * nat)) : list (bytes * nat) :=
  match l with
  | [] => [(name, i)]
  | (n, j) :: l => if decide (n = name) then (n, i) :: l else (n, j) :: assign_var name i l
  end.

(** The end of [Lookup]: a new variable under the name, also when another is there. *)
Definition create (t : T) (name : bytes) (default_val : V) (description : bytes) : M C nat :=
  if negb (valid_name name) then throw invalid_argument else
  i ← gets (λ c, length (vars c));
  modify (λ c, mkConfig (vars c ++ [new_ConfigVar t name default_val description]) (assign_var name i (datas c))
                 (s_fun_id c) (world c));;
  mret i.
Definition Lookup (t : T) (name : bytes) (default_val : V) (description : bytes) : M C nat :=
  c ← gets id;
  match find_var name (datas c) with
  | Some i =>
      x ← the_var i;
      if decide (m_type x = t) then mret i else create t name default_val description
  | None => create t name default_val description
  end.
Definition Lookup_existing (t : T) (name : bytes) : M C (option nat) :=
  c ← gets id;
  match find_var name (datas c) with
  | Some i => x ← the_var i; mret (if decide (m_type x = t) then Some i else None)
  | None => mret None
  end.
Definition LookupBase (name : bytes) : M C (option nat) := c ← gets id; mret (find_var name (datas c)).
Definition Visit {A} (cb : nat → M C A) : M C () := l ← gets datas; mapM (λ p, cb p.2) l;; mret tt.

(** ** Loading *)

Definition sub_key (prefix key : bytes) : bytes := match prefix with [] => key | _ => prefix ++ str "." ++ key end.

Fixpoint ListAllMember (fuel : nat) (prefix : bytes) (node : N) (output : list (bytes * N)) : M C (list (bytes * N)) :=
  match fuel with
  | 0%nat => crash Diverges
  | S f =>
      if negb (valid_name prefix) then mret output else
      let output := output ++ [(prefix, node)] in
      if y_IsMap node then
        match y_entries node with
        | Some entries =>
            foldl (λ acc it, out ← acc; ListAllMember f (sub_key prefix it.1) it.2 out) (mret output) entries
        | None => throw yaml_exception
        end
      else mret output
  end.

Fixpoint load_loop (all_nodes : list (bytes * N)) : M C () :=
  match all_nodes with
  | [] => mret tt
  | (key, node) :: all_nodes =>
      (match key with
       | [] => mret tt
       | _ =>
           var ← LookupBase (map tolower key);
           match var with
           | Some i => _ ← fromString i (match y_Scalar node with Some s => s | None => y_dump node end); mret tt
           | None => mret tt
           end
       end);;
      load_loop all_nodes
  end.
Definition LoadFromYaml (fuel : nat) (root : N) : M C () :=
  all_nodes ← ListAllMember fuel [] root []; load_loop all_nodes.
End registry.

Section registry_facts.
Context {T V W N : Type} `{EqDecision T} `{Castable T V} `{YamlOps N}.
Abbreviation C := (config (T := T) (V := V) (W := W)).

(** ** Setting a value *)

(** The world after the listeners have run, in order. *)
Fixpoint told (cbs : list (Z * (V → V → M W ()))) (old_value new_value : V) (w w' : W) : Prop :=
  match cbs with
  | [] => w' = w
  | (_, cb) :: cbs => ∃ w1, cb old_value new_value w = Ret tt w1 ∧ told cbs old_value new_value w1 w'
  end.

Definition set_world (w : W) (c : C) : C := mkConfig (vars c) (datas c) (s_fun_id c) w.

Lemma notify_told cbs old new (c : C) w' : told cbs old new (world c) w' → notify cbs old new c = Ret tt (set_world w' c).
Proof.
  revert c. induction cbs as [|[k cb] cbs IH]; intros c Ht; cbn [notify told] in *.
  - rewrite Ht. by destruct c.
  - destruct Ht as (w1&Hcb&Ht). unfold on_world. cbv [mbind M_bind]. rewrite Hcb.
    exact (IH (set_world w1 c) Ht).
Qed.

Lemma setValue_spec i v (c : C) x w' : vars c !! i = Some x → told (m_cbs x) (m_val x) v (world c) w' →
  setValue i v c = Ret tt (if val_eqb (m_val x) v then c
                           else mkConfig (alter (with_val v) i (vars c)) (datas c) (s_fun_id c) w').
Proof.
  intros Hx Ht. unfold setValue, the_var. rewrite bind_assoc, bind_gets, Hx. simpl. unfold deref. rewrite bind_mret.
  destruct (val_eqb (m_val x) v); [done|]. mstep (notify_told _ _ _ c w' Ht). done.
Qed.

(** ** The members of a document *)

(** [member p n k m]: below node [n], which has the name [p], there is [m] with the
    name [k], and every name on the way is valid. *)
Inductive member : bytes → N → bytes → N → Prop :=
  | member_here p n : valid_name p = true → member p n p n
  | member_below p n entries key sub k m : valid_name p = true → y_IsMap n = true → y_entries n = Some entries →
      (key, sub) ∈ entries → member (sub_key p key) sub k m → member p n k m.

(** Documents of bounded depth whose map keys have text. *)
Inductive shallow : nat → N → Prop :=
  | shallow_leaf d n : y_IsMap n = false → shallow (S d) n
  | shallow_map d n entries : y_IsMap n = true → y_entries n = Some entries →
      (∀ key sub, (key, sub) ∈ entries → shallow d sub) → shallow (S d) n.

Lemma member_inv p n k m : member p n k m → valid_name p = true.
Proof. by destruct 1. Qed.

(** The members in the order of the document, a node before those below it. *)
Fixpoint members (fuel : nat) (p : bytes) (n : N) : list (bytes * N) :=
  match fuel with
  | 0%nat => []
  | S f =>
      if negb (valid_name p) then [] else
      (p, n) :: if y_IsMap n then concat (map (λ it, members f (sub_key p it.1) it.2) (default [] (y_entries n))) else []
  end.

Lemma ListAllMember_spec d p n out (c : C) : shallow d n → ListAllMember d p n out c = Ret (out ++ members d p n) c.
Proof.
  revert p n out. induction d as [|d IH]; intros p n out Hs; [inversion Hs|]. cbn [ListAllMember members].
  destruct (valid_name p); cbn [negb]; [|by rewrite app_nil_r].
  inversion Hs as [? ? Hm|? ? entries Hm He Hall]; subst; rewrite Hm; [done|]. rewrite He. cbn [default].
  assert (∀ es (acc : M C (list (bytes * N))) o, (∀ key sub, (key, sub) ∈ es → shallow d sub) → acc c = Ret o c →
    foldl (λ acc it, out ← acc; ListAllMember d (sub_key p it.1) it.2 out) acc es c =
    Ret (o ++ concat (map (λ it, members d (sub_key p it.1) it.2) es)) c) as Hfold.
  { induction es as [|[key sub] es IHes]; intros acc o Hes Hacc; cbn [foldl map concat]; [by rewrite app_nil_r|].
    rewrite app_assoc. apply IHes; [intros k' s' Hin; apply (Hes k'); by right|]. mstep Hacc.
    apply IH, (Hes key). by left. }
  rewrite (Hfold entries (mret (out ++ [(p, n)]) : M C _) (out ++ [(p, n)]) Hall); [by rewrite <- app_assoc|reflexivity].
Qed.

Lemma members_spec d p n k m : shallow d n → (k, m) ∈ members d p n ↔ member p n k m.
Proof.
  revert p n. induction d as [|d IH]; intros p n Hs; [inversion Hs|]. cbn [members].
  destruct (valid_name p) eqn:Ev; cbn [negb].
  2: { split; [by intros ?%not_elem_of_nil|]. intros Hm%member_inv. congruence. }
  rewrite elem_of_cons. inversion Hs as [? ? Hm|? ? entries Hm He Hall]; subst; rewrite Hm.
  { split.
    - intros [[= -> ->]|?%not_elem_of_nil]; [by apply member_here|done].
    - intros Hk. inversion Hk; subst; [by left|congruence]. }
  rewrite He. cbn [default]. split.
  - intros [[= -> ->]|Hin]; [by apply member_here|].
    apply list_elem_of_In, in_concat in Hin as (l&Hl&Hin). apply in_map_iff in Hl as ([key sub]&<-&Hes).
    apply list_elem_of_In in Hes, Hin. eapply member_below; [done..|]. apply IH; [by eapply Hall|done].
  - intros Hk. inversion Hk as [|? ? entries' key sub ? ? ? ? He' Hin Hsub]; subst; [by left|right].
    rewrite He in He'. injection He' as <-. apply list_elem_of_In, in_concat.
    exists (members d (sub_key p key) sub). split; [|apply list_elem_of_In, IH; [by eapply Hall|done]].
    apply in_map_iff. exists (key, sub). split; [done|by apply list_elem_of_In].
Qed.

(** ** Loading *)

Lemma valid_lower name : valid_name name = true → map tolower name = name.
Proof.
  unfold valid_name. rewrite bool_decide_eq_true. induction name as [|c name IH]; [done|]. cbn [find_first_not_of].
  destruct (in_set valid_chars c) eqn:Ec; [|done]. intros Hn.
  destruct (find_first_not_of valid_chars name) eqn:En; [done|]. cbn [map]. rewrite (IH eq_refl). f_equal.
  unfold in_set in Ec. apply bool_decide_eq_true in Ec.
  assert (Forall (λ c, tolower c = c) valid_chars) as Hall by (apply (bool_decide_unpack _); vm_compute; exact I).
  exact (proj1 (Forall_forall _ _) Hall c Ec).
Qed.

(** The text a node is converted from. *)
Definition node_text (n : N) : bytes := match y_Scalar n with Some s => s | None => y_dump n end.

(** The conversions of the members [l] that variable [i] of the registry [d] gets. *)
Definition settings (i : nat) (t : T) (d : list (bytes * nat)) (l : list (bytes * N)) : list V :=
  omap (λ m, match m.1 with
             | [] => None
             | _ => if decide (find_var (map tolower m.1) d = Some i) then
                      match from_str t (node_text m.2) with Casted v => Some v | CastThrows _ => None end
                    else None
             end) l.

#[local] Arguments settings : simpl never.

(** Listeners that return, and conversions that succeed or say [bad_lexical_cast]. *)
Definition quiet (x : ConfigVar (T := T) (V := V) (W := W)) : Prop :=
  Forall (λ p, ∀ old new w, ∃ w', p.2 old new w = Ret tt w') (m_cbs x) ∧
  ∀ s, (∃ v, from_str (m_type x) s = Casted v) ∨ from_str (m_type x) s = CastThrows bad_lexical_cast.

Lemma quiet_told x old new w : quiet x → ∃ w', told (m_cbs x) old new w w'.
Proof.
  intros [Hq _]. revert w. induction (m_cbs x) as [|[k cb] cbs IH]; intros w; cbn [told]; [by eexists|].
  apply Forall_cons in Hq as [Hcb Hq]. destruct (Hcb old new w) as (w1&Hw1). simpl in Hw1.
  destruct (IH Hq w1) as (w'&Hw'). by exists w', w1.
Qed.

(** The registry [c'] is [c] with other values. *)
Definition revalued (f : nat → ConfigVar (T := T) (V := V) (W := W) → V) (c c' : C) : Prop :=
  datas c' = datas c ∧ s_fun_id c' = s_fun_id c ∧ ∀ i, vars c' !! i = (λ x, with_val (f i x) x) <$> vars c !! i.

Lemma with_val_id (x : ConfigVar (T := T) (V := V) (W := W)) : with_val (m_val x) x = x.
Proof. by destruct x. Qed.

Lemma fromString_spec i s (c : C) x : (∀ a b, val_eqb a b = true ↔ a = b) → vars c !! i = Some x → quiet x →
  ∃ b c', fromString i s c = Ret b c' ∧
    revalued (λ j y, if decide (j = i) then match from_str (m_type x) s with Casted v => v | CastThrows _ => m_val y end
                     else m_val y) c c'.
Proof.
  intros Heq Hx Hq. unfold fromString, the_var. cbv [mbind M_bind]. unfold gets, deref. rewrite Hx. simpl.
  destruct (proj2 Hq s) as [(v&Hv)|Hb].
  - rewrite Hv. destruct (quiet_told x (m_val x) v (world c) Hq) as (w'&Ht).
    rewrite (setValue_spec i v c x w' Hx Ht). eexists true, _. split; [reflexivity|].
    destruct (val_eqb (m_val x) v) eqn:Ev.
    + apply Heq in Ev. split; [done|]. split; [done|]. intros j. destruct (decide (j = i)) as [->|].
      * rewrite Hx. simpl. by rewrite <- Ev, with_val_id.
      * destruct (vars c !! j); [|done]. simpl. by rewrite with_val_id.
    + split; [done|]. split; [done|]. intros j. cbn [vars]. destruct (decide (j = i)) as [->|].
      * by rewrite list_lookup_alter_eq.
      * rewrite list_lookup_alter_ne by done. destruct (vars c !! j); [|done]. simpl. by rewrite with_val_id.
  - rewrite Hb. eexists false, c. split; [reflexivity|]. split; [done|]. split; [done|]. intros j.
    destruct (vars c !! j); [|done]. simpl. f_equal. by case_decide; rewrite with_val_id.
Qed.

Lemma default_last_cons (v : V) o (l : list V) :
  default v (last (option_list o ++ l)) = default (default v o) (last l).
Proof. destruct o as [a|]; [|done]. simpl. by destruct (last l) eqn:El; rewrite last_cons, El. Qed.

Lemma settings_cons i t d m l :
  settings i t d (m :: l) = option_list (head (settings i t d [m])) ++ settings i t d l.
Proof. unfold settings. simpl. by case_match. Qed.

Lemma load_nodes_spec l (c : C) : (∀ a b, val_eqb a b = true ↔ a = b) →
  (∀ i x, vars c !! i = Some x → quiet x) → (∀ n i, find_var n (datas c) = Some i → is_Some (vars c !! i)) →
  ∃ c', load_loop l c = Ret tt c' ∧
    revalued (λ i x, default (m_val x) (last (settings i (m_type x) (datas c) l))) c c'.
Proof.
  intros Heq. revert c. induction l as [|[k n] l IH]; intros c Hq Hd; cbn [load_loop].
  { exists c. split; [done|]. split; [done|]. split; [done|]. intros i. simpl.
    by destruct (vars c !! i) as [[]|]. }
  assert (∃ c1, (match k with
       | [] => mret tt
       | _ =>
           var ← LookupBase (map tolower k);
           match var with
           | Some i => _ ← fromString i (match y_Scalar n with Some s => s | None => y_dump n end); mret tt
           | None => mret tt
           end
       end : M C ()) c = Ret tt c1 ∧
    revalued (λ i x, default (m_val x) (head (settings i (m_type x) (datas c) [(k, n)]))) c c1) as (c1&Hc1&R1).
  { assert (∀ f, (∀ i x, vars c !! i = Some x → f i x = None) →
      revalued (λ i x, default (m_val x) (f i x)) c c) as Hsame.
    { intros f Hf. split; [done|]. split; [done|]. intros i. destruct (vars c !! i) as [x|] eqn:Ex; [|done].
      simpl. rewrite (Hf i x Ex). by destruct x. }
    destruct k as [|b k]; [exists c; split; [done|]; by apply Hsame|].
    unfold LookupBase. rewrite bind_assoc, bind_gets, bind_mret. unfold id.
    set (key := map tolower (b :: k)). destruct (find_var key (datas c)) as [i|] eqn:Ei.
    - destruct (Hd _ _ Ei) as (x&Hx). destruct (fromString_spec i (node_text n) c x Heq Hx (Hq i x Hx)) as (r&c1&Hr&Hd1&Hf1&Hv1).
      exists c1. split; [by mstep Hr|]. split; [done|]. split; [done|]. intros j. rewrite Hv1.
      destruct (vars c !! j) as [y|] eqn:Ey; [|done]. simpl. f_equal. unfold settings. simpl. change (tolower b :: map tolower k) with key. rewrite Ei.
      destruct (decide (j = i)) as [->|Hne].
      + rewrite decide_True by done. rewrite Hx in Ey. injection Ey as <-. by destruct (from_str (m_type x) (node_text n)).
      + rewrite decide_False by congruence. done.
    - exists c. split; [done|]. apply Hsame. intros i x _. unfold settings. simpl. change (tolower b :: map tolower k) with key. rewrite Ei. by rewrite decide_False. }
  mstep Hc1. destruct R1 as (Rd&Rf&Rv).
  destruct (IH c1) as (c'&Hl&Hd'&Hf'&Hv').
  - intros i x Hx. rewrite Rv in Hx. destruct (vars c !! i) as [y|] eqn:Ey; [|done]. injection Hx as <-.
    exact (Hq i y Ey).
  - intros m i Hi. rewrite Rv. rewrite Rd in Hi. destruct (Hd m i Hi) as (y&->). by eexists.
  - exists c'. split; [done|]. split; [congruence|]. split; [congruence|]. intros i. rewrite Hv', Rv.
    destruct (vars c !! i) as [x|]; [|done]. simpl. f_equal. rewrite Rd.
    rewrite (settings_cons i (m_type x) (datas c) (k, n) l), default_last_cons. done.
Qed.

(** Names are bound to objects. *)
Definition registered (c : C) : Prop := ∀ n i, find_var n (datas c) = Some i → is_Some (vars c !! i).

End registry_facts.

(** ** Types

    [has_type t v]: the value [v] is one of type [t]. *)
Section well_typed.
Context {T V W N : Type} `{EqDecision T} `{Castable T V} `{YamlOps N} (has_type : T → V → Prop).
Abbreviation C := (config (T := T) (V := V) (W := W)).

(** [m] ends, also by an exception, in states with [I] when it starts in one. *)
Definition keeps {A} (I : C → Prop) (m : M C A) : Prop :=
  ∀ c, I c → match m c with Ret _ c' | Throw _ c' => I c' | Crash _ => True end.

Lemma keeps_bind {A B} I (m : M C A) (k : A → M C B) : keeps I m → (∀ a, keeps I (k a)) → keeps I (m ≫= k).
Proof. intros Hm Hk c Hc. cbv [mbind M_bind]. specialize (Hm c Hc). destruct (m c); [by apply Hk|done..]. Qed.
Lemma keeps_mret {A} I (a : A) : keeps I (mret a).
Proof. by intros c Hc. Qed.
Lemma keeps_gets {A} I (f : C → A) : keeps I (gets f).
Proof. by intros c Hc. Qed.
Lemma keeps_throw {A} I e : keeps (A := A) I (throw e).
Proof. by intros c Hc. Qed.
Lemma keeps_deref {A} I (o : option A) : keeps I (deref o).
Proof. by destruct o; intros c Hc. Qed.
Lemma keeps_the_var I i : keeps I (the_var i).
Proof. apply keeps_bind; [apply keeps_gets|]. intros l. apply keeps_deref. Qed.

(** Loading changes a registry by [fromString] only. *)
Lemma keeps_ListAllMember I fuel p (n : N) out : keeps I (ListAllMember fuel p n out).
Proof.
  revert p n out. induction fuel as [|f IH]; intros p n out; cbn [ListAllMember]; [by intros c Hc|].
  destruct (negb (valid_name p)); [apply keeps_mret|]. destruct (y_IsMap n); [|apply keeps_mret].
  destruct (y_entries n) as [es|]; [|apply keeps_throw].
  assert (∀ (acc : M C (list (bytes * N))), keeps I acc →
    keeps I (foldl (λ acc it, out ← acc; ListAllMember f (sub_key p it.1) it.2 out) acc es)) as Hf.
  { induction es as [|e es IHes]; intros acc Ha; [done|]. cbn [foldl]. apply IHes. apply keeps_bind; [done|].
    intros o. apply IH. }
  apply Hf, keeps_mret.
Qed.
Lemma keeps_load I fuel (root : N) : (∀ i s, keeps I (fromString i s)) → keeps I (LoadFromYaml fuel root).
Proof.
  intros HI. apply keeps_bind; [apply keeps_ListAllMember|]. intros l. induction l as [|[k n] l IH]; cbn [load_loop]; [apply keeps_mret|].
  apply keeps_bind; [|by intros _]. destruct k; [apply keeps_mret|]. apply keeps_bind; [apply keeps_gets|].
  intros [i|]; [|apply keeps_mret]. apply keeps_bind; [apply HI|]. intros b'. apply keeps_mret.
Qed.

(** Every name is valid and bound to an object, and every object holds a value of
    its type. *)
Definition typed (c : C) : Prop :=
  registered c ∧ (∀ n i, find_var n (datas c) = Some i → valid_name n = true) ∧
  ∀ i x, vars c !! i = Some x → has_type (m_type x) (m_val x).

Lemma keeps_on_world {A} (m : M W A) : keeps typed (on_world m).
Proof. intros c Hc. unfold on_world. by destruct (m (world c)). Qed.
Lemma keeps_notify cbs old new : keeps typed (notify cbs old new).
Proof.
  induction cbs as [|[k cb] cbs IH]; cbn [notify]; [apply keeps_mret|].
  apply keeps_bind; [apply keeps_on_world|]. by intros _.
Qed.

Lemma typed_alter i f (c : C) w : typed c →
  (∀ x, vars c !! i = Some x → has_type (m_type (f x)) (m_val (f x))) →
  typed (mkConfig (alter f i (vars c)) (datas c) w (world c)).
Proof.
  intros (Hr&Hn&Ht) Hf. split; [|split; [exact Hn|]]; cbn [vars datas].
  - intros n j Hj. destruct (Hr n j Hj) as [x Hx]. cbn. destruct (decide (i = j)) as [->|Hne].
    + rewrite list_lookup_alter_eq, Hx. by eexists.
    + rewrite list_lookup_alter_ne by done. by eexists.
  - intros j x. destruct (decide (i = j)) as [->|Hne].
    + rewrite list_lookup_alter_eq. destruct (vars c !! j) as [y|] eqn:Ey; [|done]. intros [= <-]. by apply Hf.
    + rewrite list_lookup_alter_ne by done. apply Ht.
Qed.

Lemma notify_vars cbs old new (c c' : C) : notify cbs old new c = Ret tt c' → vars c' = vars c.
Proof.
  revert c. induction cbs as [|[k cb] cbs IH]; intros c Hr; cbn [notify] in Hr; [by injection Hr as <-|].
  apply bind_Ret_inv in Hr as ([]&c1&H1&Hr). rewrite (IH c1 Hr). unfold on_world in H1.
  destruct (cb old new (world c)); [|done..]. by injection H1 as _ <-.
Qed.

Lemma setValue_typed i v (c : C) : typed c → (∀ x, vars c !! i = Some x → has_type (m_type x) v) →
  match setValue i v c with Ret _ c' | Throw _ c' => typed c' | Crash _ => True end.
Proof.
  intros Hc Hv. unfold setValue, the_var. rewrite bind_assoc, bind_gets.
  destruct (vars c !! i) as [x|] eqn:Ex; [|done]. unfold deref. rewrite bind_mret.
  destruct (val_eqb (m_val x) v); [done|]. cbv [mbind M_bind].
  pose proof (keeps_notify (m_cbs x) (m_val x) v c Hc) as Hn.
  destruct (notify _ _ _ c) as [[] c1|e c1|f] eqn:En; [|done..]. apply notify_vars in En.
  unfold update_var, modify. apply typed_alter; [done|]. intros y Hy. rewrite En, Ex in Hy. injection Hy as <-.
  simpl. by apply Hv.
Qed.

Context (cast_typed : ∀ t s v, from_str t s = Casted v → has_type t v).

Lemma keeps_fromString i s : keeps typed (fromString i s).
Proof.
  intros c Hc. unfold fromString, the_var. rewrite bind_assoc, bind_gets.
  destruct (vars c !! i) as [x|] eqn:Ex; [|done]. unfold deref. rewrite bind_mret.
  destruct (from_str (m_type x) s) as [v|e] eqn:Ev; [|by destruct e].
  pose proof (setValue_typed i v c Hc) as Hs.
  destruct (setValue i v c) as [a c'|[] c'|f]; try done; apply Hs; intros y Hy; rewrite Ex in Hy; injection Hy as <-; by eapply cast_typed.
Qed.

Lemma keeps_LoadFromYaml fuel (root : N) : keeps typed (LoadFromYaml fuel root).
Proof. apply keeps_load, keeps_fromString. Qed.

Lemma find_assign n m i (l : list (bytes * nat)) :
  find_var n (assign_var m i l) = if decide (m = n) then Some i else find_var n l.
Proof.
  induction l as [|[k j] l IH]; cbn [assign_var find_var]; [done|].
  destruct (decide (k = m)) as [->|Hkm]; cbn [find_var].
  - by destruct (decide (m = n)).
  - destruct (decide (k = n)) as [->|Hkn]; [by rewrite decide_False|exact IH].
Qed.

(** What a [Lookup] that answers [i] promises. *)
Definition looked_up (t : T) (name : bytes) (d : V) (desc : bytes) (c : C) (i : nat) (c' : C) : Prop :=
  typed c' ∧ find_var name (datas c') = Some i ∧
  ∃ x, vars c' !! i = Some x ∧ m_type x = t ∧
    (c' = c ∨ x = new_ConfigVar t name d desc ∧ i = length (vars c) ∧ vars c' = vars c ++ [x]).

Lemma create_typed t name d desc (c : C) : typed c → has_type t d →
  match create t name d desc c with
  | Ret i c' => valid_name name = true ∧ looked_up t name d desc c i c'
  | Throw e c' => e = invalid_argument ∧ valid_name name = false ∧ c' = c
  | Crash _ => False
  end.
Proof.
  intros (Hr&Hn&Ht) Hd. unfold create. destruct (valid_name name) eqn:Ev; [|done]. cbn [negb].
  rewrite bind_gets, bind_modify. split; [done|]. set (x := new_ConfigVar t name d desc). split; [split; [|split]|split].
  - intros n i. cbn [datas vars]. rewrite find_assign. destruct (decide (name = n)) as [->|].
    + intros [= <-]. exists x. by apply list_lookup_middle.
    + intros [y Hy]%Hr. exists y. by apply lookup_app_l_Some.
  - intros n i. cbn [datas]. rewrite find_assign. destruct (decide (name = n)) as [->|]; [done|]. apply Hn.
  - intros i y. cbn [vars]. intros [Hy|[_ Hy]]%lookup_app_Some; [by eapply Ht|].
    by apply list_lookup_singleton_Some in Hy as [_ <-].
  - cbn [datas]. by rewrite find_assign, decide_True.
  - exists x. split; [by apply list_lookup_middle|]. split; [done|]. by right.
Qed.

Lemma Lookup_typed t name d desc (c : C) : typed c → has_type t d →
  match Lookup t name d desc c with
  | Ret i c' => valid_name name = true ∧ looked_up t name d desc c i c'
  | Throw e c' => e = invalid_argument ∧ valid_name name = false ∧ c' = c
  | Crash _ => False
  end.
Proof.
  intros Hc Hd. pose proof (create_typed t name d desc c Hc Hd) as Hnew. unfold Lookup. rewrite bind_gets. unfold id.
  destruct (find_var name (datas c)) as [i|] eqn:Ei; [|exact Hnew].
  destruct Hc as (Hr&Hn&Ht). destruct (Hr _ _ Ei) as [x Hx].
  unfold the_var. rewrite bind_assoc, bind_gets, Hx. unfold deref. rewrite bind_mret.
  destruct (decide (m_type x = t)) as [Ety|Ety]; [|exact Hnew].
  split; [by eapply Hn|]. split; [done|]. split; [done|]. exists x. split; [done|]. split; [done|]. by left.
Qed.

(** The states of a registry: calls with values of the type of the variable, which
    the template parameters ensure, and anything that loads text. *)
Inductive reachable : C → Prop :=
  | reach_new w ids : reachable (mkConfig [] [] ids w)
  | reach_lookup c t name d desc i c' : reachable c → has_type t d → Lookup t name d desc c = Ret i c' → reachable c'
  | reach_set c i x v c' : reachable c → vars c !! i = Some x → has_type (m_type x) v →
      (setValue i v c = Ret tt c' ∨ ∃ e, setValue i v c = Throw e c') → reachable c'
  | reach_load c fuel root c' : reachable c →
      (LoadFromYaml fuel root c = Ret tt c' ∨ ∃ e, LoadFromYaml fuel root c = Throw e c') → reachable c'
  | reach_listener c i cb k c' : reachable c → addListener i cb c = Ret k c' → reachable c'
  | reach_unlisten c i k c' : reachable c → (delListener i k c = Ret tt c' ∨ clearListener i c = Ret tt c') → reachable c'
  | reach_world c w : reachable c → reachable (set_world w c).

Lemma reachable_typed c : reachable c → typed c.
Proof.
  induction 1 as [w ids|c t name d desc i c' _ IH Hd Hr|c i x v c' _ IH Hx Hv Hr|c fuel root c' _ IH Hr
    |c i cb k c' _ IH Hr|c i k c' _ IH Hr|c w _ IH].
  - split; [|split]; [by intros n i|by intros n i|intros i x]. cbn [vars]. by rewrite lookup_nil.
  - pose proof (Lookup_typed t name d desc c IH Hd) as Hl. rewrite Hr in Hl. by destruct Hl as (_&?&_).
  - pose proof (setValue_typed i v c IH) as Hs. destruct Hr as [Hr|[e Hr]]; rewrite Hr in Hs; apply Hs;
      intros y Hy; rewrite Hx in Hy; by injection Hy as <-.
  - pose proof (keeps_LoadFromYaml fuel root c IH) as Hl. by destruct Hr as [Hr|[e Hr]]; rewrite Hr in Hl.
  - unfold addListener, the_var in Hr. rewrite bind_assoc, bind_gets in Hr.
    destruct (vars c !! i) as [x|] eqn:Ex; [|done]. unfold deref in Hr. rewrite bind_mret, bind_gets, bind_modify in Hr.
    unfold update_var in Hr. rewrite bind_modify in Hr. injection Hr as _ <-. apply (typed_alter i _ c); [done|].
    intros y Hy. destruct IH as (_&_&IH). exact (IH i y Hy).
  - destruct Hr as [Hr|Hr].
    + unfold delListener, the_var in Hr. rewrite bind_assoc, bind_gets in Hr.
      destruct (vars c !! i) as [x|] eqn:Ex; [|done]. unfold deref in Hr. rewrite bind_mret in Hr. injection Hr as <-.
      apply typed_alter; [done|]. intros y Hy. destruct IH as (_&_&IH). exact (IH i y Hy).
    + injection Hr as <-. apply typed_alter; [done|]. intros y Hy. destruct IH as (_&_&IH). exact (IH i y Hy).
  - exact IH.
Qed.

(** C33. The registry is well typed: in every state it gets into, whatever text was
    loaded and whatever listeners threw, each name is valid and bound to a
    variable, every variable holds a value of its type, and [Lookup] of a name
    at a type gives a variable of that type under that name, the one that was
    there or a new one with the default, or throws because the name is invalid. *)
Theorem registry_well_typed c (Hc : reachable c) :
  (∀ n i, find_var n (datas c) = Some i → valid_name n = true ∧ is_Some (vars c !! i)) ∧
  (∀ i x, vars c !! i = Some x → has_type (m_type x) (m_val x)) ∧
  ∀ t name d desc, has_type t d →
    match Lookup t name d desc c with
    | Ret i c' => valid_name name = true ∧ looked_up t name d desc c i c'
    | Throw e c' => e = invalid_argument ∧ valid_name name = false ∧ c' = c
    | Crash _ => False
    end.
Proof.
  destruct (reachable_typed c Hc) as (Hr&Hn&Ht). split; [|split; [exact Ht|]].
  - intros n i Hi. split; [by eapply Hn|by eapply Hr].
  - intros t name d desc Hd. apply Lookup_typed; [|done]. by split; [|split].
Qed.
End well_typed.

(** ** LexicalCast *)

(** What the round trips rely on of yaml-cpp: a sequence or a map that was written
    is read back with the same elements, and written again gives the same text. *)
Class YamlLaws (N : Type) `{YamlOps N} := {
  law_seq ns : ∃ m, y_load (y_dump (y_seq ns)) = Some m ∧ y_dump m = y_dump (y_seq ns) ∧
    y_size m = length ns ∧ ∀ i n, ns !! i = Some n → y_dump (y_index m i) = y_dump n;
  law_map (es : list (bytes * N)) : NoDup es.*1 → ∃ m es', y_load (y_dump (y_map es)) = Some m ∧
    y_dump m = y_dump (y_map es) ∧ y_entries m = Some es' ∧
    Forall2 (λ a b, a.1 = b.1 ∧ y_dump a.2 = y_dump b.2) es' es
}.

Section lexical.
Context {L N : Type} `{YamlOps N} (leaf : L → Type).
Context (leaf_cast : ∀ l, bytes → cast (leaf l)) (leaf_show : ∀ l, leaf l → cast bytes).
Context (leaf_lt leaf_eqb : ∀ l, leaf l → leaf l → bool).

(** The types [LexicalCast] is specialised for, over basic types. *)
Inductive cty :=
  | TBasic (l : L)
  | TVector (t : cty)
  | TList (t : cty)
  | TSet (t : cty)
  | TUSet (l : L)                      (* [std::hash] is only there for basic types *)
  | TMap (t : cty)
  | TUMap (t : cty).

(** A [set] and a [map] as the list of their elements in order, the unordered ones
    as the list of their elements in the order in which they are iterated over. *)
Fixpoint val (t : cty) : Type :=
  match t with
  | TBasic l => leaf l
  | TVector t | TList t | TSet t => list (val t)
  | TUSet l => list (leaf l)
  | TMap t | TUMap t => list (bytes * val t)
  end.

(** Where a hash table has a new element afterwards, and what else moves. *)
Context (hash_insert : ∀ l, leaf l → list (leaf l) → list (leaf l)).
Context (hash_insert_pair : ∀ t, bytes * val t → list (bytes * val t) → list (bytes * val t)).

(** The types with an [operator<], which is what a [set] needs of its elements. *)
Fixpoint ordered (t : cty) : bool :=
  match t with
  | TBasic _ => true
  | TVector t | TList t | TSet t | TMap t => ordered t
  | TUSet _ | TUMap _ => false
  end.
Fixpoint compiles (t : cty) : bool :=
  match t with
  | TBasic _ | TUSet _ => true
  | TVector t | TList t | TMap t | TUMap t => compiles t
  | TSet t => ordered t && compiles t
  end.

(** [std::less] of the containers is lexicographic. *)
Fixpoint lex {A} (lt : A → A → bool) (a b : list A) : bool :=
  match a, b with
  | x :: a, y :: b => if lt x y then true else if lt y x then false else lex lt a b
  | [], _ :: _ => true
  | _, [] => false
  end.
Definition bytes_lt : bytes → bytes → bool := lex (λ x y, code x <? code y).
Fixpoint val_lt (t : cty) : val t → val t → bool :=
  match t with
  | TBasic l => leaf_lt l
  | TVector t | TList t | TSet t => lex (val_lt t)
  | TMap t => lex (λ x y, if bytes_lt x.1 y.1 then true else if bytes_lt y.1 x.1 then false else val_lt t x.2 y.2)
  | TUSet _ | TUMap _ => λ _ _, false  (* not [ordered] *)
  end.

(** [insert] of a set or a map: an equal element stays. *)
Fixpoint insert_sorted {A} (lt : A → A → bool) (x : A) (l : list A) : list A :=
  match l with
  | [] => [x]
  | y :: l' => if lt x y then x :: l else if lt y x then y :: insert_sorted lt x l' else l
  end.
Definition key_lt {A} (x y : bytes * A) : bool := bytes_lt x.1 y.1.
(** The same for a hash table. *)
Definition hash_add {A} (eqb : A → A → bool) (ins : A → list A → list A) (x : A) (l : list A) : list A :=
  if existsb (eqb x) l then l else ins x l.
Definition key_eqb {A} (x y : bytes * A) : bool := bool_decide (x.1 = y.1).

Definition load (v : bytes) : cast N := match y_load v with Some n => Casted n | None => CastThrows yaml_exception end.
Definition elements (node : N) : list bytes := map (λ i, y_dump (y_index node i)) (seq 0 (y_size node)).

Fixpoint from_string (t : cty) : bytes → cast (val t) :=
  match t with
  | TBasic l => leaf_cast l
  | TVector t | TList t => λ v, cast_bind (load v) (λ node, cast_all (from_string t) (elements node))
  | TSet t => λ v, cast_bind (load v) (λ node,
      cast_bind (cast_all (from_string t) (elements node)) (λ l,
      Casted (foldl (λ s x, insert_sorted (val_lt t) x s) [] l)))
  | TUSet l => λ v, cast_bind (load v) (λ node,
      cast_bind (cast_all (leaf_cast l) (elements node)) (λ xs,
      Casted (foldl (λ s x, hash_add (leaf_eqb l) (hash_insert l) x s) [] xs)))
  | TMap t => λ v, cast_bind (load v) (λ node,
      match y_entries node with
      | None => CastThrows yaml_exception
      | Some es =>
          cast_bind (cast_all (λ it, cast_bind (from_string t (y_dump it.2)) (λ x, Casted (it.1, x))) es) (λ l,
          Casted (foldl (λ s x, insert_sorted key_lt x s) [] l))
      end)
  | TUMap t => λ v, cast_bind (load v) (λ node,
      match y_entries node with
      | None => CastThrows yaml_exception
      | Some es =>
          cast_bind (cast_all (λ it, cast_bind (from_string t (y_dump it.2)) (λ x, Casted (it.1, x))) es) (λ l,
          Casted (foldl (λ s x, hash_add key_eqb (hash_insert_pair t) x s) [] l))
      end)
  end.

Fixpoint to_string (t : cty) : val t → cast bytes :=
  match t with
  | TBasic l => leaf_show l
  | TVector t | TList t | TSet t => λ v,
      cast_bind (cast_all (λ i, cast_bind (to_string t i) load) v) (λ ns, Casted (y_dump (y_seq ns)))
  | TUSet l => λ v,
      cast_bind (cast_all (λ i, cast_bind (leaf_show l i) load) v) (λ ns, Casted (y_dump (y_seq ns)))
  | TMap t | TUMap t => λ v,
      cast_bind (cast_all (λ i, cast_bind (to_string t i.2) (λ s, cast_bind (load s) (λ n, Casted (i.1, n)))) v)
        (λ es, Casted (y_dump (y_map es)))
  end.

(** ** Values that can be written *)

(** A basic value whose text is its own in YAML: read as one node and written
    again it is the same text, which converts back. *)
Definition plain (l : L) (v : leaf l) : Prop :=
  ∃ s n, leaf_show l v = Casted s ∧ leaf_cast l s = Casted v ∧ y_load s = Some n ∧ y_dump n = s.

Definition strictly {A} (lt : A → A → bool) (x y : A) : Prop := lt x y = true ∧ lt y x = false.

(** Values of plain basic values, sets and maps in strict order, hash tables
    without equal elements. *)
Fixpoint writable (t : cty) : val t → Prop :=
  match t with
  | TBasic l => plain l
  | TVector t | TList t => Forall (writable t)
  | TSet t => λ v, Forall (writable t) v ∧ StronglySorted (strictly (val_lt t)) v
  | TUSet l => λ v, Forall (plain l) v ∧ StronglySorted (λ y x, leaf_eqb l x y = false) v
  | TMap t => λ v, Forall (λ i, writable t i.2) v ∧ NoDup v.*1 ∧ StronglySorted (strictly key_lt) v
  | TUMap t => λ v, Forall (λ i, writable t i.2) v ∧ NoDup v.*1
  end.

(** [operator==]: hash tables are equal with their elements in any order. *)
Fixpoint same (t : cty) : val t → val t → Prop :=
  match t with
  | TBasic l => eq
  | TVector t | TList t => Forall2 (same t)
  | TSet t => eq
  | TUSet l => Permutation
  | TMap t => Forall2 (λ a b, a.1 = b.1 ∧ same t a.2 b.2)
  | TUMap t => λ a b, ∃ c, a ≡ₚ c ∧ Forall2 (λ a b, a.1 = b.1 ∧ same t a.2 b.2) c b
  end.

Lemma same_ordered t a b : ordered t = true → same t a b → a = b.
Proof.
  revert a b. induction t as [l|t IH|t IH|t IH|l|t IH|t IH]; intros a b Ho Hs; simpl in *; try done.
  - induction Hs; f_equal; auto.
  - induction Hs; f_equal; auto.
  - induction Hs as [|[k x] [k' y] a b [Hk Hx] _ IHs]; simpl in *; [done|]. rewrite Hk, (IH x y Ho Hx). by f_equal.
Qed.

(** ** Insertion *)

Lemma sorted_before {A} (R : A → A → Prop) a x l : StronglySorted R (a ++ x :: l) → Forall (λ y, R y x) a.
Proof.
  induction a as [|y a IH]; simpl; [done|]. intros [Hs Hy]%StronglySorted_inv. constructor; [|by apply IH].
  apply Forall_app in Hy as [_ Hy]. by apply Forall_cons in Hy as [? _].
Qed.
Lemma sorted_related {A B} (R : A → A → Prop) (R' : B → B → Prop) (Q : A → B → Prop) l k :
  (∀ a b a' b', Q a b → Q a' b' → R' b b' → R a a') → Forall2 Q l k → StronglySorted R' k → StronglySorted R l.
Proof.
  intros HR. induction 1 as [|a b l k Hab Hlk IH]; intros Hs; [constructor|].
  apply StronglySorted_inv in Hs as [Hs Hb]. constructor; [by apply IH|].
  clear IH Hs. induction Hlk as [|a' b' l k Hab' _ IH]; [constructor|]. apply Forall_cons in Hb as [Hb Hk].
  constructor; [by eapply HR|by apply IH].
Qed.

Lemma insert_last {A} (lt : A → A → bool) l x : Forall (λ y, strictly lt y x) l → insert_sorted lt x l = l ++ [x].
Proof. induction 1 as [|y l [Hlt Hgt] _ IH]; [done|]. simpl. by rewrite Hgt, Hlt, IH. Qed.

Lemma insert_all {A} (lt : A → A → bool) l : StronglySorted (strictly lt) l →
  foldl (λ s x, insert_sorted lt x s) [] l = l.
Proof.
  intros Hs. assert (∀ a l, StronglySorted (strictly lt) (a ++ l) → foldl (λ s x, insert_sorted lt x s) a l = a ++ l) as Hf;
    [|exact (Hf [] l Hs)].
  clear l Hs. intros a l. revert a. induction l as [|x l IH]; intros a Hs; simpl; [by rewrite app_nil_r|].
  rewrite (insert_last lt a x (sorted_before _ _ _ _ Hs)), IH by (by rewrite <- app_assoc). by rewrite <- app_assoc.
Qed.

Lemma hash_all {A} (eqb : A → A → bool) ins l : (∀ x s, ins x s ≡ₚ x :: s) →
  StronglySorted (λ y x, eqb x y = false) l → foldl (λ s x, hash_add eqb ins x s) [] l ≡ₚ l.
Proof.
  intros Hins Hs.
  assert (∀ a s l, s ≡ₚ a → StronglySorted (λ y x, eqb x y = false) (a ++ l) →
    foldl (λ s x, hash_add eqb ins x s) s l ≡ₚ a ++ l) as Hf; [|by apply (Hf [] [] l)].
  clear l Hs. intros a s l. revert a s. induction l as [|x l IH]; intros a s Hp Hs; simpl; [by rewrite app_nil_r|].
  assert (existsb (eqb x) s = false) as Hx.
  { apply sorted_before in Hs. rewrite <- Hp in Hs. clear - Hs. induction Hs as [|y s Hy _ IH]; [done|]. simpl. by rewrite Hy, IH. }
  unfold hash_add at 2. rewrite Hx, cons_middle, app_assoc. apply IH; [|by rewrite <- app_assoc].
  rewrite Hins, Hp. apply Permutation_cons_append.
Qed.

Lemma distinct_keys {A} (l : list (bytes * A)) : NoDup l.*1 → StronglySorted (λ y x, key_eqb x y = false) l.
Proof.
  induction l as [|[k x] l IH]; [constructor|]. rewrite fmap_cons, NoDup_cons. intros [Hk Hl]. constructor; [by apply IH|].
  apply Forall_forall. intros [k' y] Hy. apply bool_decide_eq_false. simpl. intros ->. apply Hk.
  apply list_elem_of_fmap. by exists (k, y).
Qed.

Context `{!YamlLaws N}.
Context (law_insert : ∀ l x s, hash_insert l x s ≡ₚ x :: s) (law_insert_pair : ∀ t x s, hash_insert_pair t x s ≡ₚ x :: s).

(** ** Texts *)

(** What a text is, for a value: it converts back and is its own in YAML. *)
Definition writes (t : cty) (v : val t) (s : bytes) : Prop :=
  to_string t v = Casted s ∧ (∃ w, from_string t s = Casted w ∧ same t w v) ∧ ∃ n, y_load s = Some n ∧ y_dump n = s.

Lemma cast_all_Forall2 {A B} (f : A → cast B) l k : Forall2 (λ a b, f a = Casted b) l k → cast_all f l = Casted k.
Proof. induction 1 as [|a b l k Hab _ IH]; simpl; [done|]. by rewrite Hab, IH. Qed.

Lemma Forall_exists {A B} (P : A → B → Prop) l : Forall (λ a, ∃ b, P a b) l → ∃ k, Forall2 P l k.
Proof.
  induction 1 as [|a l [b Hb] _ [k IH]]; [by exists []|]. exists (b :: k). by constructor.
Qed.

(** The nodes made of the elements [v], and what is read back from them. *)
Lemma cast_nodes t v : Forall (λ x, ∃ s, writes t x s) v → ∃ ns w,
  cast_all (λ i, cast_bind (to_string t i) load) v = Casted ns ∧
  Forall2 (λ x n, from_string t (y_dump n) = Casted x) w ns ∧ Forall2 (same t) w v.
Proof.
  intros Hv. assert (Forall (λ x, ∃ p : N * val t, cast_bind (to_string t x) load = Casted p.1 ∧
    from_string t (y_dump p.1) = Casted p.2 ∧ same t p.2 x) v) as Hn.
  { eapply Forall_impl; [exact Hv|]. intros x (s&Hs&(w&Hf&Hw)&n&Hl&Hd). exists (n, w). unfold load. rewrite Hs. simpl.
    by rewrite Hl, Hd. }
  apply Forall_exists in Hn as (k&Hk). exists k.*1, k.*2. split_and!.
  - apply cast_all_Forall2, Forall2_fmap_r. eapply Forall2_impl; [exact Hk|]. by intros x n [? _].
  - apply Forall2_fmap, Forall_Forall2_diag. clear Hv. induction Hk as [|x p v k (_&?&_) _ IH]; by constructor.
  - apply Forall2_fmap_l, Forall2_flip. eapply Forall2_impl; [exact Hk|]. by intros x n (_&_&?).
Qed.

Lemma cast_elements t v ns m : Forall2 (λ x n, from_string t (y_dump n) = Casted x) v ns → y_size m = length ns →
  (∀ i n, ns !! i = Some n → y_dump (y_index m i) = y_dump n) → cast_all (from_string t) (elements m) = Casted v.
Proof.
  intros Hv Hm Hi. apply cast_all_Forall2. unfold elements. rewrite Hm, <- (Forall2_length _ _ _ Hv).
  apply Forall2_fmap_l, Forall2_same_length_lookup_2; [by rewrite length_seq|].
  intros i j x Hj Hx. apply lookup_seq in Hj as [-> _]. simpl.
  destruct (Forall2_lookup_l _ _ _ _ _ Hv Hx) as (n&Hn&Hf). by rewrite (Hi i n Hn).
Qed.

Lemma writes_seq t v : Forall (λ x, ∃ s, writes t x s) v → ∃ s m w,
  cast_bind (cast_all (λ i, cast_bind (to_string t i) load) v) (λ ns, Casted (y_dump (y_seq ns))) = Casted s ∧
  y_load s = Some m ∧ y_dump m = s ∧ cast_all (from_string t) (elements m) = Casted w ∧ Forall2 (same t) w v.
Proof.
  intros Hv. destruct (cast_nodes t v Hv) as (ns&w&Hns&Hf&Hw). destruct (law_seq ns) as (m&Hl&Hd&Hs&Hi).
  exists (y_dump (y_seq ns)), m, w. rewrite Hns. split_and!; try done. by eapply cast_elements.
Qed.

Lemma writes_map t (v : list (bytes * val t)) : Forall (λ i, ∃ s, writes t i.2 s) v → NoDup v.*1 → ∃ s m es w,
  to_string (TMap t) v = Casted s ∧ y_load s = Some m ∧ y_dump m = s ∧ y_entries m = Some es ∧
  cast_all (λ it, cast_bind (from_string t (y_dump it.2)) (λ x, Casted (it.1, x))) es = Casted w ∧
  Forall2 (λ a b, a.1 = b.1 ∧ same t a.2 b.2) w v.
Proof.
  intros Hv Hk.
  assert (Forall (λ i, ∃ p : bytes * N * val t,
    cast_bind (to_string t i.2) (λ s, cast_bind (load s) (λ n, Casted (i.1, n))) = Casted p.1 ∧
    p.1.1 = i.1 ∧ from_string t (y_dump p.1.2) = Casted p.2 ∧ same t p.2 i.2) v) as Hn.
  { eapply Forall_impl; [exact Hv|]. intros [k x] (s&Hs&(w&Hf&Hw)&n&Hl&Hd). simpl in *. exists (k, n, w). unfold load.
    rewrite Hs. simpl. rewrite Hl. simpl. by rewrite Hd. }
  apply Forall_exists in Hn as (ps&Hn).
  assert (NoDup ps.*1.*1) as Hnd.
  { replace ps.*1.*1 with v.*1; [done|]. clear - Hn. induction Hn as [|i e v es (_&He&_) _ IH]; [done|].
    rewrite !fmap_cons. by f_equal. }
  destruct (law_map ps.*1 Hnd) as (m&es'&Hl&Hd&He&Hes).
  exists (y_dump (y_map ps.*1)), m, es', (zip v.*1 ps.*2). split_and!; try done.
  - simpl. rewrite (cast_all_Forall2 _ v ps.*1); [done|]. apply Forall2_fmap_r.
    eapply Forall2_impl; [exact Hn|]. by intros i e [? _].
  - apply cast_all_Forall2. clear - Hn Hes. revert es' Hes. induction Hn as [|i p v ps (_&H3&H4&_) _ IH]; intros es' Hes.
    + apply Forall2_nil_inv_r in Hes as ->. constructor.
    + apply Forall2_cons_inv_r in Hes as ([k n]&es&[H1 H2]&Hes&->). constructor; [|by apply IH].
      simpl in *. by rewrite H2, H4, H1, H3.
  - clear - Hn. induction Hn as [|i p v ps (_&_&_&Hp) _ IH]; [constructor|]. by constructor.
Qed.

(** ** Round trip *)

Lemma writes_leaf l (v : leaf l) : plain l v → ∃ s, writes (TBasic l) v s.
Proof. intros (s&n&Hs&Hc&Hl&Hd). exists s. split; [done|]. split; [by exists v|by exists n]. Qed.

Lemma writes_all t (v : val t) : compiles t = true → writable t v → ∃ s, writes t v s.
Proof.
  induction t as [l|t IH|t IH|t IH|l|t IH|t IH]; simpl; intros Ht Hv.
  - by apply writes_leaf.
  - destruct (writes_seq t v) as (s&m&w&Hs&Hl&Hd&Hc&Hw); [eapply Forall_impl; [exact Hv|auto]|].
    exists s. split; [exact Hs|]. split; [|by exists m]. exists w. split; [|exact Hw]. simpl. unfold load. by rewrite Hl.
  - destruct (writes_seq t v) as (s&m&w&Hs&Hl&Hd&Hc&Hw); [eapply Forall_impl; [exact Hv|auto]|].
    exists s. split; [exact Hs|]. split; [|by exists m]. exists w. split; [|exact Hw]. simpl. unfold load. by rewrite Hl.
  - apply andb_true_iff in Ht as [Ho Ht]. destruct Hv as [Hv Hsort].
    destruct (writes_seq t v) as (s&m&w&Hs&Hl&Hd&Hc&Hw); [eapply Forall_impl; [exact Hv|auto]|].
    assert (w = v) as -> by (by apply (same_ordered (TVector t))).
    exists s. split; [exact Hs|]. split; [|by exists m]. exists v. split; [|done]. simpl. unfold load. rewrite Hl. simpl.
    rewrite Hc. simpl. by rewrite insert_all.
  - destruct Hv as [Hv Hsort].
    destruct (writes_seq (TBasic l) v) as (s&m&w&Hs&Hl&Hd&Hc&Hw); [eapply Forall_impl; [exact Hv|apply writes_leaf]|].
    assert (w = v) as -> by (by apply (same_ordered (TVector (TBasic l)))).
    exists s. split; [exact Hs|]. split; [|by exists m]. eexists. split; [|by apply (hash_all (leaf_eqb l) (hash_insert l) v)].
    simpl. unfold load. rewrite Hl. simpl. change (cast_all (leaf_cast l) (elements m) = Casted v) in Hc. by rewrite Hc.
  - destruct Hv as (Hv&Hk&Hsort). destruct (writes_map t v) as (s&m&es&w&Hs&Hl&Hd&He&Hc&Hw); [|done|].
    { eapply Forall_impl; [exact Hv|]. intros [k x]. by apply IH. }
    exists s. split; [exact Hs|]. split; [|by exists m]. exists w. split; [|exact Hw].
    simpl. unfold load. rewrite Hl. simpl. rewrite He, Hc. simpl. rewrite insert_all; [done|].
    eapply sorted_related; [|exact Hw|exact Hsort]. unfold strictly, key_lt. by intros a b a' b' [-> _] [-> _].
  - destruct Hv as (Hv&Hk). destruct (writes_map t v) as (s&m&es&w&Hs&Hl&Hd&He&Hc&Hw); [|done|].
    { eapply Forall_impl; [exact Hv|]. intros [k x]. by apply IH. }
    exists s. split; [exact Hs|]. split; [|by exists m].
    eexists. split; [simpl; unfold load; rewrite Hl; simpl; by rewrite He, Hc|]. exists w. split; [|exact Hw].
    apply hash_all; [done|]. eapply sorted_related; [|exact Hw|by apply distinct_keys].
    unfold key_eqb. by intros a b a' b' [-> _] [-> _].
Qed.

End lexical.

(** ** A small YAML

    Trees whose scalars are written as they are, and whose sequences and maps
    are written as a number. *)
#[local] Instance byte_countable : Countable byte := inj_countable Byte.to_N Byte.of_N Byte.of_to_N.

Definition tree : Type := gen_tree bytes.

Fixpoint bits_text (p : positive) : bytes :=
  match p with
  | xI p => chr 49 :: bits_text p
  | xO p => chr 48 :: bits_text p
  | xH => []
  end.
Fixpoint text_bits (s : bytes) : positive :=
  match s with
  | [] => xH
  | c :: s => if is_chr 49 c then xI (text_bits s) else xO (text_bits s)
  end.
Lemma text_bits_text p : text_bits (bits_text p) = p.
Proof. induction p as [p IH|p IH|]; simpl; by rewrite ?IH. Qed.

Definition tree_load (s : bytes) : option tree :=
  match s with
  | c :: s' => if is_chr 35 c then countable.decode (text_bits s') else Some (GenLeaf s)
  | [] => Some (GenLeaf [])
  end.
Definition tree_dump (n : tree) : bytes :=
  match n with GenLeaf s => s | _ => chr 35 :: bits_text (countable.encode n) end.
Fixpoint pairs (l : list tree) : option (list (bytes * tree)) :=
  match l with
  | GenLeaf k :: v :: l => es ← pairs l; Some ((k, v) :: es)
  | [] => Some []
  | _ => None
  end.

#[local] Instance tree_yaml : YamlOps tree := {
  y_load := tree_load;
  y_dump := tree_dump;
  y_size n := match n with GenNode _ l => length l | _ => 0%nat end;
  y_index n i := match n with GenNode _ l => default (GenLeaf []) (l !! i) | _ => GenLeaf [] end;
  y_entries n := match n with GenNode 1 l => pairs l | _ => None end;
  y_IsMap n := match n with GenNode 1 _ => true | _ => false end;
  y_Scalar n := match n with GenLeaf s => Some s | _ => None end;
  y_seq ns := GenNode 0 ns;
  y_map es := GenNode 1 (concat (map (λ e, [GenLeaf e.1; e.2]) es))
}.

Lemma tree_load_node k l : tree_load (tree_dump (GenNode k l)) = Some (GenNode k l).
Proof. cbn [tree_dump tree_load]. change (is_chr 35 (chr 35)) with true. cbv iota. by rewrite text_bits_text, countable.decode_encode. Qed.
Lemma pairs_flat es : pairs (concat (map (λ e, [GenLeaf e.1; e.2]) es)) = Some es.
Proof. induction es as [|[k v] es IH]; [done|]. cbn [map concat app pairs]. by rewrite IH. Qed.

#[local] Program Instance tree_laws : YamlLaws tree.
Next Obligation.
  intros ns. exists (GenNode 0 ns). split; [apply tree_load_node|]. split; [done|]. split; [done|].
  intros i n Hi. assert (default (GenLeaf [] : tree) (ns !! i) = n) as Hn by (by rewrite Hi). exact (f_equal tree_dump Hn).
Qed.
Next Obligation.
  intros es _. exists (GenNode 1 (concat (map (λ e, [GenLeaf e.1; e.2]) es))), es.
  split; [apply tree_load_node|]. split; [done|]. split; [apply pairs_flat|]. apply Forall_Forall2_diag, Forall_true. by intros [k v].
Qed.

(** Two basic types: unsigned decimal numbers, and text. *)
Inductive basic := BInt | BText.
#[local] Instance basic_eq_dec : EqDecision basic.
Proof. solve_decision. Defined.
Definition basic_val (b : basic) : Type := match b with BInt => Z | BText => bytes end.
Definition digit_value (c : byte) : option Z := if (48 <=? code c) && (code c <=? 57) then Some (code c - 48) else None.
Fixpoint read_digits (s : bytes) (acc : Z) : option Z :=
  match s with [] => Some acc | c :: s => d ← digit_value c; read_digits s (10 * acc + d) end.
Definition read_int (s : bytes) : option Z := match s with [] => None | _ => read_digits s 0 end.
Definition basic_cast (b : basic) : bytes → cast (basic_val b) :=
  match b with
  | BInt => λ s, match read_int s with Some v => Casted v | None => CastThrows bad_lexical_cast end
  | BText => Casted
  end.
Definition basic_show (b : basic) : basic_val b → cast bytes :=
  match b with BInt => λ v, Casted (show_Z v) | BText => Casted end.
Definition basic_lt (b : basic) : basic_val b → basic_val b → bool :=
  match b with BInt => Z.ltb | BText => bytes_lt end.

Definition basic_eqb (b : basic) : basic_val b → basic_val b → bool :=
  match b with BInt => Z.eqb | BText => λ x y, bool_decide (x = y) end.
Abbreviation basic_from := (from_string basic_val basic_cast basic_lt basic_eqb (λ _, cons) (λ _, cons)).

(** A hash table from names to sets of numbers. *)
Definition ex_type : cty (L := basic) := TUMap (TSet (TBasic BInt)).
Definition ex_value : val basic_val ex_type := [(str "prime", [2]); (str "odd", [1; 3; 55])].


(** ** A small registry

    The world is one number, which a listener keeps equal to a variable, as the
    hooks keep [s_connect_timeout]. *)
Definition basic_sum : Type := Z + bytes.
#[local] Instance basic_castable : Castable basic basic_sum := {
  from_str b s :=
    match b with
    | BInt => cast_bind (basic_cast BInt s) (λ v, Casted (inl v))
    | BText => Casted (inr s)
    end;
  to_str _ v := Casted (match v with inl z => show_Z z | inr s => s end);
  val_eqb v w := bool_decide (v = w)
}.
Abbreviation cfg := (config (T := basic) (V := basic_sum) (W := Z)).
Definition basic_typed (b : basic) (v : basic_sum) : Prop :=
  match b, v with BInt, inl _ | BText, inr _ => True | _, _ => False end.

Definition cfg_empty : cfg := mkConfig [] [] (λ _, 0) (-1).
Definition timeout_name : bytes := str "tcp.connect.timeout".
Definition on_change (old new : basic_sum) : M Z () := λ w, match new with inl v => Ret tt v | inr _ => Ret tt w end.
Definition cfg_state {A} (r : res cfg A) : cfg := match r with Ret _ c | Throw _ c => c | Crash _ => cfg_empty end.
Definition cfg1 : cfg := cfg_state (Lookup BInt timeout_name (inl 5000) [] cfg_empty).
Definition cfg2 : cfg := cfg_state (addListener 0 on_change cfg1).
Definition scalar (s : bytes) : tree := GenLeaf s.
Definition mapping (l : list (bytes * tree)) : tree := y_map l.
Definition doc (key value : bytes) : tree :=
  mapping [(key, mapping [(str "connect", mapping [(str "timeout", scalar value)])])].


Lemma well_typed_witness :
  reachable basic_typed cfg2 ∧ ∃ x, vars cfg2 !! 0%nat = Some x ∧ basic_typed (m_type x) (m_val x).
Proof.
  assert (reachable (N := tree) basic_typed cfg2) as Hr.
  { apply (reach_listener _ cfg1 0 on_change 1); [|by vm_compute].
    apply (reach_lookup _ cfg_empty BInt timeout_name (inl 5000) [] 0%nat); [apply reach_new|done|by vm_compute]. }
  split; [exact Hr|]. 
  assert (∀ (t : basic) s (v : basic_sum), from_str t s = Casted v → basic_typed t v) as Hcast.
  { intros [] s v; [|by intros [= <-]].
    change (from_str BInt s) with (cast_bind (basic_cast BInt s) (λ v, Casted (inl v : basic_sum))). cbn [basic_cast].
    destruct (read_int s); [by intros [= <-]|done]. }
  destruct (registry_well_typed (N := tree) (W := Z) basic_typed Hcast cfg2 Hr) as (_&Ht&_).
  eexists. split; [reflexivity|]. by apply (Ht 0%nat).
Defined.

(** The listener runs before the value changes; with an equal value it does not. *)
Example listener_runs_once :
  let c := cfg_state (setValue 0 (inl 700) cfg2) in
  (world c, m_val <$> vars c) = (700, [inl 700]) ∧ world (cfg_state (setValue 0 (inl 5000) cfg2)) = -1.
Proof. split; by vm_compute. Qed.

(** [Lookup] at another type takes the name away from the variable that has it: the
    holders of the first one see no more changes. *)
Example lookup_takes_the_name :
  let c := cfg_state (Lookup BText timeout_name (inr []) [] cfg2) in
  let c' := cfg_state (LoadFromYaml 4 (doc (str "tcp") (str "700")) c) in
  m_val <$> vars c' = [inl 5000; inr (str "700")] ∧ world c' = -1.
Proof. split; by vm_compute. Qed.

(** Keys with capitals are skipped with all below them, although keys are turned to
    lower case before they are looked up. *)
Example capitals_are_skipped :
  m_val <$> vars (cfg_state (LoadFromYaml 4 (doc (str "TCP") (str "700")) cfg2)) = [inl 5000].
Proof. by vm_compute. Qed.

(** A value that does not convert is reported and ignored. *)
Example bad_value_ignored :
  fromString 0 (str "7oo") cfg2 = Ret false cfg2.
Proof. by vm_compute. Qed.
