(* ===== verification/Log.v ===== *)
(** * Logging (megalo/log.h, megalo/log.cc)

    A [LogFormatter] is what [init] makes of its pattern.  Appenders are
    objects, a [Logger] is the one of its name in the manager, and [logs] is
    all of them with standard output and the files written.  [strftime] is the
    text of a time under a format, [can_open] says which files open.  What the
    functions print about wrong configurations and the line the listener logs
    about itself are left out. *)
From S2P Require Import Prelude Bytes Util.

(** ** Levels and events *)

Definition UNKNOWM : Z := 0.
Definition DEBUG : Z := 1.
Definition INFO : Z := 2.
Definition WARN : Z := 3.
Definition ERROR : Z := 4.
Definition FATAL : Z := 5.

Definition level_names : list (Z * bytes) :=
  [(DEBUG, str "DEBUG"); (INFO, str "INFO"); (WARN, str "WARN"); (ERROR, str "ERROR"); (FATAL, str "FATAL")].
Definition ToString (level : Z) : bytes :=
  match list_find (λ p, p.1 = level) level_names with Some (_, p) => p.2 | None => str "UNKNOWM" end.
Definition FromString (s : bytes) : Z :=
  match list_find (λ p, p.2 = s ∨ ToLower p.2 = s) level_names with Some (_, p) => p.1 | None => UNKNOWM end.

Record LogEvent := mkLogEvent {
  e_file : bytes; e_line : Z; e_elapse : Z; e_threadId : Z; e_fiberId : Z; e_time : Z;
  e_threadName : bytes; e_content : bytes; e_logger : bytes; e_level : Z
}.

(** ** LogFormatter *)

Inductive FormatItem :=
  | MessageFormatItem
  | LevelFormatItem
  | ElapseFormatItem
  | NameFormatItem
  | ThreadIdFormatItem
  | FiberIdFormatItem
  | ThreadNameFormatItem
  | DateTimeFormatItem (m_format : bytes)
  | FileNameFormatItem
  | LineFormatItem
  | NewLineFormatItem
  | StringFormatItem (m_string : bytes)
  | TabFormatItem.

Definition new_DateTimeFormatItem (format : bytes) : FormatItem :=
  DateTimeFormatItem (match format with [] => str "%Y-%m-%d %H:%M:%S" | _ => format end).

(** [s_format_items]. *)
Definition format_items (fmt : bytes) : list (bytes * FormatItem) :=
  [(str "m", MessageFormatItem); (str "p", LevelFormatItem); (str "r", ElapseFormatItem); (str "c", NameFormatItem);
   (str "t", ThreadIdFormatItem); (str "n", NewLineFormatItem); (str "d", new_DateTimeFormatItem fmt);
   (str "f", FileNameFormatItem); (str "l", LineFormatItem); (str "T", TabFormatItem); (str "F", FiberIdFormatItem);
   (str "N", ThreadNameFormatItem)].
Definition find_item (s fmt : bytes) : option FormatItem :=
  (λ p, p.2.2) <$> list_find (λ p, p.1 = s) (format_items fmt).

Definition isalpha (c : byte) : bool := (65 <=? code c) && (code c <=? 90) || (97 <=? code c) && (code c <=? 122).
Definition PERCENT : Z := 37.
Definition OPEN : Z := 123.
Definition CLOSE : Z := 125.

(** The [while] loop of [init]: it gives [n], [fmt_status], [str] and [fmt]. *)
Fixpoint scan (fuel : nat) (p : bytes) (i n : nat) (fmt_status : bool) (fmt_begin : nat) (s fmt : bytes) :
    nat * bool * bytes * bytes :=
  match fuel, p !! n with
  | S f, Some c =>
      if negb fmt_status && (negb (isalpha c) && negb (is_chr OPEN c) && negb (is_chr CLOSE c)) then
        (n, fmt_status, substr p (i + 1) (n - i - 1), fmt)
      else if negb fmt_status && is_chr OPEN c then
        scan f p i (n + 1) true n (substr p (i + 1) (n - i - 1)) fmt
      else if fmt_status && is_chr CLOSE c then
        ((n + 1)%nat, false, s, substr p (fmt_begin + 1) (n - fmt_begin - 1))
      else
        let s' := if (n + 1 =? length p)%nat then match s with [] => drop (i + 1) p | _ => s end else s in
        scan f p i (n + 1) fmt_status fmt_begin s' fmt
  | _, _ => (n, fmt_status, s, fmt)
  end.

(** The text before a conversion, if there is any. *)
Definition flush (nstr : bytes) : list (bytes * bytes * bool) :=
  match nstr with [] => [] | _ => [(nstr, [], false)] end.

(** The [for] loop: [nstr], [vec] and [m_error] at its end.  The last component of
    a triple says whether it is a conversion. *)
Fixpoint parse (fuel : nat) (p : bytes) (i : nat) (nstr : bytes) (vec : list (bytes * bytes * bool)) (err : bool) :
    bytes * list (bytes * bytes * bool) * bool :=
  match fuel, p !! i with
  | S f, Some c =>
      if negb (is_chr PERCENT c) then parse f p (i + 1) (nstr ++ [c]) vec err
      else if match p !! (i + 1)%nat with Some d => is_chr PERCENT d | None => false end then
        parse f p (i + 1) (nstr ++ [chr PERCENT]) vec err
      else
        let '(n, fmt_status, s, fmt) := scan (length p) p i (i + 1) false 0 [] [] in
        if (fmt_status : bool) then parse f p (i + 1) nstr (vec ++ [(str "<<pattern_error>>", fmt, false)]) true
        else parse f p n [] (vec ++ flush nstr ++ [(s, fmt, true)]) err
  | _, _ => (nstr, vec, err)
  end.

(** The items of [vec], and whether one is wrong. *)
Definition make_item (v : bytes * bytes * bool) : FormatItem * bool :=
  let '(s, fmt, conversion) := v in
  if (conversion : bool) then
    match find_item s fmt with
    | Some it => (it, false)
    | None => (StringFormatItem (str "<<error_format %" ++ s ++ str ">>"), true)
    end
  else (StringFormatItem s, false).

Record LogFormatter := mkLogFormatter { m_pattern : bytes; m_items : list FormatItem; m_error : bool }.

Definition new_LogFormatter (pattern : bytes) : LogFormatter :=
  let '(nstr, vec, err) := parse (length pattern) pattern 0 [] [] false in
  let items := map make_item (vec ++ flush nstr) in
  mkLogFormatter pattern items.*1 (err || existsb snd items).

Section logs.
Context (strftime : bytes → Z → bytes) (can_open : bytes → bool).

Definition item_format (it : FormatItem) (level : Z) (event : LogEvent) : bytes :=
  match it with
  | MessageFormatItem => e_content event
  | LevelFormatItem => ToString level
  | ElapseFormatItem => show_Z (e_elapse event)
  | NameFormatItem => e_logger event
  | ThreadIdFormatItem => show_Z (e_threadId event)
  | FiberIdFormatItem => show_Z (e_fiberId event)
  | ThreadNameFormatItem => e_threadName event
  | DateTimeFormatItem m_format => strftime m_format (e_time event)
  | FileNameFormatItem => e_file event
  | LineFormatItem => show_Z (e_line event)
  | NewLineFormatItem => [chr 10]
  | StringFormatItem m_string => m_string
  | TabFormatItem => [chr 9]
  end.
Definition format (f : LogFormatter) (level : Z) (event : LogEvent) : bytes :=
  concat (map (λ it, item_format it level event) (m_items f)).

(** ** Appenders and loggers *)

Inductive target := Stdout | File (m_filename : bytes) (m_lastTime : Z) (is_open : bool).
Record LogAppender := mkLogAppender {
  a_target : target;
  a_level : Z;
  a_formatter : option LogFormatter;
  a_hasFormatter : bool
}.
Record Logger := mkLogger {
  l_level : Z;
  l_appenders : list nat;
  l_formatter : LogFormatter;
  l_has_root : bool           (* is [m_root] set? *)
}.
Record logs := mkLogs {
  loggers : list (bytes * Logger);
  appenders : list LogAppender;
  out : bytes;
  files : list (bytes * bytes)
}.
Abbreviation G := logs.

Definition default_pattern : bytes := str "%d{%Y-%m-%d %H:%M:%S}%T%t%T%N%T%F%T[%p]%T[%c]%T%f:%l%T%m%n".
Definition new_Logger (has_root : bool) : Logger := mkLogger DEBUG [] (new_LogFormatter default_pattern) has_root.
Definition root_name : bytes := str "root".

Fixpoint find_logger (name : bytes) (l : list (bytes * Logger)) : option Logger :=
  match l with [] => None | (n, x) :: l => if decide (n = name) then Some x else find_logger name l end.
Fixpoint put_logger (name : bytes) (x : Logger) (l : list (bytes * Logger)) : list (bytes * Logger) :=
  match l with
  | [] => [(name, x)]
  | (n, y) :: l => if decide (n = name) then (n, x) :: l else (n, y) :: put_logger name x l
  end.
Fixpoint append_file (name data : bytes) (l : list (bytes * bytes)) : list (bytes * bytes) :=
  match l with
  | [] => [(name, data)]
  | (n, d) :: l => if decide (n = name) then (n, d ++ data) :: l else (n, d) :: append_file name data l
  end.

Definition the_logger (name : bytes) : M G Logger := l ← gets loggers; deref (find_logger name l).
Definition set_logger (name : bytes) (x : Logger) : M G () :=
  modify (λ s, mkLogs (put_logger name x (loggers s)) (appenders s) (out s) (files s)).
Definition the_appender (i : nat) : M G LogAppender := l ← gets appenders; deref (l !! i).
Definition set_appender (i : nat) (a : LogAppender) : M G () :=
  modify (λ s, mkLogs (loggers s) (<[i := a]> (appenders s)) (out s) (files s)).
Definition new_appender (a : LogAppender) : M G nat :=
  i ← gets (λ s, length (appenders s));
  modify (λ s, mkLogs (loggers s) (appenders s ++ [a]) (out s) (files s));; mret i.
Definition write_out (data : bytes) : M G () :=
  modify (λ s, mkLogs (loggers s) (appenders s) (out s ++ data) (files s)).
Definition write_file (name data : bytes) : M G () :=
  modify (λ s, mkLogs (loggers s) (appenders s) (out s) (append_file name data (files s))).

(** [open] for appending makes the file. *)
Definition open_file (name : bytes) : M G bool :=
  if can_open name then write_file name [];; mret true else mret false.
Definition reopen (i : nat) : M G bool :=
  a ← the_appender i;
  match a_target a with
  | Stdout => mret false
  | File name t _ =>
      b ← open_file name;
      set_appender i (mkLogAppender (File name t b) (a_level a) (a_formatter a) (a_hasFormatter a));; mret b
  end.

Definition new_StdoutLogAppender : M G nat := new_appender (mkLogAppender Stdout DEBUG None false).
Definition new_FileLogAppender (filename : bytes) : M G nat :=
  i ← new_appender (mkLogAppender (File filename 0 false) DEBUG None false); _ ← reopen i; mret i.

(** [LogAppender::log]. *)
Definition appender_log (i : nat) (level : Z) (event : LogEvent) : M G () :=
  a ← the_appender i;
  if level <? a_level a then mret tt else
  match a_target a with
  | Stdout => f ← deref (a_formatter a); write_out (format f level event)
  | File name t _ =>
      (if u64 (t + 3) <=? e_time event then
         _ ← reopen i;
         a ← the_appender i;
         match a_target a with
         | File name _ b => set_appender i (mkLogAppender (File name (e_time event) b) (a_level a) (a_formatter a) (a_hasFormatter a))
         | Stdout => mret tt
         end
       else mret tt);;
      a ← the_appender i;
      f ← deref (a_formatter a);
      match a_target a with
      | File name _ true => write_file name (format f level event)
      | _ => mret tt
      end
  end.

Fixpoint each {A} (f : A → M G ()) (l : list A) : M G () :=
  match l with [] => mret tt | x :: l => f x;; each f l end.

(** [Logger::log]; the root logger has no root of its own. *)
Definition log_root (level : Z) (event : LogEvent) : M G () :=
  r ← the_logger root_name;
  if level <? l_level r then mret tt else each (λ i, appender_log i level event) (l_appenders r).
Definition log (name : bytes) (level : Z) (event : LogEvent) : M G () :=
  x ← the_logger name;
  if level <? l_level x then mret tt else
  match l_appenders x with
  | [] => if l_has_root x then log_root level event else mret tt
  | l => each (λ i, appender_log i level event) l
  end.

Definition debug (name : bytes) (event : LogEvent) : M G () := log name DEBUG event.
Definition info (name : bytes) (event : LogEvent) : M G () := log name INFO event.
Definition warn (name : bytes) (event : LogEvent) : M G () := log name WARN event.
Definition error (name : bytes) (event : LogEvent) : M G () := log name ERROR event.
Definition fatal (name : bytes) (event : LogEvent) : M G () := log name FATAL event.
Definition getFormatter (name : bytes) : M G LogFormatter := x ← the_logger name; mret (l_formatter x).

(** The macros test the level before they make the event; the event logs itself
    when it is destroyed. *)
Definition log_macro (name : bytes) (level : Z) (event : LogEvent) : M G () :=
  x ← the_logger name;
  if l_level x <=? level then log name level event else mret tt.

Definition setLevel (name : bytes) (level : Z) : M G () :=
  x ← the_logger name; set_logger name (mkLogger level (l_appenders x) (l_formatter x) (l_has_root x)).
Definition clearAppenders (name : bytes) : M G () :=
  x ← the_logger name; set_logger name (mkLogger (l_level x) [] (l_formatter x) (l_has_root x)).
Definition addLogAppender (name : bytes) (i : nat) : M G () :=
  x ← the_logger name;
  a ← the_appender i;
  (match a_formatter a with
   | None => set_appender i (mkLogAppender (a_target a) (a_level a) (Some (l_formatter x)) (a_hasFormatter a))
   | Some _ => mret tt
   end);;
  set_logger name (mkLogger (l_level x) (l_appenders x ++ [i]) (l_formatter x) (l_has_root x)).
(** [erase] of the first one. *)
Fixpoint erase_first (i : nat) (l : list nat) : list nat :=
  match l with [] => [] | j :: l => if decide (j = i) then l else j :: erase_first i l end.
Definition delLogAppender (name : bytes) (i : nat) : M G () :=
  x ← the_logger name;
  set_logger name (mkLogger (l_level x) (erase_first i (l_appenders x)) (l_formatter x) (l_has_root x)).

Definition setFormatter (name : bytes) (val : LogFormatter) : M G () :=
  x ← the_logger name;
  set_logger name (mkLogger (l_level x) (l_appenders x) val (l_has_root x));;
  each (λ i, a ← the_appender i;
             if a_hasFormatter a then mret tt
             else set_appender i (mkLogAppender (a_target a) (a_level a) (Some val) (a_hasFormatter a)))
       (l_appenders x).
Definition setFormatter_pattern (name : bytes) (val : bytes) : M G () :=
  let new_val := new_LogFormatter val in
  if m_error new_val then mret tt else setFormatter name new_val.

Definition setAppenderLevel (i : nat) (level : Z) : M G () :=
  a ← the_appender i; set_appender i (mkLogAppender (a_target a) level (a_formatter a) (a_hasFormatter a)).
Definition setAppenderFormatter (i : nat) (f : LogFormatter) : M G () :=
  a ← the_appender i; set_appender i (mkLogAppender (a_target a) (a_level a) (Some f) (a_hasFormatter a)).

(** ** LoggerManager *)

Definition getLogger (name : bytes) : M G () :=
  l ← gets loggers;
  match find_logger name l with
  | Some _ => mret tt
  | None => set_logger name (new_Logger true)
  end.
Definition logs_empty : logs := mkLogs [] [] [] [].
Definition new_LoggerManager : M G () :=
  set_logger root_name (new_Logger false);;
  i ← new_StdoutLogAppender; addLogAppender root_name i.

(** ** Configuration *)

Record LogAppenderDefine := mkAppenderDefine { ad_type : Z; ad_level : Z; ad_formatter : bytes; ad_file : bytes }.
Record LogDefine := mkLogDefine { ld_name : bytes; ld_level : Z; ld_formatter : bytes; ld_appenders : list LogAppenderDefine }.
#[global] Instance LogAppenderDefine_eq_dec : EqDecision LogAppenderDefine.
Proof. solve_decision. Defined.
#[global] Instance LogDefine_eq_dec : EqDecision LogDefine.
Proof. solve_decision. Defined.

(** [find] in a set of definitions, which compares names. *)
Fixpoint find_define (name : bytes) (l : list LogDefine) : option LogDefine :=
  match l with [] => None | d :: l => if decide (ld_name d = name) then Some d else find_define name l end.

Definition apply_appender (name : bytes) (a : LogAppenderDefine) : M G () :=
  ap ← (if ad_type a =? 1 then new_FileLogAppender (ad_file a)
        else if ad_type a =? 2 then new_StdoutLogAppender else crash NullDeref);
  setAppenderLevel ap (ad_level a);;
  (match ad_formatter a with
   | [] => mret tt
   | p => let fmt := new_LogFormatter p in if m_error fmt then mret tt else setAppenderFormatter ap fmt
   end);;
  addLogAppender name ap.
Definition apply_define (i : LogDefine) : M G () :=
  getLogger (ld_name i);;
  setLevel (ld_name i) (ld_level i);;
  (match ld_formatter i with [] => mret tt | p => setFormatter_pattern (ld_name i) p end);;
  clearAppenders (ld_name i);;
  each (apply_appender (ld_name i)) (ld_appenders i).
Definition remove_define (i : LogDefine) : M G () :=
  getLogger (ld_name i);; setLevel (ld_name i) UNKNOWM;; clearAppenders (ld_name i).

(** The listener of the variable [logs]. *)
Definition on_logger_conf_changed (old_value new_value : list LogDefine) : M G () :=
  each (λ i, match find_define (ld_name i) old_value with
             | Some o => if decide (i = o) then mret tt else apply_define i
             | None => apply_define i
             end) new_value;;
  each (λ i, match find_define (ld_name i) new_value with Some _ => mret tt | None => remove_define i end) old_value.
End logs.

(** ** Patterns

    A pattern as its author thinks of it: text, conversions, conversions with an
    argument. *)
Inductive piece := Lit (s : bytes) | Conv (c : byte) | ConvArg (c : byte) (arg : bytes).

Definition render_piece (x : piece) : bytes :=
  match x with
  | Lit s => s
  | Conv c => [chr PERCENT; c]
  | ConvArg c arg => [chr PERCENT; c; chr OPEN] ++ arg ++ [chr CLOSE]
  end.
Definition render (l : list piece) : bytes := concat (map render_piece l).
Definition piece_item (x : piece) : FormatItem :=
  match x with
  | Lit s => StringFormatItem s
  | Conv c => default TabFormatItem (find_item [c] [])
  | ConvArg c arg => default TabFormatItem (find_item [c] arg)
  end.

Definition known (c : byte) : Prop := is_Some (find_item [c] []).
(** A byte that may follow a conversion without argument. *)
Definition ends_name (c : byte) : Prop := isalpha c = false ∧ is_chr OPEN c = false ∧ is_chr CLOSE c = false.

Fixpoint well_formed (l : list piece) : Prop :=
  match l with
  | [] => True
  | Lit s :: l => s ≠ [] ∧ Forall (λ c, is_chr PERCENT c = false) s ∧
      match l with Lit _ :: _ => False | _ => True end ∧ well_formed l
  | Conv c :: l => known c ∧ match l with Lit (d :: _) :: _ => ends_name d | _ => True end ∧ well_formed l
  | ConvArg c arg :: l => known c ∧ Forall (λ d, is_chr CLOSE d = false) arg ∧ well_formed l
  end.

Lemma drop_cons {A} n (p : list A) c t : drop n p = c :: t →
  p !! n = Some c ∧ drop (n + 1) p = t ∧ (n < length p)%nat ∧ length p = (n + 1 + length t)%nat.
Proof.
  intros Hd. assert (p !! n = Some c) as Hc by (by rewrite <- (Nat.add_0_r n), <- lookup_drop, Hd).
  split; [done|]. rewrite <- drop_drop, Hd. split; [done|]. pose proof (lookup_lt_Some _ _ _ Hc).
  split; [done|]. assert (length (drop n p) = S (length t)) as Hl by (by rewrite Hd). rewrite length_drop in Hl. lia.
Qed.
Lemma drop_nil_lookup {A} n (p : list A) : drop n p = [] → p !! n = None.
Proof. intros Hd. by rewrite <- (Nat.add_0_r n), <- lookup_drop, Hd. Qed.

Lemma known_alpha c : known c → isalpha c = true ∧ is_chr PERCENT c = false ∧ is_chr OPEN c = false ∧ is_chr CLOSE c = false.
Proof.
  intros [it Hit]. unfold find_item in Hit.
  destruct (list_find (λ p, p.1 = [c]) (format_items [])) as [[k [s it']]|] eqn:E; [|done].
  apply list_find_Some in E as (Hk&Hs&_). simpl in Hs. subst s.
  repeat (destruct k as [|k]; [injection Hk as <- _; by vm_compute|]). done.
Qed.

(** The loop of [init] over a conversion. *)
Lemma scan_name p i c t : drop i p = chr PERCENT :: c :: t → known c →
  match t with d :: _ => ends_name d | [] => True end →
  scan (length p) p i (i + 1) false 0 [] [] = ((i + 2)%nat, false, [c], []).
Proof.
  intros Hd Hc Ht. destruct (known_alpha c Hc) as (Ha&_&Ho&Hcl).
  destruct (drop_cons _ _ _ _ Hd) as (_&Hd1&_&Hl). destruct (drop_cons _ _ _ _ Hd1) as (Hc1&Hd2&_&_).
  replace (i + 1 + 1)%nat with (i + 2)%nat in Hd2 by lia. simpl in Hl.
  destruct (length p) as [|fuel] eqn:El; [lia|]. cbn [scan]. rewrite Hc1, Ha, Ho, El. cbn [negb andb].
  replace (i + 1 + 1)%nat with (i + 2)%nat by lia. destruct t as [|d t].
  - rewrite (proj2 (Nat.eqb_eq (i + 2) (S fuel))) by (simpl in Hl; lia).
    destruct fuel; cbn [scan]; [|rewrite (drop_nil_lookup _ _ Hd2)]; by rewrite Hd1.
  - rewrite (proj2 (Nat.eqb_neq (i + 2) (S fuel))) by (simpl in Hl; lia).
    destruct (drop_cons _ _ _ _ Hd2) as (Hdd&_). destruct Ht as (Hda&Hdo&Hdc).
    destruct fuel as [|fuel]; [simpl in Hl; lia|]. cbn [scan]. rewrite Hdd, Hda, Hdo, Hdc. cbn [negb andb].
    unfold substr. rewrite Hd1. replace (i + 2 - i - 1)%nat with 1%nat by lia. done.
Qed.

Lemma scan_arg p i b s fmt arg t n fuel : drop n p = arg ++ chr CLOSE :: t → Forall (λ d, is_chr CLOSE d = false) arg →
  s ≠ [] → (length arg < fuel)%nat →
  scan fuel p i n true b s fmt = ((n + length arg + 1)%nat, false, s, substr p (b + 1) (n + length arg - b - 1)).
Proof.
  revert n fuel. induction arg as [|d arg IH]; intros n [|fuel] Hd Harg Hs Hf; [lia| |lia|]; simpl in Hd, Hf.
  - destruct (drop_cons _ _ _ _ Hd) as (Hc&_). cbn [scan]. rewrite Hc. simpl. rewrite Nat.add_0_r. done.
  - apply Forall_cons in Harg as [Hdc Harg]. destruct (drop_cons _ _ _ _ Hd) as (Hc&Hd1&_&_). cbn [scan]. rewrite Hc, Hdc.
    cbn [negb andb]. assert ((if (n + 1 =? length p)%nat then match s with [] => drop (i + 1) p | _ => s end else s) = s) as ->.
    { destruct s; [done|]. by destruct (_ =? _)%nat. }
    rewrite (IH (n + 1)%nat fuel Hd1 Harg Hs) by lia. simpl. f_equal; [f_equal; f_equal; lia|f_equal; lia].
Qed.

Lemma scan_name_arg p i c arg t : drop i p = chr PERCENT :: c :: chr OPEN :: arg ++ chr CLOSE :: t → known c →
  Forall (λ d, is_chr CLOSE d = false) arg →
  scan (length p) p i (i + 1) false 0 [] [] = ((i + 3 + length arg + 1)%nat, false, [c], arg).
Proof.
  intros Hd Hc Harg. destruct (known_alpha c Hc) as (Ha&_&Ho&Hcl).
  destruct (drop_cons _ _ _ _ Hd) as (_&Hd1&_&Hl). destruct (drop_cons _ _ _ _ Hd1) as (Hc1&Hd2&_&_).
  destruct (drop_cons _ _ _ _ Hd2) as (Ho2&Hd3&_&_). simpl in Hl. rewrite length_app in Hl. simpl in Hl.
  replace (i + 1 + 1)%nat with (i + 2)%nat in * by lia. replace (i + 2 + 1)%nat with (i + 3)%nat in * by lia.
  destruct (length p) as [|[|fuel]] eqn:El; [lia..|]. cbn [scan]. rewrite Hc1, Ha, Ho, El. cbn [negb andb].
  rewrite (proj2 (Nat.eqb_neq (i + 1 + 1) (S (S fuel)))) by lia. replace (i + 1 + 1)%nat with (i + 2)%nat by lia.
  rewrite Ho2. change (is_chr OPEN (chr OPEN)) with true. rewrite !andb_false_r. cbn [negb andb].
  replace (i + 2 + 1)%nat with (i + 3)%nat by lia.
  assert (substr p (i + 1) (i + 2 - i - 1) = [c]) as ->.
  { unfold substr. rewrite Hd1. by replace (i + 2 - i - 1)%nat with 1%nat by lia. }
  rewrite (scan_arg p i (i + 2) [c] [] arg t (i + 3) fuel Hd3 Harg) by (done || lia). f_equal.
  unfold substr. replace (i + 2 + 1)%nat with (i + 3)%nat by lia. rewrite Hd3.
  replace (i + 3 + length arg - (i + 2) - 1)%nat with (length arg) by lia. by rewrite take_app_length.
Qed.

Definition piece_tuple (x : piece) : bytes * bytes * bool :=
  match x with
  | Lit s => (s, [], false)
  | Conv c => ([c], [], true)
  | ConvArg c arg => ([c], arg, true)
  end.

Lemma parse_literal s fuel p i nstr vec t : drop i p = s ++ t → Forall (λ c, is_chr PERCENT c = false) s →
  parse (length s + fuel) p i nstr vec false = parse fuel p (i + length s) (nstr ++ s) vec false.
Proof.
  revert i nstr. induction s as [|c s IH]; intros i nstr Hd Hs; simpl; [by rewrite Nat.add_0_r, app_nil_r|].
  apply Forall_cons in Hs as [Hc Hs]. destruct (drop_cons _ _ _ _ Hd) as (Hp&Hd1&_&_). rewrite Hp, Hc. cbn [negb].
  rewrite (IH (i + 1)%nat (nstr ++ [c]) Hd1 Hs), <- app_assoc. f_equal. lia.
Qed.

(** One conversion: it flushes the text before it. *)
Lemma parse_conv fuel p i nstr vec c n arg t : drop i p = chr PERCENT :: c :: t → known c →
  scan (length p) p i (i + 1) false 0 [] [] = (n, false, [c], arg) →
  parse (S fuel) p i nstr vec false = parse fuel p n [] (vec ++ flush nstr ++ [([c], arg, true)]) false.
Proof.
  intros Hd Hc Hscan. destruct (drop_cons _ _ _ _ Hd) as (Hp&Hd1&_&_). destruct (drop_cons _ _ _ _ Hd1) as (Hp1&_).
  cbn [parse]. rewrite Hp. change (is_chr PERCENT (chr PERCENT)) with true. cbn [negb].
  rewrite Hp1, (proj1 (proj2 (known_alpha c Hc))), Hscan. done.
Qed.

Definition starts_with_text (l : list piece) : Prop := match l with Lit _ :: _ => True | _ => False end.

Lemma parse_render l p i nstr vec fuel : well_formed l → drop i p = render l → (length (render l) ≤ fuel)%nat →
  nstr = [] ∨ ¬ starts_with_text l →
  ∃ nstr' vec', parse fuel p i nstr vec false = (nstr', vec', false) ∧
    vec' ++ flush nstr' = vec ++ flush nstr ++ map piece_tuple l.
Proof.
  revert i nstr vec fuel. induction l as [|x l IH]; intros i nstr vec fuel Hw Hd Hf Hn.
  { exists nstr, vec. rewrite app_nil_r. split; [|done]. destruct fuel; cbn [parse]; [done|].
    by rewrite (drop_nil_lookup _ _ Hd). }
  change (render (x :: l)) with (render_piece x ++ render l) in Hd, Hf. rewrite length_app in Hf.
  destruct x as [s|c|c arg]; cbn [render_piece] in Hd, Hf; simpl in Hw.
  - destruct Hw as (Hs&Hsp&Hnext&Hw). destruct Hn as [->|Hn]; [|by destruct Hn].
    replace fuel with (length s + (fuel - length s))%nat by lia. rewrite (parse_literal s _ p i [] vec _ Hd Hsp).
    destruct (IH (i + length s)%nat s vec (fuel - length s)%nat) as (nstr'&vec'&Hp&Hv); [done| |lia| |].
    + by rewrite <- drop_drop, Hd, drop_app_length.
    + right. destruct l as [|[] l]; simpl; tauto.
    + exists nstr', vec'. split; [done|]. rewrite Hv. simpl. by destruct s.
  - destruct Hw as (Hc&Hnext&Hw). simpl in Hd, Hf. destruct fuel as [|fuel]; [lia|].
    assert (match render l with d :: _ => ends_name d | [] => True end) as Hend.
    { destruct l as [|[[|d s]|c'|c' arg] l]; [done| |exact Hnext|done..]. simpl in Hw. by destruct Hw. }
    rewrite (parse_conv fuel p i nstr vec c _ _ _ Hd Hc (scan_name p i c _ Hd Hc Hend)).
    destruct (drop_cons _ _ _ _ Hd) as (_&Hd1&_&_). destruct (drop_cons _ _ _ _ Hd1) as (_&Hd2&_&_).
    replace (i + 1 + 1)%nat with (i + 2)%nat in Hd2 by lia.
    destruct (IH (i + 2)%nat [] (vec ++ flush nstr ++ [([c], [], true)]) fuel Hw Hd2) as (nstr'&vec'&Hp&Hv); [lia|by left|].
    exists nstr', vec'. split; [done|]. rewrite Hv. simpl. by rewrite <- !app_assoc.
  - destruct Hw as (Hc&Harg&Hw). simpl in Hd, Hf. rewrite <- app_assoc in Hd. simpl in Hd.
    destruct fuel as [|fuel]; [lia|].
    rewrite (parse_conv fuel p i nstr vec c _ _ _ Hd Hc (scan_name_arg p i c arg _ Hd Hc Harg)).
    assert (drop (i + 3 + length arg + 1) p = render l) as Hd2.
    { replace (i + 3 + length arg + 1)%nat with (i + (3 + (length arg + 1)))%nat by lia. rewrite <- drop_drop, Hd.
      change (drop (length arg + 1) (arg ++ chr CLOSE :: render l) = render l). by rewrite <- drop_drop, drop_app_length. }
    rewrite length_app in Hf. simpl in Hf.
    destruct (IH _ [] (vec ++ flush nstr ++ [([c], arg, true)]) fuel Hw Hd2) as (nstr'&vec'&Hp&Hv); [lia|by left|].
    exists nstr', vec'. split; [done|]. rewrite Hv. simpl. by rewrite <- !app_assoc.
Qed.

Lemma find_item_known c fmt : known c → is_Some (find_item [c] fmt).
Proof.
  intros [it Hit]. unfold find_item in *.
  destruct (list_find (λ p, p.1 = [c]) (format_items [])) as [[k [s it']]|] eqn:E; [|done].
  apply list_find_Some in E as (Hk&Hs&_). simpl in Hs. subst s.
  destruct (list_find_elem_of (λ p, p.1 = [c]) (format_items fmt) ([c], default TabFormatItem (snd <$> format_items fmt !! k))) as [y Hy].
  - apply (list_elem_of_lookup_2 _ k). do 12 (destruct k as [|k]; [by injection Hk as <- _|]). done.
  - done.
  - rewrite Hy. by eexists.
Qed.

Lemma make_items l : well_formed l → map make_item (map piece_tuple l) = map (λ x, (piece_item x, false)) l.
Proof.
  induction l as [|x l IH]; [done|]. intros Hw. cbn [map]. rewrite IH by (destruct x; simpl in Hw; tauto). f_equal.
  destruct x as [s|c|c arg]; simpl in Hw; [done|..]; destruct Hw as (Hc&_); cbn [piece_tuple make_item piece_item].
  - by destruct (find_item_known c [] Hc) as [it ->].
  - by destruct (find_item_known c arg Hc) as [it ->].
Qed.

(** C35. A pattern means what its author wrote: from the text of any list of pieces,
    with known conversions, no per cent signs in plain text, no closing brace in
    an argument, and nothing that continues a name after a conversion without
    argument, [init] makes exactly the items of the pieces, in order and without
    error, so that an event is formatted as the texts of the pieces in a row. *)
Theorem pattern_round_trip strftime l (Hl : well_formed l) :
  let f := new_LogFormatter (render l) in
  m_error f = false ∧ m_items f = map piece_item l ∧
  ∀ level event, format strftime f level event = concat (map (λ x, item_format strftime (piece_item x) level event) l).
Proof.
  intros f. assert (m_error f = false ∧ m_items f = map piece_item l) as [He Hi].
  { unfold f, new_LogFormatter.
    destruct (parse_render l (render l) 0 [] [] (length (render l)) Hl) as (nstr'&vec'&Hp&Hv); [done..|by left|].
    rewrite Hp. simpl in Hv. rewrite Hv, (make_items l Hl). cbn [m_error m_items orb]. split.
    - clear. by induction l.
    - clear. induction l as [|x l IH]; [done|]. cbn [map]. rewrite fmap_cons. by f_equal. }
  split; [done|]. split; [done|]. intros level event. unfold format. by rewrite Hi, map_map.
Qed.

(** The pattern of a new logger. *)
Definition default_pieces : list piece :=
  [ConvArg (chr 100) (str "%Y-%m-%d %H:%M:%S"); Conv (chr 84); Conv (chr 116); Conv (chr 84); Conv (chr 78); Conv (chr 84);
   Conv (chr 70); Conv (chr 84); Lit (str "["); Conv (chr 112); Lit (str "]"); Conv (chr 84); Lit (str "["); Conv (chr 99);
   Lit (str "]"); Conv (chr 84); Conv (chr 102); Lit (str ":"); Conv (chr 108); Conv (chr 84); Conv (chr 109); Conv (chr 110)].

Lemma pattern_witness : render default_pieces = default_pattern ∧ m_error (new_LogFormatter default_pattern) = false ∧
  m_items (new_LogFormatter default_pattern) = map piece_item default_pieces.
Proof.
  assert (well_formed default_pieces) as Hw.
  { repeat split; try (by eexists); try discriminate; try (by repeat constructor). }
  assert (render default_pieces = default_pattern) as Hr by reflexivity.
  split; [exact Hr|]. rewrite <- Hr. destruct (pattern_round_trip (λ _ _, []) default_pieces Hw) as (He&Hi&_). by split.
Defined.

(** "%%" is meant to be a per cent sign, but only its first half is consumed. *)
Example percent_twice :
  m_items (new_LogFormatter (str "%%m")) = [StringFormatItem (str "%"); MessageFormatItem] ∧
  m_error (new_LogFormatter (str "100%%")) = true.
Proof. split; by vm_compute. Qed.

(** After an argument that is not closed the items are out of order. *)
Example open_argument :
  m_items (new_LogFormatter (str "ab%d{x")) =
  [StringFormatItem (str "<<pattern_error>>"); StringFormatItem (str "abd{x")].
Proof. by vm_compute. Qed.

(** ** Reconfiguration *)

Lemma find_put name x l : find_logger name (put_logger name x l) = Some x.
Proof.
  induction l as [|[n y] l IH]; simpl; [by rewrite decide_True|].
  destruct (decide (n = name)) as [->|Hn]; simpl; [by rewrite decide_True|by rewrite decide_False].
Qed.
Lemma find_put_ne name n x l : n ≠ name → find_logger n (put_logger name x l) = find_logger n l.
Proof.
  intros Hn. induction l as [|[m y] l IH]; simpl; [by rewrite decide_False|].
  destruct (decide (m = name)) as [->|]; simpl; [by rewrite !decide_False by done|]. by rewrite IH.
Qed.

Section reconfiguration.
Context (can_open : bytes → bool).
Implicit Types (s : logs) (d : LogDefine).

(** The formatter of a pattern, if there is one and it has no error. *)
Definition usable (pattern : bytes) : option LogFormatter :=
  match pattern with
  | [] => None
  | _ => let f := new_LogFormatter pattern in if m_error f then None else Some f
  end.
Definition target_for (a : LogAppenderDefine) (t : target) : Prop :=
  match t with Stdout => ad_type a = 2 | File name _ _ => ad_type a = 1 ∧ name = ad_file a end.
(** The appender [i] is what [a] asks for, where [f] is the formatter of its logger. *)
Definition appender_for (f : LogFormatter) s (a : LogAppenderDefine) (i : nat) : Prop :=
  ∃ t h, appenders s !! i = Some (mkLogAppender t (ad_level a) (Some (default f (usable (ad_formatter a)))) h) ∧ target_for a t.
Definition configured d s : Prop :=
  ∃ x, find_logger (ld_name d) (loggers s) = Some x ∧ l_level x = ld_level d ∧
    (∀ f, usable (ld_formatter d) = Some f → l_formatter x = f) ∧
    Forall2 (appender_for (l_formatter x) s) (ld_appenders d) (l_appenders x).
Definition removed d s : Prop :=
  ∃ x, find_logger (ld_name d) (loggers s) = Some x ∧ l_level x = UNKNOWM ∧ l_appenders x = [].

(** No appender is shared by two loggers. *)
Definition owned s : Prop :=
  ∀ n x i, find_logger n (loggers s) = Some x → i ∈ l_appenders x →
    (i < length (appenders s))%nat ∧ ∀ n' x', find_logger n' (loggers s) = Some x' → i ∈ l_appenders x' → n' = n.
(** The logger [name] and its appenders are the same. *)
Definition agree (name : bytes) s s' : Prop :=
  find_logger name (loggers s') = find_logger name (loggers s) ∧
  ∀ x i, find_logger name (loggers s) = Some x → i ∈ l_appenders x → appenders s' !! i = appenders s !! i.

Lemma agree_refl name s : agree name s s.
Proof. by split. Qed.
Lemma agree_trans name s s' s'' : agree name s s' → agree name s' s'' → agree name s s''.
Proof.
  intros [Hf Ha] [Hf' Ha']. split; [congruence|]. intros x i Hx Hi.
  rewrite (Ha' x i) by (done || congruence). by apply (Ha x).
Qed.

Lemma configured_agree d s s' : agree (ld_name d) s s' → configured d s → configured d s'.
Proof.
  intros [Hf Ha] (x&Hx&Hl&Hu&Happ). exists x. split; [congruence|]. do 2 (split; [done|]).
  specialize (Ha x). apply Forall2_same_length_lookup in Happ as [Hlen Happ].
  apply Forall2_same_length_lookup. split; [done|]. intros k a i Hk Hi.
  destruct (Happ k a i Hk Hi) as (t&h&Hi'&Ht). exists t, h. split; [|done]. rewrite Ha; [done..|]. by apply list_elem_of_lookup_2 in Hi.
Qed.
Lemma removed_agree d s s' : agree (ld_name d) s s' → removed d s → removed d s'.
Proof. intros [Hf _] (x&Hx&H'). exists x. split; [congruence|done]. Qed.

(** An operation on one logger, and a sequence of them. *)
Lemma each_loggers {A} (f : A → M logs ()) (key : A → bytes) (Q P : A → logs → Prop) l s :
  (∀ a s, a ∈ l → Q a s → owned s → ∃ s', f a s = Ret tt s' ∧ owned s' ∧ P a s' ∧ ∀ n, n ≠ key a → agree n s s') →
  (∀ a s s', agree (key a) s s' → Q a s → Q a s') → (∀ a s s', agree (key a) s s' → P a s → P a s') →
  NoDup (map key l) → owned s → (∀ a, a ∈ l → Q a s) →
  ∃ s', each f l s = Ret tt s' ∧ owned s' ∧ (∀ a, a ∈ l → P a s') ∧ ∀ n, n ∉ map key l → agree n s s'.
Proof.
  intros Hf HQ HP. revert s. induction l as [|a l IH]; intros s Hnd Ho Hq; [exists s; split; [done|]; split; [done|]; split; [by intros a ?%elem_of_nil|]; intros; apply agree_refl|].
  simpl in Hnd. apply NoDup_cons in Hnd as [Hna Hnd].
  destruct (Hf a s) as (s1&Hs1&Ho1&Hp1&Hag1); [by left|apply Hq; by left|done|].
  assert (∀ b, b ∈ l → key b ≠ key a) as Hne by (intros b Hb Heq; apply Hna; rewrite <- Heq; by apply (list_elem_of_fmap_2 key)).
  destruct (IH ltac:(intros; apply Hf; [by right|done..]) s1) as (s2&Hs2&Ho2&Hp2&Hag2); [done..| |].
  { intros b Hb. apply (HQ b s); [apply Hag1; auto|apply Hq; by right]. }
  exists s2. cbn [each]. mstep Hs1. split; [done|]. split; [done|]. split.
  - intros b [->|Hb]%elem_of_cons; [apply (HP a s1); [by apply Hag2|done]|by apply Hp2].
  - intros n Hn. simpl in Hn. apply not_elem_of_cons in Hn as [Hn Hn']. apply (agree_trans n s s1); auto.
Qed.
Definition made (f : LogFormatter) (a : LogAppenderDefine) : LogAppender :=
  mkLogAppender (if ad_type a =? 1 then File (ad_file a) 0 (can_open (ad_file a)) else Stdout) (ad_level a)
    (Some (default f (usable (ad_formatter a)))) false.
Definition with_appenders (x : Logger) (l : list nat) : Logger := mkLogger (l_level x) l (l_formatter x) (l_has_root x).

Lemma snoc_appender ls l a o fs :
  the_appender (length l) (mkLogs ls (l ++ [a]) o fs) = Ret a (mkLogs ls (l ++ [a]) o fs).
Proof. unfold the_appender. msteps. cbn [appenders]. by rewrite list_lookup_middle. Qed.
Lemma snoc_set ls l a b o fs :
  set_appender (length l) b (mkLogs ls (l ++ [a]) o fs) = Ret tt (mkLogs ls (l ++ [b]) o fs).
Proof. unfold set_appender, modify. cbn. by rewrite insert_app_r_alt, Nat.sub_diag by lia. Qed.

Lemma new_appender_spec a s :
  new_appender a s = Ret (length (appenders s)) (mkLogs (loggers s) (appenders s ++ [a]) (out s) (files s)).
Proof. done. Qed.

Lemma reopen_snoc ls l n t b lv f h o fs : ∃ fs',
  reopen can_open (length l) (mkLogs ls (l ++ [mkLogAppender (File n t b) lv f h]) o fs) =
  Ret (can_open n) (mkLogs ls (l ++ [mkLogAppender (File n t (can_open n)) lv f h]) o fs').
Proof.
  unfold reopen. mstep (snoc_appender ls l (mkLogAppender (File n t b) lv f h) o fs). cbn [a_target]. unfold open_file.
  destruct (can_open n).
  - exists (append_file n [] fs). unfold write_file. rewrite bind_assoc, bind_modify.
    cbn [loggers appenders out files a_level a_formatter a_hasFormatter]. msteps. by mstep (snoc_set ls l (mkLogAppender (File n t b) lv f h) (mkLogAppender (File n t true) lv f h) o (append_file n [] fs)).
  - exists fs. msteps. by mstep (snoc_set ls l (mkLogAppender (File n t b) lv f h) (mkLogAppender (File n t false) lv f h) o fs).
Qed.

(** The appender of the right type at the end of [appenders]. *)
Lemma make_appender a s : ad_type a = 1 ∨ ad_type a = 2 → ∃ fs,
  (if ad_type a =? 1 then new_FileLogAppender can_open (ad_file a)
   else if ad_type a =? 2 then new_StdoutLogAppender else crash NullDeref) s =
  Ret (length (appenders s))
    (mkLogs (loggers s) (appenders s ++ [mkLogAppender (a_target (made (new_LogFormatter []) a)) DEBUG None false]) (out s) fs).
Proof.
  unfold made. intros [Ht|Ht]; rewrite Ht; cbn [Z.eqb Pos.eqb a_target]; [|by exists (files s)].
  unfold new_FileLogAppender. mstep (new_appender_spec (mkLogAppender (File (ad_file a) 0 false) DEBUG None false) s).
  destruct (reopen_snoc (loggers s) (appenders s) (ad_file a) 0 false DEBUG None false (out s) (files s)) as [fs Hr].
  exists fs. by mstep Hr.
Qed.

Lemma apply_appender_spec name x a s : find_logger name (loggers s) = Some x → ad_type a = 1 ∨ ad_type a = 2 → ∃ fs,
  apply_appender can_open name a s =
  Ret tt (mkLogs (put_logger name (with_appenders x (l_appenders x ++ [length (appenders s)])) (loggers s))
    (appenders s ++ [made (l_formatter x) a]) (out s) fs).
Proof.
  intros Hx Ht. destruct (make_appender a s Ht) as [fs Hm]. exists fs. unfold apply_appender. mstep Hm.
  unfold setAppenderLevel. rewrite bind_assoc. mstep (snoc_appender _ _ _ _ _). mstep (snoc_set _ _ _ _ _ _). cbn [a_target a_formatter a_hasFormatter].
  assert (∀ g, addLogAppender name (length (appenders s)) (mkLogs (loggers s) (appenders s ++
      [mkLogAppender (a_target (made (new_LogFormatter []) a)) (ad_level a) g false]) (out s) fs) =
    Ret tt (mkLogs (put_logger name (with_appenders x (l_appenders x ++ [length (appenders s)])) (loggers s))
      (appenders s ++ [mkLogAppender (a_target (made (new_LogFormatter []) a)) (ad_level a) (Some (default (l_formatter x) g)) false])
      (out s) fs)) as Hadd.
  { intros g. unfold addLogAppender, the_logger. rewrite bind_assoc. msteps. cbn [loggers]. rewrite Hx. cbn [deref]. msteps.
    mstep (snoc_appender _ _ _ _ _). cbn [a_formatter]. destruct g as [g|]; [by msteps|]. by mstep (snoc_set _ _ _ _ _ _). }
  unfold made at 2, usable. destruct (ad_formatter a) as [|c p]; [msteps; apply Hadd|].
  cbv zeta. destruct (m_error (new_LogFormatter (c :: p))); [msteps; apply Hadd|].
  unfold setAppenderFormatter. rewrite bind_assoc. mstep (snoc_appender _ _ _ _ _). mstep (snoc_set _ _ _ _ _ _). apply Hadd.
Qed.

Lemma apply_appenders_spec name l : ∀ x s, find_logger name (loggers s) = Some x →
  Forall (λ a, ad_type a = 1 ∨ ad_type a = 2) l → ∃ s',
  each (apply_appender can_open name) l s = Ret tt s' ∧
  find_logger name (loggers s') = Some (with_appenders x (l_appenders x ++ seq (length (appenders s)) (length l))) ∧
  (∀ n, n ≠ name → find_logger n (loggers s') = find_logger n (loggers s)) ∧
  appenders s' = appenders s ++ map (made (l_formatter x)) l.
Proof.
  induction l as [|a l IH]; intros x s Hx Hl.
  - exists s. simpl. rewrite !app_nil_r. by destruct x.
  - apply Forall_cons in Hl as [Ht Hl]. destruct (apply_appender_spec name x a s Hx Ht) as [fs Hs].
    cbn [each]. mstep Hs. revert Hs. set (s1 := mkLogs _ _ _ _). intros _.
    destruct (IH _ s1 (find_put name _ (loggers s)) Hl) as (s'&Hs'&Hf&Hn&Ha).
    exists s'. split; [exact Hs'|]. subst s1. cbn [loggers appenders] in *. split_and!.
    + rewrite Hf. unfold with_appenders. simpl. by rewrite length_app, Nat.add_1_r, <- app_assoc.
    + intros n Hne. by rewrite Hn, find_put_ne.
    + rewrite Ha. simpl. by rewrite <- app_assoc.
Qed.
(** [s'] is [s] but for the logger [name], which is [x], and the appenders in [l]. *)
Definition touched (name : bytes) (l : list nat) (x : Logger) s s' : Prop :=
  find_logger name (loggers s') = Some x ∧ (∀ n, n ≠ name → find_logger n (loggers s') = find_logger n (loggers s)) ∧
  length (appenders s') = length (appenders s) ∧ ∀ i, i ∉ l → appenders s' !! i = appenders s !! i.

Lemma touched_trans name l x y s s' s'' : touched name l x s s' → touched name l y s' s'' → touched name l y s s''.
Proof.
  intros (_&Hn&Hl&Ha) (Hf&Hn'&Hl'&Ha'). split; [done|]. split; [|split; [congruence|]].
  - intros n Hne. by rewrite Hn', Hn.
  - intros i Hi. by rewrite Ha', Ha.
Qed.

Lemma set_logger_touched name l x s : ∃ s', set_logger name x s = Ret tt s' ∧ touched name l x s s'.
Proof.
  eexists. split; [reflexivity|]. split; [apply find_put|]. split; [|done]. intros n Hn. by apply find_put_ne.
Qed.

Lemma getLogger_touched name l s : ∃ s' x, getLogger name s = Ret tt s' ∧ touched name l x s s' ∧
  x = default (new_Logger true) (find_logger name (loggers s)).
Proof.
  unfold getLogger. msteps. destruct (find_logger name (loggers s)) as [x|] eqn:Hx.
  - exists s, x. by split_and!.
  - destruct (set_logger_touched name l (new_Logger true) s) as (s'&Hs'&Ht). by exists s', (new_Logger true).
Qed.

Lemma on_logger name {A} (k : Logger → M logs A) x s : find_logger name (loggers s) = Some x → (the_logger name ≫= k) s = k x s.
Proof. intros Hx. unfold the_logger. rewrite bind_assoc. msteps. by rewrite Hx. Qed.
Lemma on_appender i {A} (k : LogAppender → M logs A) a s : appenders s !! i = Some a → (the_appender i ≫= k) s = k a s.
Proof. intros Ha. unfold the_appender. rewrite bind_assoc. msteps. by rewrite Ha. Qed.

Lemma each_formatter val name x l : ∀ s, find_logger name (loggers s) = Some x → Forall (λ i, (i < length (appenders s))%nat) l →
  ∃ s', each (λ i, a ← the_appender i;
             if a_hasFormatter a then mret tt
             else set_appender i (mkLogAppender (a_target a) (a_level a) (Some val) (a_hasFormatter a))) l s = Ret tt s' ∧
    touched name l x s s'.
Proof.
  induction l as [|i l IH]; intros s Hx Hl; [by exists s|]. apply Forall_cons in Hl as [Hi Hl].
  destruct (lookup_lt_is_Some_2 _ _ Hi) as [a Ha]. cbn [each]. rewrite bind_assoc, (on_appender i _ a s Ha). cbv beta.
  destruct (a_hasFormatter a).
  - msteps. destruct (IH s Hx Hl) as (s'&Hs'&Hf&Hn&Hlen&Hap). exists s'. split; [done|]. do 3 (split; [done|]).
    intros j Hj. apply Hap. set_solver.
  - rewrite (bind_ret (set_appender _ _) _ _ _ _ eq_refl). edestruct IH as (s'&Hs'&Hf&Hn&Hlen&Hap);
      [| |exists s'; split; [exact Hs'|]]; cbn [loggers appenders] in *; [done|by rewrite length_insert|].
    rewrite length_insert in Hlen. do 3 (split; [done|]). intros j Hj. rewrite Hap by set_solver. apply list_lookup_insert_ne. set_solver.
Qed.

Lemma set_formatter_spec name x p s : find_logger name (loggers s) = Some x → Forall (λ i, (i < length (appenders s))%nat) (l_appenders x) →
  ∃ s', (match p with [] => mret tt | c :: r => setFormatter_pattern name (c :: r) end) s = Ret tt s' ∧
    touched name (l_appenders x) (mkLogger (l_level x) (l_appenders x) (default (l_formatter x) (usable p)) (l_has_root x)) s s'.
Proof.
  intros Hx Hl. assert (touched name (l_appenders x) (mkLogger (l_level x) (l_appenders x) (l_formatter x) (l_has_root x)) s s) as Hid
    by (split; [by destruct x|done]).
  unfold usable. destruct p as [|c p]; [by exists s|]. unfold setFormatter_pattern. cbv zeta.
  destruct (m_error (new_LogFormatter (c :: p))); [by exists s|]. unfold setFormatter. rewrite (on_logger name _ x s Hx).
  cbn [default]. set (y := mkLogger _ _ _ _). destruct (set_logger_touched name (l_appenders x) y s) as (s1&Hs1&Ht1). mstep Hs1.
  destruct (each_formatter (new_LogFormatter (c :: p)) name y (l_appenders x) s1) as (s2&Hs2&Ht2).
  - apply Ht1.
  - by rewrite (proj1 (proj2 (proj2 Ht1))).
  - exists s2. split; [exact Hs2|]. by apply (touched_trans _ _ y _ s s1).
Qed.
Definition old_appenders (name : bytes) s : list nat := l_appenders (default (new_Logger true) (find_logger name (loggers s))).

(** A logger without appenders: the others keep theirs. *)
Lemma touched_owned name x s s' : owned s → touched name (old_appenders name s) x s s' → l_appenders x = [] →
  owned s' ∧ ∀ n, n ≠ name → agree n s s'.
Proof.
  intros Ho (Hf&Hn&Hl&Ha) Hx. split.
  - intros n y i Hy Hi. destruct (decide (n = name)) as [->|Hne].
    { rewrite Hf in Hy. injection Hy as <-. rewrite Hx in Hi. by apply elem_of_nil in Hi. }
    rewrite (Hn n Hne) in Hy. destruct (Ho n y i Hy Hi) as [Hlt Hu]. split; [lia|]. intros n' y' Hy' Hi'.
    destruct (decide (n' = name)) as [->|Hne']; [|rewrite (Hn n' Hne') in Hy'; by apply (Hu n' y')].
    rewrite Hf in Hy'. injection Hy' as <-. rewrite Hx in Hi'. by apply elem_of_nil in Hi'.
  - intros n Hne. split; [by apply Hn|]. intros y i Hy Hi. apply Ha. unfold old_appenders.
    destruct (find_logger name (loggers s)) as [z|] eqn:Hz; [|apply not_elem_of_nil]. intros Hi'.
    apply Hne. symmetry. by apply (proj2 (Ho n y i Hy Hi) name z).
Qed.

(** New appenders for it. *)
Lemma appended_owned name x s s' k m : owned s → find_logger name (loggers s) = Some x → l_appenders x = [] →
  find_logger name (loggers s') = Some (with_appenders x (seq (length (appenders s)) k)) →
  (∀ n, n ≠ name → find_logger n (loggers s') = find_logger n (loggers s)) → appenders s' = appenders s ++ m → length m = k →
  owned s' ∧ ∀ n, n ≠ name → agree n s s'.
Proof.
  intros Ho Hx Hnil Hf Hn Ha Hk. split.
  - intros n y i Hy Hi. destruct (decide (n = name)) as [->|Hne].
    + rewrite Hf in Hy. injection Hy as <-. simpl in Hi. apply elem_of_seq in Hi. rewrite Ha, length_app. split; [lia|].
      intros n' y' Hy' Hi'. destruct (decide (n' = name)) as [|Hne']; [done|]. rewrite (Hn n' Hne') in Hy'.
      pose proof (proj1 (Ho n' y' i Hy' Hi')). lia.
    + rewrite (Hn n Hne) in Hy. destruct (Ho n y i Hy Hi) as [Hlt Hu]. rewrite Ha, length_app. split; [lia|].
      intros n' y' Hy' Hi'. destruct (decide (n' = name)) as [->|Hne']; [|rewrite (Hn n' Hne') in Hy'; by apply (Hu n' y')].
      rewrite Hf in Hy'. injection Hy' as <-. simpl in Hi'. apply elem_of_seq in Hi'. lia.
  - intros n Hne. split; [by apply Hn|]. intros y i Hy Hi. rewrite Ha. apply lookup_app_l. by apply (Ho n y).
Qed.

Lemma made_for f s s' l : appenders s' = appenders s ++ map (made f) l → Forall (λ a, ad_type a = 1 ∨ ad_type a = 2) l →
  Forall2 (appender_for f s') l (seq (length (appenders s)) (length l)).
Proof.
  intros Ha Hl. apply Forall2_same_length_lookup. split; [by rewrite length_seq|]. intros k a i Hk Hi.
  apply lookup_seq in Hi as [-> _]. pose proof (Forall_lookup_1 _ _ _ _ Hl Hk) as Ht. cbn beta in Ht.
  eexists _, _. split.
  - rewrite Ha, lookup_app_r by lia. replace (_ + k - _)%nat with k by lia. change (map (made f) l) with (made f <$> l).
    by rewrite list_lookup_fmap, Hk.
  - unfold target_for. destruct Ht as [Ht|Ht]; by rewrite Ht.
Qed.

Lemma remove_define_spec d s : owned s → ∃ s', remove_define d s = Ret tt s' ∧ owned s' ∧ removed d s' ∧
  ∀ n, n ≠ ld_name d → agree n s s'.
Proof.
  intros Ho. unfold remove_define. set (name := ld_name d).
  destruct (getLogger_touched name (old_appenders name s) s) as (s1&x&Hs1&Ht1&_). mstep Hs1.
  unfold setLevel. rewrite bind_assoc, (on_logger name _ x s1) by apply Ht1. cbv beta. set (y := mkLogger _ _ _ _).
  destruct (set_logger_touched name (old_appenders name s) y s1) as (s2&Hs2&Ht2). mstep Hs2.
  unfold clearAppenders. rewrite (on_logger name _ y s2) by apply Ht2. set (z := mkLogger _ _ _ _).
  destruct (set_logger_touched name (old_appenders name s) z s2) as (s3&Hs3&Ht3). exists s3. split; [done|].
  assert (touched name (old_appenders name s) z s s3) as Ht by eauto using touched_trans.
  destruct (touched_owned name z s s3 Ho Ht eq_refl) as [Ho3 Hag]. split; [done|]. split; [|done].
  exists z. by split; [apply Ht|].
Qed.

Lemma apply_define_spec d s : owned s → Forall (λ a, ad_type a = 1 ∨ ad_type a = 2) (ld_appenders d) →
  ∃ s', apply_define can_open d s = Ret tt s' ∧ owned s' ∧ configured d s' ∧ ∀ n, n ≠ ld_name d → agree n s s'.
Proof.
  intros Ho Htypes. unfold apply_define. set (name := ld_name d). set (l := old_appenders name s).
  destruct (getLogger_touched name l s) as (s1&x&Hs1&Ht1&Hx). mstep Hs1.
  unfold setLevel. rewrite bind_assoc, (on_logger name _ x s1) by apply Ht1. cbv beta. set (y := mkLogger _ _ _ _).
  destruct (set_logger_touched name l y s1) as (s2&Hs2&Ht2). mstep Hs2.
  assert (l_appenders y = l) as Hyl by (subst y x; reflexivity).
  destruct (set_formatter_spec name y (ld_formatter d) s2) as (s3&Hs3&Ht3); [apply Ht2| |].
  { rewrite Hyl. apply Forall_forall. intros i Hi. subst l. unfold old_appenders in Hi.
    rewrite (proj1 (proj2 (proj2 Ht2))), (proj1 (proj2 (proj2 Ht1))).
    destruct (find_logger name (loggers s)) as [w|] eqn:Hw; [by apply (Ho name w)|by apply elem_of_nil in Hi]. }
  mstep Hs3. rewrite Hyl in Ht3. revert Ht3. set (z := mkLogger _ _ _ _). intros Ht3.
  unfold clearAppenders. rewrite bind_assoc, (on_logger name _ z s3) by apply Ht3. cbv beta. set (w := mkLogger _ _ _ _).
  destruct (set_logger_touched name l w s3) as (s4&Hs4&Ht4). mstep Hs4.
  assert (touched name l w s s4) as Ht by eauto using touched_trans.
  destruct (touched_owned name w s s4 Ho Ht eq_refl) as [Ho4 Hag4].
  destruct (apply_appenders_spec name (ld_appenders d) w s4 (proj1 Ht) Htypes) as (s5&Hs5&Hf5&Hn5&Ha5). exists s5. split; [done|].
  destruct (appended_owned name w s4 s5 (length (ld_appenders d)) (map (made (l_formatter w)) (ld_appenders d)) Ho4 (proj1 Ht) eq_refl Hf5 Hn5 Ha5
    ltac:(by rewrite length_map)) as [Ho5 Hag5].
  split; [done|]. split; [|intros n Hn; apply (agree_trans n s s4); auto].
  eexists. split; [exact Hf5|]. split; [done|]. split; [by simpl; intros f -> |]. by apply made_for.
Qed.
Lemma find_define_Some name l d : find_define name l = Some d → d ∈ l ∧ ld_name d = name.
Proof.
  induction l as [|e l IH]; simpl; [done|]. destruct (decide (ld_name e = name)) as [He|].
  - intros [= <-]. split; [by left|done].
  - intros Hf. destruct (IH Hf). split; [by right|done].
Qed.
Lemma find_define_None name l : find_define name l = None ↔ name ∉ map ld_name l.
Proof.
  induction l as [|e l IH]; simpl; [set_solver|]. destruct (decide (ld_name e = name)) as [He|]; set_solver.
Qed.

Lemma reconfigure_ok old new s
    (Hold : NoDup (map ld_name old)) (Hnew : NoDup (map ld_name new)) (Ho : owned s)
    (Htypes : ∀ d, d ∈ new → Forall (λ a, ad_type a = 1 ∨ ad_type a = 2) (ld_appenders d))
    (Hconf : ∀ d, d ∈ old → configured d s) :
  ∃ s', on_logger_conf_changed can_open old new s = Ret tt s' ∧ owned s' ∧
    (∀ d, d ∈ new → configured d s') ∧
    (∀ d, d ∈ old → ld_name d ∉ map ld_name new → removed d s') ∧
    ∀ n, n ∉ map ld_name old → n ∉ map ld_name new → agree n s s'.
Proof.
  unfold on_logger_conf_changed.
  edestruct (each_loggers (λ i, match find_define (ld_name i) old with
             | Some o => if decide (i = o) then mret tt else apply_define can_open i
             | None => apply_define can_open i
             end) ld_name (λ d s, d ∈ old → configured d s) configured new s) as (s1&Hs1&Ho1&Hc1&Hag1); [|..|].
  - intros d t Hd Hq Hot. specialize (Htypes d Hd).
    assert (∃ s', apply_define can_open d t = Ret tt s' ∧ owned s' ∧ configured d s' ∧ ∀ n, n ≠ ld_name d → agree n t s') as Happly
      by (by apply apply_define_spec).
    destruct (find_define (ld_name d) old) as [o|] eqn:Hf; [|done]. apply find_define_Some in Hf as [Ho' _].
    destruct (decide (d = o)) as [->|]; [|done]. exists t. split; [done|]. split; [done|]. split; [by apply Hq|]. intros n _. apply agree_refl.
  - intros d t t' Hag Hq Hd. apply (configured_agree d t); auto.
  - intros d t t'. apply configured_agree.
  - done.
  - done.
  - intros d Hd Hin. by apply Hconf.
  - mstep Hs1.
    set (Q d t := ∀ e, e ∈ new → ld_name e = ld_name d → configured e t).
    assert (∀ d t t', agree (ld_name d) t t' → Q d t → Q d t') as HQ.
    { intros d t t' Hag Hq e He Hn. apply (configured_agree e t); [by rewrite Hn|by apply Hq]. }
    edestruct (each_loggers (λ i, match find_define (ld_name i) new with Some _ => mret tt | None => remove_define i end)
      ld_name Q (λ d s, (ld_name d ∉ map ld_name new → removed d s) ∧ Q d s) old s1) as (s2&Hs2&Ho2&Hr2&Hag2); [|done|..].
    + intros d t Hd Hq Hot. destruct (find_define (ld_name d) new) as [o|] eqn:Hf.
      * exists t. do 2 (split; [done|]). split; [split; [|done]|intros; apply agree_refl].
        intros Hn%find_define_None. congruence.
      * destruct (remove_define_spec d t Hot) as (t'&Ht'&Hot'&Hr&Hag). exists t'. do 2 (split; [done|]).
        split; [|done]. split; [done|]. intros e He Hn. apply find_define_None in Hf. destruct Hf. rewrite <- Hn.
        by apply (list_elem_of_fmap_2 ld_name).
    + intros d t t' Hag [Hr Hq]. split; [|by apply (HQ d t)]. intros Hn. apply (removed_agree d t); auto.
    + done.
    + done.
    + intros d Hd e He _. by apply Hc1.
    + exists s2. split; [done|]. split; [done|]. split_and!.
      * intros e He. destruct (decide (ld_name e ∈ map ld_name old)) as [Hin|Hin].
        -- apply (list_elem_of_fmap_1 ld_name) in Hin as (d&Hn&Hd). by apply (Hr2 d Hd).
        -- apply (configured_agree e s1); [by apply Hag2|by apply Hc1].
      * intros d Hd. apply (Hr2 d Hd).
      * intros n Hn Hn'. apply (agree_trans n s s1); auto.
Qed.

(** C12. A change of the configuration does what it says: if the loggers are
    configured as the old value of the variable [logs] asks, then after the listener they are as
    the new value asks - each with its level, its formatter if the given one is
    valid, and exactly the appenders listed, with their types, files, levels and
    formatters, those without a valid formatter of their own having the one of
    the logger - the loggers that are no longer listed have lost their appenders
    and their level, and every other logger is as it was.  No appender gets two
    owners, so that changes can follow each other. *)
Theorem reconfigure old new s
    (Hold : NoDup (map ld_name old)) (Hnew : NoDup (map ld_name new)) (Ho : owned s)
    (Htypes : ∀ d, d ∈ new → Forall (λ a, ad_type a = 1 ∨ ad_type a = 2) (ld_appenders d))
    (Hconf : ∀ d, d ∈ old → configured d s) :
  ∃ s', on_logger_conf_changed can_open old new s = Ret tt s' ∧ owned s' ∧
    (∀ d, d ∈ new → configured d s') ∧
    (∀ d, d ∈ old → ld_name d ∉ map ld_name new → removed d s') ∧
    ∀ n, n ∉ map ld_name old → n ∉ map ld_name new → agree n s s'.
Proof. by apply reconfigure_ok. Qed.
End reconfiguration.

(** A configuration, and a change of it. *)
Definition started : logs := Eval vm_compute in
  match new_LoggerManager logs_empty with Ret _ s => s | _ => logs_empty end.
Lemma started_owned : owned started.
Proof.
  assert (∀ n x i, find_logger n (loggers started) = Some x → i ∈ l_appenders x → n = root_name ∧ i = 0%nat) as Hone.
  { intros n x i. simpl. destruct (decide _) as [<-|]; [|done]. intros [= <-] Hi. by apply list_elem_of_singleton in Hi. }
  intros n x i Hx Hi. destruct (Hone n x i Hx Hi) as [-> ->]. split; [simpl; lia|]. intros n' x' Hx' Hi'. by apply (Hone n' x' 0%nat).
Qed.
Definition first_config : list LogDefine :=
  [mkLogDefine root_name INFO (str "%m%n") [mkAppenderDefine 2 DEBUG [] []];
   mkLogDefine (str "system") ERROR [] [mkAppenderDefine 1 DEBUG (str "%p %m%n") (str "/tmp/system.txt"); mkAppenderDefine 2 FATAL [] []]].
Definition second_config : list LogDefine := [mkLogDefine root_name WARN [] [mkAppenderDefine 2 DEBUG [] []]].

Lemma reconfigure_witness : ∃ s1 s2,
  on_logger_conf_changed (λ _, true) [] first_config started = Ret tt s1 ∧
  on_logger_conf_changed (λ _, true) first_config second_config s1 = Ret tt s2 ∧
  (∀ d, d ∈ second_config → configured d s2) ∧ (∀ d, d ∈ first_config → ld_name d ∉ map ld_name second_config → removed d s2).
Proof.
  pose proof started_owned as Ho.
  assert (∀ d, d ∈ first_config ++ second_config → Forall (λ a, ad_type a = 1 ∨ ad_type a = 2) (ld_appenders d)) as Ht.
  { apply Forall_forall. repeat constructor; by (by left) || by right. }
  assert (NoDup (map ld_name first_config)) as Hnd by (apply (bool_decide_eq_true_1 _); by vm_compute).
  destruct (reconfigure (λ _, true) [] first_config started) as (s1&Hs1&Ho1&Hc1&_); [constructor|done..| |by intros d ?%elem_of_nil|].
  { intros d Hd. apply Ht, elem_of_app. by left. }
  destruct (reconfigure (λ _, true) first_config second_config s1) as (s2&Hs2&Ho2&Hc2&Hr2&_); [done|repeat constructor; apply not_elem_of_nil|done| |done|].
  { intros d Hd. apply Ht, elem_of_app. by right. }
  by exists s1, s2.
Defined.

(** A logger that has been taken out of the configuration passes everything to
    the root logger: [UNKNOWM] is the lowest level. *)
Definition debug_event : LogEvent := mkLogEvent [] 0 0 0 0 0 [] (str "x") (str "system") DEBUG.
Example deleted_logger_speaks :
  let run m := match m with Ret _ s => out s | _ => [] end in
  run ((on_logger_conf_changed (λ _, true) [] first_config;; on_logger_conf_changed (λ _, true) first_config [mkLogDefine root_name DEBUG (str "%m") [mkAppenderDefine 2 DEBUG [] []]];;
        log_macro (λ _ _, []) (λ _, true) (str "system") DEBUG debug_event) started) = str "x" ∧
  run ((on_logger_conf_changed (λ _, true) [] first_config;;
        log_macro (λ _ _, []) (λ _, true) (str "system") DEBUG debug_event) started) = [].
Proof. split; by vm_compute. Qed.

(** The formatter of an appender given by hand is lost when its logger gets one. *)
Example formatter_overridden :
  a_formatter <$> (match (setAppenderFormatter 0 (new_LogFormatter (str "%m"));; setFormatter_pattern root_name (str "%p")) started with
    Ret _ s => appenders s !! 0%nat | _ => None end) = Some (Some (new_LogFormatter (str "%p"))).
Proof. by vm_compute. Qed.

(** ** Where an event goes *)

Section routing.
Context (strftime : bytes → Z → bytes) (can_open : bytes → bool).

(** Standard output, or the content of a file. *)
Definition content (where_ : option bytes) (s : logs) : bytes :=
  match where_ with
  | None => out s
  | Some name => default [] (snd ∘ snd <$> list_find (λ p, p.1 = name) (files s))
  end.
(** What an appender adds to it. *)
Definition said (where_ : option bytes) (level : Z) (event : LogEvent) (a : LogAppender) : bytes :=
  if level <? a_level a then [] else
  match a_formatter a, a_target a with
  | Some f, Stdout => if decide (where_ = None) then format strftime f level event else []
  | Some f, File name _ _ => if decide (where_ = Some name) then if can_open name then format strftime f level event else [] else []
  | None, _ => []
  end.

(** Appenders that differ in the time of the last opening only. *)
Definition same_but_time (a b : LogAppender) : Prop :=
  a_level a = a_level b ∧ a_formatter a = a_formatter b ∧ a_hasFormatter a = a_hasFormatter b ∧
  match a_target a, a_target b with
  | Stdout, Stdout => True
  | File n _ b1, File m _ b2 => n = m ∧ b1 = b2
  | _, _ => False
  end.
(** An appender that can log: it has a formatter, and its file is open if it can be. *)
Definition usable_appender (a : LogAppender) : Prop :=
  is_Some (a_formatter a) ∧ match a_target a with File n _ b => b = can_open n | Stdout => True end.

Lemma said_same where_ level event a b : same_but_time a b → said where_ level event a = said where_ level event b.
Proof.
  intros (Hl&Hf&_&Ht). unfold said. rewrite Hl, Hf.
  destruct (a_target a), (a_target b); try done. by destruct Ht as [-> _].
Qed.
Lemma usable_same a b : same_but_time a b → usable_appender a → usable_appender b.
Proof.
  intros (_&Hf&_&Ht) [Hs Hu]. split; [by rewrite <- Hf|]. destruct (a_target a), (a_target b); try done. by destruct Ht as [-> ->].
Qed.
Lemma same_refl a : same_but_time a a.
Proof. repeat split. by destruct (a_target a). Qed.
Lemma same_trans a b c : same_but_time a b → same_but_time b c → same_but_time a c.
Proof.
  intros (?&?&?&Ht) (?&?&?&Ht'). unfold same_but_time. split_and!; try congruence.
  destruct (a_target a), (a_target b), (a_target c); try done. destruct Ht, Ht'. split; congruence.
Qed.

Lemma content_append where_ name data s :
  content where_ (mkLogs (loggers s) (appenders s) (out s) (append_file name data (files s))) =
  content where_ s ++ (if decide (where_ = Some name) then data else []).
Proof.
  destruct where_ as [n|]; simpl; [|by rewrite app_nil_r].
  induction (files s) as [|[m d] l IH]; simpl.
  - destruct (decide (name = n)) as [->|Hn]; [by rewrite decide_True|by rewrite decide_False by congruence].
  - destruct (decide (m = name)) as [->|Hm]; simpl.
    + destruct (decide (name = n)) as [->|Hn]; simpl; [by rewrite decide_True|rewrite decide_False by congruence; by rewrite app_nil_r].
    + destruct (decide (m = n)) as [->|Hn]; simpl; [rewrite decide_False by congruence; by rewrite app_nil_r|].
      destruct (list_find _ (append_file name data l)) as [[]|], (list_find _ l) as [[]|]; simpl in *; done.
Qed.
(** One appender has logged. *)
Definition logged (i : nat) (a : LogAppender) (what : option bytes → bytes) (s s' : logs) : Prop :=
  ∃ b, same_but_time a b ∧ loggers s' = loggers s ∧ appenders s' = <[i := b]> (appenders s) ∧
    ∀ w, content w s' = content w s ++ what w.

Lemma reopen_logged i a s name t b : appenders s !! i = Some a → usable_appender a → a_target a = File name t b →
  ∃ s', reopen can_open i s = Ret (can_open name) s' ∧ logged i a (λ _, []) s s' ∧ appenders s' !! i = Some a.
Proof.
  intros Ha [_ Hu] Ht. rewrite Ht in Hu. unfold reopen. rewrite (on_appender i _ a s Ha). cbv beta. rewrite Ht.
  assert (mkLogAppender (File name t (can_open name)) (a_level a) (a_formatter a) (a_hasFormatter a) = a) as Hc.
  { destruct a; simpl in *; congruence. }
  pose proof (lookup_lt_Some _ _ _ Ha). unfold open_file. destruct (can_open name) eqn:Hcan.
  - eexists. split; [reflexivity|]. cbn [loggers appenders]. rewrite Hc, list_lookup_insert_eq by done. split; [|done].
    exists a. split; [apply same_refl|]. do 2 (split; [done|]). intros w.
    etransitivity; [apply (content_append w name [] s)|]. by destruct (decide _).
  - eexists. split; [reflexivity|]. cbn [loggers appenders]. rewrite Hc, list_lookup_insert_eq by done. split; [|done].
    exists a. split; [apply same_refl|]. do 2 (split; [done|]). intros w. by rewrite app_nil_r.
Qed.

Lemma appender_log_spec i a level event s : appenders s !! i = Some a → usable_appender a →
  ∃ s', appender_log strftime can_open i level event s = Ret tt s' ∧ logged i a (λ w, said w level event a) s s'.
Proof.
  intros Ha Hu. unfold appender_log. rewrite (on_appender i _ a s Ha). cbv beta.
  assert (∀ w, (if level <? a_level a then [] else said w level event a) = said w level event a) as Hlow
    by (intros w; unfold said; by destruct (level <? a_level a)).
  pose proof (lookup_lt_Some _ _ _ Ha) as Hlt.
  destruct (level <? a_level a) eqn:Hlevel.
  { exists s. split; [done|]. exists a. split; [apply same_refl|]. rewrite list_insert_id by done. do 2 (split; [done|]).
    intros w. by rewrite <- Hlow, app_nil_r. }
  clear Hlow. pose proof Hu as [[f Hf] Hopen]. destruct (a_target a) as [|name t b] eqn:Ht.
  { rewrite Hf. eexists. split; [reflexivity|]. exists a. split; [apply same_refl|]. cbn [loggers appenders].
    rewrite list_insert_id by done. do 2 (split; [done|]). intros w. unfold said. rewrite Hlevel, Hf, Ht.
    destruct w; simpl; [by rewrite app_nil_r|done]. }
  set (m := if u64 (t + 3) <=? e_time event then _ else _).
  assert (∃ a' s1 t', m s = Ret tt s1 ∧ logged i a (λ _, []) s s1 ∧ appenders s1 !! i = Some a' ∧ same_but_time a a' ∧ a_target a' = File name t' b) as
    (a'&s1&t'&Hs1&Hlog&Ha'&Hsame&Ht').
  { subst m. destruct (u64 (t + 3) <=? e_time event).
    - destruct (reopen_logged i a s name t b Ha Hu Ht) as (s1&Hs1&(c&_&Hl1&Ha1&Hc1)&Hi1). mstep Hs1. rewrite (on_appender i _ a s1 Hi1).
      cbv beta. rewrite Ht. eexists _, _, (e_time event). split; [reflexivity|]. cbn [loggers appenders].
      set (a' := mkLogAppender _ _ _ _). assert (same_but_time a a') as Hsame by (repeat split; by rewrite Ht).
      split; [|split; [|by split]].
      + exists a'. split; [done|]. split; [done|]. rewrite Ha1. split; [by apply list_insert_insert_eq|]. exact Hc1.
      + rewrite Ha1. rewrite list_lookup_insert_eq; [done|]. by rewrite length_insert.
    - exists a, s, t. split; [done|]. split; [|by split_and!; [|apply same_refl|]]. exists a. split; [apply same_refl|].
      rewrite list_insert_id by done. do 2 (split; [done|]). intros w. by rewrite app_nil_r. }
  mstep Hs1. rewrite (on_appender i _ a' s1 Ha'). cbv beta. destruct Hlog as (c&Hc&Hl1&Ha1&Hc1).
  assert (c = a') as ->. { rewrite Ha1, list_lookup_insert_eq in Ha' by done. congruence. }
  rewrite <- (proj1 (proj2 Hsame)), Hf, Ht'. cbn [deref]. rewrite bind_mret. cbv beta. subst b.
  destruct (can_open name) eqn:Hcan.
  - eexists. split; [reflexivity|]. exists a'. do 3 (split; [done|]). intros w.
    etransitivity; [apply (content_append w name _ s1)|]. unfold said. by rewrite Hc1, app_nil_r, Hlevel, Hf, Ht, Hcan.
  - exists s1. split; [done|]. exists a'. do 3 (split; [done|]). intros w. rewrite Hc1. unfold said. rewrite Hlevel, Hf, Ht, Hcan.
    by destruct (decide _).
Qed.
Definition deliver (where_ : option bytes) (level : Z) (event : LogEvent) s (l : list nat) : bytes :=
  concat (map (λ i, from_option (said where_ level event) [] (appenders s !! i)) l).
Definition can_log s (i : nat) : Prop := ∃ a, appenders s !! i = Some a ∧ usable_appender a.

Lemma deliver_same w level event s s' l : Forall2 same_but_time (appenders s) (appenders s') →
  deliver w level event s' l = deliver w level event s l.
Proof.
  intros Hs. unfold deliver. f_equal. apply map_ext. intros i.
  destruct (appenders s !! i) as [a|] eqn:Ha.
  - destruct (Forall2_lookup_l _ _ _ _ _ Hs Ha) as (b&Hb&Hab). rewrite Hb. simpl. symmetry. by apply said_same.
  - destruct (appenders s' !! i) as [b|] eqn:Hb; [|done].
    destruct (Forall2_lookup_r _ _ _ _ _ Hs Hb) as (a&Ha'&_). congruence.
Qed.

Lemma each_logs level event l : ∀ s, Forall (can_log s) l → ∃ s',
  each (λ i, appender_log strftime can_open i level event) l s = Ret tt s' ∧ loggers s' = loggers s ∧
  Forall2 same_but_time (appenders s) (appenders s') ∧ ∀ w, content w s' = content w s ++ deliver w level event s l.
Proof.
  induction l as [|i l IH]; intros s Hl.
  { exists s. do 2 (split; [done|]). split; [apply Forall_Forall2_diag, Forall_true, same_refl|]. intros w. by rewrite app_nil_r. }
  apply Forall_cons in Hl as [(a&Ha&Hu) Hl]. destruct (appender_log_spec i a level event s Ha Hu) as (s1&Hs1&(b&Hab&Hl1&Ha1&Hc1)).
  assert (Forall2 same_but_time (appenders s) (appenders s1)) as Hsame.
  { rewrite Ha1, <- (list_insert_id _ _ _ Ha) at 1. apply Forall2_insert; [|done]. apply Forall_Forall2_diag, Forall_true, same_refl. }
  cbn [each]. mstep Hs1. destruct (IH s1) as (s2&Hs2&Hl2&Ha2&Hc2).
  { eapply Forall_impl; [exact Hl|]. intros j (c&Hc&Huc). destruct (Forall2_lookup_l _ _ _ _ _ Hsame Hc) as (d&Hd&Hcd).
    exists d. split; [done|]. by apply (usable_same c). }
  exists s2. split; [done|]. split; [congruence|]. split.
  - eapply Forall2_trans; [|exact Hsame|exact Ha2]. intros x y z. apply same_trans.
  - intros w. rewrite Hc2, Hc1, (deliver_same w level event s s1 l Hsame), <- app_assoc. unfold deliver. simpl. by rewrite Ha.
Qed.

(** C36. Where an event goes: below the level of its logger nowhere; otherwise every
    appender of the logger whose level admits it adds the event, formatted, to standard
    output or to its file, once per occurrence and in the order of the list; a
    logger without appenders leaves it to the root logger, which applies its own level.
    A file that cannot be opened gets nothing, nothing else is
    written, and besides the times of the last opening nothing changes. *)
Theorem log_routes name level event s x r
    (Hx : find_logger name (loggers s) = Some x) (Hr : find_logger root_name (loggers s) = Some r)
    (Hxa : Forall (can_log s) (l_appenders x)) (Hra : Forall (can_log s) (l_appenders r)) :
  ∃ s', log strftime can_open name level event s = Ret tt s' ∧ loggers s' = loggers s ∧
    Forall2 same_but_time (appenders s) (appenders s') ∧
    ∀ w, content w s' = content w s ++
      (if decide (l_level x ≤ level) then
         match l_appenders x with
         | [] => if decide (l_has_root x = true ∧ l_level r ≤ level) then deliver w level event s (l_appenders r) else []
         | l => deliver w level event s l
         end
       else []).
Proof.
  assert (∃ s', Ret tt s = Ret (S := logs) tt s' ∧ loggers s' = loggers s ∧ Forall2 same_but_time (appenders s) (appenders s') ∧
    ∀ w, content w s' = content w s ++ []) as Hnothing.
  { exists s. do 2 (split; [done|]). split; [apply Forall_Forall2_diag, Forall_true, same_refl|]. intros w. by rewrite app_nil_r. }
  unfold log. rewrite (on_logger name _ x s Hx). cbv beta.
  destruct (decide (l_level x ≤ level)) as [Hle|Hlt]; [rewrite (proj2 (Z.ltb_ge _ _)) by lia|rewrite (proj2 (Z.ltb_lt _ _)) by lia; exact Hnothing].
  destruct (l_appenders x) as [|i l]; [|by apply each_logs].
  destruct (decide (l_has_root x = true ∧ l_level r ≤ level)) as [[-> Hle']|Hnot].
  - unfold log_root. rewrite (on_logger root_name _ r s Hr). cbv beta. rewrite (proj2 (Z.ltb_ge _ _)) by lia. by apply each_logs.
  - destruct (l_has_root x); [|exact Hnothing]. unfold log_root. rewrite (on_logger root_name _ r s Hr). cbv beta.
    rewrite (proj2 (Z.ltb_lt level (l_level r))); [exact Hnothing|]. apply Z.lt_nge. by intros ?; apply Hnot.
Qed.
End routing.

Lemma log_witness : ∃ s', log (λ _ _, str "now") (λ _, true) (str "system") DEBUG debug_event
    (mkLogs (put_logger (str "system") (new_Logger true) (loggers started)) (appenders started) [] []) = Ret tt s' ∧
  content None s' = format (λ _ _, str "now") (new_LogFormatter default_pattern) DEBUG debug_event.
Proof.
  destruct (log_routes (λ _ _, str "now") (λ _, true) (str "system") DEBUG debug_event
    (mkLogs (put_logger (str "system") (new_Logger true) (loggers started)) (appenders started) [] [])
    (new_Logger true) (default (new_Logger true) (find_logger root_name (loggers started)))) as (s'&Hs'&_&_&Hc).
  - apply find_put.
  - reflexivity.
  - constructor.
  - constructor; [|constructor]. eexists. split; [reflexivity|]. split; [by eexists|done].
  - exists s'. split; [exact Hs'|]. rewrite Hc. by vm_compute.
Defined.
