(* ===== verification/LogEvent.v ===== *)
(** * Log events and the macros that make them (megalo/log.h, megalo/log.cc)

    [MEGALO_LOG_LEVEL(logger, level) << a << b] tests the level, makes an event,
    inserts the operands into its stream, and the destructor of the temporary
    [LogEventWrap] hands it to [Logger::log] at the end of the full expression, also
    when that is left by an exception.  The program is built as C++11, where the
    operands and the creation of the event are evaluated in any order and only the
    insertions are ordered: an expression is a step relation.  [Process] is what
    the macros see of the program's state, and [vasprintf] is that of [CLib]. *)
From stdpp Require Import relations.
From S2P Require Import Prelude Bytes Util UtilSystem Log.
#[local] Open Scope Z_scope.

Class Process (St : Type) := {
  logs_of : St → logs;
  with_logs : logs → St → St;
  current_thread : St → Z;      (* [GetThreadId()] *)
  current_fiber : St → Z;       (* [GetFiberId()] *)
  time_now : St → Z;            (* [time(0)] *)
  thread_name : St → bytes;     (* [Thread::GetName()] *)
  with_own_logs s : with_logs (logs_of s) s = s
}.

Section events.
Context {St : Type} `{Process St} `{CLib} (time_text : bytes → Z → bytes) (can_open : bytes → bool).

(** ** LogEvent *)

Definition new_LogEvent (logger : bytes) (level : Z) (file : bytes) (line elapse thread_id fiber_id time : Z)
    (thread_name : bytes) : LogEvent :=
  mkLogEvent file (i32 line) (u32 elapse) (u32 thread_id) (u32 fiber_id) (u64 time) thread_name [] logger level.
(** [m_ss <<] a text. *)
Definition add_content (s : bytes) (e : LogEvent) : LogEvent :=
  mkLogEvent (e_file e) (e_line e) (e_elapse e) (e_threadId e) (e_fiberId e) (e_time e) (e_threadName e)
    (e_content e ++ s) (e_logger e) (e_level e).
Definition event_format (fmt : bytes) (al : arguments) (e : LogEvent) : LogEvent :=
  match vasprintf (cstr fmt) al with Some buf => add_content buf e | None => e end.

(** ** LogEventWrap *)

Definition on_logs {A} (m : M logs A) : M St A := λ s,
  match m (logs_of s) with
  | Ret a w => Ret a (with_logs w s)
  | Throw e w => Throw e (with_logs w s)
  | Crash f => Crash f
  end.
(** The destructor. *)
Definition delete_LogEventWrap (e : LogEvent) : M St () :=
  on_logs (log time_text can_open (e_logger e) (e_level e) e).
(** What an exception that leaves the expression does on its way. *)
Definition unwind (o : option LogEvent) (ex : exn) : M St () :=
  match o with Some e => delete_LogEventWrap e;; throw ex | None => throw ex end.

(** ** The macros *)

(** Where a macro is used, and on what. *)
Record site := mkSite { at_file : bytes; at_line : Z; at_logger : bytes; at_level : Z }.
Definition make_event (x : site) (s : St) : LogEvent :=
  new_LogEvent (at_logger x) (at_level x) (at_file x) (at_line x) 0 (current_thread s) (current_fiber s) (time_now s)
    (thread_name s).

(** How far an expression is: the event, the operands' values, and how many of
    them are in the stream. *)
Record progress := mkProgress { p_event : option LogEvent; p_values : list (option bytes); p_inserted : nat }.

(** An operand is what computes the text that is inserted. *)
Inductive eval_step (x : site) (es : list (M St bytes)) : progress * St → progress * St → Prop :=
  | make_step vs k s :
      eval_step x es (mkProgress None vs k, s) (mkProgress (Some (make_event x s)) vs k, s)
  | operand_step o vs k i (e : M St bytes) b s s' : es !! i = Some e → vs !! i = Some None → e s = Ret b s' →
      eval_step x es (mkProgress o vs k, s) (mkProgress o (<[i := Some b]> vs) k, s')
  | insert_step ev vs k b s : vs !! k = Some (Some b) →
      eval_step x es (mkProgress (Some ev) vs k, s) (mkProgress (Some (add_content b ev)) vs (S k), s).

Definition evaluates (x : site) (es : list (M St bytes)) (s : St) (p : progress) (s' : St) : Prop :=
  rtc (eval_step x es) (mkProgress None (replicate (length es) None) 0, s) (p, s').

(** What comes of the full expression. *)
Inductive expression (x : site) (es : list (M St bytes)) (s : St) : res St () → Prop :=
  | finishes ev vs s' : evaluates x es s (mkProgress (Some ev) vs (length es)) s' →
      expression x es s (delete_LogEventWrap ev s')
  | throws o vs k i (e : M St bytes) ex s' s'' : evaluates x es s (mkProgress o vs k) s' → es !! i = Some e → vs !! i = Some None →
      e s' = Throw ex s'' → expression x es s (unwind o ex s'')
  | crashes o vs k i (e : M St bytes) f s' : evaluates x es s (mkProgress o vs k) s' → es !! i = Some e → vs !! i = Some None →
      e s' = Crash f → expression x es s (Crash f).

Definition MEGALO_LOG_LEVEL (x : site) (es : list (M St bytes)) (s : St) (r : res St ()) : Prop :=
  match find_logger (at_logger x) (loggers (logs_of s)) with
  | None => r = Crash NullDeref
  | Some l => if l_level l <=? at_level x then expression x es s r else r = Ret tt s
  end.

(** The arguments of [format] are evaluated before or after the event is made. *)
Definition MEGALO_LOG_FMT_LEVEL (x : site) (arguments_first : bool) (fmt : bytes) (args : M St arguments) : M St () :=
  w ← gets logs_of;
  l ← deref (find_logger (at_logger x) (loggers w));
  if l_level l <=? at_level x then
    if arguments_first then
      al ← args; ev ← gets (make_event x); delete_LogEventWrap (event_format fmt al ev)
    else
      ev ← gets (make_event x);
      (λ s, match args s with
            | Ret al s' => delete_LogEventWrap (event_format fmt al ev) s'
            | Throw ex s' => unwind (Some ev) ex s'
            | Crash f => Crash f
            end) : M St ()
  else mret tt.

(** ** Destructors do not throw *)

Definition no_throw {S A} (m : M S A) : Prop := ∀ s e s', m s ≠ Throw e s'.
Lemma no_throw_bind {S A B} (m : M S A) (k : A → M S B) : no_throw m → (∀ a, no_throw (k a)) → no_throw (m ≫= k).
Proof. intros Hm Hk s e s'. cbv [mbind M_bind]. destruct (m s) eqn:E; [apply Hk|by apply Hm in E|done]. Qed.
Lemma no_throw_deref {S A} (o : option A) : no_throw (S := S) (deref o).
Proof. by destruct o. Qed.
Ltac quietly l := repeat first [ simple apply l | apply no_throw_bind; [|intros ?] | case_match | exact (no_throw_deref _) | done ].
Lemma no_throw_open_file name : no_throw (open_file can_open name).
Proof. unfold open_file. quietly I. Qed.
Lemma no_throw_appender_log i level event : no_throw (appender_log time_text can_open i level event).
Proof. unfold appender_log, the_appender. quietly no_throw_open_file. Qed.
Lemma no_throw_each {A} (f : A → M logs ()) l : (∀ a, no_throw (f a)) → no_throw (each f l).
Proof. intros Hf. induction l as [|a l IH]; [done|]. by apply no_throw_bind. Qed.
Lemma no_throw_log name level event : no_throw (log time_text can_open name level event).
Proof.
  assert (∀ l, no_throw (each (λ i, appender_log time_text can_open i level event) l)) as He.
  { intros l. apply no_throw_each. intros i. apply no_throw_appender_log. }
  unfold log, log_root, the_logger. quietly He.
Qed.
Lemma no_throw_delete e : no_throw (delete_LogEventWrap e).
Proof.
  intros s ex s'. unfold delete_LogEventWrap, on_logs. destruct (log _ _ _ _ _ _) eqn:E; [done| |done].
  by apply no_throw_log in E.
Qed.
End events.

(** ** What an expression does *)

Section expressions.
Context {St : Type} `{Process St} `{CLib} (time_text : bytes → Z → bytes) (can_open : bytes → bool).
Implicit Types (x : site) (es : list (M St bytes)) (s : St).
Abbreviation expression := (expression time_text can_open).
Abbreviation delete_LogEventWrap := (delete_LogEventWrap time_text can_open).

Lemma add_content_app a b e : add_content b (add_content a e) = add_content (a ++ b) e.
Proof. unfold add_content. simpl. by rewrite app_assoc. Qed.
Lemma add_content_nil e : add_content [] e = e.
Proof. unfold add_content. rewrite app_nil_r. by destruct e. Qed.

(** The operands evaluated in a given order, each with its place. *)
Definition run_in_order es (order : list nat) : M St (list (nat * bytes)) :=
  mapM (λ i, e ← deref (es !! i); b ← e; mret (i, b)) order.

Lemma run_in_order_snoc es order s l s' i (e : M St bytes) b s'' : run_in_order es order s = Ret l s' → es !! i = Some e →
  e s' = Ret b s'' → run_in_order es (order ++ [i]) s = Ret (l ++ [(i, b)]) s''.
Proof.
  unfold run_in_order. revert s l. induction order as [|j order IH]; intros s l Hr He Hb; simpl in *.
  - injection Hr as <- <-. rewrite He. unfold deref. rewrite bind_assoc, bind_mret, bind_assoc. by mstep Hb.
  - apply bind_Ret_inv in Hr as (p&s1&Hp&(l1&s2&Hl1&[= <- <-])%bind_Ret_inv). mstep Hp. mstep (IH _ _ Hl1 He Hb). done.
Qed.

(** What holds on the way: the values are those of some run of the operands, none
    of them run twice, and the stream has the first of them, in the order in
    which they are written. *)
Record underway x es s (p : progress) s' := {
  uw_length : length (p_values p) = length es;
  uw_run : ∃ order l, run_in_order es order s = Ret l s' ∧ NoDup order ∧ l.*1 = order ∧
    ∀ i b, (i, b) ∈ l ↔ p_values p !! i = Some (Some b);
  uw_event : match p_event p with
    | None => p_inserted p = 0%nat
    | Some ev => ∃ s0 texts, take (p_inserted p) (p_values p) = map Some texts ∧ length texts = p_inserted p ∧
        ev = add_content (concat texts) (make_event x s0)
    end
}.

Lemma evaluates_underway x es s p s' : evaluates x es s p s' → underway x es s p s'.
Proof.
  enough (∀ c, rtc (eval_step x es) (mkProgress None (replicate (length es) None) 0, s) c → underway x es s c.1 c.2) as Hc
    by exact (Hc (p, s')). clear p s'. apply rtc_ind_r.
  { split; simpl; [by rewrite length_replicate| |done]. exists [], []. split; [done|].
    split; [constructor|]. split; [done|]. intros i b. split; [by intros ?%not_elem_of_nil|].
    rewrite lookup_replicate. naive_solver. }
  intros c1 c2 _ Hstep IH.
  destruct Hstep as [vs k s1|o vs k i e b s1 s2 He Hv Hb|ev vs k b s1 Hv];
    destruct IH as [Hlen Hrun Hev]; simpl in *.
  - split; [done..|]. simpl. subst k. by exists s1, [].
  - split; simpl; [by rewrite length_insert| |].
    + destruct Hrun as (order&l&Hr&Hnd&Hfst&Hl). exists (order ++ [i]), (l ++ [(i, b)]).
      assert (i ∉ order) as Hi.
      { rewrite <- Hfst. intros ([j c]&->&Hin)%list_elem_of_fmap. apply Hl in Hin. simpl in Hv. congruence. }
      split; [by eapply run_in_order_snoc|]. split; [apply NoDup_app; split; [done|]; split; [set_solver|apply NoDup_singleton]|].
      split; [by rewrite fmap_app, Hfst|]. intros j c. rewrite elem_of_app, Hl, list_elem_of_singleton.
      destruct (decide (i = j)) as [->|Hne].
      * rewrite list_lookup_insert_eq by (by eapply lookup_lt_Some). split; [intros [?|[= ->]]; [congruence|done]|].
        intros [= ->]. by right.
      * rewrite list_lookup_insert_ne by done. split; [intros [?|[= ]]; [done|congruence]|by left].
    + destruct o as [ev|]; [|done]. destruct Hev as (s0&texts&Ht&Hk&->). exists s0, texts. split; [|done].
      rewrite take_insert_ge; [done|]. destruct (decide (k ≤ i)%nat) as [|Hlt]; [done|].
      assert (take k vs !! i = Some None) as Hn by (by rewrite lookup_take_lt by lia).
      rewrite Ht, list_lookup_fmap in Hn. by destruct (texts !! i).
  - split; [done..|]. simpl. destruct Hev as (s0&texts&Ht&Hk&->). exists s0, (texts ++ [b]). split_and!.
    + rewrite map_app, <- Ht. by apply take_S_r.
    + rewrite length_app. simpl. lia.
    + rewrite add_content_app, concat_app. simpl. by rewrite app_nil_r.
Qed.

(** Whatever the order, a line that returns has run every operand once and has
    logged one event, after all of them and with their texts as they are written. *)
Theorem stream_logs_once x es s t (Hr : expression x es s (Ret tt t)) :
  ∃ order texts s0 s', order ≡ₚ seq 0 (length es) ∧ length texts = length es ∧
    run_in_order es order s = Ret (map (λ i, (i, texts !!! i)) order) s' ∧
    delete_LogEventWrap (add_content (concat texts) (make_event x s0)) s' = Ret tt t.
Proof.
  inversion Hr as [ev vs s' Hev Hd|o vs k i e ex s' s'' _ _ _ _ Hu|]; [|by destruct o; unfold unwind, throw in Hu;
    [apply bind_Ret_inv in Hu as (?&?&_&?)|]].
  destruct (evaluates_underway _ _ _ _ _ Hev) as [Hlen (order&l&Hrun&Hnd&Hfst&Hl) (s0&texts&Ht&Hk&->)]. simpl in *.
  rewrite <- Hlen, firstn_all in Ht. subst vs. rewrite length_map in Hlen.
  assert (∀ i b, (i, b) ∈ l ↔ texts !! i = Some b) as Hin.
  { intros i b. rewrite Hl, list_lookup_fmap. by destruct (texts !! i); simpl; naive_solver. }
  exists order, texts, s0, s'. split_and!; [| |rewrite Hrun; f_equal|done].
  - apply NoDup_Permutation; [done|apply NoDup_seq|]. intros i. rewrite elem_of_seq, <- Hfst, list_elem_of_fmap. split.
    + intros ([j b]&->&Hjb). apply Hin, lookup_lt_Some in Hjb. simpl. lia.
    + intros Hi. destruct (lookup_lt_is_Some_2 texts i) as (b&Hb); [lia|]. exists (i, b). by rewrite Hin.
  - lia.
  - rewrite <- Hfst. clear -Hin. assert (∀ p, p ∈ l → (p.1, texts !!! p.1) = p) as Hp.
    { intros [i b] Hib. apply Hin in Hib. simpl. by rewrite (list_lookup_total_correct _ _ _ Hib). }
    clear Hin. induction l as [|p l IH]; [done|]. rewrite fmap_cons. cbn [map].
    rewrite (Hp p) by (by left). f_equal. apply IH. intros q Hq. apply Hp. by right.
Qed.

(** When one throws, the exception leaves the line, but the event may still be
    logged with the texts of some operands before it. *)
Theorem stream_throws x es s ex t (Hr : expression x es s (Throw ex t)) :
  ∃ i e s1 s2, es !! i = Some e ∧ e s1 = Throw ex s2 ∧
    (t = s2 ∨ ∃ s0 texts, (length texts ≤ i)%nat ∧
      delete_LogEventWrap (add_content (concat texts) (make_event x s0)) s2 = Ret tt t).
Proof.
  inversion Hr as [ev vs s' Hev Hd|o vs k i e ex' s' s'' Hev He Hv Ht Hu|]; [by apply no_throw_delete in Hd|].
  destruct (evaluates_underway _ _ _ _ _ Hev) as [_ _ Ho]. simpl in *.
  destruct o as [ev|]; unfold unwind, throw in Hu; cbv [mbind M_bind] in Hu.
  - destruct (delete_LogEventWrap ev s'') as [[] t'|ex'' t'|] eqn:Hd; [|by apply no_throw_delete in Hd|done].
    injection Hu as <- <-. exists i, e, s', s''. do 2 (split; [done|]). right.
    destruct Ho as (s0&texts&Htake&Hk&->). exists s0, texts. split; [|done].
    destruct (decide (length texts ≤ i)%nat) as [|Hlt]; [done|].
    assert (take k vs !! i = Some None) as Hn by (by rewrite lookup_take_lt by lia).
    rewrite Htake, list_lookup_fmap in Hn. by destruct (texts !! i).
  - injection Hu as <- <-. exists i, e, s', s''. do 2 (split; [done|]). by left.
Qed.

(** ** Operands that only read *)

Definition reads s : M St bytes → bytes → Prop := λ e b, e s = Ret b s.

Lemma evaluates_reading x es bs s p s' : Forall2 (reads s) es bs → evaluates x es s p s' →
  s' = s ∧ (∀ i b, p_values p !! i = Some (Some b) → bs !! i = Some b) ∧
  match p_event p with
  | None => p_inserted p = 0%nat
  | Some ev => ev = add_content (concat (take (p_inserted p) bs)) (make_event x s)
  end.
Proof.
  intros Hbs.
  enough (∀ c, rtc (eval_step x es) (mkProgress None (replicate (length es) None) 0, s) c → c.2 = s ∧
    (∀ i b, p_values c.1 !! i = Some (Some b) → bs !! i = Some b) ∧
    match p_event c.1 with
    | None => p_inserted c.1 = 0%nat
    | Some ev => ev = add_content (concat (take (p_inserted c.1) bs)) (make_event x s)
    end) as Hc by exact (Hc (p, s')). clear p s'. apply rtc_ind_r.
  { split; [done|]. split; [|done]. intros i b. simpl. rewrite lookup_replicate. naive_solver. }
  intros c1 c2 _ Hstep IH.
  destruct Hstep as [vs k s1|o vs k i e b s1 s2 He Hv Hb|ev vs k b s1 Hv];
    simpl in *; destruct IH as (->&Hval&Hev).
  - split; [done|]. split; [done|]. subst k. by rewrite add_content_nil.
  - destruct (Forall2_lookup_l _ _ _ _ _ Hbs He) as (b'&Hb'&Hread). unfold reads in Hread.
    rewrite Hread in Hb. injection Hb as <- <-. split; [done|]. split; [|done].
    intros j c. destruct (decide (i = j)) as [->|Hne].
    + rewrite list_lookup_insert_eq by (by eapply lookup_lt_Some). by intros [= <-].
    + rewrite list_lookup_insert_ne by done. apply Hval.
  - split; [done|]. split; [done|]. subst ev. rewrite (take_S_r _ _ _ (Hval _ _ Hv)), add_content_app, concat_app. simpl.
    by rewrite app_nil_r.
Qed.

(** From left to right. *)
Lemma evaluates_all x es bs s : Forall2 (reads s) es bs →
  evaluates x es s (mkProgress (Some (add_content (concat bs) (make_event x s))) (map Some bs) (length es)) s.
Proof.
  intros Hbs. eapply rtc_l; [apply make_step|]. rewrite <- (add_content_nil (make_event x s)) at 1.
  set (final := mkProgress _ (map Some bs) _).
  assert (∀ es2 bs2, Forall2 (reads s) es2 bs2 → ∀ es1 bs1, length es1 = length bs1 → es = es1 ++ es2 → bs = bs1 ++ bs2 →
    rtc (eval_step x es)
      (mkProgress (Some (add_content (concat bs1) (make_event x s))) (map Some bs1 ++ replicate (length es2) None) (length bs1), s)
      (final, s)) as Hall; [|exact (Hall es bs Hbs [] [] eq_refl eq_refl eq_refl)].
  induction 1 as [|e b es2 bs2 Hread Hrest IH]; intros es1 bs1 Hlen Hes Hbs'.
  { rewrite app_nil_r in *. subst. simpl. rewrite ?app_nil_r, <- Hlen. apply rtc_refl. }
  assert (length bs1 = length (map Some bs1) + 0)%nat as Hpos by (rewrite length_map; lia).
  simpl length. simpl replicate. eapply rtc_l.
  { eapply (operand_step _ _ _ _ _ (length bs1) e b s s);
      [|rewrite Hpos; by rewrite lookup_app_r, Nat.add_0_r, Nat.sub_diag by lia|done].
    rewrite <- Hlen, Hes. by apply list_lookup_middle. }
  rewrite Hpos, insert_app_r, <- Hpos. simpl insert. eapply rtc_l.
  { apply insert_step. rewrite Hpos. by rewrite lookup_app_r, Nat.add_0_r, Nat.sub_diag by lia. }
  specialize (IH (es1 ++ [e]) (bs1 ++ [b])). rewrite !length_app, map_app, concat_app, <- !app_assoc in IH. simpl in IH.
  rewrite app_nil_r, !Nat.add_1_r in IH. rewrite add_content_app. apply IH; [lia|done..].
Qed.

(** The macros are [log_macro]: with operands that only read, a line has exactly
    one outcome, in whatever order it is evaluated, and it is to log the event of
    that place with the operands' texts in a row, if its level is at least the
    logger's; otherwise nothing is evaluated. *)
Theorem macro_is_log_macro x es bs s r (Hbs : Forall2 (reads s) es bs) :
  MEGALO_LOG_LEVEL time_text can_open x es s r ↔
  r = on_logs (log_macro time_text can_open (at_logger x) (at_level x) (add_content (concat bs) (make_event x s))) s.
Proof.
  unfold MEGALO_LOG_LEVEL, on_logs, log_macro, the_logger. rewrite bind_assoc, bind_gets.
  destruct (find_logger (at_logger x) (loggers (logs_of s))) as [l|] eqn:Hl; [|done].
  unfold deref. rewrite bind_mret. destruct (l_level l <=? at_level x).
  2: { change (r = Ret tt s ↔ r = Ret tt (with_logs (logs_of s) s)). by rewrite with_own_logs. }
  assert (expression x es s (delete_LogEventWrap (add_content (concat bs) (make_event x s)) s)) as Hex
    by (eapply finishes, evaluates_all, Hbs).
  assert (∀ r, expression x es s r → r = delete_LogEventWrap (add_content (concat bs) (make_event x s)) s) as Huniq; [|naive_solver].
  clear r. intros r Hr. destruct Hr as [ev vs s' Hev|o vs k i e ex s' s'' Hev He Hv Ht|o vs k i e f s' Hev He Hv Ht];
    destruct (evaluates_reading _ _ _ _ _ _ Hbs Hev) as (->&_&Ho); simpl in Ho.
  - by rewrite Ho, (Forall2_length _ _ _ Hbs), firstn_all.
  - destruct (Forall2_lookup_l _ _ _ _ _ Hbs He) as (b&_&Hread). unfold reads in Hread. congruence.
  - destruct (Forall2_lookup_l _ _ _ _ _ Hbs He) as (b&_&Hread). unfold reads in Hread. congruence.
Qed.

(** The other family: the content is what [StringUtil::Formatv] gives, nothing when
    [vasprintf] fails. *)
Theorem fmt_is_log_macro x first fmt args al s (Hargs : args s = Ret al s) :
  MEGALO_LOG_FMT_LEVEL time_text can_open x first fmt args s =
  on_logs (log_macro time_text can_open (at_logger x) (at_level x) (add_content (Formatv fmt al) (make_event x s))) s.
Proof.
  assert (event_format fmt al (make_event x s) = add_content (Formatv fmt al) (make_event x s)) as He.
  { unfold event_format, Formatv. destruct (vasprintf _ _); [done|by rewrite add_content_nil]. }
  unfold MEGALO_LOG_FMT_LEVEL, on_logs, log_macro, the_logger. rewrite bind_gets, !bind_assoc, bind_gets.
  destruct (find_logger (at_logger x) (loggers (logs_of s))) as [l|]; [|done]. unfold deref. rewrite !bind_mret.
  destruct (l_level l <=? at_level x); [|by cbv [mret M_ret]; rewrite with_own_logs].
  destruct first; [mstep Hargs|]; rewrite bind_gets; [|rewrite Hargs]; by rewrite He.
Qed.
End expressions.

(** ** A process

    Its state is that of the manager; standard output gets the messages alone. *)
#[local] Existing Instance c_lib.
#[local] Program Instance only_logs : Process logs := {
  logs_of s := s; with_logs w _ := w; current_thread _ := 7; current_fiber _ := 3; time_now _ := 100; thread_name _ := str "main"
}.
Solve Obligations with done.

Definition no_text (_ : bytes) (_ : Z) : bytes := [].
Definition any_file (_ : bytes) : bool := true.
Definition plain_started : logs := Eval vm_compute in
  match setFormatter_pattern root_name (str "%m") started with Ret _ s => s | _ => logs_empty end.
Definition here (level : Z) : site := mkSite (str "main.cc") 10 root_name level.
Definition text (s : bytes) : M logs bytes := mret s.
Definition printed (r : res logs ()) : bytes := match r with Ret _ s | Throw _ s => out s | Crash _ => str "crash" end.

Lemma macro_witness :
  MEGALO_LOG_LEVEL no_text any_file (here INFO) [text (str "a"); text (str "b")] plain_started
    (Ret tt (mkLogs (loggers plain_started) (appenders plain_started) (str "ab") (files plain_started))) ∧
  MEGALO_LOG_LEVEL no_text any_file (here UNKNOWM) [text (str "a")] plain_started (Ret tt plain_started).
Proof.
  split.
  - apply (macro_is_log_macro no_text any_file (here INFO) [text (str "a"); text (str "b")] [str "a"; str "b"]);
      [repeat constructor|by vm_compute].
  - apply (macro_is_log_macro no_text any_file (here UNKNOWM) [text (str "a")] [str "a"]);
      [repeat constructor|by vm_compute].
Defined.

Definition n_is_4 : M logs arguments := mret ([str "4"] : list bytes).

Lemma fmt_witness :
  printed (MEGALO_LOG_FMT_LEVEL no_text any_file (here INFO) true (str "n=") n_is_4 plain_started) = str "n=4".
Proof.
  rewrite (fmt_is_log_macro no_text any_file (here INFO) true (str "n=") n_is_4 ([str "4"] : list bytes) plain_started eq_refl).
  by vm_compute.
Defined.

Lemma stream_logs_witness : ∃ order texts s0 s',
  order ≡ₚ [0%nat] ∧ length texts = 1%nat ∧ run_in_order [text (str "a")] order plain_started = Ret (map (λ i, (i, texts !!! i)) order) s' ∧
  printed (delete_LogEventWrap no_text any_file (add_content (concat texts) (make_event (here INFO) s0)) s') = str "a".
Proof.
  destruct (stream_logs_once no_text any_file (here INFO) [text (str "a")] plain_started
    (mkLogs (loggers plain_started) (appenders plain_started) (str "a") (files plain_started)))
    as (order&texts&s0&s'&Ho&Hl&Hr&Hd).
  - change (expression no_text any_file (here INFO) [text (str "a")] plain_started
      (delete_LogEventWrap no_text any_file (add_content (str "a") (make_event (here INFO) plain_started)) plain_started)).
    apply (finishes _ _ _ _ _ (add_content (str "a") (make_event (here INFO) plain_started)) [Some (str "a")] plain_started).
    exact (evaluates_all (here INFO) [text (str "a")] [str "a"] plain_started ltac:(repeat constructor)).
  - exists order, texts, s0, s'. do 3 (split; [done|]). by rewrite Hd.
Defined.

(** When an operand throws, whether a line is printed depends on the order. *)
Example half_a_line :
  let es := [text (str "a"); throw out_of_range] in
  expression no_text any_file (here INFO) es plain_started (Throw out_of_range plain_started) ∧
  ∃ s, expression no_text any_file (here INFO) es plain_started (Throw out_of_range s) ∧ out s = str "a".
Proof.
  intros es. split.
  - exact (throws no_text any_file (here INFO) es plain_started None [None; None] 0 1 (throw out_of_range) out_of_range
      plain_started plain_started (rtc_refl _ _) eq_refl eq_refl eq_refl).
  - exists (mkLogs (loggers plain_started) (appenders plain_started) (str "a") (files plain_started)). split; [|done].
    change (expression no_text any_file (here INFO) es plain_started
        (unwind no_text any_file (Some (add_content (str "a") (make_event (here INFO) plain_started))) out_of_range plain_started)).
      apply (throws no_text any_file (here INFO) es plain_started (Some (add_content (str "a") (make_event (here INFO) plain_started)))
        [Some (str "a"); None] 1 1 (throw out_of_range) out_of_range plain_started plain_started); [|reflexivity..].
      eapply rtc_l; [apply make_step|].
      eapply rtc_l; [by apply (operand_step _ _ _ _ _ 0 (text (str "a")) (str "a") plain_started plain_started)|].
      eapply rtc_l; [by eapply (insert_step _ _ _ _ 0 (str "a"))|apply rtc_refl].
Qed.
