(* ===== verification/LogConfig.v ===== *)
(** * Configuration of the loggers (megalo/log.cc)

    The variable [logs] holds a set of definitions of loggers, which come from
    YAML texts; its listener puts them into force.  Here are the conversions of
    the definitions, the YAML texts of appenders, loggers and the manager, and
    the registry with this variable, whose world is the logs of Log.  A member
    of an appender's definition that the code does not initialise has the value
    [indet]. *)
From stdpp Require Import countable sorting.
From S2P Require Import Prelude Bytes Util Config Log.
#[local] Open Scope Z_scope.

(** What this part uses of yaml-cpp besides [YamlOps]: access by a key ([None]: it
    throws; the inner [None]: the node is not defined), [as<std::string>],
    the node of a string, and the node of no value. *)
Class YamlNode (N : Type) := {
  y_get : N → bytes → option (option N);
  y_as_string : N → option bytes;
  y_string : bytes → N;
  y_null : N
}.

#[local] Instance cast_mbind : MBind cast := λ A B k m, cast_bind m k.

(** ** LexicalCast of LogDefine *)

Section conversions.
Context {N : Type} `{YamlOps N} `{YamlNode N}.

Definition get (n : N) (key : bytes) : cast (option N) :=
  match y_get n key with Some o => Casted o | None => CastThrows yaml_exception end.
Definition as_string (n : N) : cast bytes :=
  match y_as_string n with Some s => Casted s | None => CastThrows yaml_exception end.
(** [n[key].as<std::string>()] where [n[key]] is defined. *)
Definition text_at (n : N) (key : bytes) : cast (option bytes) :=
  o ← get n key;
  match o with Some m => s ← as_string m; Casted (Some s) | None => Casted None end.

(** The body of the loop over [n["appenders"]]; a definition that is wrong is
    skipped. *)
Definition read_appender (level : Z) (a : N) : cast (option LogAppenderDefine) :=
  o ← text_at a (str "type");
  match o with
  | None => Casted None
  | Some type =>
      if decide (type = str "FileLogAppender") then
        o ← text_at a (str "file");
        match o with
        | None => Casted None
        | Some file =>
            f ← text_at a (str "formatter"); Casted (Some (mkAppenderDefine 1 level (default [] f) file))
        end
      else if decide (type = str "StdoutLogAppender") then
        f ← text_at a (str "formatter"); Casted (Some (mkAppenderDefine 2 level (default [] f) []))
      else Casted None
  end.
Definition read_appenders (indet : nat → Z) (n : N) : cast (list LogAppenderDefine) :=
  l ← cast_all (λ i, read_appender (indet i) (y_index n i)) (seq 0 (y_size n));
  Casted (omap id (l : list (option LogAppenderDefine))).

(** [LexicalCast<std::string, LogDefine>]. *)
Definition read_define (indet : nat → Z) (v : bytes) : cast LogDefine :=
  n ← load v;
  o ← text_at n (str "name");
  match o with
  | None => CastThrows logic_error
  | Some name =>
      level ← text_at n (str "level");
      formatter ← text_at n (str "formatter");
      o ← get n (str "appenders");
      apps ← match o with Some a => read_appenders indet a | None => Casted [] end;
      Casted (mkLogDefine name (FromString (default [] level)) (default [] formatter) apps)
  end.

(** [LexicalCast<LogDefine, std::string>]: the entries that are written. *)
Definition map_node (es : list (bytes * N)) : N := match es with [] => y_null | _ => y_map es end.
Definition level_entry (level : Z) : list (bytes * N) :=
  if level =? UNKNOWM then [] else [(str "level", y_string (ToString level))].
Definition text_entry (key s : bytes) : list (bytes * N) := match s with [] => [] | _ => [(key, y_string s)] end.
Definition list_entry (key : bytes) (l : list N) : list (bytes * N) := match l with [] => [] | _ => [(key, y_seq l)] end.

Definition appender_entries (a : LogAppenderDefine) : list (bytes * N) :=
  (if ad_type a =? 1 then [(str "type", y_string (str "FileLogAppender")); (str "file", y_string (ad_file a))]
   else if ad_type a =? 2 then [(str "type", y_string (str "StdoutLogAppender"))] else []) ++
  level_entry (ad_level a) ++ text_entry (str "formatter") (ad_formatter a).
Definition define_entries (v : LogDefine) : list (bytes * N) :=
  (str "name", y_string (ld_name v)) :: level_entry (ld_level v) ++ text_entry (str "formatter") (ld_formatter v) ++
  list_entry (str "appenders") (map (λ a, map_node (appender_entries a)) (ld_appenders v)).
Definition write_define (v : LogDefine) : bytes := y_dump (y_map (define_entries v)).

(** ** The YAML texts of the objects *)

Definition Load (s : bytes) : M logs N := match y_load s with Some n => mret n | None => throw yaml_exception end.

(** [LogAppender::toYamlString]. *)
Definition appender_toYamlString (i : nat) : M logs bytes :=
  a ← the_appender i;
  mret (y_dump (y_map
    (match a_target a with
     | Stdout => [(str "type", y_string (str "StdoutLogAppender"))]
     | File m_filename _ _ => [(str "type", y_string (str "FileLogAppender")); (str "file", y_string m_filename)]
     end ++ level_entry (a_level a) ++
     match a_formatter a with
     | Some f => if a_hasFormatter a then [(str "formatter", y_string (m_pattern f))] else []
     | None => []
     end))).
Definition logger_toYamlString (name : bytes) : M logs bytes :=
  x ← the_logger name;
  nodes ← mapM (λ i, s ← appender_toYamlString i; Load s) (l_appenders x);
  mret (y_dump (y_map
    ((str "name", y_string name) :: level_entry (l_level x) ++
     [(str "formatter", y_string (m_pattern (l_formatter x)))] ++ list_entry (str "appenders") nodes))).
(** The loggers in the order of the map. *)
Definition names_in_order (l : list (bytes * Logger)) : list bytes :=
  (foldl (λ s x, insert_sorted key_lt x s) [] l).*1.
Definition manager_toYamlString : M logs bytes :=
  l ← gets loggers;
  nodes ← mapM (λ name, s ← logger_toYamlString name; Load s) (names_in_order l);
  mret (y_dump (match nodes with [] => y_null | _ => y_seq nodes end)).

(** ** The variable *)

(** [operator<] of [LogDefine]. *)
Definition define_lt (a b : LogDefine) : bool := bytes_lt (ld_name a) (ld_name b).

(** There is no hash table in the type, so how one is filled does not matter. *)
Definition set_of_text (indet : bytes → nat → Z) : bytes → cast (list LogDefine) :=
  from_string (λ _ : (), LogDefine) (λ _ s, read_define (indet s) s) (λ _, define_lt)
    (λ _ a b, bool_decide (a = b)) (λ _, cons) (λ _, cons) (TSet (TBasic tt)).
Definition text_of_set : list LogDefine → cast bytes :=
  to_string (λ _ : (), LogDefine) (λ _ v, Casted (write_define v)) (TSet (TBasic tt)).

Definition logs_cast (indet : bytes → nat → Z) : Castable () (list LogDefine) := {|
  from_str _ := set_of_text indet;
  to_str _ := text_of_set;
  val_eqb v w := bool_decide (v = w)
|}.

Definition conf : Type := config (T := ()) (V := list LogDefine) (W := logs).

(** [g_log_defines] and [LogIniter]. *)
Definition logs_name : bytes := str "logs".
Definition LogIniter (can_open : bytes → bool) : M conf () :=
  i ← Lookup tt logs_name [] (str "log configs");
  _ ← addListener i (on_logger_conf_changed can_open); mret tt.
(** The manager is made when the first logger is asked for. *)
Definition start (can_open : bytes → bool) : M conf () := on_world new_LoggerManager;; LogIniter can_open.
Definition no_conf : conf := mkConfig [] [] (λ _, 0) logs_empty.
End conversions.

(** ** Sets of definitions *)

(** [std::less] on strings is a strict total order. *)
Lemma bytes_lt_trans a b c : bytes_lt a b = true → bytes_lt b c = true → bytes_lt a c = true.
Proof.
  unfold bytes_lt. revert b c. induction a as [|x a IH]; intros [|y b] [|z c]; cbn [lex]; try done.
  destruct (Z.ltb_spec (code x) (code y)), (Z.ltb_spec (code y) (code x)), (Z.ltb_spec (code y) (code z)),
    (Z.ltb_spec (code z) (code y)), (Z.ltb_spec (code x) (code z)), (Z.ltb_spec (code z) (code x));
    try lia; try done. apply IH.
Qed.
Lemma bytes_lt_asym a b : bytes_lt a b = true → bytes_lt b a = false.
Proof.
  unfold bytes_lt. revert b. induction a as [|x a IH]; intros [|y b]; cbn [lex]; try done.
  destruct (Z.ltb_spec (code x) (code y)), (Z.ltb_spec (code y) (code x)); try lia; try done. apply IH.
Qed.

Definition named_before (a b : LogDefine) : Prop := define_lt a b = true.
Lemma insert_In x y l : y ∈ insert_sorted define_lt x l → y = x ∨ y ∈ l.
Proof.
  induction l as [|z l IH]; simpl; [set_solver|]. destruct (define_lt x z); [set_solver|].
  destruct (define_lt z x); set_solver.
Qed.
Lemma insert_sorts x l : StronglySorted named_before l → StronglySorted named_before (insert_sorted define_lt x l).
Proof.
  induction 1 as [|y l Hl IH Hy]; simpl; [by repeat constructor|].
  destruct (define_lt x y) eqn:Hxy.
  - constructor; [by constructor|]. constructor; [done|]. eapply Forall_impl; [exact Hy|].
    intros z. by apply bytes_lt_trans.
  - destruct (define_lt y x) eqn:Hyx; [|by constructor]. constructor; [done|]. apply Forall_forall.
    intros z [->|Hz]%insert_In; [done|]. by apply (proj1 (Forall_forall _ _) Hy).
Qed.
Lemma sorted_names l : StronglySorted named_before l → NoDup (map ld_name l).
Proof.
  induction 1 as [|y l _ IH Hy]; simpl; constructor; [|done].
  intros (z&Hz&Hin)%(list_elem_of_fmap_1 ld_name). pose proof (proj1 (Forall_forall _ _) Hy z Hin) as Hb.
  unfold named_before, define_lt in Hb. rewrite <- Hz in Hb. pose proof (bytes_lt_asym _ _ Hb). congruence.
Qed.

(** Values of the variable: in order, with appenders of the two types. *)
Definition typed_define (d : LogDefine) : Prop := Forall (λ a, ad_type a = 1 ∨ ad_type a = 2) (ld_appenders d).
Definition proper (l : list LogDefine) : Prop := StronglySorted named_before l ∧ ∀ d, d ∈ l → typed_define d.

Lemma cast_bind_inv {A B} (m : cast A) (k : A → cast B) b : (m ≫= k) = Casted b → ∃ a, m = Casted a ∧ k a = Casted b.
Proof. destruct m as [a|e]; [|done]. intros Hk. by exists a. Qed.
Lemma cast_all_inv {A B} (f : A → cast B) l k : cast_all f l = Casted k → Forall2 (λ a b, f a = Casted b) l k.
Proof.
  revert k. induction l as [|a l IH]; simpl; intros k Hk; [by injection Hk as <-|].
  apply cast_bind_inv in Hk as (b&Hb&(bs&Hbs&[= <-])%cast_bind_inv). constructor; [done|by apply IH].
Qed.

Section values.
Context {N : Type} `{YamlOps N} `{YamlNode N}.

Ltac cast_inv := repeat match goal with
  | Hc : (_ ≫= _) = Casted _ |- _ => apply cast_bind_inv in Hc as (?&?&Hc)
  | Hc : Casted _ = Casted _ |- _ => injection Hc as <-
  | Hc : CastThrows _ = Casted _ |- _ => discriminate Hc
  | Hc : match ?o with Some _ => _ | None => _ end = Casted _ |- _ => destruct o
  | Hc : (if decide ?P then _ else _) = Casted _ |- _ => destruct (decide P)
  end.

Lemma read_appender_typed level (a : N) d : read_appender level a = Casted (Some d) → ad_type d = 1 ∨ ad_type d = 2.
Proof. unfold read_appender. intros Hc. cast_inv; by auto. Qed.
Lemma read_define_typed indet v d : read_define indet v = Casted d → typed_define d.
Proof.
  unfold read_define. intros Hc. cast_inv; [|constructor]. rename select (read_appenders _ _ = _) into Hr.
  unfold read_appenders in Hr. cast_inv. rename select (cast_all _ _ = _) into Hr.
  apply cast_all_inv in Hr. unfold typed_define. cbn [ld_appenders].
  induction Hr as [|i o ns k Ho _ IH]; [constructor|]. destruct o as [a|]; [|exact IH].
  constructor; [by eapply read_appender_typed|exact IH].
Qed.
Lemma set_of_text_proper indet s v : set_of_text indet s = Casted v → proper v.
Proof.
  unfold set_of_text. cbn [from_string val_lt]. intros (n&_&(l0&Hl0&[= <-])%cast_bind_inv)%cast_bind_inv.
  apply cast_all_inv in Hl0. revert Hl0. generalize (elements n) as ts. clear n. revert l0. intros l ts Hl. assert (∀ d, d ∈ l → typed_define d) as Hty.
  { induction Hl as [|x d ts l Hd _ IH]; [by intros d ?%elem_of_nil|].
    intros e [->|He]%elem_of_cons; [by eapply read_define_typed|by apply IH]. }
  clear Hl. assert (proper []) as Hp by (split; [constructor|by intros d ?%elem_of_nil]). revert Hp.
  generalize (@nil LogDefine) as acc. induction l as [|d l IH]; intros acc [Hs Ht]; [done|]. simpl.
  apply IH; [intros e He; apply Hty; by right|]. split; [by apply insert_sorts|].
  intros e [->|He]%insert_In; [apply Hty; by left|by apply Ht].
Qed.

(** Texts that are no set of definitions: the exception is none that [fromString]
    catches. *)
Definition bad_text (e : exn) : Prop := e = yaml_exception ∨ e = logic_error.
Definition fails_badly {A} (c : cast A) : Prop := match c with Casted _ => True | CastThrows e => bad_text e end.
Lemma fails_bind {A B} (m : cast A) (k : A → cast B) : fails_badly m → (∀ a, fails_badly (k a)) → fails_badly (m ≫= k).
Proof. intros Hm Hk. destruct m; [apply Hk|exact Hm]. Qed.
Lemma fails_all {A B} (f : A → cast B) l : (∀ a, fails_badly (f a)) → fails_badly (cast_all f l).
Proof. intros Hf. induction l as [|a l IH]; [done|]. apply fails_bind; [done|]. intros b. by apply fails_bind. Qed.
Lemma fails_text_at (n : N) k : fails_badly (text_at n k).
Proof.
  unfold text_at, get, as_string. destruct (y_get n k) as [[m|]|]; [|done|by left]. simpl.
  destruct (y_as_string m); [done|by left].
Qed.
Lemma fails_read_appender level (a : N) : fails_badly (read_appender level a).
Proof.
  apply fails_bind; [apply fails_text_at|]. intros [t|]; [|done].
  destruct (decide _); [|destruct (decide _); [|done]]; (apply fails_bind; [apply fails_text_at|]); [|done].
  intros [f|]; [|done]. apply fails_bind; [apply fails_text_at|done].
Qed.
Lemma fails_load s : fails_badly (load s).
Proof. unfold load. destruct (y_load s); [done|by left]. Qed.
Lemma fails_read_define indet v : fails_badly (read_define indet v).
Proof.
  apply fails_bind; [apply fails_load|]. intros n. apply fails_bind; [apply fails_text_at|]. intros [name|]; [|by right].
  do 2 (apply fails_bind; [apply fails_text_at|intros ?]). apply fails_bind.
  { unfold get. destruct (y_get n _); [done|by left]. }
  intros o. apply fails_bind; [|done]. destruct o as [m|]; [|done]. apply fails_bind; [|done].
  apply fails_all. intros i. apply fails_read_appender.
Qed.
Lemma fails_set_of_text indet s : fails_badly (set_of_text indet s).
Proof.
  unfold set_of_text. cbn [from_string]. apply fails_bind; [apply fails_load|]. intros n.
  apply fails_bind; [|done]. apply fails_all. intros x. apply fails_read_define.
Qed.
End values.

(** ** The definitions in force *)

Section in_force.
Context {N : Type} `{YamlOps N} `{YamlNode N} (strftime : bytes → Z → bytes) (can_open : bytes → bool).
Implicit Types (v : list LogDefine) (w : logs).

(** The loggers are as [v] asks; the ones it does not name have no appenders, the
    root logger perhaps its first one. *)
Definition in_force v w : Prop :=
  proper v ∧ owned w ∧ (∀ d, d ∈ v → configured d w) ∧
  ∀ n x, find_logger n (loggers w) = Some x → n ∉ map ld_name v →
    l_appenders x = [] ∨ n = root_name ∧ l_appenders x = [0%nat].

Lemma change_in_force v v' w : in_force v w → proper v' →
  ∃ w', on_logger_conf_changed can_open v v' w = Ret tt w' ∧ in_force v' w'.
Proof.
  intros ([Hs _]&Ho&Hc&Hbare) Hv'.
  destruct (reconfigure_ok can_open v v' w) as (w'&Hw'&Ho'&Hc'&Hr&Hag);
    [by apply sorted_names|by apply sorted_names, Hv'|done|apply Hv'|done|].
  exists w'. split; [done|]. do 3 (split; [done|]). intros n x Hx Hn.
  destruct (decide (n ∈ map ld_name v)) as [Hin|Hin].
  - apply (list_elem_of_fmap_1 ld_name) in Hin as (d&->&Hd). destruct (Hr d Hd Hn) as (y&Hy&_&Hnil).
    left. congruence.
  - destruct (Hag n Hin Hn) as [Hf _]. apply Hbare; [congruence|done].
Qed.

(** The registry with the variable, its value [v] and its listener. *)
Definition conf_with v w ids : conf :=
  mkConfig [mkConfigVar logs_name (str "log configs") tt v [(1, on_logger_conf_changed can_open)]] [(logs_name, 0%nat)] ids w.
Definition settled (c : conf) : Prop := ∃ v w ids, c = conf_with v w ids ∧ in_force v w.

Lemma set_in_force indet v v' w ids : in_force v w → proper v' → ∃ w',
  setValue (H := logs_cast indet) 0 v' (conf_with v w ids) = Ret tt (conf_with v' w' ids) ∧ in_force v' w'.
Proof.
  intros Hv Hv'. destruct (change_in_force v v' w Hv Hv') as (w'&Hw'&Hf).
  pose proof (setValue_spec (H := logs_cast indet) 0 v' (conf_with v w ids) _ w' eq_refl) as Hs.
  rewrite Hs by (by exists w'). cbn [val_eqb logs_cast m_val].
  case_bool_decide as Heq; [by subst v'; exists w|by exists w'].
Qed.

(** A text that converts becomes the value, with its definitions in force; for
    another one an exception leaves everything as it is. *)
Lemma text_in_force indet s v w ids : in_force v w →
  match set_of_text indet s with
  | Casted v' => ∃ w', fromString (H := logs_cast indet) 0 s (conf_with v w ids) = Ret true (conf_with v' w' ids) ∧ in_force v' w'
  | CastThrows e => fromString (H := logs_cast indet) 0 s (conf_with v w ids) = Throw e (conf_with v w ids) ∧ bad_text e
  end.
Proof.
  intros Hv. pose proof (fails_set_of_text indet s) as Hbad. pose proof (set_of_text_proper indet s) as Hprop.
  unfold fromString. cbv [mbind M_bind].
  change (the_var 0 (conf_with v w ids)) with
    (Ret (mkConfigVar logs_name (str "log configs") tt v [(1, on_logger_conf_changed can_open)]) (conf_with v w ids)).
  cbv beta iota. cbn [m_type]. change (from_str tt s) with (set_of_text indet s).
  destruct (set_of_text indet s) as [v'|e].
  - destruct (set_in_force indet v v' w ids Hv (Hprop v' eq_refl)) as (w'&Hs&Hf). exists w'.
    rewrite Hs. done.
  - split; [|done]. unfold throw. by destruct Hbad as [-> | ->].
Qed.

(** ** Logging keeps the settings *)

Definition same_settings (a b : LogAppender) : Prop :=
  a_level a = a_level b ∧ a_formatter a = a_formatter b ∧ a_hasFormatter a = a_hasFormatter b ∧
  match a_target a, a_target b with
  | Stdout, Stdout => True
  | File n _ _, File m _ _ => n = m
  | _, _ => False
  end.
Definition kept w w' : Prop := loggers w' = loggers w ∧ Forall2 same_settings (appenders w) (appenders w').

Lemma same_settings_refl a : same_settings a a.
Proof. repeat split. by destruct (a_target a). Qed.
#[local] Instance kept_refl : Reflexive kept.
Proof. intros w. split; [done|]. apply Forall_Forall2_diag, Forall_true, same_settings_refl. Qed.
#[local] Instance kept_trans : Transitive kept.
Proof.
  intros w w' w'' [Hl Ha] [Hl' Ha']. split; [congruence|]. eapply Forall2_trans; [|exact Ha|exact Ha'].
  intros a b c (?&?&?&Ht) (?&?&?&Ht'). unfold same_settings. split_and!; try congruence.
  destruct (a_target a), (a_target b), (a_target c); try done. congruence.
Qed.
Lemma kept_io w o fs : kept w (mkLogs (loggers w) (appenders w) o fs).
Proof. split; [done|]. apply (kept_refl w). Qed.
Lemma kept_set i a b w : appenders w !! i = Some a → same_settings a b →
  kept w (mkLogs (loggers w) (<[i := b]> (appenders w)) (out w) (files w)).
Proof.
  intros Ha Hab. split; [done|]. cbn [appenders]. rewrite <- (list_insert_id _ _ _ Ha) at 1.
  apply Forall2_insert; [|done]. apply Forall_Forall2_diag, Forall_true, same_settings_refl.
Qed.
Lemma the_appender_inv i w a w' : the_appender i w = Ret a w' → w' = w ∧ appenders w !! i = Some a.
Proof.
  unfold the_appender. rewrite bind_gets. destruct (appenders w !! i) as [b|]; [|done]. by intros [= -> ->].
Qed.

(** An operation that keeps the settings whenever it returns. *)
Definition keeping {A} (m : M logs A) : Prop := ∀ w a w', m w = Ret a w' → kept w w'.
Lemma keeping_bind {A B} (m : M logs A) (k : A → M logs B) : keeping m → (∀ a, keeping (k a)) → keeping (m ≫= k).
Proof. intros Hm Hk w b w' (a&w1&H1&H2)%bind_Ret_inv. transitivity w1; [by eapply Hm|by eapply Hk]. Qed.
Lemma keeping_mret {A} (a : A) : keeping (mret a).
Proof. by intros w b w' [= _ <-]. Qed.
Lemma keeping_gets {A} (f : logs → A) : keeping (gets f).
Proof. by intros w b w' [= _ <-]. Qed.
Lemma keeping_deref {A} (o : option A) : keeping (deref o).
Proof. destruct o; [apply keeping_mret|done]. Qed.
Lemma keeping_write name data : keeping (write_file name data).
Proof. intros w [] w' [= <-]. apply kept_io. Qed.
(** Reading an appender and writing it with the same settings. *)
Lemma keeping_appender {A} i (k : LogAppender → M logs A) :
  (∀ a w b w', appenders w !! i = Some a → k a w = Ret b w' → kept w w') → keeping (the_appender i ≫= k).
Proof. intros Hk w b w' (a&w1&[-> Ha]%the_appender_inv&Hr)%bind_Ret_inv. by eapply Hk. Qed.

Lemma keeping_open name : keeping (open_file can_open name).
Proof.
  unfold open_file. destruct (can_open name); [|apply keeping_mret].
  apply keeping_bind; [apply keeping_write|intros _; apply keeping_mret].
Qed.
Lemma open_appenders name w b w' : open_file can_open name w = Ret b w' → appenders w' = appenders w.
Proof. unfold open_file. destruct (can_open name); by intros [= _ <-]. Qed.
Lemma keeping_reopen i : keeping (reopen can_open i).
Proof.
  apply keeping_appender. intros a w b w' Ha. destruct (a_target a) as [|name t o] eqn:Ht; [by intros [= _ <-]|].
  intros (b'&w1&Hopen&Hr)%bind_Ret_inv. pose proof (open_appenders _ _ _ _ Hopen) as Happ.
  transitivity w1; [by eapply keeping_open|]. apply bind_Ret_inv in Hr as ([]&w2&[= <-]&[= _ <-]).
  apply (kept_set i a); [by rewrite Happ|]. unfold same_settings. by rewrite Ht.
Qed.
Lemma keeping_appender_log i level event : keeping (appender_log strftime can_open i level event).
Proof.
  unfold appender_log. apply keeping_bind; [by apply keeping_bind; [apply keeping_gets|intros l; apply keeping_deref]|].
  intros a. destruct (level <? a_level a); [apply keeping_mret|]. destruct (a_target a) as [|name t o].
  { apply keeping_bind; [apply keeping_deref|]. intros f w [] w' [= <-]. apply kept_io. }
  apply keeping_bind.
  { destruct (u64 (t + 3) <=? e_time event); [|apply keeping_mret].
    apply keeping_bind; [apply keeping_reopen|]. intros _. apply keeping_appender. intros b w [] w' Hb.
    destruct (a_target b) as [|name' t' o'] eqn:Ht; [by intros [= <-]|]. intros [= <-].
    apply (kept_set i b); [done|]. unfold same_settings. by rewrite Ht. }
  intros _. apply keeping_bind; [by apply keeping_bind; [apply keeping_gets|intros l; apply keeping_deref]|].
  intros b. apply keeping_bind; [apply keeping_deref|]. intros f.
  destruct (a_target b) as [|name' t' []]; try apply keeping_mret. apply keeping_write.
Qed.
Lemma keeping_each {A} (f : A → M logs ()) l : (∀ a, keeping (f a)) → keeping (each f l).
Proof. intros Hf. induction l as [|a l IH]; [apply keeping_mret|]. apply keeping_bind; [done|by intros _]. Qed.
Lemma keeping_the_logger {A} name (k : Logger → M logs A) : (∀ x, keeping (k x)) → keeping (the_logger name ≫= k).
Proof. intros Hk. apply keeping_bind; [|done]. apply keeping_bind; [apply keeping_gets|intros l; apply keeping_deref]. Qed.
Lemma keeping_log name level event : keeping (log strftime can_open name level event).
Proof.
  apply keeping_the_logger. intros x. destruct (level <? l_level x); [apply keeping_mret|].
  assert (∀ l, keeping (each (λ i, appender_log strftime can_open i level event) l)) as Hl
    by (intros l; apply keeping_each; intros i; apply keeping_appender_log).
  destruct (l_appenders x) as [|i l]; [|apply Hl]. destruct (l_has_root x); [|apply keeping_mret].
  apply keeping_the_logger. intros r. destruct (level <? l_level r); [apply keeping_mret|apply Hl].
Qed.
Lemma in_force_kept v w w' : kept w w' → in_force v w → in_force v w'.
Proof.
  intros [Hl Ha] (Hp&Ho&Hc&Hbare). split; [done|]. split_and!.
  - intros n x i. rewrite Hl, <- (Forall2_length _ _ _ Ha). apply Ho.
  - intros d Hd. destruct (Hc d Hd) as (x&Hx&Hlv&Hf&Happ). exists x. rewrite Hl. do 3 (split; [done|]).
    eapply Forall2_impl; [exact Happ|]. intros a i (t&h&Hi&Ht).
    destruct (Forall2_lookup_l _ _ _ _ _ Ha Hi) as ([t' lv f h']&Hi'&Hs). destruct Hs as (E1&E2&E3&Htt).
    cbn [a_level a_formatter a_hasFormatter a_target] in *. exists t', h'. split; [by rewrite Hi', E1, E2|].
    destruct t, t'; try done. cbn in *. by subst.
  - intros n x. rewrite Hl. apply Hbare.
Qed.

Lemma in_force_getLogger v name w : in_force v w → ∃ w', getLogger name w = Ret tt w' ∧ in_force v w'.
Proof.
  intros (Hp&Ho&Hc&Hbare). destruct (getLogger_touched name [] w) as (w'&x&Hw'&(Hf&Hn&Hlen&Happ)&Hx).
  exists w'. split; [done|]. assert (∀ i, appenders w' !! i = appenders w !! i) as Happ' by (intros i; apply Happ, not_elem_of_nil).
  assert (∀ n y, find_logger n (loggers w') = Some y → find_logger n (loggers w) = Some y ∨ l_appenders y = [] ∧ find_logger n (loggers w) = None) as Hold.
  { intros n y Hy. destruct (decide (n = name)) as [->|Hne]; [|left; by rewrite <- Hn].
    rewrite Hf in Hy. injection Hy as <-. destruct (find_logger name (loggers w)) as [z|]; [left|right]; by rewrite Hx. }
  assert (∀ n y, find_logger n (loggers w) = Some y → find_logger n (loggers w') = Some y) as Hnew.
  { intros n y Hy. destruct (decide (n = name)) as [->|Hne]; [|by rewrite Hn]. by rewrite Hf, Hx, Hy. }
  split; [done|]. split_and!.
  - intros n y i Hy Hi. destruct (Hold n y Hy) as [Hy'|[Hnil _]]; [|rewrite Hnil in Hi; by apply elem_of_nil in Hi].
    destruct (Ho n y i Hy' Hi) as [Hlt Hu]. split; [by rewrite Hlen|]. intros n' y' Hy1 Hi1.
    destruct (Hold n' y' Hy1) as [Hy1'|[Hnil _]]; [by apply (Hu n' y')|rewrite Hnil in Hi1; by apply elem_of_nil in Hi1].
  - intros d Hd. apply (configured_agree d w); [|by apply Hc]. destruct (Hc d Hd) as (y&Hy&_).
    split; [by rewrite Hy, (Hnew _ _ Hy)|]. intros z i _ _. apply Happ'.
  - intros n y Hy Hin. destruct (Hold n y Hy) as [Hy'|[Hnil _]]; [by apply Hbare|by left].
Qed.

(** ** The life of the configuration *)

(** What a program does with it: texts for the variable, each with what its
    uninitialised members happen to hold, whole documents, loggers that are asked for, and
    events that are logged. *)
Inductive reached : conf → Prop :=
  | reached_start c : start can_open no_conf = Ret tt c → reached c
  | reached_text indet s c c' b : reached c →
      (fromString (H := logs_cast indet) 0 s c = Ret b c' ∨ ∃ e, fromString (H := logs_cast indet) 0 s c = Throw e c') → reached c'
  | reached_load indet fuel root c c' : reached c →
      (LoadFromYaml (H := logs_cast indet) fuel root c = Ret tt c' ∨ ∃ e, LoadFromYaml (H := logs_cast indet) fuel root c = Throw e c') → reached c'
  | reached_getLogger name c c' : reached c → on_world (getLogger name) c = Ret tt c' → reached c'
  | reached_log name level event c c' : reached c → on_world (log strftime can_open name level event) c = Ret tt c' → reached c'.

Lemma started_in_force : in_force [] started.
Proof.
  split; [split; [constructor|by intros d ?%elem_of_nil]|]. split; [apply started_owned|].
  split; [by intros d ?%elem_of_nil|]. intros n x Hx _. right. simpl in Hx. destruct (decide _) as [<-|]; [|done].
  by injection Hx as <-.
Qed.
Lemma manager_started : new_LoggerManager logs_empty = Ret tt started.
Proof. by vm_compute. Qed.
Lemma LogIniter_spec w : ∃ ids, LogIniter can_open (mkConfig [] [] (λ _, 0) w) = Ret tt (conf_with [] w ids).
Proof.
  eexists. unfold LogIniter, Lookup, create. rewrite bind_assoc, bind_gets. cbn [id datas find_var].
  assert (valid_name logs_name = true) as -> by (by vm_compute). cbn [negb]. rewrite bind_assoc, bind_gets, bind_assoc, bind_modify.
  cbn [vars datas s_fun_id world length app assign_var]. rewrite bind_mret. reflexivity.
Qed.
Lemma start_spec : ∃ ids, start can_open no_conf = Ret tt (conf_with [] started ids).
Proof.
  destruct (LogIniter_spec started) as [ids Hs]. exists ids. unfold start.
  rewrite (bind_ret (on_world new_LoggerManager) _ no_conf tt (mkConfig [] [] (λ _, 0) started)); [exact Hs|].
  unfold on_world, no_conf. cbn [world]. by rewrite manager_started.
Qed.
Lemma started_settled c : start can_open no_conf = Ret tt c → settled c.
Proof.
  destruct start_spec as [ids ->]. intros [= <-]. exists [], started, ids. split; [done|apply started_in_force].
Qed.

Lemma text_settled indet i s : keeps settled (fromString (H := logs_cast indet) i s).
Proof.
  intros c (v&w&ids&->&Hv). destruct i as [|i]; [|by destruct i].
  pose proof (text_in_force indet s v w ids Hv) as Hs. destruct (set_of_text indet s) as [v'|e].
  - destruct Hs as (w'&->&Hv'). by exists v', w', ids.
  - destruct Hs as [-> _]. by exists v, w, ids.
Qed.
Lemma on_world_settled (m : M logs ()) c c' :
  (∀ v w w', in_force v w → m w = Ret tt w' → in_force v w') → settled c → on_world m c = Ret tt c' → settled c'.
Proof.
  intros Hm (v&w&ids&->&Hv). unfold on_world, conf_with. cbn [world vars datas s_fun_id].
  destruct (m w) as [[] w'| |] eqn:Hw; try done. intros [= <-]. exists v, w', ids. split; [done|by eapply Hm].
Qed.
Lemma reached_settled c : reached c → settled c.
Proof.
  induction 1 as [c Hc|indet s c c' b _ IH Hc|indet fuel root c c' _ IH Hc|name c c' _ IH Hc|name level event c c' _ IH Hc].
  - by apply started_settled.
  - pose proof (text_settled indet 0 s c IH) as Hs. by destruct Hc as [Hc|[e Hc]]; rewrite Hc in Hs.
  - pose proof (keeps_load settled fuel root (text_settled indet) c IH) as Hs. by destruct Hc as [Hc|[e Hc]]; rewrite Hc in Hs.
  - eapply on_world_settled; [|exact IH|exact Hc]. intros v w w' Hv Hw.
    destruct (in_force_getLogger v name w Hv) as (w1&Hw1&Hv1). congruence.
  - eapply on_world_settled; [|exact IH|exact Hc]. intros v w w' Hv Hw.
    apply (in_force_kept v w); [by eapply keeping_log|done].
Qed.

(** C32. The definitions are in force: whatever texts and documents the configuration
    was given, well-formed or not, and whatever was logged in between, the variable
    [logs] holds definitions with distinct names, for each of them the logger of that
    name has its level, its formatter if it is valid and exactly its appenders,
    and every other logger has none (the root logger perhaps its first one).  A text that
    converts is accepted and becomes the value; any other one ends in an exception that
    [fromString] does not catch and changes nothing. *)
Theorem definitions_in_force c (Hc : reached c) :
  ∃ x, vars c = [x] ∧ NoDup (map ld_name (m_val x)) ∧ (∀ d, d ∈ m_val x → configured d (world c)) ∧
    (∀ n l, find_logger n (loggers (world c)) = Some l → n ∉ map ld_name (m_val x) →
      l_appenders l = [] ∨ n = root_name ∧ l_appenders l = [0%nat]) ∧
    ∀ indet s, match set_of_text indet s with
      | Casted v => ∃ c', fromString (H := logs_cast indet) 0 s c = Ret true c' ∧ m_val <$> vars c' = [v] ∧
          ∀ d, d ∈ v → configured d (world c')
      | CastThrows e => fromString (H := logs_cast indet) 0 s c = Throw e c ∧ (e = yaml_exception ∨ e = logic_error)
      end.
Proof.
  destruct (reached_settled c Hc) as (v&w&ids&->&Hv). pose proof Hv as ([Hs _]&_&Hconf&Hbare).
  eexists. split; [done|]. split; [by apply sorted_names|]. do 2 (split; [done|]). intros indet s.
  pose proof (text_in_force indet s v w ids Hv) as Ht. destruct (set_of_text indet s) as [v'|e]; [|done].
  destruct Ht as (w'&Hf&_&_&Hconf'&_). by exists (conf_with v' w' ids).
Qed.
End in_force.

(** ** Round trip of a definition *)

(** What the round trip relies on of yaml-cpp: a map that is written is read back
    as the same one, where [y_same m n] says that [m] is what [n] reads back as,
    and [y_text] that a string is text; printable ASCII is. *)
Class YamlSame (N : Type) `{YamlOps N} `{YamlNode N} := {
  y_text : bytes → Prop;
  y_same : N → N → Prop;
  text_ascii s : Forall (λ c, 32 ≤ code c < 127) s → y_text s;
  same_reload es : Forall y_text es.*1 → NoDup es.*1 → ∃ m, y_load (y_dump (y_map es)) = Some m ∧ y_same m (y_map es);
  same_string m s : y_text s → y_same m (y_string s) → y_as_string m = Some s;
  same_seq m ns : y_same m (y_seq ns) → y_size m = length ns ∧ ∀ i n, ns !! i = Some n → y_same (y_index m i) n;
  same_map m es k : Forall y_text es.*1 → NoDup es.*1 → y_same m (y_map es) → y_text k →
    ∃ o, y_get m k = Some o ∧ match o with None => k ∉ es.*1 | Some m' => ∃ n, (k, n) ∈ es ∧ y_same m' n end
}.

Section round_trip.
Context {N : Type} `{YamlSame N} (indet : nat → Z).

(** A level that has a name of its own. *)
Definition named_level (l : Z) : Prop := UNKNOWM ≤ l ≤ FATAL.
Lemma level_round_trip l : named_level l → FromString (ToString l) = l.
Proof.
  unfold named_level, UNKNOWM, FATAL. intros Hl.
  assert (l = 0 ∨ l = 1 ∨ l = 2 ∨ l = 3 ∨ l = 4 ∨ l = 5) as Hc by lia.
  destruct Hc as [->|[->|[->|[->|[->| ->]]]]]; by vm_compute.
Qed.

(** Definitions as [read_define] makes them. *)
Definition readable_appender (a : LogAppenderDefine) : Prop :=
  (ad_type a = 1 ∧ y_text (ad_file a) ∨ ad_type a = 2 ∧ ad_file a = []) ∧ y_text (ad_formatter a) ∧ named_level (ad_level a).
Definition readable (d : LogDefine) : Prop :=
  y_text (ld_name d) ∧ y_text (ld_formatter d) ∧ named_level (ld_level d) ∧ Forall readable_appender (ld_appenders d).

(** The appenders' levels are lost. *)
Definition forget_level (i : nat) (a : LogAppenderDefine) : LogAppenderDefine :=
  mkAppenderDefine (ad_type a) (indet i) (ad_formatter a) (ad_file a).
Definition forget_levels (d : LogDefine) : LogDefine :=
  mkLogDefine (ld_name d) (ld_level d) (ld_formatter d) (imap forget_level (ld_appenders d)).

Definition proper_entries (es : list (bytes * N)) : Prop := Forall y_text es.*1 ∧ NoDup es.*1.

Lemma entry_unique k (n n' : N) (es : list (bytes * N)) : NoDup es.*1 → (k, n) ∈ es → (k, n') ∈ es → n = n'.
Proof.
  induction es as [|[k' m] es IH]; [by intros _ ?%elem_of_nil|]. rewrite fmap_cons, NoDup_cons. intros [Hk Hd].
  intros [[= -> ->]|Hn]%elem_of_cons [[= ?]|Hn']%elem_of_cons; subst; [done| | |by apply IH];
    destruct Hk; by apply (list_elem_of_fmap_2 fst) in Hn || apply (list_elem_of_fmap_2 fst) in Hn'.
Qed.
(** An entry of a map that was written. *)
Lemma get_same m es k : proper_entries es → y_same m (y_map es) → y_text k →
  ∃ o, get m k = Casted o ∧ match o with None => k ∉ es.*1 | Some m' => ∃ n, (k, n) ∈ es ∧ y_same m' n end.
Proof.
  intros [Ht Hd] Hs Hk. destruct (same_map m es k Ht Hd Hs Hk) as (o&Hg&Ho). exists o. split; [|done].
  unfold get. by rewrite Hg.
Qed.
Lemma text_at_same m es k s : proper_entries es → y_same m (y_map es) → y_text k → (k, y_string s) ∈ es → y_text s →
  text_at m k = Casted (Some s).
Proof.
  intros Hp Hs Hk Hin Ht. destruct (get_same m es k Hp Hs Hk) as (o&Hg&Ho). unfold text_at. rewrite Hg. cbn.
  destruct o as [m'|]; [|destruct Ho; by apply (list_elem_of_fmap_2 fst) in Hin].
  destruct Ho as (n&Hn&Hs'). assert (n = y_string s) as ->.
  { destruct Hp as [_ Hd]. by eapply entry_unique. }
  unfold as_string. by rewrite (same_string _ _ Ht Hs').
Qed.
Lemma text_at_absent m es k : proper_entries es → y_same m (y_map es) → y_text k → k ∉ es.*1 → text_at m k = Casted None.
Proof.
  intros Hp Hs Hk Hin. destruct (get_same m es k Hp Hs Hk) as (o&Hg&Ho). unfold text_at. rewrite Hg. cbn.
  destruct o as [m'|]; [|done]. destruct Ho as (n&Hn&_). destruct Hin. by apply (list_elem_of_fmap_2 fst) in Hn.
Qed.

Ltac ascii := apply text_ascii; apply (bool_decide_unpack _); vm_compute; exact I.
Ltac entries := split; [repeat (constructor; [ascii|]); constructor|apply (bool_decide_unpack _); vm_compute; exact I].
Ltac is_entry := repeat first [apply list_elem_of_here|apply list_elem_of_further].
Ltac no_entry := apply (bool_decide_unpack _); vm_compute; exact I.

Lemma level_text l : y_text (ToString l).
Proof.
  unfold ToString. destruct (list_find _ level_names) as [[i [c s]]|] eqn:Hf; [|ascii].
  apply list_find_Some in Hf as (Hi&_). do 5 (destruct i as [|i]; [injection Hi as <- <-; ascii|]). done.
Qed.

(** The optional entries. *)
Lemma level_at m es l : proper_entries es → y_same m (y_map es) → named_level l →
  (l ≠ UNKNOWM → (str "level", y_string (ToString l)) ∈ es) → (l = UNKNOWM → str "level" ∉ es.*1) →
  ∃ o, text_at m (str "level") = Casted o ∧ FromString (default [] o) = l.
Proof.
  intros Hp Hs Hl Hin Hno. destruct (decide (l = UNKNOWM)) as [Hu|Hu].
  - exists None. rewrite (text_at_absent m es) by (ascii || auto). by subst l.
  - exists (Some (ToString l)). rewrite (text_at_same m es _ (ToString l)) by (ascii || auto using level_text).
    split; [done|by apply level_round_trip].
Qed.
Lemma optional_at m es k s : proper_entries es → y_same m (y_map es) → y_text k → y_text s →
  (s ≠ [] → (k, y_string s) ∈ es) → (s = [] → k ∉ es.*1) → ∃ o, text_at m k = Casted o ∧ default [] o = s.
Proof.
  intros Hp Hs Hk Ht Hin Hno. destruct (decide (s = [])) as [Hu|Hu].
  - exists None. rewrite (text_at_absent m es) by auto. by subst s.
  - exists (Some s). by rewrite (text_at_same m es _ s) by auto.
Qed.

Definition type_name (a : LogAppenderDefine) : bytes :=
  if ad_type a =? 1 then str "FileLogAppender" else str "StdoutLogAppender".
Lemma appender_shape a : ad_type a = 1 ∨ ad_type a = 2 →
  let es : list (bytes * N) := appender_entries a in
  map_node es = y_map es ∧ proper_entries es ∧ (str "type", y_string (type_name a)) ∈ es ∧
  (ad_type a = 1 → (str "file", y_string (ad_file a)) ∈ es) ∧
  (ad_formatter a ≠ [] → (str "formatter", y_string (ad_formatter a)) ∈ es) ∧ (ad_formatter a = [] → str "formatter" ∉ es.*1).
Proof.
  unfold appender_entries, level_entry, text_entry, type_name.
  intros [Hty|Hty]; rewrite Hty; destruct (ad_level a =? UNKNOWM), (ad_formatter a) as [|c f]; simpl;
    (split; [done|]; split; [entries|]; split_and!; intros; try done; try is_entry; no_entry).
Qed.
Lemma define_shape d :
  let es : list (bytes * N) := define_entries d in
  proper_entries es ∧ (str "name", y_string (ld_name d)) ∈ es ∧
  (ld_level d ≠ UNKNOWM → (str "level", y_string (ToString (ld_level d))) ∈ es) ∧ (ld_level d = UNKNOWM → str "level" ∉ es.*1) ∧
  (ld_formatter d ≠ [] → (str "formatter", y_string (ld_formatter d)) ∈ es) ∧ (ld_formatter d = [] → str "formatter" ∉ es.*1) ∧
  (ld_appenders d ≠ [] → (str "appenders", y_seq (map (λ a, map_node (appender_entries a)) (ld_appenders d))) ∈ es) ∧
  (ld_appenders d = [] → str "appenders" ∉ es.*1).
Proof.
  unfold define_entries, level_entry, text_entry, list_entry.
  destruct (ld_level d =? UNKNOWM) eqn:Hl; [apply Z.eqb_eq in Hl|apply Z.eqb_neq in Hl];
    destruct (ld_formatter d) as [|c f], (ld_appenders d) as [|a l]; simpl;
    (split; [entries|]; split_and!; intros; try done; try is_entry; no_entry).
Qed.

Ltac bound := cbv [mbind cast_mbind cast_bind].
Lemma read_appender_back level m a : readable_appender a → y_same m (map_node (appender_entries a)) →
  read_appender level m = Casted (Some (mkAppenderDefine (ad_type a) level (ad_formatter a) (ad_file a))).
Proof.
  intros (Hty&Hf&Hl) Hs. destruct (appender_shape a) as (Hm&Hp&Htype&Hfile&Hin&Hno); [tauto|]. rewrite Hm in Hs.
  unfold read_appender. rewrite (text_at_same m _ (str "type") (type_name a) Hp Hs); [|ascii|done|].
  2: { unfold type_name. destruct (ad_type a =? 1); ascii. }
  destruct (optional_at m _ (str "formatter") (ad_formatter a) Hp Hs) as (o&Hfo&Ho); [ascii|done..|].
  bound. unfold type_name. destruct Hty as [[Hty Htf]|[Hty Htf]]; rewrite Hty; cbn [Z.eqb Pos.eqb].
  - rewrite decide_True by done. rewrite (text_at_same m _ (str "file") (ad_file a) Hp Hs); [|ascii|by apply Hfile|done].
    bound. rewrite Hfo. bound. by rewrite Ho.
  - rewrite decide_False, decide_True by done. rewrite Hfo. bound. by rewrite Ho, Htf.
Qed.
Lemma read_appenders_back m l : Forall readable_appender l → y_same m (y_seq (map (λ a, map_node (appender_entries a)) l)) →
  read_appenders indet m = Casted (imap forget_level l).
Proof.
  intros Hl Hs. destruct (same_seq _ _ Hs) as [Hsize Hi]. rewrite length_map in Hsize. unfold read_appenders.
  rewrite (cast_all_Forall2 _ _ (map Some (imap forget_level l))).
  - bound. f_equal. induction (imap forget_level l) as [|a k IH]; simpl; [done|]. by f_equal.
  - rewrite Hsize. apply Forall2_same_length_lookup_2; [by rewrite length_seq, length_map, length_imap|].
    intros i j b [-> Hj]%lookup_seq Hb. simpl. change (map Some (imap forget_level l)) with (Some <$> imap forget_level l) in Hb.
    rewrite list_lookup_fmap, list_lookup_imap in Hb. destruct (l !! i) as [a|] eqn:Ha; [|done]. injection Hb as <-.
    apply read_appender_back; [by apply (Forall_lookup_1 _ _ _ _ Hl Ha)|]. apply Hi.
    change (map ?f l) with (f <$> l). by rewrite list_lookup_fmap, Ha.
Qed.

(** What is written for a definition reads back as that definition, whether the
    optional members are there or not - its name, level and formatter and its appenders in
    order, each with its type, file and formatter - except that the levels of the
    appenders are lost: each becomes what the memory happened to hold. *)
Theorem define_round_trip d (Hd : readable d) :
  read_define indet (write_define d) = Casted (forget_levels d).
Proof.
  destruct Hd as (Hn&Hf&Hl&Ha). destruct (define_shape d) as (Hp&Hin&Hl1&Hl2&Hf1&Hf2&Ha1&Ha2).
  destruct (same_reload (define_entries d) (proj1 Hp) (proj2 Hp)) as (m&Hload&Hs).
  unfold read_define, write_define, load. rewrite Hload. bound.
  rewrite (text_at_same m _ (str "name") (ld_name d) Hp Hs); [|ascii|done|done]. bound.
  destruct (level_at m _ (ld_level d) Hp Hs) as (o&Ho&Hlo); [done..|]. rewrite Ho. bound.
  destruct (optional_at m _ (str "formatter") (ld_formatter d) Hp Hs) as (o'&Ho'&Hfo); [ascii|done..|]. rewrite Ho'. bound.
  destruct (get_same m _ (str "appenders") Hp Hs) as (oa&Hg&Hoa); [ascii|]. rewrite Hg. bound. unfold forget_levels.
  rewrite Hlo, Hfo. destruct (decide (ld_appenders d = [])) as [He|He].
  - specialize (Ha2 He). rewrite He. destruct oa as [n|]; [|done]. destruct Hoa as (n'&Hn'&_).
    destruct Ha2. by apply (list_elem_of_fmap_2 fst) in Hn'.
  - specialize (Ha1 He). destruct oa as [n|]; [|destruct Hoa; by apply (list_elem_of_fmap_2 fst) in Ha1].
    destruct Hoa as (n'&Hn'&Hs'). rewrite <- (entry_unique _ _ _ _ (proj2 Hp) Ha1 Hn') in Hs'.
    by rewrite (read_appenders_back n (ld_appenders d) Ha Hs').
Qed.
End round_trip.

(** ** With the small YAML of Config *)

#[local] Existing Instance Config.tree_yaml.
Fixpoint find_entry (k : bytes) (es : list (bytes * tree)) : option tree :=
  match es with [] => None | (k', n) :: es => if decide (k' = k) then Some n else find_entry k es end.
#[local] Instance tree_node : YamlNode tree := {
  y_get t k :=
    match t with
    | GenNode 1 l => es ← pairs l; Some (find_entry k es)
    | GenLeaf _ => None
    | _ => Some None
    end;
  y_as_string t := match t with GenLeaf s => Some s | _ => None end;
  y_string s := GenLeaf s;
  y_null := GenNode 2 []
}.
Lemma find_entry_spec k es :
  match find_entry k es with None => k ∉ es.*1 | Some m => ∃ n, (k, n) ∈ es ∧ m = n end.
Proof.
  induction es as [|[k' n] es IH]; simpl; [apply not_elem_of_nil|]. destruct (decide (k' = k)) as [->|Hk].
  - exists n. split; [by left|done].
  - destruct (find_entry k es) as [m|]; [|by apply not_elem_of_cons]. destruct IH as (n'&Hn&->). exists n'. split; [by right|done].
Qed.
#[local] Program Instance tree_same : YamlSame tree := { y_text _ := True; y_same m n := m = n }.
Next Obligation. done. Qed.
Next Obligation. intros es _ _. exists (GenNode 1 (concat (map (λ e, [GenLeaf e.1; e.2]) es))). split; [apply tree_load_node|done]. Qed.
Next Obligation. by intros m s _ ->. Qed.
Next Obligation.
  intros m ns ->. split; [done|]. intros i n Hi. exact (f_equal (default (GenLeaf [] : tree)) Hi).
Qed.
Next Obligation.
  intros m es k _ _ -> _. exists (find_entry k es). split; [|apply find_entry_spec].
  exact (f_equal (mbind (λ es, Some (find_entry k es))) (pairs_flat es)).
Qed.

Definition garbage (l : list Z) (i : nat) : Z := default 0 (l !! i).
Definition file_define : LogDefine :=
  mkLogDefine (str "system") ERROR (str "%m%n")
    [mkAppenderDefine 1 ERROR (str "%d%T%m") (str "system.txt"); mkAppenderDefine 2 INFO [] []].

Lemma define_witness : readable file_define ∧
  read_define (garbage [7; 32767]) (write_define file_define) =
  Casted (mkLogDefine (str "system") ERROR (str "%m%n")
    [mkAppenderDefine 1 7 (str "%d%T%m") (str "system.txt"); mkAppenderDefine 2 32767 [] []]).
Proof.
  assert (readable file_define) as Hr.
  { split; [exact I|]. split; [exact I|]. split; [split; vm_compute; discriminate|].
    repeat constructor; try (by left) || (by right); vm_compute; discriminate. }
  split; [exact Hr|]. exact (define_round_trip (garbage [7; 32767]) file_define Hr).
Defined.

(** A set of definitions as a text, one without appenders. *)
Definition plain_define : LogDefine := mkLogDefine (str "http") WARN [] [].
Definition two_defines : bytes :=
  y_dump (y_seq (map (λ d, y_map (define_entries d)) [file_define; plain_define])).
Definition all_open (_ : bytes) : bool := true.
Definition two_values : list LogDefine :=
  [plain_define; mkLogDefine (str "system") ERROR (str "%m%n")
    [mkAppenderDefine 1 DEBUG (str "%d%T%m") (str "system.txt"); mkAppenderDefine 2 INFO [] []]].
Lemma two_read : set_of_text (λ _, garbage [DEBUG; INFO]) two_defines = Casted two_values.
Proof. by vm_compute. Qed.

Lemma in_force_witness : ∃ c x, reached (N := tree) (λ _ _, []) all_open c ∧
  vars c = [x] ∧ m_val x = two_values ∧ ∀ d, d ∈ two_values → configured d (world c).
Proof.
  destruct (start_spec all_open) as [ids Hstart].
  pose proof (text_in_force all_open (λ _, garbage [DEBUG; INFO]) two_defines [] started ids (started_in_force)) as Ht.
  rewrite two_read in Ht. destruct Ht as (w&Ht&_).
  assert (reached (N := tree) (λ _ _, []) all_open (conf_with all_open two_values w ids)) as Hr.
  { eapply reached_text; [by apply reached_start|]. left. exact Ht. }
  destruct (definitions_in_force _ _ _ Hr) as (x&Hx&_&Hc&_).
  exists (conf_with all_open two_values w ids), x. split; [exact Hr|]. split; [exact Hx|].
  injection Hx as <-. split; [done|exact Hc].
Defined.

(** A definition without a name ends the loading of the whole document: [fromString]
    does not catch what the conversion throws. *)
Definition nameless : bytes := y_dump (y_seq [y_map (level_entry ERROR)]).
Example nameless_definition ids :
  set_of_text (λ _, garbage []) nameless = CastThrows logic_error ∧
  fromString (H := logs_cast (λ _, garbage [])) 0 nameless (conf_with all_open [] started ids) =
    Throw logic_error (conf_with all_open [] started ids).
Proof. split; [by vm_compute|]. pose proof (text_in_force all_open (λ _, garbage []) nameless [] started ids started_in_force) as Ht.
  assert (set_of_text (λ _, garbage []) nameless = CastThrows logic_error) as Hn by (by vm_compute). rewrite Hn in Ht. apply Ht. Qed.

(** The same text, read twice, is a change of the configuration when the memory
    holds something else. *)
Example same_text_changes :
  set_of_text (λ _, garbage [DEBUG; INFO]) two_defines ≠ set_of_text (λ _, garbage [DEBUG; WARN]) two_defines.
Proof. by vm_compute. Qed.

(** The text of the manager shows the loggers in the order of their names, and of the
    appenders no formatters, although each has one. *)
Example manager_text :
  match (getLogger (str "db");; manager_toYamlString) started with Ret s _ => s | _ => [] end =
  y_dump (y_seq
    [y_map [(str "name", y_string (str "db")); (str "level", y_string (str "DEBUG")); (str "formatter", y_string default_pattern)];
     y_map [(str "name", y_string root_name); (str "level", y_string (str "DEBUG")); (str "formatter", y_string default_pattern);
       (str "appenders", y_seq [y_map [(str "type", y_string (str "StdoutLogAppender")); (str "level", y_string (str "DEBUG"))]])]]).
Proof. by vm_compute. Qed.
