(* ===== verification/Address.v ===== *)
(** * Network addresses (megalo/address.h, megalo/address.cc)

    An address object holds a C structure; [image] is its memory, which the
    comparison operators read.  [host] is the byte order of the machine: a port
    or an IPv4 address is stored in network order, so the member of the
    structure is [byteswapOnLittleEndian] of the number.  [getaddrinfo],
    [inet_pton] and [getifaddrs] of the C library are arguments.  Operations
    run in any state [S]: they throw or crash, or give a value. *)
From S2P Require Import Prelude Bytes Util.

Definition AF_UNSPEC : Z := 0.
Definition AF_UNIX : Z := 1.
Definition AF_INET : Z := 2.
Definition AF_INET6 : Z := 10.

Record sockaddr_in := mkSockaddrIn {
  sin_family : Z; sin_port : Z; s_addr : Z; sin_zero : bytes
}.
Record sockaddr_in6 := mkSockaddrIn6 {
  sin6_family : Z; sin6_port : Z; sin6_flowinfo : Z; s6_addr : bytes; sin6_scope_id : Z
}.
Record sockaddr_un := mkSockaddrUn { sun_family : Z; sun_path : bytes }.
Record sockaddr := mkSockaddr { sa_family : Z; sa_data : bytes }.

Inductive Address :=
  | IPv4Address (m_addr : sockaddr_in)
  | IPv6Address (m_addr : sockaddr_in6)
  | UnixAddress (m_addr : sockaddr_un) (m_length : Z)
  | UnknownAddress (m_addr : sockaddr).

(** What the C library hands over: one of the structures. *)
Inductive sockaddr_ptr :=
  | NullAddr
  | AddrIn (a : sockaddr_in)
  | AddrIn6 (a : sockaddr_in6)
  | AddrOther (a : sockaddr).

Definition zeros (n : nat) : bytes := replicate n x00.

Section address.
Context (host : byte_order).
#[local] Abbreviation swap := (byteswapOnLittleEndian host).

(** The memory of the structure. *)
Definition image (a : Address) : bytes :=
  match a with
  | IPv4Address m => mem_of host 2 (sin_family m) ++ mem_of host 2 (sin_port m) ++
      mem_of host 4 (s_addr m) ++ sin_zero m
  | IPv6Address m => mem_of host 2 (sin6_family m) ++ mem_of host 2 (sin6_port m) ++
      mem_of host 4 (sin6_flowinfo m) ++ s6_addr m ++ mem_of host 4 (sin6_scope_id m)
  | UnixAddress m _ => mem_of host 2 (sun_family m) ++ sun_path m
  | UnknownAddress m => mem_of host 2 (sa_family m) ++ sa_data m
  end.

Definition getAddrLen (a : Address) : Z :=
  match a with
  | IPv4Address _ => 16
  | IPv6Address _ => 28
  | UnixAddress _ m_length => m_length
  | UnknownAddress _ => 16
  end.

Definition getFamily (a : Address) : Z :=
  match a with
  | IPv4Address m => sin_family m
  | IPv6Address m => sin6_family m
  | UnixAddress m _ => sun_family m
  | UnknownAddress m => sa_family m
  end.

(** ** Constructors *)

Definition new_IPv4Address (address port : Z) : sockaddr_in :=
  mkSockaddrIn AF_INET (swap 2 port) (swap 4 address) (zeros 8).
Definition new_IPv6Address : sockaddr_in6 := mkSockaddrIn6 AF_INET6 0 0 (zeros 16) 0.
Definition new_IPv6Address_bytes (address : bytes) (port : Z) : sockaddr_in6 :=
  mkSockaddrIn6 AF_INET6 (swap 2 port) 0 (take 16 address) 0.
Definition MAX_PATH_LEN : Z := 107.
Definition new_UnixAddress : Address :=
  UnixAddress (mkSockaddrUn AF_UNIX (zeros 108)) (2 + MAX_PATH_LEN).
Definition new_UnixAddress_path {S} (path : bytes) : M S Address :=
  let m_length := u32 (Z.of_nat (length path) + 1) in
  let m_length := if match path with c :: _ => is_chr 0 c | [] => false end
                  then u32 (m_length - 1) else m_length in
  if 108 <? m_length then throw logic_error else
  mret (UnixAddress (mkSockaddrUn AF_UNIX (splice 0 (take (Z.to_nat m_length) (path ++ [x00])) (zeros 108)))
          (u32 (m_length + 2))).
Definition new_UnknownAddress (family : Z) : sockaddr := mkSockaddr (wrap 16 family) (zeros 14).
Definition setAddrLen (v : Z) (a : Address) : Address :=
  match a with UnixAddress m _ => UnixAddress m v | _ => a end.

(** [Address::Create]. *)
Definition Create (addr : sockaddr_ptr) : option Address :=
  match addr with
  | NullAddr => None
  | AddrIn a => Some (IPv4Address a)
  | AddrIn6 a => Some (IPv6Address a)
  | AddrOther a => Some (UnknownAddress a)
  end.

Definition getPort (a : Address) : option Z :=
  match a with
  | IPv4Address m => Some (swap 2 (sin_port m))
  | IPv6Address m => Some (swap 2 (sin6_port m))
  | _ => None
  end.
Definition setPort (v : Z) (a : Address) : Address :=
  match a with
  | IPv4Address m => IPv4Address (mkSockaddrIn (sin_family m) (swap 2 v) (s_addr m) (sin_zero m))
  | IPv6Address m => IPv6Address (mkSockaddrIn6 (sin6_family m) (swap 2 v) (sin6_flowinfo m) (s6_addr m) (sin6_scope_id m))
  | _ => a
  end.

(** ** Comparison *)

(** [memcmp] of equally long pieces. *)
Fixpoint memcmp (a b : bytes) : Z :=
  match a, b with
  | x :: a, y :: b => if code x <? code y then -1 else if code y <? code x then 1 else memcmp a b
  | _, _ => 0
  end.

(** [memcmp(getAddr(), rhs.getAddr(), n)], which reads [n] bytes of both. *)
Definition addr_memcmp {S} (n : Z) (a b : Address) : M S Z :=
  if (n <=? Z.of_nat (length (image a))) && (n <=? Z.of_nat (length (image b))) then
    mret (memcmp (take (Z.to_nat n) (image a)) (take (Z.to_nat n) (image b)))
  else crash OutOfBounds.

Definition operator_lt {S} (a b : Address) : M S bool :=
  let minlen := Z.min (getAddrLen a) (getAddrLen b) in
  result ← addr_memcmp minlen a b;
  mret (if result <? 0 then true
        else if 0 <? result then false
        else getAddrLen a <? getAddrLen b).
Definition operator_eq {S} (a b : Address) : M S bool :=
  if getAddrLen a =? getAddrLen b then
    result ← addr_memcmp (getAddrLen a) a b; mret (result =? 0)
  else mret false.
Definition operator_ne {S} (a b : Address) : M S bool := r ← operator_eq a b; mret (negb r).

(** ** Masks *)

(** [CreateMask<T>(bits)] for a [w]-bit unsigned [T]: the shift is of the [int]
    1 by a [size_t], and the subtraction is of [int]s. *)
Definition CreateMask {S} (w bits_ : Z) : M S Z :=
  let n := u64 (w - bits_) in
  if n <? 31 then mret (wrap w (2 ^ n - 1)) else crash SignedOverflow.

(** [CountBytes]: [result] is what the uninitialised counter holds. *)
Fixpoint CountBytes_loop (fuel : nat) (value result : Z) : option Z :=
  if value =? 0 then Some result else
  match fuel with
  | 0%nat => None
  | S fuel => CountBytes_loop fuel (Z.land value (value - 1)) (u32 (result + 1))
  end.
Definition CountBytes {S} (result value : Z) : M S Z :=
  match CountBytes_loop 33 value result with Some r => mret r | None => crash Diverges end.

(** Byte [i] of an IPv6 address; the array has 16. *)
Definition s6_update {S} (i : Z) (f : Z → Z) (a : bytes) : M S bytes :=
  match a !! Z.to_nat i with
  | Some b => if i <? 16 then mret (<[Z.to_nat i := chr (f (code b))]> a) else crash OutOfBounds
  | None => crash OutOfBounds
  end.

Definition with_s6 (m : sockaddr_in6) (a : bytes) : Address :=
  IPv6Address (mkSockaddrIn6 (sin6_family m) (sin6_port m) (sin6_flowinfo m) a (sin6_scope_id m)).

(** The bytes after [prefix_len / 8] set to [v]. *)
Definition fill_after (q : Z) (v : byte) (a : bytes) : bytes :=
  take (Z.to_nat (q + 1)) a ++ replicate (length a - Z.to_nat (q + 1))%nat v.

(** The virtual methods of [IPAddress]; [None] is a null pointer. *)
Definition broadcastAddress {S} (prefix_len : Z) (a : Address) : M S (option Address) :=
  match a with
  | IPv4Address m =>
      if 32 <? prefix_len then mret None else
      mask ← CreateMask 32 prefix_len;
      mret (Some (IPv4Address (mkSockaddrIn (sin_family m) (sin_port m)
        (Z.lor (s_addr m) (swap 4 mask)) (sin_zero m))))
  | IPv6Address m =>
      mask ← CreateMask 8 (prefix_len `mod` 8);
      b ← s6_update (prefix_len `div` 8) (λ x, Z.lor x mask) (s6_addr m);
      mret (Some (with_s6 m (fill_after (prefix_len `div` 8) xff b)))
  | _ => mret None
  end.
Definition networkAddress {S} (prefix_len : Z) (a : Address) : M S (option Address) :=
  match a with
  | IPv4Address m =>
      if 32 <? prefix_len then mret None else
      mask ← CreateMask 32 prefix_len;
      mret (Some (IPv4Address (mkSockaddrIn (sin_family m) (sin_port m)
        (Z.land (s_addr m) (swap 4 mask)) (sin_zero m))))
  | IPv6Address m =>
      mask ← CreateMask 8 (prefix_len `mod` 8);
      b ← s6_update (prefix_len `div` 8) (λ x, Z.land x mask) (s6_addr m);
      mret (Some (with_s6 m (fill_after (prefix_len `div` 8) x00 b)))
  | _ => mret None
  end.
Definition subnetMask {S} (prefix_len : Z) (a : Address) : M S (option Address) :=
  match a with
  | IPv4Address m =>
      mask ← CreateMask 32 prefix_len;
      mret (Some (IPv4Address (mkSockaddrIn AF_INET 0 (u32 (Z.lnot (swap 4 mask))) (zeros 8))))
  | IPv6Address m =>
      mask ← CreateMask 8 (prefix_len `mod` 8);
      b ← s6_update (prefix_len `div` 8) (λ _, wrap 8 (Z.lnot mask)) (zeros 16);
      mret (Some (with_s6 new_IPv6Address b))
  | _ => mret None
  end.

(** ** Text *)

(** [os << std::hex << v]. *)
Definition hex_digit (v : Z) : byte := nth (Z.to_nat v) (str "0123456789abcdef") x00.
Fixpoint show_hex_digits (fuel : nat) (z : Z) (acc : bytes) : bytes :=
  match fuel with
  | 0%nat => acc
  | S fuel =>
      let acc := hex_digit (z `mod` 16) :: acc in
      if z `div` 16 =? 0 then acc else show_hex_digits fuel (z `div` 16) acc
  end.
Definition show_hex (z : Z) : bytes := show_hex_digits 8 z [].

(** The [uint16_t] at index [i] of the address, as the code reads it and as the
    number it stands for. *)
Definition group_at (m : sockaddr_in6) (i : nat) : Z := val_of host (slice (2 * i) 2 (s6_addr m)).

(** The loop of [IPv6Address::insert] from group [i] on: [prev] is the group
    before. *)
Fixpoint insert_groups (prev : option Z) (l : list Z) (used_zeros : bool) : bytes * bool :=
  match l with
  | [] => ([], used_zeros)
  | g :: l =>
      if (g =? 0) && negb used_zeros then insert_groups (Some g) l used_zeros else
      let z := match prev with Some p => (p =? 0) && negb used_zeros | None => false end in
      let r := insert_groups (Some g) l (used_zeros || z) in
      ((if z then str ":" else []) ++ match prev with Some _ => str ":" | None => [] end ++ show_hex (swap 2 g) ++ r.1, r.2)
  end.

Definition insert_v6 (m : sockaddr_in6) : bytes :=
  let l := map (group_at m) (seq 0 8) in
  let r := insert_groups None l false in
  str "[" ++ r.1 ++ (if negb r.2 && (List.last l 0 =? 0) then str "::" else []) ++ str "]:" ++
  show_Z (swap 2 (sin6_port m)).

Definition insert_v4 (m : sockaddr_in) : bytes :=
  let addr := swap 4 (s_addr m) in
  show_Z (Z.land (Z.shiftr addr 24) 255) ++ str "." ++ show_Z (Z.land (Z.shiftr addr 16) 255) ++
  str "." ++ show_Z (Z.land (Z.shiftr addr 8) 255) ++ str "." ++ show_Z (Z.land addr 255) ++
  str ":" ++ show_Z (swap 2 (sin_port m)).

(** [UnixAddress::getPath], which [insert] repeats; a C string must end within
    the member. *)
Definition getPath {S} (m : sockaddr_un) (m_length : Z) : M S bytes :=
  if (2 <? m_length) && match sun_path m with c :: _ => is_chr 0 c | [] => false end then
    r ← mem_string (sun_path m) 1 (u64 (m_length - 2 - 1)); mret (str "\0" ++ r)
  else if existsb (is_chr 0) (sun_path m) then mret (cstr (sun_path m)) else crash OutOfBounds.

Definition insert {S} (a : Address) : M S bytes :=
  match a with
  | IPv4Address m => mret (insert_v4 m)
  | IPv6Address m => mret (insert_v6 m)
  | UnixAddress m m_length => getPath m m_length
  | UnknownAddress m => mret (str "[UnknownAddress family=" ++ show_Z (sa_family m) ++ str "]")
  end.
Definition toString {S} (a : Address) : M S bytes := insert a.

(** [IPv4Address::Create] and [IPv6Address::Create]; [inet_pton] gives the
    address in network order. *)
Definition IPv4_Create (inet_pton : bytes → option bytes) (address : bytes) (port : Z) : option Address :=
  match inet_pton address with
  | Some m => Some (IPv4Address (mkSockaddrIn AF_INET (swap 2 port) (val_of host m) (zeros 8)))
  | None => None
  end.
Definition IPv6_Create (inet_pton : bytes → option bytes) (address : bytes) (port : Z) : option Address :=
  match inet_pton address with
  | Some m => Some (IPv6Address (mkSockaddrIn6 AF_INET6 (swap 2 port) 0 m 0))
  | None => None
  end.

(** [IPAddress::Create]; [getaddrinfo] of a numeric host: the first result. *)
Definition is_ip (a : Address) : bool :=
  match a with IPv4Address _ | IPv6Address _ => true | _ => false end.
Definition IP_Create (getaddrinfo_numeric : bytes → option sockaddr_ptr) (address : bytes) (port : Z) :
    option Address :=
  match getaddrinfo_numeric address with
  | None => None
  | Some p =>
      match Create p with
      | Some a => if is_ip a then Some (setPort port a) else None
      | None => None
      end
  end.

(** ** Lookup *)

(** The node and the service taken from [host[:port]]: [memchr] for ']' or ':',
    and what follows as a C string. *)
Definition memchr (z : Z) (s : bytes) : option nat := fst <$> list_find (λ c, is_chr z c = true) s.

Definition split_host (h : bytes) : bytes * option bytes :=
  let '(node, service) :=
    match h with
    | c :: _ =>
        if is_chr 91 c then
          match memchr 93 (drop 1 h) with
          | Some e => (take e (drop 1 h),
              match drop (e + 2) h with x :: s => if is_chr 58 x then Some (cstr s) else None | [] => None end)
          | None => ([], None)
          end
        else ([], None)
    | [] => ([], None)
    end in
  let '(node, service) :=
    if bool_decide (node = []) then
      match memchr 58 h with
      | Some i =>
          match memchr 58 (drop (i + 1) h) with
          | None => (take i h, Some (cstr (drop (i + 1) h)))
          | Some _ => ([], Some (cstr (drop i h)))
          end
      | None => ([], None)
      end
    else (node, service) in
  (if bool_decide (node = []) then h else node, service).

Section libc.
Context (getaddrinfo : bytes → option bytes → Z → Z → Z → option (list sockaddr_ptr)).

Definition Lookup (result : list (option Address)) (h : bytes) (family type protocol : Z) :
    bool * list (option Address) :=
  let '(node, service) := split_host h in
  match getaddrinfo (cstr node) service family type protocol with
  | None => (false, result)
  | Some l => let result := result ++ map Create l in (negb (bool_decide (result = [])), result)
  end.

Definition LookupAny (h : bytes) (family type protocol : Z) : option Address :=
  let '(ok, result) := Lookup [] h family type protocol in
  if ok then default None (head result) else None.

Definition LookupAnyIpAddress (h : bytes) (family type protocol : Z) : option Address :=
  let '(ok, result) := Lookup [] h family type protocol in
  if ok then
    head (omap (λ a, match a with Some a => if is_ip a then Some a else None | None => None end) result)
  else None.

(** An entry of [getifaddrs]. *)
Record ifaddrs := mkIfaddrs { ifa_name : bytes; ifa_addr : sockaddr_ptr; ifa_netmask : sockaddr_ptr }.

Definition family_of (p : sockaddr_ptr) : option Z :=
  match p with
  | NullAddr => None
  | AddrIn a => Some (sin_family a)
  | AddrIn6 a => Some (sin6_family a)
  | AddrOther a => Some (sa_family a)
  end.

(** The number of ones of the 16 bytes of a mask; [garbage] is what every
    call's counter holds. *)
Fixpoint count_bytes6 {S} (garbage : Z) (l : bytes) (prefix_len : Z) : M S Z :=
  match l with
  | [] => mret prefix_len
  | b :: l => n ← CountBytes garbage (code b); count_bytes6 garbage l (u32 (prefix_len + n))
  end.

Definition interface_entry {S} (garbage family : Z) (next : ifaddrs) :
    M S (option (bytes * (Address * Z))) :=
  f ← deref (family_of (ifa_addr next));
  if negb (family =? AF_UNSPEC) && negb (family =? f) then mret None else
  match ifa_addr next with
  | AddrIn a =>
      n ← match ifa_netmask next with AddrIn k => CountBytes garbage (s_addr k) | _ => crash NullDeref end;
      mret (Some (ifa_name next, (IPv4Address a, n)))
  | AddrIn6 a =>
      n ← match ifa_netmask next with AddrIn6 k => count_bytes6 garbage (s6_addr k) 0 | _ => crash NullDeref end;
      mret (Some (ifa_name next, (IPv6Address a, n)))
  | _ => mret None
  end.

(** The entries of the multimap in the order they are inserted. *)
Fixpoint interface_loop {S} (garbage family : Z) (l : list ifaddrs) : M S (list (bytes * (Address * Z))) :=
  match l with
  | [] => mret []
  | next :: l =>
      e ← interface_entry garbage family next;
      r ← interface_loop garbage family l;
      mret (match e with Some x => x :: r | None => r end)
  end.

Definition GetInterfaceAddresses {S} (garbage : Z) (getifaddrs : option (list ifaddrs)) (family : Z) :
    M S (bool * list (bytes * (Address * Z))) :=
  match getifaddrs with
  | None => mret (false, [])
  | Some l => r ← interface_loop garbage family l; mret (negb (bool_decide (r = [])), r)
  end.

Definition GetInterfaceAddresses_of {S} (garbage : Z) (getifaddrs : option (list ifaddrs))
    (iface : bytes) (family : Z) : M S (bool * list (Address * Z)) :=
  if bool_decide (iface = []) || bool_decide (iface = str "*") then
    mret (true,
      (if (family =? AF_INET) || (family =? AF_UNSPEC) then [(IPv4Address (new_IPv4Address 0 0), 0)] else []) ++
      (if (family =? AF_INET6) || (family =? AF_UNSPEC) then [(IPv6Address new_IPv6Address, 0)] else []))
  else
    r ← GetInterfaceAddresses garbage getifaddrs family;
    if negb r.1 then mret (false, []) else
    let result := map snd (List.filter (λ x, bool_decide (x.1 = iface)) r.2) in
    mret (negb (bool_decide (result = [])), result).
End libc.
End address.

(** ** Comparison is an order *)

(** Lexicographic order of byte strings, a prefix before what extends it. *)
Fixpoint lex_lt (a b : bytes) : bool :=
  match a, b with
  | x :: a, y :: b => (code x <? code y) || ((code x =? code y) && lex_lt a b)
  | [], _ :: _ => true
  | _, [] => false
  end.

Lemma lex_lt_irrefl a : lex_lt a a = false.
Proof. induction a as [|x a IH]; simpl; [done|]. rewrite Z.ltb_irrefl, Z.eqb_refl. done. Qed.

Lemma lex_lt_trans a : ∀ b c, lex_lt a b = true → lex_lt b c = true → lex_lt a c = true.
Proof.
  induction a as [|x a IH]; intros [|y b] [|z c]; simpl; try done.
  rewrite !orb_true_iff, !andb_true_iff, !Z.ltb_lt, !Z.eqb_eq.
  intros [H|[E H]] [H'|[E' H']]; [left; lia..|right]. split; [lia|]. by apply (IH b).
Qed.

Lemma lex_lt_total a : ∀ b, lex_lt a b = true ∨ a = b ∨ lex_lt b a = true.
Proof.
  induction a as [|x a IH]; intros [|y b]; simpl; try (by auto).
  rewrite !orb_true_iff, !andb_true_iff, !Z.ltb_lt, !Z.eqb_eq.
  destruct (Z.lt_trichotomy (code x) (code y)) as [?|[?|?]]; [by auto| |by auto].
  destruct (IH b) as [?|[->|?]]; [by auto| |by auto].
  right. left. f_equal. by apply code_inj.
Qed.

(** [memcmp] of the common prefix and then the lengths. *)
Lemma memcmp_lex a : ∀ b,
  let n := Nat.min (length a) (length b) in
  let r := memcmp (take n a) (take n b) in
  (if r <? 0 then true else if 0 <? r then false else Z.of_nat (length a) <? Z.of_nat (length b)) = lex_lt a b.
Proof.
  induction a as [|x a IH]; intros [|y b]; [done..|]. cbv zeta in IH |- *.
  cbn [length Nat.min take memcmp lex_lt]. rewrite <- IH.
  destruct (Z.ltb_spec (code x) (code y)) as [H|H]; [done|].
  destruct (Z.ltb_spec (code y) (code x)) as [H'|H'].
  - by rewrite (proj2 (Z.eqb_neq (code x) (code y))) by lia.
  - rewrite (proj2 (Z.eqb_eq (code x) (code y))) by lia. cbn [orb andb].
    replace (Z.of_nat (S (length a)) <? Z.of_nat (S (length b)))
      with (Z.of_nat (length a) <? Z.of_nat (length b)); [done|].
    apply eq_true_iff_eq. rewrite !Z.ltb_lt. lia.
Qed.

Lemma memcmp_eq a : ∀ b, length a = length b → memcmp a b = 0 → a = b.
Proof.
  induction a as [|x a IH]; intros [|y b]; simpl; try done. intros [= Hl].
  destruct (Z.ltb_spec (code x) (code y)); [done|]. destruct (Z.ltb_spec (code y) (code x)); [done|].
  intros Hm. f_equal; [apply code_inj; lia|by apply IH].
Qed.

Lemma memcmp_refl a : memcmp a a = 0.
Proof. induction a as [|x a IH]; simpl; [done|]. by rewrite Z.ltb_irrefl. Qed.

(** The bytes an address compares by. *)
Definition key (host : byte_order) (a : Address) : bytes := take (Z.to_nat (getAddrLen a)) (image host a).
(** The length an address claims lies inside its structure. *)
Definition addr_ok (host : byte_order) (a : Address) : Prop :=
  0 ≤ getAddrLen a ≤ Z.of_nat (length (image host a)).

Lemma length_key host a : addr_ok host a → Z.of_nat (length (key host a)) = getAddrLen a.
Proof. unfold addr_ok, key. intros. rewrite length_take. lia. Qed.

Lemma operator_lt_lex {S} host a b (s : S) :
  addr_ok host a → addr_ok host b → operator_lt host a b s = Ret (lex_lt (key host a) (key host b)) s.
Proof.
  intros Ha Hb. pose proof (length_key _ _ Ha) as La. pose proof (length_key _ _ Hb) as Lb.
  unfold operator_lt, addr_memcmp. unfold addr_ok in Ha, Hb.
  rewrite !(proj2 (Z.leb_le (Z.min _ _) _)) by lia. cbn [andb]. rewrite bind_mret.
  f_equal. rewrite <- La, <- Lb, <- memcmp_lex. cbv zeta. unfold key. rewrite !take_take.
  assert (∀ n, (n ≤ Z.to_nat (getAddrLen a))%nat → (n `min` Z.to_nat (getAddrLen a))%nat = n) as Ea by lia.
  assert (∀ n, (n ≤ Z.to_nat (getAddrLen b))%nat → (n `min` Z.to_nat (getAddrLen b))%nat = n) as Eb by lia.
  fold (key host a) (key host b).
  rewrite Ea, Eb by lia. by replace (Z.to_nat (Z.min _ _)) with (length (key host a) `min` length (key host b))%nat by lia.
Qed.

Lemma operator_eq_key {S} host a b (s : S) :
  addr_ok host a → addr_ok host b →
  ∃ r, operator_eq host a b s = Ret r s ∧ (r = true ↔ key host a = key host b).
Proof.
  intros Ha Hb. pose proof (length_key _ _ Ha) as La. pose proof (length_key _ _ Hb) as Lb.
  unfold operator_eq. destruct (Z.eqb_spec (getAddrLen a) (getAddrLen b)) as [E|E].
  - unfold addr_memcmp. unfold addr_ok in Ha, Hb. rewrite !(proj2 (Z.leb_le _ _)) by lia. cbn [andb].
    rewrite bind_mret. eexists. split; [reflexivity|]. rewrite Z.eqb_eq. rewrite E at 2.
    fold (key host a) (key host b). split; [apply memcmp_eq; lia|]. intros ->. apply memcmp_refl.
  - exists false. split; [done|]. split; [done|]. intros Hk. congruence.
Qed.

(** Comparing addresses: for addresses whose length lies inside their
    structure the operators return, [operator!=] is the negation of
    [operator==], exactly one of [a < b], [a == b] and [b < a] holds, and
    [operator<] is transitive: it orders the bytes of the structures
    lexicographically, a prefix first. *)
Theorem address_order {S} host a b c (s : S)
    (Ha : addr_ok host a) (Hb : addr_ok host b) (Hc : addr_ok host c) :
  ∃ ab ba bc ac e,
    operator_lt host a b s = Ret ab s ∧ operator_lt host b a s = Ret ba s ∧
    operator_lt host b c s = Ret bc s ∧ operator_lt host a c s = Ret ac s ∧
    operator_eq host a b s = Ret e s ∧ operator_ne host a b s = Ret (negb e) s ∧
    ((ab = true ∧ e = false ∧ ba = false) ∨ (ab = false ∧ e = true ∧ ba = false) ∨
     (ab = false ∧ e = false ∧ ba = true)) ∧
    (ab = true → bc = true → ac = true).
Proof.
  destruct (operator_eq_key host a b s Ha Hb) as (e&He&Hek).
  eexists _, _, _, _, e. rewrite !operator_lt_lex by done. do 4 (split; [reflexivity|]).
  split; [done|]. split; [unfold operator_ne; by mstep He|]. split; [|apply lex_lt_trans].
  destruct (lex_lt_total (key host a) (key host b)) as [H|[H|H]].
  - left. split; [done|]. split.
    + apply not_true_iff_false. intros Hk%Hek. rewrite Hk, lex_lt_irrefl in H. done.
    + apply not_true_iff_false. intros H'. pose proof (lex_lt_trans _ _ _ H H') as H2. by rewrite lex_lt_irrefl in H2.
  - right. left. rewrite H, lex_lt_irrefl. split; [done|]. split; [by apply Hek|done].
  - right. right. split; [|split; [|done]].
    + apply not_true_iff_false. intros H'. pose proof (lex_lt_trans _ _ _ H H') as H2. by rewrite lex_lt_irrefl in H2.
    + apply not_true_iff_false. intros Hk%Hek. rewrite Hk, lex_lt_irrefl in H. done.
Qed.

Lemma address_order_witness :
  let a := IPv4Address (new_IPv4Address MEGALO_LITTLE_ENDIAN 2130706433 80) in
  let b := IPv4Address (new_IPv4Address MEGALO_LITTLE_ENDIAN 2130706434 80) in
  let c := IPv6Address new_IPv6Address in
  ∃ ab e ac, operator_lt MEGALO_LITTLE_ENDIAN a b () = Ret ab () ∧
    operator_eq MEGALO_LITTLE_ENDIAN a b () = Ret e () ∧ operator_lt MEGALO_LITTLE_ENDIAN a c () = Ret ac () ∧
    ab = true ∧ e = false ∧ ac = true.
Proof.
  destruct (address_order MEGALO_LITTLE_ENDIAN (IPv4Address (new_IPv4Address MEGALO_LITTLE_ENDIAN 2130706433 80))
    (IPv4Address (new_IPv4Address MEGALO_LITTLE_ENDIAN 2130706434 80)) (IPv6Address new_IPv6Address) ())
    as (ab&ba&bc&ac&e&H1&H2&H3&H4&H5&H6&H7&H8); [split; vm_compute; discriminate..|].
  exists ab, e, ac. split; [exact H1|]. split; [exact H5|]. split; [exact H4|].
  vm_compute in H1, H4, H5. injection H1 as <-. injection H4 as <-. injection H5 as <-. auto.
Defined.

(** ** Masks and networks *)

Lemma bswap4_testbit x q r : 0 ≤ q < 4 → 0 ≤ r < 8 →
  Z.testbit (bswap 4 x) (8 * q + r) = Z.testbit x (8 * (3 - q) + r).
Proof.
  intros Hq Hr.
  assert (∀ y j, Z.testbit (byte.unsigned (byte.of_Z y)) j = (j <? 8) && Z.testbit y j) as Hb.
  { intros y j. rewrite byte.unsigned_of_Z. unfold byte.wrap. destruct (Z.ltb_spec j 8).
    - destruct (decide (0 ≤ j)); [by rewrite (Z.mod_pow2_bits_low y 8) by lia|by rewrite !Z.testbit_neg_r by lia].
    - by rewrite (Z.mod_pow2_bits_high y 8) by lia. }
  unfold bswap.
  assert (le_combine (rev (le_split 4 x)) =
    Z.lor (byte.unsigned (byte.of_Z (Z.shiftr (Z.shiftr (Z.shiftr x 8) 8) 8)))
      (Z.shiftl (Z.lor (byte.unsigned (byte.of_Z (Z.shiftr (Z.shiftr x 8) 8)))
        (Z.shiftl (Z.lor (byte.unsigned (byte.of_Z (Z.shiftr x 8)))
          (Z.shiftl (Z.lor (byte.unsigned (byte.of_Z x)) (Z.shiftl 0 8)) 8)) 8)) 8)) as -> by reflexivity.
  change (Z.shiftl 0 8) with 0. rewrite Z.lor_0_r.
  assert (q = 0 ∨ q = 1 ∨ q = 2 ∨ q = 3) as [->|[->|[->| ->]]] by lia.
  all: repeat match goal with
    | |- context [Z.testbit _ ?a] => first
        [ rewrite (Z.testbit_neg_r _ a) by lia | rewrite (Z.lor_spec _ _ a) | rewrite (Hb _ a)
        | rewrite (Z.shiftl_spec _ _ a) by lia | rewrite (Z.shiftr_spec _ _ a) by lia ]
    | |- context [?a <? 8] => first
        [ rewrite (proj2 (Z.ltb_lt a 8)) by lia | rewrite (proj2 (Z.ltb_ge a 8)) by lia ]
    end.
  all: cbn [andb orb]; rewrite ?orb_false_r; f_equal; lia.
Qed.

Lemma testbit_high w x i : unsigned_in w x → 0 ≤ w ≤ i → Z.testbit x i = false.
Proof.
  intros Hx Hi. rewrite <- (wrap_id w x Hx). unfold wrap. by apply Z.mod_pow2_bits_high.
Qed.

Lemma word_eq x y :
  unsigned_in 32 x → unsigned_in 32 y →
  (∀ q r, 0 ≤ q < 4 → 0 ≤ r < 8 → Z.testbit x (8 * q + r) = Z.testbit y (8 * q + r)) → x = y.
Proof.
  intros Hx Hy H. apply Z.bits_inj'. intros i Hi. destruct (decide (i < 32)).
  - pose proof (Z.mod_pos_bound i 8 ltac:(lia)). pose proof (Z.div_mod i 8 ltac:(lia)) as E.
    pose proof (Z.div_pos i 8 Hi ltac:(lia)). pose proof (Z.div_lt_upper_bound i 8 4 ltac:(lia) ltac:(lia)).
    rewrite E. by apply H.
  - by rewrite !(testbit_high 32) by (done || lia).
Qed.

Section v4.
Context (host : byte_order).
#[local] Abbreviation swap := (byteswapOnLittleEndian host).

Lemma swap4_range x : unsigned_in 32 x → unsigned_in 32 (swap 4 x).
Proof. intros. destruct host; simpl; [|done]. apply (bswap_range 4). Qed.

Lemma swap4_testbit x q r : unsigned_in 32 x → 0 ≤ q < 4 → 0 ≤ r < 8 →
  Z.testbit (swap 4 x) (8 * q + r) =
  Z.testbit x (8 * (match host with MEGALO_LITTLE_ENDIAN => 3 - q | MEGALO_BIG_ENDIAN => q end) + r).
Proof.
  intros Hx Hq Hr. destruct host; simpl; [|done]. unfold byteswap. rewrite wrap_id by done.
  by rewrite bswap4_testbit.
Qed.

Lemma lor_range x y : unsigned_in 32 x → unsigned_in 32 y → unsigned_in 32 (Z.lor x y).
Proof.
  intros Hx Hy. replace (Z.lor x y) with (wrap 32 (Z.lor x y)); [by apply wrap_range|].
  apply Z.bits_inj'. intros i Hi. unfold wrap. destruct (decide (i < 32)).
  - by rewrite Z.mod_pow2_bits_low.
  - by rewrite Z.mod_pow2_bits_high, Z.lor_spec, !(testbit_high 32) by (done || lia).
Qed.

Lemma land_range x y : unsigned_in 32 x → 0 ≤ y → unsigned_in 32 (Z.land x y).
Proof.
  intros Hx Hy. replace (Z.land x y) with (wrap 32 (Z.land x y)); [by apply wrap_range|].
  apply Z.bits_inj'. intros i Hi. unfold wrap. destruct (decide (i < 32)).
  - by rewrite Z.mod_pow2_bits_low.
  - by rewrite Z.mod_pow2_bits_high, Z.land_spec, (testbit_high 32) by (done || lia).
Qed.

(** Swapping moves every bit to one place. *)
Definition place (q : Z) : Z := match host with MEGALO_LITTLE_ENDIAN => 3 - q | MEGALO_BIG_ENDIAN => q end.
Lemma place_place q : place (place q) = q.
Proof. unfold place. destruct host; lia. Qed.
Lemma place_range q : 0 ≤ q < 4 → 0 ≤ place q < 4.
Proof. unfold place. destruct host; lia. Qed.

Lemma swap_op (f : Z → Z → Z) (g : bool → bool → bool) x y :
  (∀ a b i, 0 ≤ i < 32 → Z.testbit (f a b) i = g (Z.testbit a i) (Z.testbit b i)) →
  (∀ a b, unsigned_in 32 a → unsigned_in 32 b → unsigned_in 32 (f a b)) →
  unsigned_in 32 x → unsigned_in 32 y → swap 4 (f x (swap 4 y)) = f (swap 4 x) y.
Proof.
  intros Hf Hr Hx Hy. pose proof (swap4_range x Hx). pose proof (swap4_range y Hy).
  apply word_eq; [by apply swap4_range, Hr|by apply Hr|]. intros q r Hq Hr8.
  rewrite swap4_testbit by (done || by apply Hr). fold (place q). pose proof (place_range q Hq).
  rewrite !Hf by lia. rewrite (swap4_testbit x), (swap4_testbit y) by done.
  fold (place q) (place (place q)). by rewrite place_place.
Qed.
Lemma swap_lor x y : unsigned_in 32 x → unsigned_in 32 y →
  swap 4 (Z.lor x (swap 4 y)) = Z.lor (swap 4 x) y.
Proof. apply (swap_op Z.lor orb); [intros; by rewrite Z.lor_spec|intros; by apply lor_range]. Qed.

Lemma swap_land x y : unsigned_in 32 x → unsigned_in 32 y →
  swap 4 (Z.land x (swap 4 y)) = Z.land (swap 4 x) y.
Proof.
  apply (swap_op Z.land andb); [intros; by rewrite Z.land_spec|].
  intros a b Ha [Hb _]. by apply land_range.
Qed.

Lemma swap_lnot y : unsigned_in 32 y → swap 4 (u32 (Z.lnot (swap 4 y))) = u32 (Z.lnot y).
Proof.
  intros Hy. apply (swap_op (λ _ b, u32 (Z.lnot b)) (λ _ b, negb b) 0); try done.
  - intros _ b i Hi. unfold wrap. by rewrite Z.mod_pow2_bits_low, Z.lnot_spec by lia.
  - intros. by apply wrap_range.
Qed.

Lemma CreateMask_spec {S} p (s : S) : 2 ≤ p ≤ 32 → CreateMask 32 p s = Ret (2 ^ (32 - p) - 1) s.
Proof.
  intros Hp. unfold CreateMask. cbv zeta. rewrite (wrap_id 64) by (unfold unsigned_in; lia).
  rewrite (proj2 (Z.ltb_lt _ 31)) by lia.
  assert (0 < 2 ^ (32 - p)) by (apply pow2_pos; lia).
  assert (2 ^ (32 - p) ≤ 2 ^ 30) by (apply Z.pow_le_mono_r; lia).
  rewrite wrap_id; [done|]. unfold unsigned_in. lia.
Qed.

Lemma CreateMask_undefined {S} p (s : S) : 0 ≤ p < 2 ∨ 32 < p < 2 ^ 32 →
  CreateMask 32 p s = Crash SignedOverflow.
Proof.
  intros Hp. unfold CreateMask. cbv zeta.
  assert (31 ≤ u64 (32 - p)) as H; [|by rewrite (proj2 (Z.ltb_ge _ 31)) by lia].
  destruct Hp as [Hp|Hp].
  - rewrite wrap_id; unfold unsigned_in; lia.
  - unfold wrap. rewrite <- (Z.mod_add _ 1), Z.mod_small by lia. lia.
Qed.

(** C39. The networks of an IPv4 address: with [ip] the address and [p] between 2
    and 32, [broadcastAddress] sets the low 32 - p bits of [ip], [subnetMask] is
    the p high ones, and [networkAddress] keeps the low 32 - p bits, the host's
    part instead of the network's; the other members are those of the address.
    For 0 and 1 the mask is computed by a shift or a subtraction that overflows
    an [int]; above 32 the first two give a null pointer and [subnetMask], which
    does not check, shifts by a negative amount. *)
Theorem subnet_masks {S} (m : sockaddr_in) (p : Z) (s : S)
    (Hm : unsigned_in 32 (s_addr m)) (Hp : unsigned_in 32 p) :
  let a := IPv4Address m in
  let ip := swap 4 (s_addr m) in
  (2 ≤ p ≤ 32 →
    ∃ b n k, broadcastAddress host p a s = Ret (Some (IPv4Address b)) s ∧
      networkAddress host p a s = Ret (Some (IPv4Address n)) s ∧
      subnetMask host p a s = Ret (Some (IPv4Address k)) s ∧
      swap 4 (s_addr b) = Z.lor ip (2 ^ (32 - p) - 1) ∧
      swap 4 (s_addr n) = ip `mod` 2 ^ (32 - p) ∧
      swap 4 (s_addr k) = 2 ^ 32 - 2 ^ (32 - p) ∧
      sin_port b = sin_port m ∧ sin_port n = sin_port m) ∧
  (p < 2 → broadcastAddress host p a s = Crash SignedOverflow ∧
    networkAddress host p a s = Crash SignedOverflow ∧ subnetMask host p a s = Crash SignedOverflow) ∧
  (32 < p → broadcastAddress host p a s = Ret None s ∧ networkAddress host p a s = Ret None s ∧
    subnetMask host p a s = Crash SignedOverflow).
Proof.
  cbv zeta. split; [|split]; intros H; cbn [broadcastAddress networkAddress subnetMask].
  - rewrite (proj2 (Z.ltb_ge 32 p)) by lia. pose proof (CreateMask_spec p s H) as Hc.
    assert (0 < 2 ^ (32 - p) ≤ 2 ^ 30) by (split; [apply pow2_pos|apply Z.pow_le_mono_r]; lia).
    assert (unsigned_in 32 (2 ^ (32 - p) - 1)) as Hk by (unfold unsigned_in; lia).
    eexists _, _, _. rewrite !(bind_ret _ _ _ _ _ Hc). do 3 (split; [reflexivity|]). cbn [s_addr sin_port].
    split_and!; [by apply swap_lor| |  |done|done].
    + rewrite swap_land by done.
      replace (2 ^ (32 - p) - 1) with (Z.ones (32 - p)) by (rewrite Z.ones_equiv; lia).
      apply Z.land_ones. lia.
    + rewrite swap_lnot by done. unfold wrap, Z.lnot.
      rewrite <- (Z.mod_add _ 1), Z.mod_small by lia. lia.
  - unfold unsigned_in in Hp. rewrite (proj2 (Z.ltb_ge 32 p)) by lia.
    pose proof (CreateMask_undefined p s ltac:(lia)) as Hc. by rewrite !(bind_crash _ _ _ _ Hc).
  - rewrite (proj2 (Z.ltb_lt 32 p)) by lia.
    pose proof (CreateMask_undefined p s ltac:(unfold unsigned_in in Hp; lia)) as Hc.
    by rewrite !(bind_crash _ _ _ _ Hc).
Qed.
End v4.

(** 192.168.1.77/24: the "network" is 0.0.0.77. *)
Lemma subnet_masks_witness :
  let m := new_IPv4Address MEGALO_LITTLE_ENDIAN 3232235853 80 in
  ∃ b n k, broadcastAddress MEGALO_LITTLE_ENDIAN 24 (IPv4Address m) () = Ret (Some (IPv4Address b)) () ∧
    networkAddress MEGALO_LITTLE_ENDIAN 24 (IPv4Address m) () = Ret (Some (IPv4Address n)) () ∧
    subnetMask MEGALO_LITTLE_ENDIAN 24 (IPv4Address m) () = Ret (Some (IPv4Address k)) () ∧
    insert_v4 MEGALO_LITTLE_ENDIAN b = str "192.168.1.255:80" ∧
    insert_v4 MEGALO_LITTLE_ENDIAN n = str "0.0.0.77:80" ∧
    insert_v4 MEGALO_LITTLE_ENDIAN k = str "255.255.255.0:0".
Proof.
  destruct (subnet_masks MEGALO_LITTLE_ENDIAN (new_IPv4Address MEGALO_LITTLE_ENDIAN 3232235853 80) 24 ())
    as [(b&n&k&Hb&Hn&Hk&_) _]; [split; vm_compute; done|split; vm_compute; done|lia|].
  exists b, n, k. split; [exact Hb|]. split; [exact Hn|]. split; [exact Hk|].
  vm_compute in Hb, Hn, Hk. injection Hb as <-. injection Hn as <-. injection Hk as <-.
  split; [|split]; vm_compute; reflexivity.
Defined.

(** ** IPv6 text

    A reference reader of RFC 4291: groups of one to four hexadecimal digits
    between colons, at most one [::] for the missing ones. *)

Definition hex_val (c : byte) : option Z :=
  let v := code c in
  if (48 <=? v) && (v <=? 57) then Some (v - 48)
  else if (97 <=? v) && (v <=? 102) then Some (v - 87)
  else if (65 <=? v) && (v <=? 70) then Some (v - 55)
  else None.
Definition hex16 (s : bytes) : option Z :=
  if bool_decide (1 ≤ length s ≤ 4)%nat then
    foldl (λ o c, a ← o; d ← hex_val c; Some (a * 16 + d)) (Some 0) s
  else None.
Fixpoint tokens (s : bytes) : list bytes :=
  match s with
  | [] => [[]]
  | c :: s =>
      if is_chr 58 c then [] :: tokens s
      else match tokens s with t :: ts => (c :: t) :: ts | [] => [[c]] end
  end.
Definition parse_seq (s : bytes) : option (list Z) :=
  if bool_decide (s = []) then Some [] else mapM hex16 (tokens s).
Definition colon_first (s : bytes) : bool := match s with c :: _ => is_chr 58 c | [] => false end.
Fixpoint cut (s : bytes) : option (bytes * bytes) :=
  match s with
  | [] => None
  | c :: s => if is_chr 58 c && colon_first s then Some ([], tail s)
              else (λ x, (c :: x.1, x.2)) <$> cut s
  end.
Definition parse_v6 (s : bytes) : option (list Z) :=
  match cut s with
  | Some (l, r) =>
      l ← parse_seq l; r ← parse_seq r;
      if bool_decide (length l + length r ≤ 7)%nat
      then Some (l ++ replicate (8 - length l - length r) 0 ++ r) else None
  | None => l ← parse_seq s; if bool_decide (length l = 8%nat) then Some l else None
  end.

Definition hex_tail (l : list Z) : bytes := concat (map (λ v, chr 58 :: show_hex v) l).
Definition hex_join (l : list Z) : bytes := match l with [] => [] | v :: l => show_hex v ++ hex_tail l end.

Definition hex_step (o : option Z) (c : byte) : option Z := a ← o; d ← hex_val c; Some (a * 16 + d).

Lemma hex_digit_ok d : 0 ≤ d < 16 →
  hex_val (hex_digit d) = Some d ∧ negb (is_chr 58 (hex_digit d)) = true.
Proof.
  intros Hd. assert (forallb (λ n, bool_decide (hex_val (hex_digit (Z.of_nat n)) = Some (Z.of_nat n)) &&
    negb (is_chr 58 (hex_digit (Z.of_nat n)))) (seq 0 16) = true) as H by (vm_compute; reflexivity).
  rewrite List.forallb_forall in H. specialize (H (Z.to_nat d)). rewrite List.in_seq, Z2Nat.id in H by lia.
  specialize (H ltac:(lia)). apply andb_true_iff in H as [H1%bool_decide_eq_true_1 H2]. done.
Qed.

Lemma show_hex_fold fuel : ∀ z acc, 0 ≤ z < 16 ^ Z.of_nat fuel → (0 < fuel)%nat →
  foldl hex_step (Some 0) (show_hex_digits fuel z acc) = foldl hex_step (Some z) acc.
Proof.
  induction fuel as [|fuel IH]; intros z acc Hz Hf; [lia|]. cbn [show_hex_digits].
  rewrite Nat2Z.inj_succ, Z.pow_succ_r in Hz by lia.
  pose proof (Z.mod_pos_bound z 16 ltac:(lia)) as Hm. pose proof (Z.div_mod z 16 ltac:(lia)) as Hdm.
  destruct (hex_digit_ok _ Hm) as [Hv _].
  destruct (Z.eqb_spec (z / 16) 0) as [H0|H0].
  - simpl. rewrite Hv. simpl. do 2 f_equal. lia.
  - assert (0 ≤ z / 16 < 16 ^ Z.of_nat fuel) as Hq
      by (split; [apply Z.div_pos; lia|apply Z.div_lt_upper_bound; lia]).
    destruct fuel as [|fuel]; [simpl in Hq; lia|]. rewrite IH by (done || lia).
    simpl. rewrite Hv. simpl. do 2 f_equal. lia.
Qed.

Lemma show_hex_length k : ∀ fuel z acc, 0 ≤ z < 16 ^ Z.of_nat (S k) →
  (length (show_hex_digits fuel z acc) ≤ S k + length acc)%nat.
Proof.
  induction k as [|k IH]; intros [|fuel] z acc Hz; cbn [show_hex_digits]; [lia| |lia|].
  - rewrite (Z.div_small z 16) by (simpl in Hz; lia). simpl. lia.
  - destruct (z / 16 =? 0); [simpl; lia|].
    etransitivity; [apply IH|simpl; lia].
    rewrite (Nat2Z.inj_succ (S k)), Z.pow_succ_r in Hz by lia.
    split; [apply Z.div_pos; lia|apply Z.div_lt_upper_bound; lia].
Qed.

Lemma show_hex_chars fuel : ∀ z acc, forallb (λ c, negb (is_chr 58 c)) acc = true →
  forallb (λ c, negb (is_chr 58 c)) (show_hex_digits fuel z acc) = true ∧
  (length acc + Nat.min 1 fuel ≤ length (show_hex_digits fuel z acc))%nat.
Proof.
  induction fuel as [|fuel IH]; intros z acc Hacc; cbn [show_hex_digits]; [split; [done|simpl; lia]|].
  pose proof (Z.mod_pos_bound z 16 ltac:(lia)) as Hm. destruct (hex_digit_ok _ Hm) as [_ Hd].
  assert (forallb (λ c, negb (is_chr 58 c)) (hex_digit (z `mod` 16) :: acc) = true) as H
    by (cbn [forallb]; by rewrite Hd, Hacc).
  destruct (z / 16 =? 0); [split; [done|simpl; lia]|].
  destruct (IH (z / 16) _ H) as [H1 H2]. split; [done|]. cbn [length] in H2. lia.
Qed.

Lemma show_hex_ok v : 0 ≤ v < 65536 →
  hex16 (show_hex v) = Some v ∧ show_hex v ≠ [] ∧ forallb (λ c, negb (is_chr 58 c)) (show_hex v) = true.
Proof.
  intros Hv. unfold show_hex. destruct (show_hex_chars 8 v [] eq_refl) as [Hc Hn].
  pose proof (show_hex_length 3 8 v [] Hv) as Hl.
  assert (0 ≤ v < 16 ^ Z.of_nat 8) as Hv8 by (change (16 ^ Z.of_nat 8) with 4294967296; lia).
  pose proof (show_hex_fold 8 v [] Hv8 ltac:(lia)) as Hf.
  split; [|split; [intros E; rewrite E in Hn; simpl in Hn; lia|done]].
  unfold hex16. rewrite bool_decide_eq_true_2 by (cbn [length] in Hn, Hl; lia). exact Hf.
Qed.

#[local] Opaque show_hex hex16.

Lemma tokens_word w s : forallb (λ c, negb (is_chr 58 c)) w = true →
  tokens (w ++ s) = match tokens s with t :: ts => (w ++ t) :: ts | [] => [w] end.
Proof.
  assert (tokens s ≠ []) as Hs.
  { destruct s as [|c s]; simpl; [done|]. destruct (is_chr 58 c); [done|]. by destruct (tokens s). }
  induction w as [|c w IH]; simpl; [by destruct (tokens s)|].
  rewrite andb_true_iff, negb_true_iff. intros [-> Hw]. rewrite IH by done. by destruct (tokens s).
Qed.

Lemma tokens_tail l : Forall (λ v, 0 ≤ v < 65536) l →
  tokens (hex_tail l) = [] :: map show_hex l.
Proof.
  induction 1 as [|v l Hv _ IH]; [done|]. unfold hex_tail. cbn [map concat app].
  fold (hex_tail l). destruct (show_hex_ok v Hv) as (_&_&Hc). change (chr 58 :: show_hex v ++ hex_tail l)
    with (chr 58 :: (show_hex v ++ hex_tail l)).
  cbn [tokens]. change (is_chr 58 (chr 58)) with true. cbn iota.
  rewrite tokens_word, IH by done. by rewrite app_nil_r.
Qed.

Lemma parse_seq_join l : Forall (λ v, 0 ≤ v < 65536) l → parse_seq (hex_join l) = Some l.
Proof.
  intros H. destruct l as [|v l]; [done|]. apply Forall_cons in H as [Hv Hl].
  destruct (show_hex_ok v Hv) as (Hx&Hne&Hc). unfold parse_seq. cbn [hex_join].
  rewrite bool_decide_eq_false_2 by (intros [? _]%app_nil; done).
  rewrite tokens_word, tokens_tail by done. rewrite app_nil_r. cbn [mapM]. rewrite Hx. simpl.
  assert (mapM hex16 (map show_hex l) = Some l) as ->; [|done].
  induction Hl as [|w l Hw _ IH]; [done|]. simpl. destruct (show_hex_ok w Hw) as (->&_). simpl. by rewrite IH.
Qed.

Lemma cut_word w s : forallb (λ c, negb (is_chr 58 c)) w = true →
  cut (w ++ s) = (λ x, (w ++ x.1, x.2)) <$> cut s.
Proof.
  induction w as [|c w IH]; simpl; [by destruct (cut s) as [[]|]|].
  rewrite andb_true_iff, negb_true_iff. intros [-> Hw]. rewrite IH by done. by destruct (cut s).
Qed.

Lemma fmap_pair (o : option (bytes * bytes)) : (λ x, (x.1, x.2)) <$> o = o.
Proof. by destruct o as [[]|]. Qed.

Lemma cut_tail l s : Forall (λ v, 0 ≤ v < 65536) l →
  cut (hex_tail l ++ s) = (λ x, (hex_tail l ++ x.1, x.2)) <$> cut s.
Proof.
  induction 1 as [|v l Hv _ IH]; [symmetry; apply fmap_pair|]. unfold hex_tail. cbn [map concat app].
  fold (hex_tail l). destruct (show_hex_ok v Hv) as (_&Hne&Hc). rewrite <- app_assoc.
  assert (colon_first (show_hex v ++ hex_tail l ++ s) = false) as Hf.
  { destruct (show_hex v) as [|c w]; [done|]. simpl in *. apply andb_true_iff in Hc as [Hc _].
    by apply negb_true_iff in Hc. }
  cbn [cut]. rewrite Hf, andb_false_r, cut_word, IH by done.
  destruct (cut s); simpl; [by rewrite app_assoc|done].
Qed.

Lemma cut_join l s : Forall (λ v, 0 ≤ v < 65536) l →
  cut (hex_join l ++ s) = (λ x, (hex_join l ++ x.1, x.2)) <$> cut s.
Proof.
  intros H. destruct l as [|v l]; [symmetry; apply fmap_pair|]. apply Forall_cons in H as [Hv Hl].
  destruct (show_hex_ok v Hv) as (_&_&Hc). cbn [hex_join]. rewrite <- app_assoc, cut_word, cut_tail by done.
  destruct (cut s); simpl; [by rewrite app_assoc|done].
Qed.

Lemma parse_join l : Forall (λ v, 0 ≤ v < 65536) l → length l = 8%nat → parse_v6 (hex_join l) = Some l.
Proof.
  intros H Hl. unfold parse_v6. rewrite <- (app_nil_r (hex_join l)), cut_join by done. simpl cut. simpl.
  rewrite app_nil_r, parse_seq_join by done. simpl. by rewrite bool_decide_eq_true_2.
Qed.

Lemma parse_gap a k c : Forall (λ v, 0 ≤ v < 65536) a → Forall (λ v, 0 ≤ v < 65536) c →
  length (a ++ replicate (S k) 0 ++ c) = 8%nat →
  parse_v6 (hex_join a ++ str "::" ++ hex_join c) = Some (a ++ replicate (S k) 0 ++ c).
Proof.
  intros Ha Hc Hl. rewrite !length_app, length_replicate in Hl. unfold parse_v6.
  rewrite cut_join by done.
  assert (cut (str "::" ++ hex_join c) = Some ([], hex_join c)) as -> by done. simpl.
  rewrite app_nil_r, !parse_seq_join by done. simpl.
  rewrite bool_decide_eq_true_2 by lia. by replace (8 - length a - length c)%nat with (S k) by lia.
Qed.

Section v6_text.
Context (host : byte_order).
#[local] Abbreviation swap := (byteswapOnLittleEndian host).
#[local] Abbreviation insert_groups := (insert_groups host).

(** Groups as the machine reads them, which stand for [map (swap 2) l]. *)
Lemma insert_used l : ∀ p, insert_groups (Some p) l true = (hex_tail (map (swap 2) l), true).
Proof.
  induction l as [|g l IH]; intros p; [done|]. cbn [Address.insert_groups].
  rewrite !andb_false_r. cbn [orb]. rewrite IH. done.
Qed.

Lemma insert_zeros_end k : ∀ prev, insert_groups prev (replicate k 0) false = ([], false).
Proof. induction k as [|k IH]; intros prev; [done|]. apply IH. Qed.

Lemma insert_zeros k x c : x ≠ 0 → ∀ prev,
  insert_groups prev (replicate (S k) 0 ++ x :: c) false =
    (str "::" ++ hex_join (map (swap 2) (x :: c)), true).
Proof.
  intros Hx. induction k as [|k IH]; intros prev; [|exact (IH (Some 0))].
  cbn [replicate app Address.insert_groups]. change (0 =? 0) with true. cbn [andb negb].
  rewrite (proj2 (Z.eqb_neq x 0)) by done. cbn [andb orb]. by rewrite insert_used.
Qed.

(** What a zero run prints does not depend on the group before it. *)
Lemma insert_nonzeros rest R : (∀ prev, insert_groups prev rest false = R) →
  ∀ a p, Forall (λ g, g ≠ 0) a → p ≠ 0 →
  insert_groups (Some p) (a ++ rest) false = (hex_tail (map (swap 2) a) ++ R.1, R.2).
Proof.
  intros HR. induction a as [|g a IH]; intros p Ha Hp; [simpl; rewrite HR; by destruct R|].
  apply Forall_cons in Ha as [Hg Ha]. cbn [app Address.insert_groups].
  rewrite (proj2 (Z.eqb_neq g 0)), (proj2 (Z.eqb_neq p 0)) by done. cbn [andb orb].
  rewrite IH by done. unfold hex_tail. cbn [map concat fst snd].
  by rewrite <- !app_assoc.
Qed.

Lemma insert_first a rest R : (∀ prev, insert_groups prev rest false = R) → Forall (λ g, g ≠ 0) a →
  insert_groups None (a ++ rest) false = (hex_join (map (swap 2) a) ++ R.1, R.2).
Proof.
  intros HR Ha. destruct a as [|g a]; [simpl; rewrite HR; by destruct R|].
  apply Forall_cons in Ha as [Hg Ha]. cbn [app Address.insert_groups].
  rewrite (proj2 (Z.eqb_neq g 0)) by done. cbn [andb orb].
  rewrite (insert_nonzeros rest R) by done. cbn [map hex_join fst snd app]. by rewrite <- !app_assoc.
Qed.

(** A list is without zeros, or has a first run of them. *)
Lemma first_zeros (l : list Z) :
  ∃ a, Forall (λ g, g ≠ 0) a ∧
    (l = a ∨ (∃ k, l = a ++ replicate (S k) 0) ∨ ∃ k x c, x ≠ 0 ∧ l = a ++ replicate (S k) 0 ++ x :: c).
Proof.
  induction l as [|g l (a&Ha&Hl)]; [exists []; auto|].
  destruct (decide (g = 0)) as [->|Hg].
  - exists []. split; [done|]. right. destruct a as [|y a].
    + destruct Hl as [->|[[k ->]|(k&x&c&Hx&->)]]; [left; by exists 0%nat|left; by exists (S k)|].
      right. by exists (S k), x, c.
    + apply Forall_cons in Ha as [Hy _]. right. exists 0%nat, y.
      destruct Hl as [->|[[k ->]|(k&x&c&_&->)]]; eexists; (split; [done|reflexivity]).
  - exists (g :: a). split; [by constructor|].
    destruct Hl as [->|[[k ->]|(k&x&c&Hx&->)]]; [by left|right; left; by exists k|].
    right. right. by exists k, x, c.
Qed.

(** The text between the brackets. *)
Definition v6_text (l : list Z) : bytes :=
  let r := insert_groups None l false in
  r.1 ++ (if negb r.2 && (List.last l 0 =? 0) then str "::" else []).

Lemma last_nonzero a : Forall (λ g, g ≠ 0) a → a ≠ [] → List.last a 0 ≠ 0.
Proof.
  induction 1 as [|g a Hg Ha IH]; [done|]. intros _. destruct a as [|h a]; [done|]. by apply IH.
Qed.

Lemma swap2_range g : unsigned_in 16 g → 0 ≤ swap 2 g < 65536.
Proof. intros Hg. destruct host; simpl; [apply (bswap_range 2)|exact Hg]. Qed.

Lemma swap2_zero : swap 2 0 = 0.
Proof. by destruct host. Qed.

Lemma v6_text_parses l : length l = 8%nat → Forall (unsigned_in 16) l →
  parse_v6 (v6_text l) = Some (map (swap 2) l).
Proof.
  intros Hlen Hr. unfold v6_text.
  assert (∀ a, Forall (unsigned_in 16) a → Forall (λ v, 0 ≤ v < 65536) (map (swap 2) a)) as Hrange.
  { intros a Ha. apply Forall_fmap. eapply Forall_impl; [exact Ha|]. apply swap2_range. }
  assert (∀ n, map (swap 2) (replicate n 0) = replicate n 0) as Hz.
  { induction n as [|n IH]; [done|]. simpl. by rewrite swap2_zero, IH. }
  destruct (first_zeros l) as (a&Ha&[->|[[k ->]|(k&x&c&Hx&->)]]).
  - rewrite <- (app_nil_r a) at 1 2. rewrite (insert_first a [] ([], false)) by done.
    cbn [fst snd negb andb]. rewrite !app_nil_r.
    rewrite (proj2 (Z.eqb_neq _ 0)) by (apply last_nonzero; [done|by destruct a]). rewrite app_nil_r.
    apply parse_join; [by apply Hrange|by rewrite length_map].
  - rewrite (insert_first _ _ ([], false) (insert_zeros_end (S k)) Ha). cbn [fst snd negb andb].
    rewrite app_nil_r.
    assert (List.last (a ++ replicate (S k) 0) 0 = 0) as ->.
    { rewrite replicate_S_end, app_assoc. apply List.last_last. }
    apply Forall_app in Hr as [Hra _]. rewrite map_app, Hz.
    pose proof (parse_gap (map (swap 2) a) k []) as Hp. rewrite !app_nil_r in Hp. apply Hp; [by apply Hrange|done|].
    rewrite length_app, length_map. by rewrite length_app in Hlen.
  - rewrite (insert_first _ _ _ (insert_zeros k x c Hx) Ha). cbn [fst snd negb andb]. rewrite app_nil_r.
    rewrite !Forall_app in Hr. destruct Hr as (Hra&_&Hrc). rewrite !map_app, Hz.
    apply parse_gap; [by apply Hrange|by apply Hrange|].
    rewrite !length_app, length_map, length_map. by rewrite !length_app in Hlen.
Qed.
End v6_text.

(** The eight groups of an IPv6 address, which is stored in network order. *)
Definition groups (m : sockaddr_in6) : list Z :=
  map (λ i, val_of MEGALO_BIG_ENDIAN (slice (2 * i) 2 (s6_addr m))) (seq 0 8).

(** C38. IPv6 text: on a machine of either byte order, [insert] writes [[, a text,
    ]:] and the port, and a reader of RFC 4291 gets from that text the eight
    groups of the address, wherever its zeros are. *)
Theorem v6_text_round_trip host (m : sockaddr_in6) (Hm : length (s6_addr m) = 16%nat) :
  ∃ t, insert_v6 host m = str "[" ++ t ++ str "]:" ++ show_Z (byteswapOnLittleEndian host 2 (sin6_port m)) ∧
    parse_v6 t = Some (groups m).
Proof.
  exists (v6_text host (map (group_at host m) (seq 0 8))). split.
  - unfold insert_v6, v6_text. by rewrite <- !app_assoc.
  - rewrite v6_text_parses.
    + f_equal. rewrite map_map. apply map_ext_in. intros i Hi%List.in_seq. unfold group_at.
      assert (length (slice (2 * i) 2 (s6_addr m)) = 2%nat) as Hl by (apply length_slice; lia).
      destruct host; simpl byteswapOnLittleEndian; [|done].
      by apply (byteswap_val_of MEGALO_LITTLE_ENDIAN MEGALO_BIG_ENDIAN).
    + by rewrite length_map.
    + apply Forall_fmap, Forall_forall. intros i Hi%list_elem_of_In%List.in_seq.
      apply (val_of_range host 2). apply length_slice. lia.
Qed.

Definition ex_v6 : sockaddr_in6 :=
  mkSockaddrIn6 AF_INET6 (byteswapOnLittleEndian MEGALO_LITTLE_ENDIAN 2 80) 0
    (map byte.of_Z [32; 1; 13; 184; 0; 0; 0; 0; 0; 1; 0; 0; 0; 0; 0; 1]) 0.

Lemma v6_text_witness :
  insert_v6 MEGALO_LITTLE_ENDIAN ex_v6 = str "[2001:db8::1:0:0:1]:80" ∧
  parse_v6 (str "2001:db8::1:0:0:1") = Some (groups ex_v6).
Proof.
  destruct (v6_text_round_trip MEGALO_LITTLE_ENDIAN ex_v6) as (t&Ht&Hp); [reflexivity|].
  assert (insert_v6 MEGALO_LITTLE_ENDIAN ex_v6 = str "[2001:db8::1:0:0:1]:80") as Hi by (vm_compute; reflexivity).
  split; [exact Hi|]. rewrite Hi in Ht.
  replace (str "2001:db8::1:0:0:1") with t; [exact Hp|].
  change (str "[2001:db8::1:0:0:1]:80") with (str "[" ++ str "2001:db8::1:0:0:1" ++ str "]:80") in Ht.
  change (str "]:" ++ show_Z (byteswapOnLittleEndian MEGALO_LITTLE_ENDIAN 2 (sin6_port ex_v6))) with (str "]:80") in Ht.
  apply (app_inv_head (str "[")), (app_inv_tail (str "]:80")) in Ht. symmetry. exact Ht.
Defined.

(** ** CountBytes *)

Fixpoint ones (n : nat) (v : Z) : Z :=
  match n with 0%nat => 0 | S n => v `mod` 2 + ones n (v `div` 2) end.

Lemma ones_bound n : ∀ v, 0 ≤ ones n v ≤ Z.of_nat n.
Proof.
  induction n as [|n IH]; intros v; cbn [ones]; [lia|].
  specialize (IH (v `div` 2)). pose proof (Z.mod_pos_bound v 2 ltac:(lia)). lia.
Qed.

(** Clearing the lowest bit that is set. *)
Lemma ones_clear n : ∀ v, 0 < v < 2 ^ Z.of_nat n →
  ones n (Z.land v (v - 1)) = ones n v - 1 ∧ 0 ≤ Z.land v (v - 1) < v.
Proof.
  induction n as [|n IH]; intros v Hv; [simpl in Hv; lia|].
  rewrite Nat2Z.inj_succ, Z.pow_succ_r in Hv by lia.
  pose proof (Z.div_mod v 2 ltac:(lia)) as Hdm. pose proof (Z.mod_pos_bound v 2 ltac:(lia)) as Hm.
  set (w := v / 2) in *.
  assert (∀ a b c d, (b = 0 ∨ b = 1) → (d = 0 ∨ d = 1) →
    Z.land (2 * a + b) (2 * c + d) = 2 * Z.land a c + b * d) as Hland.
  { intros a b c d Hb Hd. apply Z.bits_inj'. intros i Hi. rewrite Z.land_spec.
    destruct (decide (i = 0)) as [->|Hi0].
    - rewrite !Z.bit0_odd, !Z.odd_add, !Z.odd_mul. by destruct Hb as [->| ->], Hd as [->| ->].
    - replace i with (Z.succ (i - 1)) by lia.
      assert (0 ≤ i - 1) as Hi1 by lia.
      destruct Hb as [->| ->], Hd as [->| ->];
        rewrite ?Z.add_0_r, ?Z.mul_0_r, ?Z.mul_0_l, ?Z.mul_1_l, ?Z.add_0_r;
        repeat first [rewrite Z.testbit_odd_succ by done | rewrite Z.testbit_even_succ by done];
        by rewrite Z.land_spec. }
  assert (v mod 2 = 0 ∨ v mod 2 = 1) as [H0|H1] by lia.
  - assert (0 < w < 2 ^ Z.of_nat n) as Hw by lia. destruct (IH w Hw) as [IH1 IH2].
    assert (Z.land v (v - 1) = 2 * Z.land w (w - 1) + 0) as ->.
    { replace v with (2 * w + 0) at 1 by lia. replace (v - 1) with (2 * (w - 1) + 1) by lia.
      rewrite Hland by auto. lia. }
    cbn [ones]. fold w. rewrite H0, Z.add_0_r. rewrite (Z.mul_comm 2), Z_mod_mult, Z.div_mul, IH1 by lia. lia.
  - assert (Z.land v (v - 1) = 2 * w + 0) as ->.
    { replace v with (2 * w + 1) at 1 by lia. replace (v - 1) with (2 * w + 0) by lia.
      rewrite Hland by auto. rewrite Z.land_diag. lia. }
    cbn [ones]. fold w. rewrite H1, Z.add_0_r, (Z.mul_comm 2), Z_mod_mult, Z.div_mul by lia. lia.
Qed.

Lemma count_loop_ones n fuel : ∀ v result,
  0 ≤ v < 2 ^ Z.of_nat n → (Z.to_nat (ones n v) ≤ fuel)%nat →
  CountBytes_loop fuel v result = Some (if v =? 0 then result else u32 (result + ones n v)).
Proof.
  induction fuel as [|fuel IH]; intros v result Hv Hf; cbn [CountBytes_loop]; destruct (Z.eqb_spec v 0) as [|H0]; try done.
  - destruct (ones_clear n v ltac:(lia)) as [H1 _]. pose proof (ones_bound n (Z.land v (v - 1))). lia.
  - destruct (ones_clear n v ltac:(lia)) as [H1 H2]. rewrite IH by lia.
    destruct (Z.eqb_spec (Z.land v (v - 1)) 0) as [E|E].
    + rewrite E in H1. assert (ones n 0 = 0) as Hz by (clear; induction n as [|n IH]; [done|cbn [ones]; by rewrite Z.mod_0_l, Z.div_0_l, IH]).
      do 3 f_equal. lia.
    + f_equal. rewrite H1. unfold wrap. rewrite Z.add_mod_idemp_l by lia. f_equal. lia.
Qed.

(** [CountBytes] counts the ones on top of whatever its counter held. *)
Lemma CountBytes_spec {S} result v (s : S) :
  unsigned_in 32 v → unsigned_in 32 result → CountBytes result v s = Ret (u32 (result + ones 32 v)) s.
Proof.
  intros Hv Hr. unfold CountBytes. pose proof (ones_bound 32 v). rewrite (count_loop_ones 32) by (done || lia).
  destruct (Z.eqb_spec v 0) as [->|]; [|done]. change (ones 32 0) with 0. by rewrite Z.add_0_r, wrap_id.
Qed.

(** ** Examples *)

(** The prefix length of an interface is off by the garbage of the counter. *)
Example interface_prefix_garbage :
  let eth0 := mkIfaddrs (str "eth0") (AddrIn (new_IPv4Address MEGALO_LITTLE_ENDIAN 167772161 0))
                (AddrIn (new_IPv4Address MEGALO_LITTLE_ENDIAN 4278190080 0)) in
  match GetInterfaceAddresses 7 (Some [eth0]) AF_INET () with
  | Ret (true, [(name, (_, prefix_len))]) _ => (name, prefix_len) = (str "eth0", 15)
  | _ => False
  end.
Proof. vm_compute. reflexivity. Qed.

(** An interface without an address ends the process. *)
Example interface_without_address :
  GetInterfaceAddresses 0 (Some [mkIfaddrs (str "ppp0") NullAddr NullAddr]) AF_UNSPEC () = Crash NullDeref.
Proof. reflexivity. Qed.

(** What [Lookup] hands to [getaddrinfo]. *)
Example split_name : split_host (str "www.example.com:80") = (str "www.example.com", Some (str "80")).
Proof. reflexivity. Qed.
Example split_bracket : split_host (str "[::1]:80") = (str "::1", Some (str "80")).
Proof. reflexivity. Qed.
(** A bare IPv6 address: the service is left pointing at its first colon. *)
Example split_bare_v6 : split_host (str "fe80::1") = (str "fe80::1", Some (str "::1")).
Proof. reflexivity. Qed.

(** IPv6 networks: the mask has one byte, and the network keeps the host's bits. *)
Example v6_masks :
  match subnetMask MEGALO_LITTLE_ENDIAN 44 (IPv6Address ex_v6) (), networkAddress MEGALO_LITTLE_ENDIAN 24 (IPv6Address ex_v6) () with
  | Ret (Some (IPv6Address k)) _, Ret (Some (IPv6Address n)) _ =>
      (map code (s6_addr k), map code (s6_addr n)) =
      ([0; 0; 0; 0; 0; 240; 0; 0; 0; 0; 0; 0; 0; 0; 0; 0], [32; 1; 13; 184; 0; 0; 0; 0; 0; 0; 0; 0; 0; 0; 0; 0])
  | _, _ => False
  end.
Proof. vm_compute. reflexivity. Qed.
Example v6_prefix_128 : broadcastAddress MEGALO_LITTLE_ENDIAN 128 (IPv6Address ex_v6) () = Crash OutOfBounds.
Proof. reflexivity. Qed.
