(* ===== verification/Hook.v ===== *)
(** * Descriptors and hooked system calls (megalo/fd_manager.cc, megalo/hook.cc)

    [FdManager] keeps a [FdCtx] per descriptor.  The hooks are methods of a
    thread: whether its hook is enabled, its [errno], the manager and an
    environment [E] that answers the original functions ([KernelOps]) and the
    I/O manager ([WaitOps]).  A call of the original function gives its result
    and the [errno] of a failure.  A hook uses the context it looked up only
    before it yields, so the pointer is the slot of the manager. *)
From S2P Require Import Prelude Bytes.

(** ** FdCtx and FdManager *)

Definition SO_RCVTIMEO : Z := 20.
Definition SO_SNDTIMEO : Z := 21.
Definition SOL_SOCKET : Z := 1.
Definition O_NONBLOCK : Z := 2048.
Definition EINTR : Z := 4.
Definition EBADF : Z := 9.
Definition EAGAIN : Z := 11.
Definition ETIMEDOUT : Z := 110.
Definition EINPROGRESS : Z := 115.
Definition READ : Z := 1.
Definition WRITE : Z := 4.
Definition no_timeout : Z := 2 ^ 64 - 1.   (* [(uint64_t)-1] *)

Record FdCtx := mkFdCtx {
  m_isInit : bool;
  m_isSocket : bool;
  m_sysNonblock : bool;
  m_userNonblock : bool;
  m_isClosed : bool;
  m_fd : Z;
  m_recvTimeout : Z;
  m_sendTimeout : Z
}.

Definition setUserNonblock (v : bool) (c : FdCtx) : FdCtx :=
  mkFdCtx (m_isInit c) (m_isSocket c) (m_sysNonblock c) v (m_isClosed c) (m_fd c)
    (m_recvTimeout c) (m_sendTimeout c).
Definition setSysNonblock (v : bool) (c : FdCtx) : FdCtx :=
  mkFdCtx (m_isInit c) (m_isSocket c) v (m_userNonblock c) (m_isClosed c) (m_fd c)
    (m_recvTimeout c) (m_sendTimeout c).
Definition setTimeout (type v : Z) (c : FdCtx) : FdCtx :=
  if type =? SO_RCVTIMEO then
    mkFdCtx (m_isInit c) (m_isSocket c) (m_sysNonblock c) (m_userNonblock c) (m_isClosed c) (m_fd c)
      v (m_sendTimeout c)
  else
    mkFdCtx (m_isInit c) (m_isSocket c) (m_sysNonblock c) (m_userNonblock c) (m_isClosed c) (m_fd c)
      (m_recvTimeout c) v.
Definition getTimeout (type : Z) (c : FdCtx) : Z :=
  if type =? SO_RCVTIMEO then m_recvTimeout c else m_sendTimeout c.

Abbreviation FdManager := (list (option FdCtx)).
Definition new_FdManager : FdManager := replicate 64 None.

(** [std::vector::resize]. *)
Definition resize_fds (n : nat) (l : FdManager) : FdManager := take n l ++ replicate (n - length l) None.

(** The original functions: the result and the [errno] of a failure. *)
Class KernelOps (E : Type) := {
  k_fstat : Z → M E (option bool);            (* is it a socket? *)
  k_getfl : Z → M E (Z * Z);                  (* [fcntl_f(fd, F_GETFL)] *)
  k_setfl : Z → Z → M E (Z * Z);              (* [fcntl_f(fd, F_SETFL, arg)] *)
  k_fcntl : Z → Z → option Z → M E (Z * Z);   (* other commands *)
  k_fionbio : Z → bool → M E (Z * Z);         (* [ioctl_f(fd, FIONBIO, &v)] *)
  k_setsockopt : Z → Z → Z → bytes → M E (Z * Z);
  k_getsockopt : Z → Z → Z → M E (Z * Z * Z); (* with the option's value *)
  k_socket : Z → Z → Z → M E (Z * Z);
  k_close : Z → M E (Z * Z);
  k_sleep : Z → M E (Z * Z);
  k_usleep : Z → M E (Z * Z);
  k_nanosleep : Z → Z → M E (Z * Z)
}.

(** What the hooks use of the I/O manager of the thread.  The condition timer
    of a call marks its [timer_info] and cancels its event; [io_yield] is
    [YieldToHold] and gives what the [timer_info] holds when the fiber runs
    again, and the [errno] of the thread it then runs on. *)
Class WaitOps (E : Type) := {
  io_present : E → bool;
  io_addTimer : Z → M E ();
  io_addConditionTimer : Z → Z → Z → M E Z;
  io_cancelTimer : Z → M E ();
  io_addEvent : Z → Z → M E (Z * Z);
  io_yield : M E (Z * Z);
  io_cancelAll : Z → M E bool
}.

Record thread (E : Type) := Thread {
  t_hook_enable : bool;
  t_errno : Z;
  t_fds : FdManager;
  t_env : E
}.
Arguments Thread {E}. Arguments t_hook_enable {E}. Arguments t_errno {E}.
Arguments t_fds {E}. Arguments t_env {E}.

Section hook.
Context {E : Type} `{KernelOps E} `{WaitOps E}.
Abbreviation T := (thread E).

Definition on_env {A} (m : M E A) : M T A := λ t,
  match m (t_env t) with
  | Ret a e => Ret a (Thread (t_hook_enable t) (t_errno t) (t_fds t) e)
  | Throw x e => Throw x (Thread (t_hook_enable t) (t_errno t) (t_fds t) e)
  | Crash f => Crash f
  end.
Definition set_errno (v : Z) : M T () := modify (λ t, Thread (t_hook_enable t) v (t_fds t) (t_env t)).
Definition set_fds (l : FdManager) : M T () :=
  modify (λ t, Thread (t_hook_enable t) (t_errno t) l (t_env t)).
Definition set_hook_enable (flag : bool) : M T () :=
  modify (λ t, Thread flag (t_errno t) (t_fds t) (t_env t)).
Definition is_hook_enable : M T bool := gets t_hook_enable.

(** A call of an original function. *)
Definition call (m : M E (Z * Z)) : M T Z :=
  r ← on_env m;
  (if r.1 =? -1 then set_errno r.2 else mret tt);;
  mret r.1.

(** [FdCtx::FdCtx] and [FdCtx::init]. *)
Definition new_FdCtx (fd : Z) : M T FdCtx :=
  st ← on_env (k_fstat fd);
  match st with
  | Some true =>
      flags ← call (k_getfl fd);
      (if Z.land flags O_NONBLOCK =? 0 then _ ← call (k_setfl fd (Z.lor flags O_NONBLOCK)); mret tt
       else mret tt);;
      mret (mkFdCtx true true true false false fd no_timeout no_timeout)
  | Some false => mret (mkFdCtx true false false false false fd no_timeout no_timeout)
  | None => mret (mkFdCtx false false false false false fd no_timeout no_timeout)
  end.

(** The two critical sections of [FdManager::get]: looking the slot up, and
    filling it. *)
Definition get_read (fd : Z) (auto_created : bool) : M T (option (option FdCtx)) :=
  l ← gets t_fds;
  if Z.of_nat (length l) <=? fd then mret (if auto_created then None else Some None)
  else if fd <? 0 then crash OutOfBounds else
  match l !! Z.to_nat fd with
  | None => crash OutOfBounds
  | Some (Some c) => mret (Some (Some c))
  | Some None => mret (if auto_created then None else Some None)
  end.
Definition get_create (fd : Z) : M T (option FdCtx) :=
  ctx ← new_FdCtx fd;
  l ← gets t_fds;
  let l := if Z.of_nat (length l) <=? fd then resize_fds (Z.to_nat ((fd * 3) `div` 2)) l else l in
  if (0 <=? fd) && (fd <? Z.of_nat (length l)) then
    set_fds (<[Z.to_nat fd := Some ctx]> l);; mret (Some ctx)
  else crash OutOfBounds.
Definition FdManager_get (fd : Z) (auto_created : bool) : M T (option FdCtx) :=
  if fd =? -1 then mret None else
  r ← get_read fd auto_created;
  match r with Some c => mret c | None => get_create fd end.
Definition FdManager_del (fd : Z) : M T () :=
  l ← gets t_fds;
  if Z.of_nat (length l) <=? fd then mret tt
  else if fd <? 0 then crash OutOfBounds
  else set_fds (<[Z.to_nat fd := None]> l).

(** A method of the context of [fd] that [get] has just returned. *)
Definition on_ctx (fd : Z) (f : FdCtx → FdCtx) : M T () :=
  l ← gets t_fds; set_fds (alter (fmap f) (Z.to_nat fd) l).

Definition unmanaged (ctx : option FdCtx) : bool :=
  match ctx with Some c => m_isClosed c || negb (m_isSocket c) | None => true end.

(** ** Flags, options, timeouts *)

Inductive fcntl_args :=
  | F_SETFL (arg : Z)
  | F_GETFL
  | F_with_arg (cmd arg : Z)     (* the commands that take an [int] or a pointer *)
  | F_without_arg (cmd : Z)      (* those that take none, and any other *).

Definition fcntl (fd : Z) (a : fcntl_args) : M T Z :=
  match a with
  | F_SETFL arg =>
      ctx ← FdManager_get fd false;
      match ctx with
      | Some c =>
          if m_isClosed c || negb (m_isSocket c) then call (k_setfl fd arg) else
          on_ctx fd (setUserNonblock (negb (Z.land arg O_NONBLOCK =? 0)));;
          call (k_setfl fd (if m_sysNonblock c then Z.lor arg O_NONBLOCK
                            else Z.land arg (Z.lnot O_NONBLOCK)))
      | None => call (k_setfl fd arg)
      end
  | F_GETFL =>
      arg ← call (k_getfl fd);
      ctx ← FdManager_get fd false;
      match ctx with
      | Some c =>
          if m_isClosed c || negb (m_isSocket c) then mret arg else
          mret (if m_userNonblock c then Z.lor arg O_NONBLOCK else Z.land arg (Z.lnot O_NONBLOCK))
      | None => mret arg
      end
  | F_with_arg cmd arg => call (k_fcntl fd cmd (Some arg))
  | F_without_arg cmd => call (k_fcntl fd cmd None)
  end.

(** [ioctl(fd, FIONBIO, &v)]. *)
Definition ioctl_fionbio (fd : Z) (v : bool) : M T Z :=
  ctx ← FdManager_get fd false;
  (if unmanaged ctx then mret tt else on_ctx fd (setUserNonblock v));;
  call (k_fionbio fd v).

Definition getsockopt (fd level optname : Z) : M T (Z * Z) :=
  r ← on_env (k_getsockopt fd level optname);
  (if r.1.1 =? -1 then set_errno r.1.2 else mret tt);;
  mret (r.1.1, r.2).

(** [setsockopt]; [tv] is the [timeval] behind [optval] (seconds and
    microseconds), which is read for the two timeout options. *)
Definition setsockopt (fd level optname : Z) (tv : Z * Z) (optval : bytes) : M T Z :=
  b ← is_hook_enable;
  (if (b : bool) && (level =? SOL_SOCKET) && ((optname =? SO_RCVTIMEO) || (optname =? SO_SNDTIMEO)) then
     ctx ← FdManager_get fd false;
     match ctx with
     | Some _ => on_ctx fd (setTimeout optname (u64 (i64 (tv.1 * 1000 + tv.2 `quot` 1000))))
     | None => mret tt
     end
   else mret tt);;
  call (k_setsockopt fd level optname optval).

Definition socket (domain type protocol : Z) : M T Z :=
  b ← is_hook_enable;
  fd ← call (k_socket domain type protocol);
  if negb (b : bool) || (fd =? -1) then mret fd else
  _ ← FdManager_get fd true; mret fd.

Definition close (fd : Z) : M T Z :=
  b ← is_hook_enable;
  if negb (b : bool) then call (k_close fd) else
  ctx ← FdManager_get fd false;
  match ctx with
  | Some _ =>
      p ← gets (λ t, io_present (t_env t));
      (if (p : bool) then _ ← on_env (io_cancelAll fd); mret tt else mret tt);;
      FdManager_del fd;;
      call (k_close fd)
  | None => call (k_close fd)
  end.

(** ** Sleeping *)

(** [YieldToHold]: what a [timer_info] holds afterwards. *)
Definition yield : M T Z :=
  r ← on_env io_yield; set_errno r.2;; mret r.1.

Definition sleep_for (ms : Z) : M T Z :=
  p ← gets (λ t, io_present (t_env t));
  if negb (p : bool) then crash NullDeref else
  on_env (io_addTimer (u64 ms));; _ ← yield; mret 0.

(** [seconds * 1000] is an [unsigned int]; the sum of [nanosleep] is cut to an
    [int]. *)
Definition sleep (seconds : Z) : M T Z :=
  b ← is_hook_enable;
  if negb (b : bool) then call (k_sleep seconds) else sleep_for (u32 (seconds * 1000)).
Definition usleep (usec : Z) : M T Z :=
  b ← is_hook_enable;
  if negb (b : bool) then call (k_usleep usec) else sleep_for (usec `div` 1000).
Definition nanosleep (tv_sec tv_nsec : Z) : M T Z :=
  b ← is_hook_enable;
  if negb (b : bool) then call (k_nanosleep tv_sec tv_nsec) else
  sleep_for (i32 (tv_sec * 1000 + (tv_nsec `quot` 1000) `quot` 1000)).

(** ** Blocking operations *)

(** Wait until [fd] is ready for [event] or the time is up: the error of
    [addEvent], or the mark of the timer, 0 when there is none. *)
Inductive wait_result := Refused | Woken (cancelled : Z).

Definition wait_event (fd event to : Z) : M T wait_result :=
  p ← gets (λ t, io_present (t_env t));
  if negb (p : bool) then crash NullDeref else
  timer ← (if to =? no_timeout then mret None
           else t ← on_env (io_addConditionTimer to fd event); mret (Some t));
  rt ← call (io_addEvent fd event);
  let cancel := match timer with Some t => on_env (io_cancelTimer t) | None => mret tt end in
  if negb (rt =? 0) then cancel;; mret Refused
  else c ← yield; cancel;; mret (Woken c).

(** [while(n == -1 && errno == EINTR) fun(fd, ...)]: [n] is not assigned. *)
Fixpoint eintr_loop (fuel : nat) (fn : M E (Z * Z)) (n : Z) : M T () :=
  e ← gets t_errno;
  if (n =? -1) && (e =? EINTR) then
    match fuel with
    | 0%nat => crash Diverges
    | S fuel => _ ← call fn; eintr_loop fuel fn n
    end
  else mret tt.

Fixpoint retry (fuel : nat) (fn : M E (Z * Z)) (fd event to : Z) : M T Z :=
  match fuel with
  | 0%nat => crash Diverges
  | S f =>
      n ← call fn;
      eintr_loop fuel fn n;;
      e ← gets t_errno;
      if (n =? -1) && (e =? EAGAIN) then
        w ← wait_event fd event to;
        match w with
        | Refused => mret (-1)
        | Woken c => if negb (c =? 0) then set_errno c;; mret (-1) else retry f fn fd event to
        end
      else mret n
  end.

(** [do_io]; [fn] is the original function with its arguments. *)
Definition do_io (fuel : nat) (fd : Z) (fn : M E (Z * Z)) (event timeout_so : Z) : M T Z :=
  b ← is_hook_enable;
  if negb (b : bool) then call fn else
  ctx ← FdManager_get fd false;
  match ctx with
  | None => call fn
  | Some c =>
      if m_isClosed c then set_errno EBADF;; mret (-1)
      else if negb (m_isSocket c) || m_userNonblock c then call fn
      else retry fuel fn fd event (getTimeout timeout_so c)
  end.

(** [read], [readv], [recv], [recvfrom], [recvmsg]; [write], [writev], [send],
    [sendto], [sendmsg]; [accept]. *)
Definition hooked_read (fuel : nat) (fd : Z) (fn : M E (Z * Z)) : M T Z := do_io fuel fd fn READ SO_RCVTIMEO.
Definition hooked_write (fuel : nat) (fd : Z) (fn : M E (Z * Z)) : M T Z := do_io fuel fd fn WRITE SO_SNDTIMEO.
Definition accept (fuel : nat) (sockfd : Z) (fn : M E (Z * Z)) : M T Z :=
  fd ← do_io fuel sockfd fn READ SO_RCVTIMEO;
  (if 0 <=? fd then _ ← FdManager_get fd true; mret tt else mret tt);;
  mret fd.

Definition connect_with_timeout (fd : Z) (connect_f : M E (Z * Z)) (timeout_ms : Z) : M T Z :=
  b ← is_hook_enable;
  if negb (b : bool) then call connect_f else
  ctx ← FdManager_get fd false;
  match ctx with
  | None => set_errno EBADF;; mret (-1)
  | Some c =>
      if m_isClosed c then set_errno EBADF;; mret (-1)
      else if negb (m_isSocket c) || m_userNonblock c then call connect_f
      else
        n ← call connect_f;
        e ← gets t_errno;
        if n =? 0 then mret 0
        else if negb (n =? -1) || negb (e =? EINPROGRESS) then mret n
        else
          w ← wait_event fd WRITE timeout_ms;
          let finish :=
            r ← getsockopt fd SOL_SOCKET 4;
            if r.1 =? -1 then mret (-1)
            else if r.2 =? 0 then mret 0 else set_errno r.2;; mret (-1) in
          match w with
          | Woken c => if negb (c =? 0) then set_errno c;; mret (-1) else finish
          | Refused => finish
          end
  end.

(** [s_connect_timeout] starts as -1; only a change of the configuration sets
    it. *)
Definition s_connect_timeout : Z := no_timeout.
Definition connect (fd : Z) (connect_f : M E (Z * Z)) : M T Z :=
  connect_with_timeout fd connect_f s_connect_timeout.
End hook.

(** ** What the system promises *)

(** The status flags [fcntl(F_SETFL)] can change: [O_APPEND], [O_NONBLOCK],
    [O_ASYNC], [O_DIRECT] and [O_NOATIME]. *)
Definition SETTABLE : Z := 1024 + 2048 + 8192 + 16384 + 262144.
Definition merge_flags (v arg : Z) : Z := Z.lor (Z.land v (Z.lnot SETTABLE)) (Z.land arg SETTABLE).

Class KernelLaws (E : Type) `{KernelOps E} := {
  k_flags : E → Z → option Z;   (* the flags of an open descriptor *)
  law_fstat fd e : ∃ o, k_fstat fd e = Ret o e;
  law_getfl fd e : ∃ r, k_getfl fd e = Ret r e ∧
    ∀ v, k_flags e fd = Some v → r = (v, 0) ∧ 0 ≤ v;
  law_setfl fd a e : ∃ r e', k_setfl fd a e = Ret r e' ∧
    (∀ fd', fd' ≠ fd → k_flags e' fd' = k_flags e fd') ∧
    ∀ v, k_flags e fd = Some v → r = (0, 0) ∧ k_flags e' fd = Some (merge_flags v a)
}.

Section fd_laws.
Context {E : Type} `{KernelLaws E} `{WaitOps E}.
Abbreviation T := (thread E).

Definition fd_lookup (l : FdManager) (fd : Z) : option FdCtx := mjoin (l !! Z.to_nat fd).
Definition fds_ok (t : T) : Prop := (64 ≤ length (t_fds t))%nat.

Lemma call_ret (m : M E (Z * Z)) (t : T) r e : m (t_env t) = Ret r e →
  ∃ t', call m t = Ret r.1 t' ∧ t_fds t' = t_fds t ∧ t_env t' = e ∧ t_hook_enable t' = t_hook_enable t.
Proof.
  intros Hm. unfold call, on_env. cbv [mbind M_bind]. rewrite Hm. destruct (r.1 =? -1);
    (eexists; split; [reflexivity|]); done.
Qed.

Lemma get_false fd (t : T) : fds_ok t → 0 ≤ fd → FdManager_get fd false t = Ret (fd_lookup (t_fds t) fd) t.
Proof.
  intros Ht Hfd. unfold FdManager_get, get_read, fd_lookup. rewrite (proj2 (Z.eqb_neq fd (-1))) by lia.
  rewrite bind_assoc, bind_gets.
  destruct (Z.leb_spec (Z.of_nat (length (t_fds t))) fd) as [Hl|Hl].
  - rewrite bind_mret. rewrite lookup_ge_None_2 by lia. done.
  - rewrite (proj2 (Z.ltb_ge fd 0)) by lia.
    destruct (lookup_lt_is_Some_2 (t_fds t) (Z.to_nat fd) ltac:(lia)) as [[c|] Hc]; rewrite Hc; done.
Qed.

Lemma new_FdCtx_ret fd (t : T) :
  ∃ c t', new_FdCtx fd t = Ret c t' ∧ m_fd c = fd ∧ t_fds t' = t_fds t ∧ t_hook_enable t' = t_hook_enable t ∧
    m_isClosed c = false ∧ m_userNonblock c = false ∧ m_sysNonblock c = m_isSocket c ∧
    ∀ v, k_flags (t_env t) fd = Some v → m_isSocket c = true →
      ∃ v', k_flags (t_env t') fd = Some v' ∧ Z.land v' O_NONBLOCK ≠ 0.
Proof.
  unfold new_FdCtx. destruct (law_fstat fd (t_env t)) as [o Ho].
  assert (on_env (k_fstat fd) t = Ret o t) as Hst by (unfold on_env; rewrite Ho; by destruct t).
  mstep Hst. destruct o as [[|]|]; [|eexists _, t; by split_and!..].
  destruct (law_getfl fd (t_env t)) as (r&Hr&Hv). destruct (call_ret _ _ _ _ Hr) as (t1&Hc1&Hf1&He1&Hh1).
  mstep Hc1. destruct (Z.eqb_spec (Z.land r.1 O_NONBLOCK) 0) as [Hz|Hz].
  - destruct (law_setfl fd (Z.lor r.1 O_NONBLOCK) (t_env t1)) as (r2&e2&Hr2&_&Hv2).
    destruct (call_ret _ _ _ _ Hr2) as (t2&Hc2&Hf2&He2&Hh2). rewrite bind_assoc. mstep Hc2. rewrite bind_mret.
    eexists _, t2. split; [reflexivity|]. split_and!; simpl; try done; [congruence|congruence|].
    intros v Hk _. rewrite He2. destruct (Hv2 v) as [_ Hk2]; [by rewrite He1|].
    eexists. split; [exact Hk2|]. intros Hbad.
    assert (Z.testbit (Z.land (merge_flags v (Z.lor r.1 O_NONBLOCK)) O_NONBLOCK) 11 = true) as Hb.
    { unfold merge_flags. rewrite !Z.land_spec, Z.lor_spec, !Z.land_spec, Z.lor_spec.
      change (Z.testbit O_NONBLOCK 11) with true. change (Z.testbit SETTABLE 11) with true.
      by rewrite !orb_true_r. }
    by rewrite Hbad, Z.bits_0 in Hb.
  - rewrite bind_mret. eexists _, t1. split; [reflexivity|]. split_and!; simpl; try done.
    intros v Hk _. destruct (Hv v Hk) as [-> _]. exists v. rewrite He1. done.
Qed.

Lemma length_resize n (l : FdManager) : length (resize_fds n l) = n.
Proof. unfold resize_fds. rewrite length_app, length_take, length_replicate. lia. Qed.

Lemma lookup_resize n (l : FdManager) fd : (length l ≤ n)%nat → fd_lookup (resize_fds n l) fd = fd_lookup l fd.
Proof.
  intros Hn. unfold fd_lookup, resize_fds. rewrite take_ge by done.
  destruct (decide (Z.to_nat fd < length l)%nat); [by rewrite lookup_app_l|].
  rewrite lookup_app_r by lia. rewrite (lookup_ge_None_2 l) by lia.
  destruct (replicate _ _ !! _) as [o|] eqn:Eo; [|done].
  apply lookup_replicate in Eo as [-> _]. done.
Qed.

(** Creating an entry. *)
Lemma get_create_spec fd (t : T) : fds_ok t → 0 ≤ fd →
  ∃ c t', get_create fd t = Ret (Some c) t' ∧ m_fd c = fd ∧ fds_ok t' ∧ fd_lookup (t_fds t') fd = Some c ∧
    (∀ fd', 0 ≤ fd' → fd' ≠ fd → fd_lookup (t_fds t') fd' = fd_lookup (t_fds t) fd') ∧
    m_userNonblock c = false ∧ m_isClosed c = false ∧
    ∀ v, k_flags (t_env t) fd = Some v → m_isSocket c = true →
      ∃ v', k_flags (t_env t') fd = Some v' ∧ Z.land v' O_NONBLOCK ≠ 0.
Proof.
  intros Ht Hfd. unfold get_create, fds_ok in *.
  destruct (new_FdCtx_ret fd t) as (c&t1&Hc&Hm&Hf&_&Hcl&Hu&_&Hk). mstep Hc. rewrite bind_gets. rewrite Hf.
  set (l := if Z.of_nat (length (t_fds t)) <=? fd then resize_fds (Z.to_nat ((fd * 3) `div` 2)) (t_fds t) else t_fds t).
  assert (Z.to_nat fd < length l ∧ 64 ≤ length l)%nat as [Hl1 Hl2].
  { unfold l. destruct (Z.leb_spec (Z.of_nat (length (t_fds t))) fd); [|lia].
    rewrite length_resize. pose proof (Z.div_le_lower_bound (fd * 3) 2 (fd + 1) ltac:(lia) ltac:(lia)). lia. }
  assert (∀ fd', fd_lookup l fd' = fd_lookup (t_fds t) fd') as Hlk.
  { intros fd'. unfold l. destruct (Z.leb_spec (Z.of_nat (length (t_fds t))) fd); [|done].
    apply lookup_resize. pose proof (Z.div_le_lower_bound (fd * 3) 2 (fd + 1) ltac:(lia) ltac:(lia)). lia. }
  rewrite (proj2 (Z.leb_le 0 fd)), (proj2 (Z.ltb_lt fd _)) by lia. cbn [andb].
  unfold set_fds. rewrite bind_modify. eexists c, _. split; [reflexivity|]. simpl.
  split_and!; try done.
  - by rewrite length_insert.
  - unfold fd_lookup. by rewrite list_lookup_insert_eq by lia.
  - intros fd' Hp Hne. rewrite <- Hlk. unfold fd_lookup. by rewrite list_lookup_insert_ne by lia.
Qed.

Lemma del_ret fd (t : T) : fds_ok t → 0 ≤ fd →
  ∃ t', FdManager_del fd t = Ret tt t' ∧ fds_ok t' ∧ t_env t' = t_env t ∧
    fd_lookup (t_fds t') fd = None ∧ (∀ fd', 0 ≤ fd' → fd' ≠ fd → fd_lookup (t_fds t') fd' = fd_lookup (t_fds t) fd').
Proof.
  intros Ht Hfd. unfold FdManager_del, fds_ok in *. rewrite bind_gets.
  destruct (Z.leb_spec (Z.of_nat (length (t_fds t))) fd) as [Hl|Hl].
  - exists t. split_and!; try done. unfold fd_lookup. by rewrite lookup_ge_None_2 by lia.
  - rewrite (proj2 (Z.ltb_ge fd 0)) by lia. eexists. split; [reflexivity|]. simpl. split_and!; try done.
    + by rewrite length_insert.
    + unfold fd_lookup. by rewrite list_lookup_insert_eq by lia.
    + intros fd' Hp Hne. unfold fd_lookup. by rewrite list_lookup_insert_ne by lia.
Qed.

(** [FdManager] is a map from descriptors to contexts, for descriptors of any
    size: [get] without creation looks up and changes nothing, [get] with
    creation returns the context that is there or makes one, a new one belonging
    to that descriptor, blocking for the user, open, and, for a socket, backed
    by a kernel descriptor that does not block; [del] removes one entry. *)
Theorem fd_manager_is_a_map (t : T) fd (Ht : fds_ok t) (Hfd : 0 ≤ fd) :
  FdManager_get fd false t = Ret (fd_lookup (t_fds t) fd) t ∧
  FdManager_get (-1) true t = Ret None t ∧
  (∃ c t', FdManager_get fd true t = Ret (Some c) t' ∧ fds_ok t' ∧ fd_lookup (t_fds t') fd = Some c ∧
    (∀ fd', 0 ≤ fd' → fd' ≠ fd → fd_lookup (t_fds t') fd' = fd_lookup (t_fds t) fd') ∧
    match fd_lookup (t_fds t) fd with
    | Some c0 => c = c0 ∧ t' = t
    | None => m_fd c = fd ∧ m_userNonblock c = false ∧ m_isClosed c = false ∧
        (m_isSocket c = true → ∀ v, k_flags (t_env t) fd = Some v →
          ∃ v', k_flags (t_env t') fd = Some v' ∧ Z.land v' O_NONBLOCK ≠ 0)
    end) ∧
  (∃ t', FdManager_del fd t = Ret tt t' ∧ fds_ok t' ∧ fd_lookup (t_fds t') fd = None ∧
    ∀ fd', 0 ≤ fd' → fd' ≠ fd → fd_lookup (t_fds t') fd' = fd_lookup (t_fds t) fd').
Proof.
  split; [by apply get_false|]. split; [done|]. split.
  - pose proof (get_false fd t Ht Hfd) as Hg. unfold FdManager_get in Hg |- *.
    rewrite (proj2 (Z.eqb_neq fd (-1))) in Hg |- * by lia. unfold get_read in Hg |- *.
    rewrite bind_assoc, bind_gets in Hg |- *.
    destruct (fd_lookup (t_fds t) fd) as [c|] eqn:El.
    + exists c, t. split; [|done]. unfold fd_lookup in El.
      destruct (t_fds t !! Z.to_nat fd) as [[c'|]|] eqn:Es; [|done..]. simpl in El. injection El as ->.
      pose proof (lookup_lt_Some _ _ _ Es). rewrite (proj2 (Z.leb_gt _ fd)), (proj2 (Z.ltb_ge fd 0)) by lia. done.
    + assert (∀ A (k : _ → M T A), (((if Z.of_nat (length (t_fds t)) <=? fd then mret None
        else if fd <? 0 then crash OutOfBounds else
        match t_fds t !! Z.to_nat fd with
        | None => crash OutOfBounds | Some (Some c) => mret (Some (Some c)) | Some None => mret None end)
        : M T (option (option FdCtx))) ≫= k) t = k None t) as Hk.
      { intros A k. destruct (Z.leb_spec (Z.of_nat (length (t_fds t))) fd); [done|].
        rewrite (proj2 (Z.ltb_ge fd 0)) by lia. unfold fd_lookup in El.
        destruct (lookup_lt_is_Some_2 (t_fds t) (Z.to_nat fd) ltac:(lia)) as [[c'|] Es]; rewrite Es in El |- *; [|done].
        simpl in El. discriminate El. }
      rewrite Hk. clear Hk Hg.
      destruct (get_create_spec fd t Ht Hfd) as (c&t'&Hc&G1&G2&G3&G4&G5&G6&G7).
      exists c, t'. split_and!; try done. intros Hs v Hv. by apply (G7 v).
  - destruct (del_ret fd t Ht Hfd) as (t'&?&?&?&?&?). by exists t'.
Qed.

(** ** The flags the user sees *)

Lemma nonblock_bit i : Z.testbit O_NONBLOCK i = (i =? 11).
Proof. change O_NONBLOCK with (2 ^ 11). rewrite Z.eqb_sym. apply Z.pow2_bits_eqb. lia. Qed.

Lemma nonblock_test a : negb (Z.land a O_NONBLOCK =? 0) = Z.testbit a 11.
Proof.
  apply eq_true_iff_eq. rewrite negb_true_iff, Z.eqb_neq. split.
  - intros Hne. apply not_false_iff_true. intros Hb. apply Hne. apply Z.bits_inj'. intros i Hi.
    rewrite Z.land_spec, nonblock_bit, Z.bits_0. destruct (Z.eqb_spec i 11) as [->|]; [by rewrite Hb|apply andb_false_r].
  - intros Hb Hz. assert (Z.testbit (Z.land a O_NONBLOCK) 11 = true) as Ht by (by rewrite Z.land_spec, Hb).
    by rewrite Hz, Z.bits_0 in Ht.
Qed.

(** The flags with [O_NONBLOCK] as the user set it. *)
Definition shown (c : FdCtx) (v : Z) : Z :=
  if m_userNonblock c then Z.lor v O_NONBLOCK else Z.land v (Z.lnot O_NONBLOCK).

(** What the user of [fd] takes its flags to be. *)
Definition user_flags (t : T) (fd : Z) : option Z :=
  v ← k_flags (t_env t) fd;
  Some (match fd_lookup (t_fds t) fd with
        | Some c => if unmanaged (Some c) then v else shown c v
        | None => v
        end).

(** The kernel descriptor of a managed socket does not block. *)
Definition sockets_nonblocking (t : T) : Prop :=
  ∀ fd c v, 0 ≤ fd → fd_lookup (t_fds t) fd = Some c → unmanaged (Some c) = false →
    k_flags (t_env t) fd = Some v → m_sysNonblock c = true ∧ Z.testbit v 11 = true.

Lemma shown_merge (b : bool) v arg :
  shown (mkFdCtx true true true (Z.testbit arg 11) false 0 0 0) (merge_flags v (Z.lor arg O_NONBLOCK)) =
    merge_flags (if b then Z.lor v O_NONBLOCK else Z.land v (Z.lnot O_NONBLOCK)) arg.
Proof.
  unfold shown, merge_flags. cbn [m_userNonblock]. apply Z.bits_inj'. intros i Hi.
  assert (Z.testbit SETTABLE 11 = true) as Hset by done.
  assert (Z.testbit O_NONBLOCK i = (i =? 11)) as Hn by apply nonblock_bit.
  destruct (Z.eqb_spec i 11) as [->|].
  - destruct (Z.testbit arg 11) eqn:Ea, b;
      rewrite ?Z.lor_spec, ?Z.land_spec, ?Z.lnot_spec, ?Hn, ?Hset, ?Ea by done;
      rewrite ?orb_true_r, ?andb_false_r; done.
  - destruct (Z.testbit arg 11), b;
      repeat (rewrite ?Z.lor_spec, ?Z.land_spec, ?Hn; rewrite ?Z.lnot_spec by done);
      rewrite ?Hn, ?orb_false_r, ?andb_true_r; done.
Qed.

Lemma merge_keeps_nonblock v arg : Z.testbit (merge_flags v (Z.lor arg O_NONBLOCK)) 11 = true.
Proof.
  unfold merge_flags. rewrite !Z.lor_spec, !Z.land_spec, Z.lor_spec, nonblock_bit.
  change (Z.testbit SETTABLE 11) with true. by rewrite !orb_true_r.
Qed.

Lemma fd_lookup_alter f fd fd' (l : FdManager) : 0 ≤ fd → 0 ≤ fd' →
  fd_lookup (alter (fmap f) (Z.to_nat fd) l) fd' =
    if decide (fd' = fd) then f <$> fd_lookup l fd else fd_lookup l fd'.
Proof.
  intros Hp Hp'. unfold fd_lookup. destruct (decide (fd' = fd)) as [->|Hne].
  - rewrite list_lookup_alter_eq. by destruct (l !! Z.to_nat fd) as [[c|]|].
  - by rewrite list_lookup_alter_ne by lia.
Qed.

(** Transparent [fcntl]: on a descriptor whose flags the user takes to be
    [w], [fcntl(fd, F_GETFL)] returns [w], and [fcntl(fd, F_SETFL, arg)] returns 0
    and leaves the user with the flags the kernel alone would have computed from
    [w] and [arg], [O_NONBLOCK] included; the flags seen on every other
    descriptor are unchanged, and the kernel descriptors of all managed sockets
    stay nonblocking. *)
Theorem fcntl_transparent (t : T) fd arg w (Ht : fds_ok t) (Hfd : 0 ≤ fd)
    (Hs : sockets_nonblocking t) (Hw : user_flags t fd = Some w) :
  (∃ t', fcntl fd F_GETFL t = Ret w t' ∧ t_fds t' = t_fds t ∧ t_env t' = t_env t) ∧
  ∃ t', fcntl fd (F_SETFL arg) t = Ret 0 t' ∧ fds_ok t' ∧ sockets_nonblocking t' ∧
    user_flags t' fd = Some (merge_flags w arg) ∧
    ∀ fd', 0 ≤ fd' → fd' ≠ fd → user_flags t' fd' = user_flags t fd'.
Proof.
  unfold user_flags in Hw. destruct (k_flags (t_env t) fd) as [v|] eqn:Ek; [|done]. simpl in Hw. injection Hw as <-.
  split.
  - destruct (law_getfl fd (t_env t)) as (r&Hr&Hv). destruct (Hv v Ek) as [-> Hv0].
    destruct (call_ret _ _ _ _ Hr) as (t1&Hc&Hf1&He1&_). unfold fcntl. mstep Hc. cbn [fst].
    rewrite (bind_ret _ _ _ _ _ (get_false fd t1 ltac:(unfold fds_ok; by rewrite Hf1) Hfd)), Hf1.
    exists t1. split; [|done].
    destruct (fd_lookup (t_fds t) fd) as [c|]; [|done]. simpl. by destruct (m_isClosed c || _).
  - unfold fcntl. rewrite (bind_ret _ _ _ _ _ (get_false fd t Ht Hfd)).
    destruct (fd_lookup (t_fds t) fd) as [c|] eqn:El.
    2: { destruct (law_setfl fd arg (t_env t)) as (r&e'&Hr&Hother&Hset). destruct (Hset v Ek) as [-> Hk'].
      destruct (call_ret _ _ _ _ Hr) as (t1&Hc&Hf1&He1&_). exists t1. split; [exact Hc|].
      split; [unfold fds_ok; by rewrite Hf1|]. unfold user_flags, sockets_nonblocking. rewrite Hf1, He1. split.
      - intros fd' c' v' Hp Hl Hm Hk. destruct (decide (fd' = fd)) as [->|Hne]; [congruence|].
        rewrite Hother in Hk by done. by apply (Hs fd' c' v').
      - split; [by rewrite Hk', El|]. intros fd' _ Hne. by rewrite Hother. }
    destruct (unmanaged (Some c)) eqn:Em; simpl in Em; rewrite Em.
    { destruct (law_setfl fd arg (t_env t)) as (r&e'&Hr&Hother&Hset). destruct (Hset v Ek) as [-> Hk'].
      destruct (call_ret _ _ _ _ Hr) as (t1&Hc&Hf1&He1&_). exists t1. split; [exact Hc|].
      split; [unfold fds_ok; by rewrite Hf1|]. unfold user_flags, sockets_nonblocking. rewrite Hf1, He1. split.
      - intros fd' c' v' Hp Hl Hm Hk. destruct (decide (fd' = fd)) as [->|Hne].
        + rewrite El in Hl. injection Hl as <-. simpl in Hm. congruence.
        + rewrite Hother in Hk by done. by apply (Hs fd' c' v').
      - split; [by rewrite Hk', El; simpl; rewrite Em|]. intros fd' _ Hne. by rewrite Hother. }
    destruct (Hs fd c v Hfd El Em Ek) as [Hsys Hnb]. rewrite Hsys, nonblock_test.
    unfold on_ctx. rewrite bind_assoc, bind_gets. unfold set_fds. rewrite bind_modify.
    set (t1 := Thread _ _ (alter _ _ _) _).
    destruct (law_setfl fd (Z.lor arg O_NONBLOCK) (t_env t1)) as (r&e'&Hr&Hother&Hset). destruct (Hset v Ek) as [-> Hk'].
    destruct (call_ret _ _ _ _ Hr) as (t2&Hc&Hf2&He2&_). exists t2. split; [exact Hc|].
    assert (∀ fd', 0 ≤ fd' → fd_lookup (t_fds t2) fd' =
      if decide (fd' = fd) then Some (setUserNonblock (Z.testbit arg 11) c) else fd_lookup (t_fds t) fd') as Hlk.
    { intros fd' Hp. rewrite Hf2. unfold t1. simpl. rewrite fd_lookup_alter by done. by rewrite El. }
    split; [unfold fds_ok; rewrite Hf2; unfold t1; simpl; by rewrite length_alter|].
    split; [|split].
    + intros fd' c' v' Hp Hl Hm Hk. rewrite Hlk in Hl by done. rewrite He2 in Hk.
      destruct (decide (fd' = fd)) as [->|Hne].
      * injection Hl as <-. rewrite Hk' in Hk. injection Hk as <-. split; [done|apply merge_keeps_nonblock].
      * rewrite Hother in Hk by done. by apply (Hs fd' c' v').
    + unfold user_flags. rewrite He2, Hk', Hlk by done. rewrite decide_True by done. simpl. rewrite Em. f_equal.
      exact (shown_merge (m_userNonblock c) v arg).
    + intros fd' Hp Hne. unfold user_flags. rewrite He2, Hother, Hlk by done. by rewrite decide_False by done.
Qed.
End fd_laws.

(** ** Waiting *)

(** [io_armed e i]: the condition timer [i] of the calling fiber is armed.  A
    timer that fires during [io_yield] is no longer armed. *)
Class WaitLaws (E : Type) `{WaitOps E} := {
  io_armed : E → Z → Prop;
  law_arm to fd ev e i e' : io_addConditionTimer to fd ev e = Ret i e' →
    ∀ j, io_armed e' j → j = i ∨ io_armed e j;
  law_disarm i e e' : io_cancelTimer i e = Ret tt e' → ∀ j, io_armed e' j → j ≠ i ∧ io_armed e j;
  law_event fd ev e r e' : io_addEvent fd ev e = Ret r e' → ∀ j, io_armed e' j → io_armed e j;
  law_yield e r e' : io_yield e = Ret r e' → ∀ j, io_armed e' j → io_armed e j
}.

Section waiting.
Context {E : Type} `{KernelOps E} `{WaitLaws E} (fn : M E (Z * Z)) (fd event to : Z).
Abbreviation T := (thread E).

(** The timer of one wait, and its end. *)
Inductive arms (e : E) : option Z → E → Prop :=
  | arms_none : to = no_timeout → arms e None e
  | arms_timer i e' : to ≠ no_timeout → io_addConditionTimer to fd event e = Ret i e' → arms e (Some i) e'.
Inductive disarms (e : E) : option Z → E → Prop :=
  | disarms_none : disarms e None e
  | disarms_timer i e' : io_cancelTimer i e = Ret tt e' → disarms e (Some i) e'.

(** One wait, from [errno] [er] to [errno] [x]: refused by the I/O manager, or
    over, by readiness (mark 0) or by the timer. *)
Inductive waits (er : Z) (e : E) : wait_result → Z → E → Prop :=
  | waits_refused o e1 rt x e2 e3 : io_present e = true → arms e o e1 → io_addEvent fd event e1 = Ret (rt, x) e2 →
      rt ≠ 0 → disarms e2 o e3 → waits er e Refused (if rt =? -1 then x else er) e3
  | waits_woken o e1 y e2 c x e3 e4 : io_present e = true → arms e o e1 → io_addEvent fd event e1 = Ret (0, y) e2 →
      io_yield e2 = Ret (c, x) e3 → disarms e3 o e4 → waits er e (Woken c) x e4.

(** The answer of a blocking call: of the first call of the original function
    that does not say [EAGAIN], after a wait for each that does; or the error
    of a refused wait or of the timer.  The first argument counts the waits that
    ended in readiness, [er] is [errno] before the call. *)
Inductive answers : nat → Z → E → Z → Z → E → Prop :=
  | answered er e n x e' : fn e = Ret (n, x) e' → n ≠ -1 → answers 0 er e n er e'
  | failed er e x e' : fn e = Ret (-1, x) e' → x ≠ EINTR → x ≠ EAGAIN → answers 0 er e (-1) x e'
  | refused er e e1 x e2 : fn e = Ret (-1, EAGAIN) e1 → waits EAGAIN e1 Refused x e2 → answers 0 er e (-1) x e2
  | timed_out er e e1 c x e2 : fn e = Ret (-1, EAGAIN) e1 → waits EAGAIN e1 (Woken c) x e2 → c ≠ 0 →
      answers 0 er e (-1) c e2
  | answers_later k er e e1 y e2 n x e3 : fn e = Ret (-1, EAGAIN) e1 → waits EAGAIN e1 (Woken 0) y e2 →
      answers k y e2 n x e3 → answers (S k) er e n x e3.

(** The steps of a thread that only involve its environment. *)
Lemma on_env_eq {A} (m : M E A) (t : T) a e :
  m (t_env t) = Ret a e → on_env m t = Ret a (Thread (t_hook_enable t) (t_errno t) (t_fds t) e).
Proof. intros Hm. unfold on_env. by rewrite Hm. Qed.

Lemma on_env_inv {A} (m : M E A) (t : T) a t' :
  on_env m t = Ret a t' → ∃ e, m (t_env t) = Ret a e ∧ t' = Thread (t_hook_enable t) (t_errno t) (t_fds t) e.
Proof. unfold on_env. destruct (m (t_env t)); [|done..]. intros [= <- <-]. by eexists. Qed.

Lemma call_eq (m : M E (Z * Z)) (t : T) n x e :
  m (t_env t) = Ret (n, x) e →
  call m t = Ret n (Thread (t_hook_enable t) (if n =? -1 then x else t_errno t) (t_fds t) e).
Proof. intros Hf. unfold call. mstep (on_env_eq _ t _ _ Hf). simpl. by destruct (n =? -1). Qed.

Lemma call_inv (m : M E (Z * Z)) (t : T) n t' :
  call m t = Ret n t' → ∃ x e, m (t_env t) = Ret (n, x) e ∧
    t' = Thread (t_hook_enable t) (if n =? -1 then x else t_errno t) (t_fds t) e.
Proof.
  unfold call. intros Hr. apply bind_Ret_inv in Hr as ([n' x]&t1&Hm&Hr). apply on_env_inv in Hm as (e&Hm&->).
  simpl in Hr. destruct (n' =? -1) eqn:En; injection Hr as <- <-; exists x, e; by rewrite En.
Qed.

Definition cancel_timer (o : option Z) : M T () :=
  match o with Some i => on_env (io_cancelTimer i) | None => mret tt end.

Lemma disarms_eq o (t : T) e' : disarms (t_env t) o e' →
  cancel_timer o t = Ret tt (Thread (t_hook_enable t) (t_errno t) (t_fds t) e').
Proof. intros Hd. inversion Hd as [|i ? Hc]; subst; [by destruct t|]. by apply on_env_eq. Qed.

Lemma disarms_inv o (t t' : T) : cancel_timer o t = Ret tt t' →
  ∃ e', disarms (t_env t) o e' ∧ t' = Thread (t_hook_enable t) (t_errno t) (t_fds t) e'.
Proof.
  destruct o as [i|]; simpl; intros Hc.
  - apply on_env_inv in Hc as (e'&Hc&->). exists e'. split; [by constructor|done].
  - injection Hc as <-. exists (t_env t). split; [by constructor|by destruct t].
Qed.

Definition arm_timer : M T (option Z) :=
  if to =? no_timeout then mret None else t ← on_env (io_addConditionTimer to fd event); mret (Some t).

Lemma arms_eq o (t : T) e' : arms (t_env t) o e' →
  arm_timer t = Ret o (Thread (t_hook_enable t) (t_errno t) (t_fds t) e').
Proof.
  intros Ha. unfold arm_timer. inversion Ha as [Hto|i ? Hto Hi]; subst.
  - destruct t. by rewrite Hto, Z.eqb_refl.
  - rewrite (proj2 (Z.eqb_neq _ _)) by done. by mstep (on_env_eq _ t _ _ Hi).
Qed.

Lemma arms_inv o (t t' : T) : arm_timer t = Ret o t' →
  ∃ e', arms (t_env t) o e' ∧ t' = Thread (t_hook_enable t) (t_errno t) (t_fds t) e'.
Proof.
  unfold arm_timer. destruct (Z.eqb_spec to no_timeout) as [Hto|Hto]; intros Ha.
  - injection Ha as <- <-. exists (t_env t). split; [by constructor|by destruct t].
  - apply bind_Ret_inv in Ha as (i&t1&Ha&Hr). apply on_env_inv in Ha as (e'&Ha&->). injection Hr as <- <-.
    exists e'. split; [by constructor|done].
Qed.

Lemma wait_event_unfold :
  wait_event fd event to =
    (p ← gets (λ t, io_present (t_env t));
     if negb (p : bool) then crash NullDeref else
     o ← arm_timer;
     rt ← call (io_addEvent fd event);
     if negb (rt =? 0) then cancel_timer o;; mret Refused
     else c ← yield; cancel_timer o;; mret (Woken c)).
Proof. reflexivity. Qed.

Lemma yield_eq (t : T) c x e : io_yield (t_env t) = Ret (c, x) e →
  yield t = Ret c (Thread (t_hook_enable t) x (t_fds t) e).
Proof. intros Hy. unfold yield. by mstep (on_env_eq _ t _ _ Hy). Qed.

Lemma wait_event_spec (t : T) w x e' :
  waits (t_errno t) (t_env t) w x e' →
  wait_event fd event to t = Ret w (Thread (t_hook_enable t) x (t_fds t) e').
Proof.
  intros Hw. rewrite wait_event_unfold, bind_gets.
  destruct Hw as [o e1 rt x e2 e3 Hp Ha He Hrt Hd|o e1 y e2 c x e3 e4 Hp Ha He Hy Hd]; rewrite Hp; cbn [negb];
    mstep (arms_eq o t _ Ha); set (t1 := Thread _ _ _ e1); mstep (call_eq _ t1 _ _ _ He); unfold t1; simpl.
  - rewrite (proj2 (Z.eqb_neq rt 0)) by done. simpl. set (t2 := Thread _ _ _ e2). by mstep (disarms_eq o t2 _ Hd).
  - set (t2 := Thread _ _ _ e2). mstep (yield_eq t2 _ _ _ Hy). set (t3 := Thread _ x _ e3).
    by mstep (disarms_eq o t3 _ Hd).
Qed.

Lemma wait_event_inv (t : T) w t' :
  wait_event fd event to t = Ret w t' →
  ∃ x e', waits (t_errno t) (t_env t) w x e' ∧ t' = Thread (t_hook_enable t) x (t_fds t) e'.
Proof.
  rewrite wait_event_unfold, bind_gets. destruct (io_present (t_env t)) eqn:Hp; [|done]. cbn [negb]. intros Hr.
  apply bind_Ret_inv in Hr as (o&t1&Ha&Hr). apply arms_inv in Ha as (e1&Ha&->).
  apply bind_Ret_inv in Hr as (rt&t2&He&Hr). apply call_inv in He as (y&e2&He&->).
  destruct (Z.eqb_spec rt 0) as [->|Hrt]; simpl in Hr.
  - apply bind_Ret_inv in Hr as (c&t3&Hy&Hr). unfold yield in Hy. apply bind_Ret_inv in Hy as ([c' x]&t4&Hy&Hs).
    apply on_env_inv in Hy as (e3&Hy&->). injection Hs as -> <-.
    apply bind_Ret_inv in Hr as ([]&t4&Hd&Hr). apply disarms_inv in Hd as (e4&Hd&->). injection Hr as <- <-.
    exists x, e4. split; [|done]. by apply (waits_woken _ _ o e1 y e2 c x e3).
  - apply bind_Ret_inv in Hr as ([]&t4&Hd&Hr). apply disarms_inv in Hd as (e4&Hd&->). injection Hr as <- <-.
    eexists _, e4. split; [by apply (waits_refused _ _ o e1 rt y e2)|]. done.
Qed.

(** The timer of a wait does not outlive it. *)
Lemma waits_disarm er e w x e' : waits er e w x e' → ∀ j, io_armed e' j → io_armed e j.
Proof.
  assert (∀ o a b c d, arms a o b → (∀ j, io_armed c j → io_armed b j) → disarms c o d →
    ∀ j, io_armed d j → io_armed a j) as Hod.
  { intros o a b c d Ha Hbc Hd j Hj. destruct Ha as [|i b Hto Hi].
    - inversion Hd; subst. by apply Hbc.
    - inversion Hd as [|? ? Hc]; subst. destruct (law_disarm _ _ _ Hc _ Hj) as [Hne Hj'].
      destruct (law_arm _ _ _ _ _ _ Hi j (Hbc _ Hj')); done. }
  intros [o e1 rt y e2 e3 Hp Ha He Hrt Hd|o e1 y e2 c z e3 e4 Hp Ha He Hy Hd].
  - eapply Hod; [exact Ha| |exact Hd]. by eapply law_event.
  - eapply Hod; [exact Ha| |exact Hd]. intros j Hj. eapply law_event; [exact He|]. by eapply law_yield.
Qed.
End waiting.

Section blocking.
Context {E : Type} `{KernelOps E} `{WaitLaws E} (fn : M E (Z * Z)) (fd event to : Z).
Abbreviation T := (thread E).

Lemma eintr_none fuel (t : T) n : n ≠ -1 ∨ t_errno t ≠ EINTR → eintr_loop fuel fn n t = Ret tt t.
Proof.
  intros Hn. destruct fuel; cbn [eintr_loop]; rewrite bind_gets;
    (destruct ((n =? -1) && (t_errno t =? EINTR)) eqn:Eb; [|done]);
    apply andb_true_iff in Eb as [->%Z.eqb_eq Ee%Z.eqb_eq]; by destruct Hn.
Qed.

(** One round of [retry] when [fn] is not interrupted. *)
Lemma retry_round f (t : T) n x e :
  fn (t_env t) = Ret (n, x) e → n ≠ -1 ∨ x ≠ EINTR →
  let t1 := Thread (t_hook_enable t) (if n =? -1 then x else t_errno t) (t_fds t) e in
  retry (S f) fn fd event to t =
    (if (n =? -1) && (x =? EAGAIN) then
       (w ← wait_event fd event to;
        match w with
        | Refused => mret (-1)
        | Woken c => if negb (c =? 0) then set_errno c;; mret (-1) else retry f fn fd event to
        end) t1
     else Ret n t1).
Proof.
  intros Hf Hn t1. cbn [retry]. mstep (call_eq fn t n x e Hf). fold t1.
  assert (n ≠ -1 ∨ t_errno t1 ≠ EINTR) as Hn1.
  { destruct (Z.eqb_spec n (-1)) as [->|]; [|by left]. destruct Hn as [?|?]; [done|by right]. }
  mstep (eintr_none (S f) t1 n Hn1). rewrite bind_gets. subst t1.
  cbn [t_errno]. destruct (n =? -1); [|done]. simpl. by destruct (x =? EAGAIN).
Qed.

Lemma retry_answers k er e n x e' : answers fn fd event to k er e n x e' →
  ∀ f b l, retry (S k + f) fn fd event to (Thread b er l e) = Ret n (Thread b x l e').
Proof.
  induction 1 as [er e n x e' Hf Hn|er e x e' Hf Hx1 Hx2|er e e1 x e2 Hf Hw|er e e1 c x e2 Hf Hw Hc
    |k er e e1 y e2 n x e3 Hf Hw _ IH]; intros f b l; cbn [Nat.add].
  1: { rewrite (retry_round _ _ n x e') by (done || by left). by rewrite (proj2 (Z.eqb_neq n (-1))). }
  1: { rewrite (retry_round _ _ (-1) x e') by (done || by right). rewrite Z.eqb_refl.
    by rewrite (proj2 (Z.eqb_neq x EAGAIN)). }
  all: rewrite (retry_round _ _ (-1) EAGAIN e1) by (done || by right); simpl;
    mstep (wait_event_spec fd event to (Thread b EAGAIN l e1) _ _ _ Hw).
  - done.
  - by rewrite (proj2 (Z.eqb_neq c 0)).
  - simpl. apply IH.
Qed.

Lemma retry_inv fuel (t : T) n t' :
  (∀ e r e', fn e = Ret r e' → r.1 = -1 → r.2 ≠ EINTR) →
  retry fuel fn fd event to t = Ret n t' →
  ∃ k x e', answers fn fd event to k (t_errno t) (t_env t) n x e' ∧ t' = Thread (t_hook_enable t) x (t_fds t) e'.
Proof.
  intros Hint. revert t. induction fuel as [|f IH]; intros t Hr; [done|].
  assert (∃ n1 x1 e1, fn (t_env t) = Ret (n1, x1) e1) as (n1&x1&e1&Hf).
  { cbn [retry] in Hr. apply bind_Ret_inv in Hr as (n1&t1&Hc&_). apply call_inv in Hc as (x1&e1&Hc&_). by eauto. }
  assert (n1 ≠ -1 ∨ x1 ≠ EINTR) as Hn1.
  { destruct (decide (n1 = -1)); [right; by apply (Hint _ _ _ Hf)|by left]. }
  rewrite (retry_round f t n1 x1 e1 Hf Hn1) in Hr.
  destruct (Z.eqb_spec n1 (-1)) as [->|Hne].
  2: { simpl in Hr. injection Hr as <- <-. exists 0%nat, (t_errno t), e1. split; [|done]. by eapply answered. }
  destruct (Z.eqb_spec x1 EAGAIN) as [->|Hne].
  2: { simpl in Hr. injection Hr as <- <-. exists 0%nat, x1, e1. split; [|done]. apply failed; [done| |done].
    by destruct Hn1. }
  simpl in Hr. apply bind_Ret_inv in Hr as (w&t1&Hw&Hr).
  apply wait_event_inv in Hw as (y&e2&Hw&->). simpl in Hw, Hr. destruct w as [|c].
  - injection Hr as <- <-. exists 0%nat, y, e2. split; [|done]. by eapply refused.
  - destruct (Z.eqb_spec c 0) as [->|Hc]; simpl in Hr.
    + apply IH in Hr as (k&x&e'&Ha&->). exists (S k), x, e'. split; [|done]. by eapply answers_later.
    + injection Hr as <- <-. exists 0%nat, c, e2. split; [|done]. by eapply timed_out.
Qed.

Lemma answers_disarm k er e n x e' : answers fn fd event to k er e n x e' →
  (∀ e r e', fn e = Ret r e' → ∀ j, io_armed e' j → io_armed e j) →
  ∀ j, io_armed e' j → io_armed e j.
Proof.
  intros Ha Hfn. induction Ha; intros j Hj; repeat match goal with
    | Hf : fn _ = Ret _ _ |- _ => apply (Hfn _ _ _ Hf)
    | Hw : waits _ _ _ _ _ _ _ _ |- _ => apply (waits_disarm _ _ _ _ _ _ _ _ Hw); clear Hw
    end; auto.
Qed.
End blocking.

(** ** Blocking calls *)

Section blocking_calls.
Context {E : Type} `{KernelLaws E} `{WaitLaws E}.
Abbreviation T := (thread E).

Definition blocking_socket (t : T) (fd : Z) (c : FdCtx) : Prop :=
  fds_ok t ∧ 0 ≤ fd ∧ fd_lookup (t_fds t) fd = Some c ∧
  m_isClosed c = false ∧ m_isSocket c = true ∧ m_userNonblock c = false.

Lemma do_io_retry fuel (t : T) fd c fn event so :
  t_hook_enable t = true → blocking_socket t fd c →
  do_io fuel fd fn event so t = retry fuel fn fd event (getTimeout so c) t.
Proof.
  intros Hh (Hok&Hfd&Hl&Hcl&Hs&Hu). unfold do_io, is_hook_enable. rewrite bind_gets, Hh. cbn [negb].
  mstep (get_false fd t Hok Hfd). by rewrite Hl, Hcl, Hs, Hu.
Qed.


(** The end of a [connect] that had to wait: the socket's pending error. *)
Inductive settled (fd er : Z) (e : E) : Z → Z → E → Prop :=
  | settled_unknown x v e' : k_getsockopt fd SOL_SOCKET 4 e = Ret ((-1, x), v) e' → settled fd er e (-1) x e'
  | settled_ok n x e' : k_getsockopt fd SOL_SOCKET 4 e = Ret ((n, x), 0) e' → n ≠ -1 → settled fd er e 0 er e'
  | settled_error n x v e' : k_getsockopt fd SOL_SOCKET 4 e = Ret ((n, x), v) e' → n ≠ -1 → v ≠ 0 →
      settled fd er e (-1) v e'.

(** The outcomes of a [connect] bounded by [to] milliseconds. *)
Inductive connects (fn : M E (Z * Z)) (fd to er : Z) (e : E) : Z → Z → E → Prop :=
  | connects_now n x e' : fn e = Ret (n, x) e' → n ≠ -1 → connects fn fd to er e n er e'
  | connects_fails x e' : fn e = Ret (-1, x) e' → x ≠ EINPROGRESS → connects fn fd to er e (-1) x e'
  | connects_late e1 c x e2 : fn e = Ret (-1, EINPROGRESS) e1 → waits fd WRITE to EINPROGRESS e1 (Woken c) x e2 → c ≠ 0 →
      connects fn fd to er e (-1) c e2
  | connects_settled e1 w y e2 n x e3 : fn e = Ret (-1, EINPROGRESS) e1 → waits fd WRITE to EINPROGRESS e1 w y e2 →
      w = Refused ∨ w = Woken 0 → settled fd y e2 n x e3 → connects fn fd to er e n x e3.

Lemma settled_run (t : T) fd n x e' : settled fd (t_errno t) (t_env t) n x e' →
  (r ← getsockopt fd SOL_SOCKET 4;
   if r.1 =? -1 then mret (-1) else if r.2 =? 0 then mret 0 else set_errno r.2;; mret (-1)) t =
  Ret n (Thread (t_hook_enable t) x (t_fds t) e').
Proof.
  intros Hs. unfold getsockopt, on_env. cbv [mbind M_bind].
  destruct Hs as [x v e' Hk|n x e' Hk Hn|n x v e' Hk Hn Hv]; rewrite Hk; [done|..];
    simpl; rewrite (proj2 (Z.eqb_neq n (-1))) by done; simpl; rewrite (proj2 (Z.eqb_neq n (-1))) by done; [done|].
  by rewrite (proj2 (Z.eqb_neq v 0)).
Qed.

(** A hooked [connect] on a blocking socket returns what [connects] says: the
    answer of the original function unless that is [EINPROGRESS]; else, once the
    socket is writable, success or the error the socket has pending, and the
    error of the timer when the time is up first.  On a socket the user made
    nonblocking, or with the hook off, it is the original function; on a
    descriptor the manager does not know it fails with [EBADF]. *)
Theorem connect_spec (t : T) fd fn to (Hok : fds_ok t) (Hfd : 0 ≤ fd) :
  (t_hook_enable t = false → connect_with_timeout fd fn to t = call fn t) ∧
  (t_hook_enable t = true →
   match fd_lookup (t_fds t) fd with
   | None => connect_with_timeout fd fn to t = Ret (-1) (Thread true EBADF (t_fds t) (t_env t))
   | Some c =>
       (m_isClosed c = true → connect_with_timeout fd fn to t = Ret (-1) (Thread true EBADF (t_fds t) (t_env t))) ∧
       (m_isClosed c = false → m_isSocket c = false ∨ m_userNonblock c = true →
        connect_with_timeout fd fn to t = call fn t) ∧
       (blocking_socket t fd c → ∀ n x e', connects fn fd to (t_errno t) (t_env t) n x e' →
        connect_with_timeout fd fn to t = Ret n (Thread true x (t_fds t) e'))
   end).
Proof.
  unfold connect_with_timeout, is_hook_enable. rewrite bind_gets. split; [by intros ->|]. intros Hh. rewrite Hh.
  cbn [negb]. mstep (get_false fd t Hok Hfd). destruct (fd_lookup (t_fds t) fd) as [c|] eqn:El.
  2: { unfold set_errno. by rewrite bind_modify, Hh. }
  split; [|split].
  - intros ->. unfold set_errno. by rewrite bind_modify, Hh.
  - intros -> [->| ->]; [done|]. by rewrite orb_true_r.
  - intros (_&_&Hl&Hcl&Hs&Hu) n x e' Hco. rewrite Hcl, Hs, Hu. cbn [negb orb].
    destruct Hco as [n x e' Hf Hn|x e' Hf Hx|e1 c' y e2 Hf Hw Hc'|e1 w y e2 n x e3 Hf Hw Hww Hse];
      mstep (call_eq fn t _ _ _ Hf); rewrite bind_gets, Hh; simpl.
    + rewrite (proj2 (Z.eqb_neq n (-1))) by done. simpl. by destruct (Z.eqb_spec n 0) as [->|].
    + by rewrite (proj2 (Z.eqb_neq x EINPROGRESS)).
    + mstep (wait_event_spec fd WRITE to (Thread true EINPROGRESS (t_fds t) e1) _ _ _ Hw). simpl.
      by rewrite (proj2 (Z.eqb_neq c' 0)).
    + mstep (wait_event_spec fd WRITE to (Thread true EINPROGRESS (t_fds t) e1) _ _ _ Hw). simpl.
      destruct Hww as [->| ->]; simpl;
        exact (settled_run (Thread true y (t_fds t) e2) fd n x e3 Hse).
Qed.
End blocking_calls.

(** ** A scripted environment

    Open descriptors with their flags, all of them sockets; the answers the
    original function will give, the marks the waits will end with, the
    condition timers armed now and the delays of all timers so far. *)
Record world := World {
  w_flags : Z → option N;
  w_answers : list (Z * Z);
  w_waits : list Z;
  w_add : Z;
  w_armed : list Z;
  w_delays : list Z;
  w_soerror : Z
}.

Definition w_set_flags (fl : Z → option N) (w : world) : world :=
  World fl (w_answers w) (w_waits w) (w_add w) (w_armed w) (w_delays w) (w_soerror w).
Definition w_set_armed (l : list Z) (w : world) : world :=
  World (w_flags w) (w_answers w) (w_waits w) (w_add w) l (w_delays w) (w_soerror w).
Definition w_delay (ms : Z) (w : world) : world :=
  World (w_flags w) (w_answers w) (w_waits w) (w_add w) (w_armed w) (w_delays w ++ [ms]) (w_soerror w).
(** The original function. *)
Definition w_call : M world (Z * Z) := λ w,
  match w_answers w with
  | r :: rs => Ret r (World (w_flags w) rs (w_waits w) (w_add w) (w_armed w) (w_delays w) (w_soerror w))
  | [] => Crash Diverges
  end.
Definition w_wait : M world (Z * Z) := λ w,
  match w_waits w with
  | c :: cs => Ret (c, 0) (World (w_flags w) (w_answers w) cs (w_add w) (w_armed w) (w_delays w) (w_soerror w))
  | [] => Crash Diverges
  end.

#[local] Instance world_kernel : KernelOps world := {
  k_fstat fd := gets (λ w, (λ _, true) <$> w_flags w fd);
  k_getfl fd := gets (λ w, match w_flags w fd with Some v => (Z.of_N v, 0) | None => (-1, EBADF) end);
  k_setfl fd a := λ w,
    match w_flags w fd with
    | Some v =>
        Ret (0, 0) (w_set_flags (λ fd', if fd' =? fd then Some (Z.to_N (merge_flags (Z.of_N v) a)) else w_flags w fd') w)
    | None => Ret (-1, EBADF) w
    end;
  k_fcntl _ _ _ := mret (0, 0);
  k_fionbio fd v := λ w,
    match w_flags w fd with
    | Some f =>
        let f' := if v then Z.lor (Z.of_N f) O_NONBLOCK else Z.land (Z.of_N f) (Z.lnot O_NONBLOCK) in
        Ret (0, 0) (w_set_flags (λ fd', if fd' =? fd then Some (Z.to_N f') else w_flags w fd') w)
    | None => Ret (-1, EBADF) w
    end;
  k_setsockopt _ _ _ _ := mret (0, 0);
  k_getsockopt _ _ _ := gets (λ w, ((0, 0), w_soerror w));
  k_socket _ _ _ := w_call;
  k_close fd := λ w, Ret (0, 0) (w_set_flags (λ fd', if fd' =? fd then None else w_flags w fd') w);
  k_sleep _ := mret (0, 0);
  k_usleep _ := mret (0, 0);
  k_nanosleep _ _ := mret (0, 0)
}.

#[local] Instance world_wait : WaitOps world := {
  io_present _ := true;
  io_addTimer ms := modify (w_delay ms);
  io_addConditionTimer to _ _ := λ w,
    let i := Z.of_nat (length (w_delays w)) in Ret i (w_delay to (w_set_armed (i :: w_armed w) w));
  io_cancelTimer i := modify (λ w, w_set_armed (filter (λ j, j ≠ i) (w_armed w)) w);
  io_addEvent _ _ := gets (λ w, (w_add w, EBADF));
  io_yield := w_wait;
  io_cancelAll _ := mret false
}.

Lemma merge_flags_nonneg v a : 0 ≤ v → 0 ≤ merge_flags v a.
Proof.
  intros Hv. unfold merge_flags. apply Z.lor_nonneg. split; apply Z.land_nonneg; [by left|by right].
Qed.

#[local] Program Instance world_laws : KernelLaws world := {
  k_flags w fd := Z.of_N <$> w_flags w fd
}.
Next Obligation. intros. by eexists. Qed.
Next Obligation.
  intros fd w. eexists. split; [reflexivity|]. intros v Hv. destruct (w_flags w fd) as [f|]; [|done].
  simpl in Hv. injection Hv as <-. split; [done|lia].
Qed.
Next Obligation.
  intros fd a w. simpl. destruct (w_flags w fd) as [f|] eqn:Ef; eexists _, _; (split; [reflexivity|]); [|by rewrite Ef].
  simpl. split.
  - intros fd' Hne. by rewrite (proj2 (Z.eqb_neq fd' fd)).
  - intros v [= <-]. split; [done|]. rewrite Z.eqb_refl. simpl. f_equal. apply Z2N.id, merge_flags_nonneg. lia.
Qed.

#[local] Program Instance world_wait_laws : WaitLaws world := {
  io_armed w i := i ∈ w_armed w
}.
Next Obligation. intros to fd ev w i w' [= <- <-] j Hj. simpl in Hj. by apply elem_of_cons in Hj. Qed.
Next Obligation.
  intros i w w' [= <-] j Hj. simpl in Hj. apply list_elem_of_filter in Hj. exact Hj.
Qed.
Next Obligation. by intros fd ev w rt w' [= _ <-] j Hj. Qed.
Next Obligation.
  intros w c w' Hy j Hj. simpl in Hy. unfold w_wait in Hy. destruct (w_waits w); [done|]. by injection Hy as _ <-.
Qed.

Definition no_flags : Z → option N := λ fd, if fd =? 7 then Some 2%N else None.
Definition thread0 (answers : list (Z * Z)) (waits : list Z) : thread world :=
  Thread true 0 new_FdManager (World no_flags answers waits 0 [] [] 0).
(** The thread after [socket] returned the blocking socket 7. *)
Definition with_socket (answers : list (Z * Z)) (waits : list Z) : thread world :=
  match socket 2 1 0 (thread0 ((7, 0) :: answers) waits) with Ret _ t => t | _ => thread0 [] [] end.
Definition observe {A} (r : res (thread world) A) : option (A * Z * list Z * list Z) :=
  match r with
  | Ret a t => Some (a, t_errno t, w_armed (t_env t), w_delays (t_env t))
  | _ => None
  end.

Lemma fd_manager_witness : ∃ c t',
  FdManager_get 100 true (thread0 [] []) = Ret (Some c) t' ∧ m_fd c = 100 ∧ fd_lookup (t_fds t') 100 = Some c.
Proof.
  assert (fds_ok (thread0 [] [])) as Hok by (unfold fds_ok; simpl; lia).
  destruct (fd_manager_is_a_map (thread0 [] []) 100 Hok ltac:(lia)) as (_&_&(c&t'&Hg&_&Hl&_&Hm)&_).
  exists c, t'. split; [exact Hg|]. split; [exact (proj1 Hm)|exact Hl].
Defined.

Lemma with_socket_ok answers waits : fds_ok (with_socket answers waits).
Proof. apply Nat.leb_le. reflexivity. Qed.

(** A user that makes its socket nonblocking sees the flag, and no other change. *)
Lemma fcntl_witness :
  user_flags (with_socket [] []) 7 = Some 2 ∧
  ∃ t', fcntl 7 (F_SETFL O_NONBLOCK) (with_socket [] []) = Ret 0 t' ∧ user_flags t' 7 = Some (2 + O_NONBLOCK).
Proof.
  split; [by vm_compute|].
  assert (sockets_nonblocking (with_socket [] [])) as Hs.
  { intros fd c v Hfd Hl _ Hk. destruct (Z.eqb_spec fd 7) as [->|Hne].
    - vm_compute in Hl, Hk. injection Hl as <-. injection Hk as <-. done.
    - exfalso. revert Hk.
      change (Z.of_N <$> (if fd =? 7 then Some 2050%N else if fd =? 7 then Some 2%N else None) = Some v → False).
      by rewrite (proj2 (Z.eqb_neq fd 7)). }
  destruct (fcntl_transparent (with_socket [] []) 7 O_NONBLOCK 2 (with_socket_ok _ _) ltac:(lia) Hs
    ltac:(by vm_compute)) as (_&t'&Ht&_&_&Hu&_).
  exists t'. split; [exact Ht|]. rewrite Hu. by vm_compute.
Defined.

Definition with_recv_timeout (tv : Z * Z) (answers : list (Z * Z)) (waits : list Z) : thread world :=
  match setsockopt 7 SOL_SOCKET SO_RCVTIMEO tv [] (with_socket answers waits) with
  | Ret _ t => t
  | _ => thread0 [] []
  end.

(** The scripted function, never interrupted. *)
Definition w_steady : M world (Z * Z) := λ w,
  match w_call w with
  | Ret r w' => if (r.1 =? -1) && (r.2 =? EINTR) then Crash Diverges else Ret r w'
  | r => r
  end.

Lemma w_steady_ok (e : world) r e' : w_steady e = Ret r e' →
  (r.1 = -1 → r.2 ≠ EINTR) ∧ ∀ j, io_armed e' j → io_armed e j.
Proof.
  unfold w_steady, w_call. destruct (w_answers e) as [|r' rs]; [done|].
  destruct ((r'.1 =? -1) && (r'.2 =? EINTR)) eqn:Eb; [done|]. intros [= <- <-].
  split; [|done]. intros H1 H2. by rewrite H1, H2 in Eb.
Qed.


(** A connect that has to wait and finds the connection refused. *)
Lemma connect_witness :
  let t := with_socket [(-1, EINPROGRESS)] [0] in
  let e := World (w_flags (t_env t)) (w_answers (t_env t)) (w_waits (t_env t)) 0 [] [] 111 in
  let t1 := Thread true 0 (t_fds t) e in
  ∃ e', connect_with_timeout 7 w_call no_timeout t1 = Ret (-1) (Thread true 111 (t_fds t) e').
Proof.
  intros t e t1. set (fl := w_flags (t_env t)).
  destruct (connect_spec t1 7 w_call no_timeout (with_socket_ok _ _) ltac:(lia)) as (_&Hc).
  specialize (Hc eq_refl). change (fd_lookup (t_fds t1) 7) with
    (Some (mkFdCtx true true true false false 7 no_timeout no_timeout)) in Hc.
  destruct Hc as (_&_&Hc). exists (World fl [] [] 0 [] [] 111). apply Hc.
  - split; [apply Nat.leb_le; reflexivity|]. split; [lia|]. split; [reflexivity|]. done.
  - apply (connects_settled _ _ _ _ _ (World fl [] [0] 0 [] [] 111) (Woken 0) 0 (World fl [] [] 0 [] [] 111));
      [reflexivity| |by right|by eapply settled_error].
    apply (waits_woken _ _ _ _ _ None (World fl [] [0] 0 [] [] 111) EBADF (World fl [] [0] 0 [] [] 111) 0 0 (World fl [] [] 0 [] [] 111));
      [reflexivity| |reflexivity..|].
    + by constructor.
    + by constructor.
Defined.

(** ** What the hooks do at the edges *)

(** After an interrupted read the loop calls again until a call fails for another
    reason, and drops what the calls read: here eight bytes, before it waits and
    reads seven more, which it returns. *)
Example interrupted_read_loses_data :
  observe (hooked_read 5 7 w_call (with_socket [(-1, EINTR); (5, 0); (3, 0); (-1, EAGAIN); (7, 0)] [0])) =
  Some (7, 0, [], []).
Proof. by vm_compute. Qed.

(** If that other reason is an error, the call fails with it. *)
Example interrupted_read_reports_later_error :
  observe (hooked_read 5 7 w_call (with_socket [(-1, EINTR); (5, 0); (-1, 104)] [])) = Some (-1, 104, [], []).
Proof. by vm_compute. Qed.

(** A timeout of zero, "no timeout" for [setsockopt], ends the wait at once. *)
Example zero_timeout_expires :
  observe (hooked_read 5 7 w_call (with_recv_timeout (0, 0) [(-1, EAGAIN); (5, 0)] [ETIMEDOUT])) =
  Some (-1, ETIMEDOUT, [], [0]).
Proof. by vm_compute. Qed.

(** [sleep(4294968)], almost fifty days, sleeps for 704 milliseconds; [nanosleep]
    for 2147484 seconds asks for a timer of 2^64 - 2147483296 milliseconds. *)
Example long_sleeps_wrap :
  observe (sleep 4294968 (thread0 [] [0])) = Some (0, 0, [], [704]) ∧
  observe (nanosleep 2147484 0 (thread0 [] [0])) = Some (0, 0, [], [2 ^ 64 - 2147483296]).
Proof. split; by vm_compute. Qed.

(** [ioctl(fd, FIONBIO, 0)] makes the kernel descriptor of a managed socket
    block: the next hooked read blocks the thread instead of the fiber. *)
Example fionbio_blocks_the_thread :
  match ioctl_fionbio 7 false (with_socket [] []) with
  | Ret _ t => (m_sysNonblock <$> fd_lookup (t_fds t) 7, k_flags (t_env t) 7)
  | _ => (None, None)
  end = (Some true, Some 2).
Proof. by vm_compute. Qed.

(** The configured connect timeout plays no part: no timer is armed. *)
Example connect_without_timeout :
  observe (connect 7 w_call (with_socket [(-1, EINPROGRESS)] [0])) = Some (0, 0, [], []).
Proof. by vm_compute. Qed.

(** A timeout is kept in 64 bits and used as it is, negative ones included. *)
Example negative_timeout :
  observe (hooked_read 5 7 w_call (with_recv_timeout (-1, 0) [(-1, EAGAIN); (5, 0)] [0])) =
  Some (5, 0, [], [2 ^ 64 - 1000]).
Proof. by vm_compute. Qed.
