(* ===== verification/Http.v ===== *)
(** * HTTP messages (megalo/http/http.h, megalo/http/http.cc)

    Requests and responses, their headers and parameters, and how they are
    written out.  The macro tables [HTTP_METHOD_MAP] and [HTTP_STATUS_MAP] are
    the lists [HTTP_METHOD_MAP] and [HTTP_STATUS_MAP] of this file.  A
    [std::map] under [CaseInsensitiveLess] is the list of its elements in
    order.  A status is the number [m_status] holds.  [boost::lexical_cast]
    and [Time2Str] (the C library's [strftime]) are parameters where they are
    used. *)
From S2P Require Import Prelude Bytes Util.

Inductive HttpMethod :=
  | DELETE | GET | HEAD | POST | PUT | CONNECT
  | OPTIONS | TRACE | COPY | LOCK | MKCOL | MOVE
  | PROPFIND | PROPPATCH | SEARCH | UNLOCK | BIND | REBIND
  | UNBIND | ACL | REPORT | MKACTIVITY | CHECKOUT | MERGE
  | MSEARCH | NOTIFY | SUBSCRIBE | UNSUBSCRIBE | PATCH | PURGE
  | MKCALENDAR | LINK | UNLINK | SOURCE | INVALID_METHOD.

#[global] Instance HttpMethod_eq_dec : EqDecision HttpMethod.
Proof. solve_decision. Defined.

(** [XX(num, name, string)]. *)
Definition HTTP_METHOD_MAP : list (Z * HttpMethod * bytes) :=
  [(0, DELETE, str "DELETE");
   (1, GET, str "GET");
   (2, HEAD, str "HEAD");
   (3, POST, str "POST");
   (4, PUT, str "PUT");
   (5, CONNECT, str "CONNECT");
   (6, OPTIONS, str "OPTIONS");
   (7, TRACE, str "TRACE");
   (8, COPY, str "COPY");
   (9, LOCK, str "LOCK");
   (10, MKCOL, str "MKCOL");
   (11, MOVE, str "MOVE");
   (12, PROPFIND, str "PROPFIND");
   (13, PROPPATCH, str "PROPPATCH");
   (14, SEARCH, str "SEARCH");
   (15, UNLOCK, str "UNLOCK");
   (16, BIND, str "BIND");
   (17, REBIND, str "REBIND");
   (18, UNBIND, str "UNBIND");
   (19, ACL, str "ACL");
   (20, REPORT, str "REPORT");
   (21, MKACTIVITY, str "MKACTIVITY");
   (22, CHECKOUT, str "CHECKOUT");
   (23, MERGE, str "MERGE");
   (24, MSEARCH, str "M-SEARCH");
   (25, NOTIFY, str "NOTIFY");
   (26, SUBSCRIBE, str "SUBSCRIBE");
   (27, UNSUBSCRIBE, str "UNSUBSCRIBE");
   (28, PATCH, str "PATCH");
   (29, PURGE, str "PURGE");
   (30, MKCALENDAR, str "MKCALENDAR");
   (31, LINK, str "LINK");
   (32, UNLINK, str "UNLINK");
   (33, SOURCE, str "SOURCE")].

(** The underlying number of an enumerator. *)
Definition method_num (m : HttpMethod) : Z :=
  match m with
  | DELETE => 0
  | GET => 1
  | HEAD => 2
  | POST => 3
  | PUT => 4
  | CONNECT => 5
  | OPTIONS => 6
  | TRACE => 7
  | COPY => 8
  | LOCK => 9
  | MKCOL => 10
  | MOVE => 11
  | PROPFIND => 12
  | PROPPATCH => 13
  | SEARCH => 14
  | UNLOCK => 15
  | BIND => 16
  | REBIND => 17
  | UNBIND => 18
  | ACL => 19
  | REPORT => 20
  | MKACTIVITY => 21
  | CHECKOUT => 22
  | MERGE => 23
  | MSEARCH => 24
  | NOTIFY => 25
  | SUBSCRIBE => 26
  | UNSUBSCRIBE => 27
  | PATCH => 28
  | PURGE => 29
  | MKCALENDAR => 30
  | LINK => 31
  | UNLINK => 32
  | SOURCE => 33
  | INVALID_METHOD => 34
  end.

(** [XX(code, name, desc)], the name left out. *)
Definition HTTP_STATUS_MAP : list (Z * bytes) :=
  [(100, str "Continue");
   (101, str "Switching Protocols");
   (102, str "Processing");
   (200, str "OK");
   (201, str "Created");
   (202, str "Accepted");
   (203, str "Non-Authoritative Information");
   (204, str "No Content");
   (205, str "Reset Content");
   (206, str "Partial Content");
   (207, str "Multi-Status");
   (208, str "Already Reported");
   (226, str "IM Used");
   (300, str "Multiple Choices");
   (301, str "Moved Permanently");
   (302, str "Found");
   (303, str "See Other");
   (304, str "Not Modified");
   (305, str "Use Proxy");
   (307, str "Temporary Redirect");
   (308, str "Permanent Redirect");
   (400, str "Bad Request");
   (401, str "Unauthorized");
   (402, str "Payment Required");
   (403, str "Forbidden");
   (404, str "Not Found");
   (405, str "Method Not Allowed");
   (406, str "Not Acceptable");
   (407, str "Proxy Authentication Required");
   (408, str "Request Timeout");
   (409, str "Conflict");
   (410, str "Gone");
   (411, str "Length Required");
   (412, str "Precondition Failed");
   (413, str "Payload Too Large");
   (414, str "URI Too Long");
   (415, str "Unsupported Media Type");
   (416, str "Range Not Satisfiable");
   (417, str "Expectation Failed");
   (421, str "Misdirected Request");
   (422, str "Unprocessable Entity");
   (423, str "Locked");
   (424, str "Failed Dependency");
   (426, str "Upgrade Required");
   (428, str "Precondition Required");
   (429, str "Too Many Requests");
   (431, str "Request Header Fields Too Large");
   (451, str "Unavailable For Legal Reasons");
   (500, str "Internal Server Error");
   (501, str "Not Implemented");
   (502, str "Bad Gateway");
   (503, str "Service Unavailable");
   (504, str "Gateway Timeout");
   (505, str "HTTP Version Not Supported");
   (506, str "Variant Also Negotiates");
   (507, str "Insufficient Storage");
   (508, str "Loop Detected");
   (510, str "Not Extended");
   (511, str "Network Authentication Required")].

Definition HttpStatus_OK : Z := 200.
Definition HttpStatus_FOUND : Z := 302.

(** [strcmp(a, b) == 0], and [strncmp(a, b, strlen(a)) == 0] where [a] is a
    literal. *)
Definition streq (a b : bytes) : bool := bool_decide (cstr a = cstr b).
Definition strpre (a b : bytes) : bool := bool_decide (take (length a) (cstr b) = a).

Definition StringToHttpMethod (m : bytes) : HttpMethod :=
  match List.find (λ x, streq x.2 m) HTTP_METHOD_MAP with
  | Some x => x.1.2
  | None => INVALID_METHOD
  end.

Definition CharsToHttpMethod (m : bytes) : HttpMethod :=
  match List.find (λ x, strpre x.2 m) HTTP_METHOD_MAP with
  | Some x => x.1.2
  | None => INVALID_METHOD
  end.

(** [s_method_string]. *)
Definition s_method_string : list bytes := map snd HTTP_METHOD_MAP.

Definition HttpMethodToString (m : HttpMethod) : bytes :=
  let idx := method_num m in
  if Z.of_nat (length s_method_string) <=? idx then str "<unknown>"
  else nth (Z.to_nat idx) s_method_string [].

Definition HttpStatusToString (s : Z) : bytes :=
  match List.find (λ x, x.1 =? s) HTTP_STATUS_MAP with
  | Some x => x.2
  | None => str "<unknown"
  end.

(** ** Maps ordered by [CaseInsensitiveLess] *)

Definition CaseInsensitiveLess (lhs rhs : bytes) : bool := strcasecmp lhs rhs <? 0.

Abbreviation MapType := (list (bytes * bytes)).

(** The keys neither is less than the other. *)
Definition same_key (a b : bytes) : bool :=
  negb (CaseInsensitiveLess a b) && negb (CaseInsensitiveLess b a).

Definition map_lower_bound (key : bytes) (m : MapType) : nat :=
  count_while (λ x, CaseInsensitiveLess x.1 key) m.

(** [m.find(key)]; [None] is [m.end()]. *)
Definition map_find (key : bytes) (m : MapType) : option (bytes * bytes) :=
  x ← m !! map_lower_bound key m;
  if CaseInsensitiveLess key x.1 then None else Some x.

(** [m.insert(make_pair(key, val))]: an element already there stays. *)
Definition map_insert (key val : bytes) (m : MapType) : MapType :=
  match map_find key m with
  | Some _ => m
  | None => let i := map_lower_bound key m in take i m ++ (key, val) :: drop i m
  end.

(** [m[key] = val]. *)
Definition map_assign (key val : bytes) (m : MapType) : MapType :=
  match map_find key m with
  | Some x => <[map_lower_bound key m := (x.1, val)]> m
  | None => map_insert key val m
  end.

(** [m.erase(key)]. *)
Definition map_erase (key : bytes) (m : MapType) : MapType :=
  match map_find key m with
  | Some _ => delete (map_lower_bound key m) m
  | None => m
  end.

Definition map_get (key def : bytes) (m : MapType) : bytes :=
  match map_find key m with Some x => x.2 | None => def end.

(** [getAs] and [checkGetAs]; [lexical_cast] gives nothing when it throws. *)
Definition getAs {T} (lexical_cast : bytes → option T) (m : MapType) (key : bytes) (def : T) : T :=
  match map_find key m with
  | None => def
  | Some x => match lexical_cast x.2 with Some v => v | None => def end
  end.
Definition checkGetAs {T} (lexical_cast : bytes → option T) (m : MapType) (key : bytes) (def : T) :
    bool * T :=
  match map_find key m with
  | None => (false, def)
  | Some x => match lexical_cast x.2 with Some v => (true, v) | None => (false, def) end
  end.

(** ** HttpRequest *)

Record HttpRequest := Request {
  m_method : HttpMethod;
  m_version : Z;
  m_close : bool;
  m_websocket : bool;
  m_parseParamFlag : Z;
  m_path : bytes;
  m_query : bytes;
  m_fragment : bytes;
  m_body : bytes;
  m_headers : MapType;
  m_params : MapType;
  m_cookies : MapType
}.

Definition new_HttpRequest (version : Z) (close : bool) : HttpRequest :=
  Request GET version close false 0 (str "/") [] [] [] [] [] [].

Definition setMethod (v : HttpMethod) (r : HttpRequest) : HttpRequest :=
  Request v (m_version r) (m_close r) (m_websocket r) (m_parseParamFlag r) (m_path r) (m_query r) (m_fragment r)
    (m_body r) (m_headers r) (m_params r) (m_cookies r).
Definition setVersion (v : Z) (r : HttpRequest) : HttpRequest :=
  Request (m_method r) v (m_close r) (m_websocket r) (m_parseParamFlag r) (m_path r) (m_query r) (m_fragment r)
    (m_body r) (m_headers r) (m_params r) (m_cookies r).
Definition setClose (v : bool) (r : HttpRequest) : HttpRequest :=
  Request (m_method r) (m_version r) v (m_websocket r) (m_parseParamFlag r) (m_path r) (m_query r) (m_fragment r)
    (m_body r) (m_headers r) (m_params r) (m_cookies r).
Definition setWebsocket (v : bool) (r : HttpRequest) : HttpRequest :=
  Request (m_method r) (m_version r) (m_close r) v (m_parseParamFlag r) (m_path r) (m_query r) (m_fragment r)
    (m_body r) (m_headers r) (m_params r) (m_cookies r).
Definition setParseParamFlag (v : Z) (r : HttpRequest) : HttpRequest :=
  Request (m_method r) (m_version r) (m_close r) (m_websocket r) v (m_path r) (m_query r) (m_fragment r)
    (m_body r) (m_headers r) (m_params r) (m_cookies r).
Definition setPath (v : bytes) (r : HttpRequest) : HttpRequest :=
  Request (m_method r) (m_version r) (m_close r) (m_websocket r) (m_parseParamFlag r) v (m_query r) (m_fragment r)
    (m_body r) (m_headers r) (m_params r) (m_cookies r).
Definition setQuery (v : bytes) (r : HttpRequest) : HttpRequest :=
  Request (m_method r) (m_version r) (m_close r) (m_websocket r) (m_parseParamFlag r) (m_path r) v (m_fragment r)
    (m_body r) (m_headers r) (m_params r) (m_cookies r).
Definition setFragment (v : bytes) (r : HttpRequest) : HttpRequest :=
  Request (m_method r) (m_version r) (m_close r) (m_websocket r) (m_parseParamFlag r) (m_path r) (m_query r) v
    (m_body r) (m_headers r) (m_params r) (m_cookies r).
Definition setBody (v : bytes) (r : HttpRequest) : HttpRequest :=
  Request (m_method r) (m_version r) (m_close r) (m_websocket r) (m_parseParamFlag r) (m_path r) (m_query r) (m_fragment r)
    v (m_headers r) (m_params r) (m_cookies r).
Definition setHeaders (v : MapType) (r : HttpRequest) : HttpRequest :=
  Request (m_method r) (m_version r) (m_close r) (m_websocket r) (m_parseParamFlag r) (m_path r) (m_query r) (m_fragment r)
    (m_body r) v (m_params r) (m_cookies r).
Definition setParams (v : MapType) (r : HttpRequest) : HttpRequest :=
  Request (m_method r) (m_version r) (m_close r) (m_websocket r) (m_parseParamFlag r) (m_path r) (m_query r) (m_fragment r)
    (m_body r) (m_headers r) v (m_cookies r).
Definition setCookies (v : MapType) (r : HttpRequest) : HttpRequest :=
  Request (m_method r) (m_version r) (m_close r) (m_websocket r) (m_parseParamFlag r) (m_path r) (m_query r) (m_fragment r)
    (m_body r) (m_headers r) (m_params r) v.

Definition getHeader (key def : bytes) (r : HttpRequest) : bytes := map_get key def (m_headers r).
Definition setHeader (key val : bytes) (r : HttpRequest) : HttpRequest :=
  setHeaders (map_assign key val (m_headers r)) r.
Definition setParam (key val : bytes) (r : HttpRequest) : HttpRequest :=
  setParams (map_assign key val (m_params r)) r.
Definition setCookie (key val : bytes) (r : HttpRequest) : HttpRequest :=
  setCookies (map_assign key val (m_cookies r)) r.
Definition delHeader (key : bytes) (r : HttpRequest) : HttpRequest :=
  setHeaders (map_erase key (m_headers r)) r.
Definition delParam (key : bytes) (r : HttpRequest) : HttpRequest :=
  setParams (map_erase key (m_params r)) r.
Definition delCookie (key : bytes) (r : HttpRequest) : HttpRequest :=
  setCookies (map_erase key (m_cookies r)) r.

(** [hasHeader(key, val)] and the like: [val] points to a string or is null;
    the result is the answer and what the string holds then. *)
Definition has_in {S} (m : S → MapType) (key : bytes) (val : option bytes) :
    M S (bool * option bytes) :=
  r ← gets m;
  match map_find key r with
  | None => mret (false, val)
  | Some x => _ ← deref val; mret (true, Some x.2)
  end.
Definition hasHeader := has_in m_headers.
Definition hasParam := has_in m_params.
Definition hasCookie := has_in m_cookies.

(** The macro [PARSE_PARAM(str, m, flag, trim)]. *)
Fixpoint find_from (c : Z) (s : bytes) : option nat :=
  match s with
  | [] => None
  | x :: s => if is_chr c x then Some 0%nat else S <$> find_from c s
  end.

(** One round at position [last = pos]; [fuel] bounds the rounds, each of which
    moves [pos] forward. *)
Fixpoint parse_loop (flag : Z) (trim : bytes → bytes) (fuel : nat) (s : bytes) (m : MapType) :
    option MapType :=
  match fuel with
  | 0%nat => None
  | S fuel =>
      match find_from 61 s with
      | None => Some m
      | Some key =>
          let rest := drop key s in
          match find_from flag rest with
          | None =>
              Some (map_insert (trim (take key s)) (UrlDecode (drop 1 rest) true) m)
          | Some pos =>
              parse_loop flag trim fuel (drop (S pos) rest)
                (map_insert (trim (take key s))
                   (UrlDecode (take (pos - 1) (drop 1 rest)) true) m)
          end
      end
  end.

Definition PARSE_PARAM (s : bytes) (flag : Z) (trim : bytes → bytes) (m : MapType) : MapType :=
  default m (parse_loop flag trim (S (length s)) s m).

(** [strcasestr(s, pattern) != nullptr]. *)
Fixpoint has_prefix_nocase (p s : bytes) : bool :=
  match p, s with
  | [], _ => true
  | _ :: _, [] => false
  | x :: p, y :: s => (code (tolower x) =? code (tolower y)) && has_prefix_nocase p s
  end.
Fixpoint contains_nocase (s p : bytes) : bool :=
  has_prefix_nocase p s || match s with [] => false | _ :: s => contains_nocase s p end.
Definition strcasestr (s p : bytes) : bool := contains_nocase (cstr s) (cstr p).

(** [m_parseParamFlag & f] and [m_parseParamFlag |= f]. *)
Definition flag_set (f : Z) (r : HttpRequest) : bool := negb (Z.land (m_parseParamFlag r) f =? 0).
Definition add_flag (f : Z) (r : HttpRequest) : HttpRequest :=
  setParseParamFlag (u8 (Z.lor (m_parseParamFlag r) f)) r.

Definition initQueryParam (r : HttpRequest) : HttpRequest :=
  if flag_set 1 r then r
  else add_flag 1 (setParams (PARSE_PARAM (m_query r) 38 id (m_params r)) r).

Definition initBodyParam (r : HttpRequest) : HttpRequest :=
  if flag_set 2 r then r else
  let content_type := getHeader (str "content-type") [] r in
  if negb (strcasestr content_type (str "application/x-www-form-urlencode")) then add_flag 2 r
  else add_flag 2 (setParams (PARSE_PARAM (m_body r) 38 id (m_params r)) r).

Definition initCookies (r : HttpRequest) : HttpRequest :=
  if flag_set 4 r then r else
  let cookie := getHeader (str "cookie") [] r in
  if bool_decide (cookie = []) then add_flag 4 r
  else add_flag 4 (setCookies (PARSE_PARAM cookie 59 (λ s, Trim s whitespace) (m_cookies r)) r).

Definition initParam (r : HttpRequest) : HttpRequest :=
  initCookies (initBodyParam (initQueryParam r)).

Definition getParam (key def : bytes) : M HttpRequest bytes :=
  modify initQueryParam;; modify initBodyParam;; gets (λ r, map_get key def (m_params r)).
Definition getCookie (key def : bytes) : M HttpRequest bytes :=
  modify initCookies;; gets (λ r, map_get key def (m_cookies r)).

(** The typed getters. *)
Section typed.
Context {T : Type} (lexical_cast : bytes → option T).
Definition checkGetHeaderAs (key : bytes) (def : T) : M HttpRequest (bool * T) :=
  gets (λ r, checkGetAs lexical_cast (m_headers r) key def).
Definition getHeaderAs (key : bytes) (def : T) : M HttpRequest T :=
  gets (λ r, getAs lexical_cast (m_headers r) key def).
Definition checkGetParamAs (key : bytes) (def : T) : M HttpRequest (bool * T) :=
  modify initQueryParam;; modify initBodyParam;;
  gets (λ r, checkGetAs lexical_cast (m_headers r) key def).
Definition getParamAs (key : bytes) (def : T) : M HttpRequest T :=
  modify initQueryParam;; modify initBodyParam;;
  gets (λ r, getAs lexical_cast (m_headers r) key def).
Definition checkGetCookieAs (key : bytes) (def : T) : M HttpRequest (bool * T) :=
  modify initCookies;; gets (λ r, checkGetAs lexical_cast (m_headers r) key def).
Definition getCookieAs (key : bytes) (def : T) : M HttpRequest T :=
  modify initCookies;; gets (λ r, getAs lexical_cast (m_headers r) key def).
End typed.

Definition init (r : HttpRequest) : HttpRequest :=
  let conn := getHeader (str "connection") [] r in
  if bool_decide (conn = []) then r
  else if strcasecmp conn (str "keep-alive") =? 0 then setClose false r
  else setClose true r.

Definition crlf : bytes := [chr 13; chr 10].

(** The header lines of [dump]. *)
Definition dump_headers (websocket : bool) (m : MapType) : bytes :=
  concat (map (λ i : bytes * bytes,
    if negb websocket && (strcasecmp i.1 (str "connection") =? 0) then []
    else i.1 ++ str ": " ++ i.2 ++ crlf) m).

Definition dump_connection (websocket close : bool) : bytes :=
  if negb websocket then
    str "connection: " ++ (if close then str "close" else str "keep-alive") ++ crlf
  else [].

Definition dump_body (body : bytes) : bytes :=
  if negb (bool_decide (body = [])) then
    str "content-length: " ++ show_Z (Z.of_nat (length body)) ++ crlf ++ body
  else crlf.

Definition dump_version (v : Z) : bytes :=
  str "HTTP/" ++ show_Z (Z.shiftr v 4) ++ str "." ++ show_Z (Z.land v 15).

(** [HttpRequest::dump], as the bytes it writes. *)
Definition dump (r : HttpRequest) : bytes :=
  HttpMethodToString (m_method r) ++ str " " ++ m_path r ++
  (if bool_decide (m_query r = []) then [] else str "?") ++ m_query r ++
  (if bool_decide (m_fragment r = []) then [] else str "#") ++ m_fragment r ++
  str " " ++ dump_version (m_version r) ++ crlf ++
  dump_connection (m_websocket r) (m_close r) ++
  dump_headers (m_websocket r) (m_headers r) ++ dump_body (m_body r).

Definition toString (r : HttpRequest) : bytes := dump r.

(** ** HttpResponse *)

Record HttpResponse := Response {
  rs_status : Z;
  rs_version : Z;
  rs_close : bool;
  rs_websocket : bool;
  rs_body : bytes;
  rs_reason : bytes;
  rs_headers : MapType;
  rs_cookies : list bytes
}.

Definition new_HttpResponse (version : Z) (close : bool) : HttpResponse :=
  Response HttpStatus_OK version close false [] [] [] [].

Definition createResponse (r : HttpRequest) : HttpResponse :=
  new_HttpResponse (m_version r) (m_close r).

Definition rs_setStatus (v : Z) (r : HttpResponse) : HttpResponse :=
  Response v (rs_version r) (rs_close r) (rs_websocket r) (rs_body r) (rs_reason r)
    (rs_headers r) (rs_cookies r).
Definition rs_setVersion (v : Z) (r : HttpResponse) : HttpResponse :=
  Response (rs_status r) v (rs_close r) (rs_websocket r) (rs_body r) (rs_reason r)
    (rs_headers r) (rs_cookies r).
Definition rs_setClose (v : bool) (r : HttpResponse) : HttpResponse :=
  Response (rs_status r) (rs_version r) v (rs_websocket r) (rs_body r) (rs_reason r)
    (rs_headers r) (rs_cookies r).
Definition rs_setWebsocket (v : bool) (r : HttpResponse) : HttpResponse :=
  Response (rs_status r) (rs_version r) (rs_close r) v (rs_body r) (rs_reason r)
    (rs_headers r) (rs_cookies r).
Definition rs_setBody (v : bytes) (r : HttpResponse) : HttpResponse :=
  Response (rs_status r) (rs_version r) (rs_close r) (rs_websocket r) v (rs_reason r)
    (rs_headers r) (rs_cookies r).
Definition rs_setReason (v : bytes) (r : HttpResponse) : HttpResponse :=
  Response (rs_status r) (rs_version r) (rs_close r) (rs_websocket r) (rs_body r) v
    (rs_headers r) (rs_cookies r).
Definition rs_setHeaders (v : MapType) (r : HttpResponse) : HttpResponse :=
  Response (rs_status r) (rs_version r) (rs_close r) (rs_websocket r) (rs_body r) (rs_reason r)
    v (rs_cookies r).
Definition rs_addCookie (v : bytes) (r : HttpResponse) : HttpResponse :=
  Response (rs_status r) (rs_version r) (rs_close r) (rs_websocket r) (rs_body r) (rs_reason r)
    (rs_headers r) (rs_cookies r ++ [v]).

Definition rs_getHeader (key def : bytes) (r : HttpResponse) : bytes := map_get key def (rs_headers r).
Definition rs_setHeader (key val : bytes) (r : HttpResponse) : HttpResponse :=
  rs_setHeaders (map_assign key val (rs_headers r)) r.
Definition rs_delHeader (key : bytes) (r : HttpResponse) : HttpResponse :=
  rs_setHeaders (map_erase key (rs_headers r)) r.

Definition rs_dump (r : HttpResponse) : bytes :=
  dump_version (rs_version r) ++ str " " ++ show_Z (rs_status r) ++ str " " ++
  (if bool_decide (rs_reason r = []) then HttpStatusToString (rs_status r) else rs_reason r) ++
  crlf ++ dump_headers (rs_websocket r) (rs_headers r) ++
  concat (map (λ i, str "Set-Cookie: " ++ i ++ crlf) (rs_cookies r)) ++
  dump_connection (rs_websocket r) (rs_close r) ++ dump_body (rs_body r).

Definition setRedirect (uri : bytes) (r : HttpResponse) : HttpResponse :=
  rs_setHeader (str "Location") uri (rs_setStatus HttpStatus_FOUND r).

(** [HttpResponse::setCookie]; [Time2Str] is the time in the C library's
    format. *)
Definition rs_setCookie (Time2Str : Z → bytes → bytes) (key val : bytes) (expired : Z)
    (path domain : bytes) (secure : bool) (r : HttpResponse) : HttpResponse :=
  rs_addCookie (key ++ str "=" ++ val ++
    (if 0 <? expired then
       str ";expired=" ++ Time2Str expired (str "%a, %d %b %Y %H:%M:%S") ++ str " GMT" else []) ++
    (if negb (bool_decide (domain = [])) then str ";domain=" ++ domain else []) ++
    (if negb (bool_decide (path = [])) then str ";path=" ++ path else []) ++
    (if secure then str ";secure" else [])) r.

(** ** The order of keys *)

(** A key as the comparator sees it. *)
Definition fold_key (k : bytes) : list Z := map (λ c, code (tolower c)) (cstr k).

Lemma casecmp_range a : ∀ b, casecmp a b = -1 ∨ casecmp a b = 0 ∨ casecmp a b = 1.
Proof.
  induction a as [|x a IH]; intros [|y b]; simpl; auto.
  destruct (_ <? _); [auto|]. destruct (_ <? _); auto.
Qed.

Lemma casecmp_flip a : ∀ b, casecmp b a = - casecmp a b.
Proof.
  induction a as [|x a IH]; intros [|y b]; simpl; try done.
  destruct (Z.ltb_spec (code (tolower x)) (code (tolower y)));
    destruct (Z.ltb_spec (code (tolower y)) (code (tolower x))); done || lia || apply IH.
Qed.

Lemma casecmp_0 a : ∀ b,
  casecmp a b = 0 ↔ map (λ c, code (tolower c)) a = map (λ c, code (tolower c)) b.
Proof.
  induction a as [|x a IH]; intros [|y b]; simpl; try done.
  destruct (Z.ltb_spec (code (tolower x)) (code (tolower y))); [split; [done|intros [=]; lia]|].
  destruct (Z.ltb_spec (code (tolower y)) (code (tolower x))); [split; [done|intros [=]; lia]|].
  rewrite IH. split; [|by intros [= _ ?]]. intros ->. f_equal. lia.
Qed.

Lemma casecmp_trans a : ∀ b c, casecmp a b = -1 → casecmp b c ≤ 0 → casecmp a c = -1.
Proof.
  induction a as [|x a IH]; intros [|y b] [|z c]; simpl; try done; try lia.
  destruct (Z.ltb_spec (code (tolower x)) (code (tolower y)));
    destruct (Z.ltb_spec (code (tolower y)) (code (tolower z)));
    destruct (Z.ltb_spec (code (tolower x)) (code (tolower z))); try done; try lia;
    destruct (Z.ltb_spec (code (tolower y)) (code (tolower x))); try done; try lia;
    destruct (Z.ltb_spec (code (tolower z)) (code (tolower y))); try done; try lia;
    destruct (Z.ltb_spec (code (tolower z)) (code (tolower x))); try done; try lia.
  apply IH.
Qed.

Lemma less_spec a b : CaseInsensitiveLess a b = true ↔ casecmp (cstr a) (cstr b) = -1.
Proof.
  unfold CaseInsensitiveLess, strcasecmp. rewrite Z.ltb_lt.
  destruct (casecmp_range (cstr a) (cstr b)); lia.
Qed.

Lemma less_trans a b c :
  CaseInsensitiveLess a b = true → CaseInsensitiveLess c b = false → CaseInsensitiveLess a c = true.
Proof.
  rewrite !less_spec. intros Hab Hcb. apply (casecmp_trans _ (cstr b)); [done|].
  rewrite casecmp_flip. destruct (casecmp_range (cstr c) (cstr b)) as [H|H]; [|lia].
  by apply less_spec in H; rewrite H in Hcb.
Qed.

Lemma less_irrefl a : CaseInsensitiveLess a a = false.
Proof.
  apply not_true_is_false. rewrite less_spec.
  assert (casecmp (cstr a) (cstr a) = 0) as -> by (by apply casecmp_0). done.
Qed.

Lemma less_asym a b : CaseInsensitiveLess a b = true → CaseInsensitiveLess b a = false.
Proof.
  intros H. apply not_true_is_false. rewrite less_spec in *. rewrite casecmp_flip. lia.
Qed.

Lemma fold_key_eq a b :
  fold_key a = fold_key b ↔ CaseInsensitiveLess a b = false ∧ CaseInsensitiveLess b a = false.
Proof.
  unfold fold_key. rewrite <- casecmp_0, <- !not_true_iff_false, !less_spec, (casecmp_flip (cstr a)).
  destruct (casecmp_range (cstr a) (cstr b)); lia.
Qed.

(** ** Maps *)

Definition key_less (x y : bytes * bytes) : Prop := CaseInsensitiveLess x.1 y.1 = true.
Definition map_wf (m : MapType) : Prop := StronglySorted key_less m.

Lemma map_split key m :
  map_wf m →
  let i := map_lower_bound key m in
  (∀ x, x ∈ take i m → CaseInsensitiveLess x.1 key = true) ∧
  (∀ x, x ∈ drop i m → CaseInsensitiveLess x.1 key = false).
Proof.
  intros Hs i. split; intros x Hx.
  - pose proof (count_while_take (λ x : bytes * bytes, CaseInsensitiveLess x.1 key) m) as H.
    rewrite Forall_forall in H. by apply H.
  - pose proof (count_while_drop key_less (λ x, CaseInsensitiveLess x.1 key) m Hs) as H.
    rewrite Forall_forall in H. apply H; [|done].
    intros y z _ _ Hyz Hz. eapply less_trans; [exact Hyz|]. by apply less_asym.
Qed.

Lemma map_head_min m x l : map_wf m → m = x :: l → ∀ y, y ∈ l → key_less x y.
Proof. intros Hs -> y Hy. inversion_clear Hs as [|?? _ H]. rewrite Forall_forall in H. by apply H. Qed.

(** [find] gives the element with the same key, if there is one. *)
Lemma map_find_Some key m x :
  map_wf m → map_find key m = Some x ↔ x ∈ m ∧ fold_key x.1 = fold_key key.
Proof.
  intros Hs. destruct (map_split key m Hs) as [Ht Hd]. unfold map_find.
  set (i := map_lower_bound key m) in *. split.
  - destruct (m !! i) as [y|] eqn:Hi; [|done]. simpl.
    destruct (CaseInsensitiveLess key y.1) eqn:Hy; [done|]. intros [= <-].
    split; [by eapply list_elem_of_lookup_2|]. apply fold_key_eq. split; [|done].
    apply Hd. apply list_elem_of_lookup. exists 0%nat. by rewrite lookup_drop, Nat.add_0_r.
  - intros [Hx Hk]. apply fold_key_eq in Hk as [H1 H2].
    rewrite <- (take_drop i m) in Hx. apply elem_of_app in Hx as [Hx|Hx].
    { rewrite (Ht x Hx) in H1. done. }
    destruct (drop i m) as [|y l] eqn:Hdr; [by apply elem_of_nil in Hx|].
    pose proof (lookup_drop m i 0) as Hl. rewrite Hdr, Nat.add_0_r in Hl. rewrite <- Hl. simpl.
    destruct (StronglySorted_take_drop key_less i m Hs) as (_&Hsd&_). rewrite Hdr in Hsd.
    apply elem_of_cons in Hx as [->|Hx]; [by rewrite H2|].
    pose proof (map_head_min _ _ _ Hsd eq_refl x Hx) as Hyx. exfalso.
    assert (CaseInsensitiveLess y.1 key = true) as Hyk by (eapply less_trans; [exact Hyx|done]).
    rewrite (Hd y) in Hyk; [done|by apply elem_of_cons; left].
Qed.

Lemma map_find_None key m :
  map_wf m → map_find key m = None ↔ ∀ x, x ∈ m → fold_key x.1 ≠ fold_key key.
Proof.
  intros Hs. split.
  - intros H x Hx Hk. assert (map_find key m = Some x) by (by apply map_find_Some). congruence.
  - intros H. destruct (map_find key m) as [x|] eqn:E; [|done]. apply map_find_Some in E; [|done].
    by destruct (H x (proj1 E) (proj2 E)).
Qed.

(** Two states of a map with the same elements up to one key agree elsewhere. *)
Lemma map_find_agree key m m' :
  map_wf m → map_wf m' →
  (∀ x, fold_key x.1 = fold_key key → x ∈ m ↔ x ∈ m') → map_find key m = map_find key m'.
Proof.
  intros H H' Hiff. destruct (map_find key m) as [x|] eqn:E.
  - apply map_find_Some in E as [Hx Hk]; [|done]. symmetry. apply map_find_Some; [done|].
    split; [by apply Hiff|done].
  - symmetry. apply map_find_None; [done|]. intros x Hx Hk.
    rewrite map_find_None in E by done. apply (E x); [by apply Hiff|done].
Qed.

Lemma map_insert_wf key val m : map_wf m → map_wf (map_insert key val m).
Proof.
  intros Hs. unfold map_insert. destruct (map_find key m) eqn:E; [done|].
  destruct (map_split key m Hs) as [Ht Hd]. set (i := map_lower_bound key m) in *.
  rewrite map_find_None in E by done.
  destruct (StronglySorted_take_drop key_less i m Hs) as (Hst&Hsd&Htd).
  assert (∀ y, y ∈ drop i m → key_less (key, val) y) as Hgt.
  { intros y Hy. unfold key_less. simpl. apply not_false_iff_true. intros Hf.
    apply (E y); [eapply subseteq_drop; exact Hy|]. apply fold_key_eq. split; [by apply Hd|done]. }
  apply StronglySorted_app. split; [done|]. split.
  - constructor; [done|]. by apply Forall_forall.
  - intros x y Hx [->|Hy]%elem_of_cons; [by apply Ht|by apply Htd].
Qed.

Lemma map_insert_elem key val m x :
  map_find key m = None → x ∈ map_insert key val m ↔ x = (key, val) ∨ x ∈ m.
Proof.
  intros E. unfold map_insert. rewrite E. rewrite elem_of_app, elem_of_cons.
  assert (x ∈ m ↔ x ∈ take (map_lower_bound key m) m ∨ x ∈ drop (map_lower_bound key m) m) as ->
    by (by rewrite <- elem_of_app, take_drop). tauto.
Qed.

(** [insert]: the key's element if there was one, else the new one; the other
    keys are untouched. *)
Lemma map_insert_find key val m k :
  map_wf m →
  map_find k (map_insert key val m) =
    if bool_decide (fold_key k = fold_key key)
    then Some (default (key, val) (map_find key m)) else map_find k m.
Proof.
  intros Hs. destruct (map_find key m) as [y|] eqn:E.
  - unfold map_insert. rewrite E. case_bool_decide as Hk; [|done]. simpl.
    apply map_find_Some in E as [? ?]; [|done]. apply map_find_Some; [done|]. split; [done|congruence].
  - pose proof (map_insert_wf key val m Hs) as Hs'. simpl. case_bool_decide as Hk.
    + apply map_find_Some; [done|]. split; [|done]. apply map_insert_elem; [done|by left].
    + apply map_find_agree; [done..|]. intros x Hx. rewrite map_insert_elem by done.
      split; [|by right]. intros [-> |?]; [|done]. by destruct Hk.
Qed.

Lemma map_find_lookup key m x : map_find key m = Some x → m !! map_lower_bound key m = Some x.
Proof.
  unfold map_find. destruct (m !! _) as [y|]; [|done]. simpl.
  by destruct (CaseInsensitiveLess key y.1).
Qed.

(** A value may change without disturbing the order. *)
Lemma sorted_update i m k v v' :
  m !! i = Some (k, v) → map_wf m → map_wf (<[i := (k, v')]> m).
Proof.
  revert i. induction m as [|x m IH]; intros [|i] Hi Hs; simplify_eq/=; inversion_clear Hs as [|?? Hs' Hx].
  - by constructor.
  - constructor; [by apply (IH i)|]. apply Forall_forall. intros y Hy.
    rewrite Forall_forall in Hx. apply list_elem_of_lookup in Hy as [j Hj].
    destruct (decide (i = j)) as [<-|].
    + rewrite list_lookup_insert_eq in Hj by (by eapply lookup_lt_Some). simplify_eq.
      apply (Hx (k, v)). by eapply list_elem_of_lookup_2.
    + rewrite list_lookup_insert_ne in Hj by done. apply Hx. by eapply list_elem_of_lookup_2.
Qed.

Lemma map_assign_wf key val m : map_wf m → map_wf (map_assign key val m).
Proof.
  intros Hs. unfold map_assign. destruct (map_find key m) as [[k v]|] eqn:E;
    [|by apply map_insert_wf].
  eapply sorted_update; [by apply map_find_lookup|done].
Qed.

Lemma map_assign_find key val m k :
  map_wf m →
  snd <$> map_find k (map_assign key val m) =
    if bool_decide (fold_key k = fold_key key) then Some val else snd <$> map_find k m.
Proof.
  intros Hs. pose proof (map_assign_wf key val m Hs) as Hs'. unfold map_assign in *.
  destruct (map_find key m) as [[k0 v0]|] eqn:E.
  - pose proof (map_find_lookup _ _ _ E) as Hl. apply map_find_Some in E as [_ Hk0]; [|done].
    simpl in *. set (i := map_lower_bound key m) in *. pose proof (lookup_lt_Some _ _ _ Hl) as Hlt.
    case_bool_decide as Hk.
    + assert (map_find k (<[i:=(k0, val)]> m) = Some (k0, val)) as ->; [|done].
      apply map_find_Some; [done|]. simpl. split; [|congruence].
      apply list_elem_of_lookup. exists i. by apply list_lookup_insert_eq.
    + f_equal. apply map_find_agree; [done..|]. intros x Hx. rewrite !list_elem_of_lookup.
      split; intros [j Hj]; exists j; (destruct (decide (i = j)) as [<-|];
        [exfalso|by rewrite list_lookup_insert_ne in * ]).
      * rewrite list_lookup_insert_eq in Hj by done. simplify_eq. simpl in Hx. congruence.
      * simplify_eq. simpl in Hx. congruence.
  - rewrite map_insert_find by done. rewrite E. by case_bool_decide.
Qed.

Lemma map_get_find key def m : map_get key def m = default def (snd <$> map_find key m).
Proof. unfold map_get. by destruct (map_find key m). Qed.

Lemma map_erase_wf key m : map_wf m → map_wf (map_erase key m).
Proof.
  intros Hs. unfold map_erase. destruct (map_find key m); [|done]. by apply StronglySorted_delete.
Qed.

Lemma map_erase_find key m k :
  map_wf m →
  map_find k (map_erase key m) =
    if bool_decide (fold_key k = fold_key key) then None else map_find k m.
Proof.
  intros Hs. pose proof (map_erase_wf key m Hs) as Hs'. unfold map_erase in *.
  destruct (map_find key m) as [y|] eqn:E.
  - pose proof (map_find_lookup _ _ _ E) as Hl.
    assert (NoDup m) as Hnd.
    { eapply (StronglySorted_NoDup key_less); [|done]. intros x Hx. unfold key_less in Hx.
      by rewrite less_irrefl in Hx. }
    assert (∀ x, x ∈ delete (map_lower_bound key m) m ↔ x ∈ m ∧ x ≠ y) as Hel
      by (intros x; by apply elem_of_delete_NoDup).
    assert (E' := E). apply map_find_Some in E' as [_ Hky]; [|done].
    case_bool_decide as Hk.
    + apply map_find_None; [done|]. intros x [Hx Hne]%Hel Hxk.
      assert (map_find key m = Some x) by (apply map_find_Some; [done|split; [done|congruence]]).
      congruence.
    + apply map_find_agree; [done..|]. intros x Hx. rewrite Hel.
      split; [by intros [? _]|]. intros ?. split; [done|]. intros ->. congruence.
  - case_bool_decide as Hk; [|done]. rewrite map_find_None in E |- * by done.
    intros x Hx. rewrite Hk. by apply E.
Qed.

(** ** Query strings *)

Lemma find_from_app c a x b :
  is_chr c x = true → Forall (λ y, is_chr c y = false) a → find_from c (a ++ x :: b) = Some (length a).
Proof.
  intros Hx. induction 1 as [|y a Hy _ IH]; simpl; [by rewrite Hx|]. by rewrite Hy, IH.
Qed.

Lemma find_from_None c s : Forall (λ y, is_chr c y = false) s → find_from c s = None.
Proof. induction 1 as [|y a Hy _ IH]; simpl; [done|]. by rewrite Hy, IH. Qed.

Lemma find_from_lt c s i : find_from c s = Some i → (i < length s)%nat.
Proof.
  revert i. induction s as [|x s IH]; intros i; simpl; [done|].
  destruct (is_chr c x); [intros [= <-]; lia|].
  destruct (find_from c s) as [j|]; [|done]. simpl. intros [= <-]. specialize (IH j eq_refl). lia.
Qed.

(** The rounds of [PARSE_PARAM] end: each moves [pos] past a separator. *)
Lemma parse_loop_total flag trim fuel : ∀ s m,
  (length s < fuel)%nat → is_Some (parse_loop flag trim fuel s m).
Proof.
  induction fuel as [|fuel IH]; intros s m Hf; [lia|]. simpl.
  destruct (find_from 61 s) as [key|] eqn:Hk; [|by eexists].
  destruct (find_from flag (drop key s)) as [pos|] eqn:Hp; [|by eexists].
  apply IH. rewrite !length_drop. apply find_from_lt in Hk. lia.
Qed.

(** The query string of a list of parameters. *)
Fixpoint query_of (flag : byte) (p : bool) (l : list (bytes * bytes)) : bytes :=
  match l with
  | [] => []
  | x :: l =>
      x.1 ++ chr 61 :: UrlEncode x.2 p ++
      match l with [] => [] | _ :: _ => flag :: query_of flag p l end
  end.

Lemma encoded_no_flag p v flag :
  CHAR_IS_UNRESERVED flag = false → is_chr 37 flag = false → is_chr 43 flag = false →
  Forall (λ y, is_chr (code flag) y = false) (UrlEncode v p).
Proof.
  intros H1 H2 H3. apply Forall_forall. intros c Hc. apply not_true_is_false.
  intros Heq%Z.eqb_eq%code_inj. subst c. rewrite UrlEncode_spec in Hc.
  by apply (encode_avoids p v flag) in Hc.
Qed.

Lemma parse_query flag p l : ∀ fuel m,
  CHAR_IS_UNRESERVED flag = false → is_chr 37 flag = false → is_chr 43 flag = false →
  is_chr (code flag) (chr 61) = false → is_chr 61 flag = false →
  Forall (λ x, Forall (λ c, is_chr 61 c = false) x.1) l → (length l < fuel)%nat →
  parse_loop (code flag) id fuel (query_of flag p l) m =
    Some (fold_left (λ m x, map_insert x.1 x.2 m) l m).
Proof.
  induction l as [|[k v] l IH]; intros fuel m H1 H2 H3 H4 H5 Hl Hf.
  { destruct fuel; [simpl in Hf; lia|done]. }
  inversion_clear Hl as [|?? Hk Hl']. destruct fuel as [|fuel]; [simpl in Hf; lia|].
  cbn [query_of fst snd parse_loop fold_left]. simpl in Hk.
  rewrite (find_from_app 61 k (chr 61)) by done. cbv zeta.
  rewrite take_app_length, drop_app_length. cbn [find_from]. rewrite H4.
  pose proof (encoded_no_flag p v flag H1 H2 H3) as Hv.
  assert (UrlDecode (UrlEncode v p) true = v) as Hrt.
  { rewrite UrlDecode_spec, UrlEncode_spec, <- (app_nil_r (encode p v)), decode_encode by done.
    simpl. apply app_nil_r. }
  destruct l as [|x l].
  - rewrite app_nil_r, (find_from_None _ _ Hv). cbn [fmap option_fmap option_map skipn]. by rewrite drop_0, Hrt.
  - rewrite (find_from_app _ _ flag) by (done || (apply Z.eqb_eq; done)). cbn [fmap option_fmap option_map].
    rewrite <- (IH fuel) by (done || (simpl in Hf; simpl; lia)).
    cbn [skipn Nat.sub]. rewrite Nat.sub_0_r, drop_0, take_app_length.
    assert (drop (S (length (UrlEncode v p))) (UrlEncode v p ++ flag :: query_of flag p (x :: l)) =
      query_of flag p (x :: l)) as ->.
    { rewrite (cons_middle flag), app_assoc. apply drop_app_length'.
      rewrite length_app. simpl. lia. }
    by rewrite Hrt.
Qed.

Lemma length_query flag p l : (length l ≤ length (query_of flag p l))%nat.
Proof.
  induction l as [|[k v] l IH]; [done|]. cbn [query_of fst snd].
  rewrite length_app. cbn [length]. rewrite length_app. destruct l; cbn [length] in *; lia.
Qed.

Lemma fold_insert_wf l : ∀ m, map_wf m → map_wf (fold_left (λ m x, map_insert x.1 x.2 m) l m).
Proof. induction l as [|x l IH]; intros m Hm; simpl; [done|]. by apply IH, map_insert_wf. Qed.

(** The value a list of parameters gives a key: that of the first pair with
    the key. *)
Definition first_value (k : bytes) (l : list (bytes * bytes)) : option bytes :=
  snd <$> List.find (λ x, bool_decide (fold_key x.1 = fold_key k)) l.

Lemma fold_insert_find k l : ∀ m, map_wf m →
  snd <$> map_find k (fold_left (λ m x, map_insert x.1 x.2 m) l m) =
  match map_find k m with Some x => Some x.2 | None => first_value k l end.
Proof.
  induction l as [|[k0 v0] l IH]; intros m Hm; simpl.
  { unfold first_value. simpl. by destruct (map_find k m). }
  rewrite IH by (by apply map_insert_wf). rewrite map_insert_find by done. unfold first_value. simpl.
  rewrite (bool_decide_ext (fold_key k = fold_key k0) (fold_key k0 = fold_key k)) by done.
  case_bool_decide as Hk; [|done]. simpl.
  destruct (map_find k0 m) as [y|] eqn:E.
  - apply map_find_Some in E as [Hy Hky]; [|done].
    assert (map_find k m = Some y) as -> by (apply map_find_Some; [done|split; [done|congruence]]). done.
  - assert (map_find k m = None) as ->; [|done]. rewrite map_find_None in E |- * by done.
    intros x Hx. rewrite <- Hk. by apply E.
Qed.

(** ** Properties *)

(** Headers, parameters and cookies behave as maps whose keys ignore case:
    after [setHeader(key, val)] a header is read as [val] under every spelling
    of [key] and as before under the other keys; [delHeader] removes exactly
    that key; and the order of the tree is kept. *)
Theorem header_map_laws (r : HttpRequest) (key val k def : bytes) (Hwf : map_wf (m_headers r)) :
  map_wf (m_headers (setHeader key val r)) ∧ map_wf (m_headers (delHeader key r)) ∧
  getHeader k def (setHeader key val r) =
    (if bool_decide (fold_key k = fold_key key) then val else getHeader k def r) ∧
  getHeader k def (delHeader key r) =
    (if bool_decide (fold_key k = fold_key key) then def else getHeader k def r).
Proof.
  unfold getHeader. split; [by apply map_assign_wf|]. split; [by apply map_erase_wf|]. split.
  - rewrite !map_get_find. unfold setHeader. cbn [m_headers setHeaders].
    rewrite map_assign_find by done. by case_bool_decide.
  - rewrite !map_get_find. unfold delHeader. cbn [m_headers setHeaders].
    rewrite map_erase_find by done. by case_bool_decide.
Qed.

Lemma header_map_laws_witness :
  let r := setHeader (str "Host") (str "a") (new_HttpRequest 17 true) in
  map_wf (m_headers (setHeader (str "HOST") (str "b") r)) ∧
  map_wf (m_headers (delHeader (str "HOST") r)) ∧
  getHeader (str "host") [] (setHeader (str "HOST") (str "b") r) = str "b" ∧
  getHeader (str "host") [] (delHeader (str "HOST") r) = [].
Proof.
  intros r. destruct (header_map_laws r (str "HOST") (str "b") (str "host") []) as (H1&H2&H3&H4).
  - constructor; [constructor|constructor].
  - split; [exact H1|]. split; [exact H2|]. split; [exact H3|exact H4].
Defined.

Lemma PARSE_query p l m :
  Forall (λ x, Forall (λ c, is_chr 61 c = false) x.1) l →
  PARSE_PARAM (query_of (chr 38) p l) 38 id m = fold_left (λ m x, map_insert x.1 x.2 m) l m.
Proof.
  intros Hl. unfold PARSE_PARAM. pose proof (length_query (chr 38) p l) as Hlen.
  pose proof (parse_query (chr 38) p l (S (length (query_of (chr 38) p l))) m
    eq_refl eq_refl eq_refl eq_refl eq_refl Hl ltac:(lia)) as H.
  change (code (chr 38)) with 38 in H. by rewrite H.
Qed.

(** A request without body gets nothing from it, whatever its content type. *)
Lemma initBodyParam_empty r :
  m_body r = [] → flag_set 2 r = false → initBodyParam r = add_flag 2 r.
Proof.
  intros Hb Hf. unfold initBodyParam. rewrite Hf, Hb.
  destruct (negb _); [done|]. unfold PARSE_PARAM. simpl. by destruct r.
Qed.

(** Parameters survive the query string: if the query of a request without
    body is made of pairs [key=value] joined by [&], the keys without [=] and
    the values URL-encoded, then [getParam] returns for each key the value of
    its first pair, and the given default for a key that does not occur; the
    query is parsed only once. *)
Theorem query_params_round_trip (r : HttpRequest) (l : list (bytes * bytes)) (p : bool)
    (k def : bytes) (Hq : m_query r = query_of (chr 38) p l)
    (Hl : Forall (λ x, Forall (λ c, is_chr 61 c = false) x.1) l)
    (Hf : m_parseParamFlag r = 0) (Hp : m_params r = []) (Hb : m_body r = []) :
  ∃ r', getParam k def r = Ret (default def (first_value k l)) r' ∧
    getParam k def r' = Ret (default def (first_value k l)) r'.
Proof.
  set (ps := fold_left (λ m x, map_insert x.1 x.2 m) l []).
  set (r' := setParseParamFlag 3 (setParams ps r)).
  assert (initBodyParam (initQueryParam r) = r') as Hinit.
  { assert (initQueryParam r = setParseParamFlag 1 (setParams ps r)) as ->.
    { unfold initQueryParam, flag_set. rewrite Hf. simpl. rewrite Hq, Hp, PARSE_query by done.
      unfold add_flag. simpl. by rewrite Hf. }
    by rewrite initBodyParam_empty. }
  assert (map_get k def ps = default def (first_value k l)) as Hget.
  { rewrite map_get_find. unfold ps. rewrite fold_insert_find by constructor. done. }
  exists r'. unfold getParam. rewrite !bind_modify. cbv [gets]. rewrite Hinit. split.
  - by rewrite <- Hget.
  - rewrite <- Hget. done.
Qed.

Lemma query_params_witness :
  let l := [(str "name", str "a&b = c"); (str "id", str "7"); (str "NAME", str "x")] in
  let r := setQuery (query_of (chr 38) true l) (new_HttpRequest 17 true) in
  ∃ r', getParam (str "Name") [] r = Ret (default [] (first_value (str "Name") l)) r' ∧
    getParam (str "Name") [] r' = Ret (default [] (first_value (str "Name") l)) r'.
Proof.
  intros l r. apply (query_params_round_trip r l true (str "Name") []); try reflexivity.
  apply (bool_decide_unpack _). vm_compute. reflexivity.
Defined.

Example query_example :
  query_of (chr 38) true [(str "name", str "a&b c"); (str "id", str "7")] = str "name=a%26b+c&id=7".
Proof. vm_compute. reflexivity. Qed.

(** A message with a body is written without the empty line that ends the
    headers. *)
Example dump_with_body :
  toString (setBody (str "x=1") (setMethod POST (new_HttpRequest 17 true))) =
    str "POST / HTTP/1.1" ++ crlf ++ str "connection: close" ++ crlf ++
    str "content-length: 3" ++ crlf ++ str "x=1".
Proof. vm_compute. reflexivity. Qed.

(** [hasHeader] without a string to store to dereferences null when the header
    is there. *)
Example hasHeader_null :
  hasHeader (str "host") None (setHeader (str "Host") (str "a") (new_HttpRequest 17 true)) =
    Crash NullDeref.
Proof. vm_compute. reflexivity. Qed.

(** The typed getter of a parameter looks in the headers. *)
Example getParamAs_reads_headers :
  (v ← getParamAs Some (str "id") (str "none"); mret v)
    (setQuery (str "id=7") (new_HttpRequest 17 true)) =
  Ret (str "none") (initBodyParam (initQueryParam
    (setQuery (str "id=7") (new_HttpRequest 17 true)))).
Proof. vm_compute. reflexivity. Qed.

(** [CharsToHttpMethod] compares a prefix only. *)
Example method_prefix : CharsToHttpMethod (str "GETX") = GET.
Proof. vm_compute. reflexivity. Qed.

Lemma method_round_trip m :
  m ≠ INVALID_METHOD →
  StringToHttpMethod (HttpMethodToString m) = m ∧ CharsToHttpMethod (HttpMethodToString m) = m.
Proof. destruct m; intros H; (by destruct H) || (vm_compute; done). Qed.
