(* ===== verification/HttpDfa.v ===== *)
(** * The state machine of the request parser (megalo/http/http11_parser.rl.cc)

    The machine Ragel made of http11_parser.rl and the repository compiles: for
    each state the decisions of its [case] on the character [*p], as jumps to a
    state label ([goto stN]) or to an action block ([goto trN]).  A test that no
    branch of an [if] takes falls through to the [goto] after it.  [c] is the
    value of the (signed) [char], [w] that of [_widec], which widens the
    characters the grammar accepts only when [uri_relaxed] is set.  [St 0] is
    the error state, at which [goto st0] leaves the machine.  The states are in
    the order of the file, in groups. *)
From S2P Require Import Prelude.

(** The actions of the grammar. *)
Inductive action :=
  | mark | start_field | write_field | start_value | write_value | request_method
  | request_uri | fragment | start_query | query_string | http_version | request_path
  | done | xml | json.

Inductive jump := St (n : Z) | Tr (k : Z).

(** [_widec]. *)
Definition widec (uri_relaxed : bool) (c : Z) : Z :=
  if c <? 123 then
    (if (94 <=? c) && (c <=? 94) then 128 + (c - -128) + (if uri_relaxed then 256 else 0) else c)
  else if 123 <? c then
    (if (125 <=? c) && (c <=? 125) then 128 + (c - -128) + (if uri_relaxed then 256 else 0) else c)
  else 128 + (c - -128) + (if uri_relaxed then 256 else 0).

(** The blocks [tr0] to [tr235]: the actions, and the state they go to. *)
Definition tr (k : Z) : list action * Z :=
  match k with
  | 0 => ([mark], 2)
  | 2 => ([mark], 194)
  | 3 => ([mark], 198)
  | 4 => ([request_method], 3)
  | 6 => ([mark; request_path; request_uri], 4)
  | 7 => ([mark], 19)
  | 8 => ([mark; request_path; request_uri], 20)
  | 9 => ([mark], 24)
  | 10 => ([mark], 33)
  | 11 => ([mark; request_path], 29)
  | 12 => ([mark], 173)
  | 13 => ([mark], 5)
  | 21 => ([http_version], 13)
  | 22 => ([http_version], 17)
  | 23 => ([start_field], 14)
  | 24 => ([start_field; done], 348)
  | 25 => ([start_field], 18)
  | 27 => ([write_field], 15)
  | 28 => ([start_value], 16)
  | 29 => ([start_value], 15)
  | 30 => ([start_value; write_value], 13)
  | 31 => ([start_value; write_value], 17)
  | 33 => ([write_value], 13)
  | 34 => ([write_value], 17)
  | 36 => ([done], 348)
  | 37 => ([request_path; request_uri], 4)
  | 39 => ([request_path; request_uri], 20)
  | 42 => ([request_path], 29)
  | 43 => ([mark; fragment], 4)
  | 44 => ([mark], 21)
  | 45 => ([mark], 22)
  | 46 => ([fragment], 4)
  | 53 => ([start_query; query_string; request_uri], 4)
  | 54 => ([start_query], 30)
  | 55 => ([start_query; query_string; request_uri], 20)
  | 56 => ([start_query], 31)
  | 57 => ([query_string; request_uri], 4)
  | 59 => ([query_string; request_uri], 20)
  | 203 => ([mark], 26)
  | 204 => ([mark], 27)
  | 224 => ([request_path], 196)
  | 227 => ([xml; done], 349)
  | 228 => ([request_path], 199)
  | 232 => ([mark], 200)
  | 235 => ([json; done], 349)
  | _ => ([], 0)
  end.

(** ** The states *)

Definition states_1 (relaxed : bool) (cs c : Z) : option jump :=
  let w := widec relaxed c in
  match cs with
  | 1 => Some (
      if c =? 60 then Tr 2 else if c =? 64 then Tr 3 else
      if 57 <? c then (if (65 <=? c) && (c <=? 90) then Tr 0 else St 0) else
      if 48 <=? c then Tr 0 else St 0)
  | 2 => Some (
      if c =? 32 then Tr 4 else if 57 <? c then (if (65 <=? c) && (c <=? 90) then St 175 else
      St 0) else if 48 <=? c then St 175 else St 0)
  | 3 => Some (
      if w =? 32 then Tr 6 else if w =? 33 then Tr 7 else if w =? 35 then Tr 8 else
      if w =? 37 then Tr 9 else if w =? 47 then Tr 10 else if w =? 59 then Tr 7 else
      if w =? 61 then Tr 7 else if w =? 63 then Tr 11 else if w =? 64 then Tr 7 else
      if w =? 95 then Tr 7 else if w =? 126 then Tr 7 else if w =? 606 then Tr 7 else
      if w =? 635 then Tr 7 else if w =? 637 then Tr 7 else
      if w <? 65 then (if (36 <=? w) && (w <=? 57) then Tr 7 else St 0) else
      if 90 <? w then (if (97 <=? w) && (w <=? 122) then Tr 12 else St 0) else Tr 12)
  | _ => None
  end.

Definition states_2 (relaxed : bool) (cs c : Z) : option jump :=
  let w := widec relaxed c in
  match cs with
  | 4 => Some (
      if c =? 72 then Tr 13 else St 0)
  | 5 => Some (
      if c =? 84 then St 6 else St 0)
  | 6 => Some (
      if c =? 84 then St 7 else St 0)
  | 7 => Some (
      if c =? 80 then St 8 else St 0)
  | 8 => Some (
      if c =? 47 then St 9 else St 0)
  | 9 => Some (
      if c =? 49 then St 10 else St 0)
  | 10 => Some (
      if c =? 46 then St 11 else St 0)
  | 11 => Some (
      if (48 <=? c) && (c <=? 49) then St 12 else St 0)
  | 12 => Some (
      if c =? 10 then Tr 21 else if c =? 13 then Tr 22 else St 0)
  | 13 => Some (
      if c =? 10 then Tr 24 else if c =? 13 then Tr 25 else if c =? 33 then Tr 23 else
      if c =? 124 then Tr 23 else if c =? 126 then Tr 23 else
      if c <? 42 then (if c <? 11 then (if (1 <=? c) && (c <=? 8) then Tr 23 else St 0) else
      if 31 <? c then (if (35 <=? c) && (c <=? 39) then Tr 23 else St 0) else Tr 23) else
      if 43 <? c then (if c <? 48 then (if (45 <=? c) && (c <=? 46) then Tr 23 else St 0) else
      if 57 <? c then (if 90 <? c then (if (94 <=? c) && (c <=? 122) then Tr 23 else St 0)
      else if 65 <=? c then Tr 23 else St 0) else Tr 23) else Tr 23)
  | _ => None
  end.

Definition states_3 (relaxed : bool) (cs c : Z) : option jump :=
  let w := widec relaxed c in
  match cs with
  | 14 => Some (
      if c =? 33 then St 14 else if c =? 58 then Tr 27 else if c =? 124 then St 14 else
      if c =? 126 then St 14 else
      if c <? 42 then (if c <? 10 then (if (1 <=? c) && (c <=? 8) then St 14 else St 0) else
      if 31 <? c then (if (35 <=? c) && (c <=? 39) then St 14 else St 0) else St 14) else
      if 43 <? c then (if c <? 48 then (if (45 <=? c) && (c <=? 46) then St 14 else St 0) else
      if 57 <? c then (if 90 <? c then (if (94 <=? c) && (c <=? 122) then St 14 else St 0)
      else if 65 <=? c then St 14 else St 0) else St 14) else St 14)
  | 15 => Some (
      if c =? 0 then St 0 else if c =? 9 then Tr 29 else if c =? 10 then Tr 30 else
      if c =? 13 then Tr 31 else if c =? 32 then Tr 29 else if c =? 127 then St 0 else Tr 28)
  | 16 => Some (
      if c =? 0 then St 0 else if c =? 10 then Tr 33 else if c =? 13 then Tr 34 else
      if c =? 127 then St 0 else St 16)
  | 17 => Some (
      if c =? 10 then St 13 else St 0)
  | _ => None
  end.

Definition states_4 (relaxed : bool) (cs c : Z) : option jump :=
  let w := widec relaxed c in
  match cs with
  | 348 => Some (
      if c =? 33 then St 14 else if c =? 58 then Tr 27 else if c =? 124 then St 14 else
      if c =? 126 then St 14 else
      if c <? 42 then (if c <? 10 then (if (1 <=? c) && (c <=? 8) then St 14 else St 0) else
      if 31 <? c then (if (35 <=? c) && (c <=? 39) then St 14 else St 0) else St 14) else
      if 43 <? c then (if c <? 48 then (if (45 <=? c) && (c <=? 46) then St 14 else St 0) else
      if 57 <? c then (if 90 <? c then (if (94 <=? c) && (c <=? 122) then St 14 else St 0)
      else if 65 <=? c then St 14 else St 0) else St 14) else St 14)
  | 18 => Some (
      if c =? 10 then Tr 36 else if c =? 33 then St 14 else if c =? 58 then Tr 27 else
      if c =? 124 then St 14 else if c =? 126 then St 14 else
      if c <? 42 then (if c <? 11 then (if (1 <=? c) && (c <=? 8) then St 14 else St 0) else
      if 31 <? c then (if (35 <=? c) && (c <=? 39) then St 14 else St 0) else St 14) else
      if 43 <? c then (if c <? 48 then (if (45 <=? c) && (c <=? 46) then St 14 else St 0) else
      if 57 <? c then (if 90 <? c then (if (94 <=? c) && (c <=? 122) then St 14 else St 0)
      else if 65 <=? c then St 14 else St 0) else St 14) else St 14)
  | 19 => Some (
      if w =? 32 then Tr 37 else if w =? 33 then St 19 else if w =? 35 then Tr 39 else
      if w =? 37 then St 24 else if w =? 47 then St 26 else if w =? 59 then St 19 else
      if w =? 61 then St 19 else if w =? 63 then Tr 42 else if w =? 95 then St 19 else
      if w =? 126 then St 19 else if w =? 606 then St 19 else if w =? 635 then St 19 else
      if w =? 637 then St 19 else if w <? 64 then (if (36 <=? w) && (w <=? 57) then St 19 else
      St 0) else if 90 <? w then (if (97 <=? w) && (w <=? 122) then St 19 else St 0) else
      St 19)
  | _ => None
  end.

Definition states_5 (relaxed : bool) (cs c : Z) : option jump :=
  let w := widec relaxed c in
  match cs with
  | 20 => Some (
      if w =? 32 then Tr 43 else if w =? 33 then Tr 44 else if w =? 37 then Tr 45 else
      if w =? 61 then Tr 44 else if w =? 95 then Tr 44 else if w =? 126 then Tr 44 else
      if w =? 606 then Tr 44 else if w =? 635 then Tr 44 else if w =? 637 then Tr 44 else
      if w <? 63 then (if (36 <=? w) && (w <=? 59) then Tr 44 else St 0) else
      if 90 <? w then (if (97 <=? w) && (w <=? 122) then Tr 44 else St 0) else Tr 44)
  | 21 => Some (
      if w =? 32 then Tr 46 else if w =? 33 then St 21 else if w =? 37 then St 22 else
      if w =? 61 then St 21 else if w =? 95 then St 21 else if w =? 126 then St 21 else
      if w =? 606 then St 21 else if w =? 635 then St 21 else if w =? 637 then St 21 else
      if w <? 63 then (if (36 <=? w) && (w <=? 59) then St 21 else St 0) else
      if 90 <? w then (if (97 <=? w) && (w <=? 122) then St 21 else St 0) else St 21)
  | 22 => Some (
      if c <? 65 then (if (48 <=? c) && (c <=? 57) then St 23 else St 0) else
      if 70 <? c then (if (97 <=? c) && (c <=? 102) then St 23 else St 0) else St 23)
  | 23 => Some (
      if c <? 65 then (if (48 <=? c) && (c <=? 57) then St 21 else St 0) else
      if 70 <? c then (if (97 <=? c) && (c <=? 102) then St 21 else St 0) else St 21)
  | 24 => Some (
      if c <? 65 then (if (48 <=? c) && (c <=? 57) then St 25 else St 0) else
      if 70 <? c then (if (97 <=? c) && (c <=? 102) then St 25 else St 0) else St 25)
  | _ => None
  end.

Definition states_6 (relaxed : bool) (cs c : Z) : option jump :=
  let w := widec relaxed c in
  match cs with
  | 25 => Some (
      if c <? 65 then (if (48 <=? c) && (c <=? 57) then St 19 else St 0) else
      if 70 <? c then (if (97 <=? c) && (c <=? 102) then St 19 else St 0) else St 19)
  | 26 => Some (
      if w =? 32 then Tr 37 else if w =? 33 then St 26 else if w =? 35 then Tr 39 else
      if w =? 37 then St 27 else if w =? 61 then St 26 else if w =? 63 then Tr 42 else
      if w =? 95 then St 26 else if w =? 126 then St 26 else if w =? 606 then St 26 else
      if w =? 635 then St 26 else if w =? 637 then St 26 else
      if w <? 64 then (if (36 <=? w) && (w <=? 59) then St 26 else St 0) else
      if 90 <? w then (if (97 <=? w) && (w <=? 122) then St 26 else St 0) else St 26)
  | 27 => Some (
      if c <? 65 then (if (48 <=? c) && (c <=? 57) then St 28 else St 0) else
      if 70 <? c then (if (97 <=? c) && (c <=? 102) then St 28 else St 0) else St 28)
  | 28 => Some (
      if c <? 65 then (if (48 <=? c) && (c <=? 57) then St 26 else St 0) else
      if 70 <? c then (if (97 <=? c) && (c <=? 102) then St 26 else St 0) else St 26)
  | _ => None
  end.

Definition states_7 (relaxed : bool) (cs c : Z) : option jump :=
  let w := widec relaxed c in
  match cs with
  | 29 => Some (
      if w =? 32 then Tr 53 else if w =? 33 then Tr 54 else if w =? 35 then Tr 55 else
      if w =? 37 then Tr 56 else if w =? 61 then Tr 54 else if w =? 95 then Tr 54 else
      if w =? 126 then Tr 54 else if w =? 606 then Tr 54 else if w =? 635 then Tr 54 else
      if w =? 637 then Tr 54 else if w <? 63 then (if (36 <=? w) && (w <=? 59) then Tr 54 else
      St 0) else if 90 <? w then (if (97 <=? w) && (w <=? 122) then Tr 54 else St 0) else
      Tr 54)
  | 30 => Some (
      if w =? 32 then Tr 57 else if w =? 33 then St 30 else if w =? 35 then Tr 59 else
      if w =? 37 then St 31 else if w =? 61 then St 30 else if w =? 95 then St 30 else
      if w =? 126 then St 30 else if w =? 606 then St 30 else if w =? 635 then St 30 else
      if w =? 637 then St 30 else if w <? 63 then (if (36 <=? w) && (w <=? 59) then St 30 else
      St 0) else if 90 <? w then (if (97 <=? w) && (w <=? 122) then St 30 else St 0) else
      St 30)
  | 31 => Some (
      if c <? 65 then (if (48 <=? c) && (c <=? 57) then St 32 else St 0) else
      if 70 <? c then (if (97 <=? c) && (c <=? 102) then St 32 else St 0) else St 32)
  | 32 => Some (
      if c <? 65 then (if (48 <=? c) && (c <=? 57) then St 30 else St 0) else
      if 70 <? c then (if (97 <=? c) && (c <=? 102) then St 30 else St 0) else St 30)
  | _ => None
  end.

Definition states_8 (relaxed : bool) (cs c : Z) : option jump :=
  let w := widec relaxed c in
  match cs with
  | 33 => Some (
      if w =? 32 then Tr 37 else if w =? 33 then St 26 else if w =? 35 then Tr 39 else
      if w =? 37 then St 27 else if w =? 47 then St 34 else if w =? 61 then St 26 else
      if w =? 63 then Tr 42 else if w =? 95 then St 26 else if w =? 126 then St 26 else
      if w =? 606 then St 26 else if w =? 635 then St 26 else if w =? 637 then St 26 else
      if w <? 64 then (if (36 <=? w) && (w <=? 59) then St 26 else St 0) else
      if 90 <? w then (if (97 <=? w) && (w <=? 122) then St 26 else St 0) else St 26)
  | 34 => Some (
      if w =? 32 then Tr 37 else if w =? 33 then St 35 else if w =? 35 then Tr 39 else
      if w =? 37 then St 36 else if w =? 47 then St 26 else if w =? 58 then St 38 else
      if w =? 61 then St 35 else if w =? 63 then Tr 42 else if w =? 64 then St 42 else
      if w =? 91 then St 47 else if w =? 95 then St 35 else if w =? 126 then St 35 else
      if w =? 606 then St 35 else if w =? 635 then St 35 else if w =? 637 then St 35 else
      if w <? 65 then (if (36 <=? w) && (w <=? 59) then St 35 else St 0) else
      if 90 <? w then (if (97 <=? w) && (w <=? 122) then St 35 else St 0) else St 35)
  | 35 => Some (
      if w =? 32 then Tr 37 else if w =? 33 then St 35 else if w =? 35 then Tr 39 else
      if w =? 37 then St 36 else if w =? 47 then St 26 else if w =? 58 then St 38 else
      if w =? 61 then St 35 else if w =? 63 then Tr 42 else if w =? 64 then St 42 else
      if w =? 95 then St 35 else if w =? 126 then St 35 else if w =? 606 then St 35 else
      if w =? 635 then St 35 else if w =? 637 then St 35 else
      if w <? 65 then (if (36 <=? w) && (w <=? 59) then St 35 else St 0) else
      if 90 <? w then (if (97 <=? w) && (w <=? 122) then St 35 else St 0) else St 35)
  | _ => None
  end.

Definition states_9 (relaxed : bool) (cs c : Z) : option jump :=
  let w := widec relaxed c in
  match cs with
  | 36 => Some (
      if c <? 65 then (if (48 <=? c) && (c <=? 57) then St 37 else St 0) else
      if 70 <? c then (if (97 <=? c) && (c <=? 102) then St 37 else St 0) else St 37)
  | 37 => Some (
      if c <? 65 then (if (48 <=? c) && (c <=? 57) then St 35 else St 0) else
      if 70 <? c then (if (97 <=? c) && (c <=? 102) then St 35 else St 0) else St 35)
  | 38 => Some (
      if w =? 32 then Tr 37 else if w =? 33 then St 39 else if w =? 35 then Tr 39 else
      if w =? 37 then St 40 else if w =? 47 then St 26 else if w =? 61 then St 39 else
      if w =? 63 then Tr 42 else if w =? 64 then St 42 else if w =? 95 then St 39 else
      if w =? 126 then St 39 else if w =? 606 then St 39 else if w =? 635 then St 39 else
      if w =? 637 then St 39 else
      if w <? 58 then (if 46 <? w then (if (48 <=? w) && (w <=? 57) then St 38 else St 0) else
      if 36 <=? w then St 39 else St 0) else
      if 59 <? w then (if 90 <? w then (if (97 <=? w) && (w <=? 122) then St 39 else St 0)
      else if 65 <=? w then St 39 else St 0) else St 39)
  | 39 => Some (
      if w =? 33 then St 39 else if w =? 37 then St 40 else if w =? 61 then St 39 else
      if w =? 64 then St 42 else if w =? 95 then St 39 else if w =? 126 then St 39 else
      if w =? 606 then St 39 else if w =? 635 then St 39 else if w =? 637 then St 39 else
      if w <? 48 then (if (36 <=? w) && (w <=? 46) then St 39 else St 0) else
      if 59 <? w then (if 90 <? w then (if (97 <=? w) && (w <=? 122) then St 39 else St 0)
      else if 65 <=? w then St 39 else St 0) else St 39)
  | 40 => Some (
      if c <? 65 then (if (48 <=? c) && (c <=? 57) then St 41 else St 0) else
      if 70 <? c then (if (97 <=? c) && (c <=? 102) then St 41 else St 0) else St 41)
  | _ => None
  end.

Definition states_10 (relaxed : bool) (cs c : Z) : option jump :=
  let w := widec relaxed c in
  match cs with
  | 41 => Some (
      if c <? 65 then (if (48 <=? c) && (c <=? 57) then St 39 else St 0) else
      if 70 <? c then (if (97 <=? c) && (c <=? 102) then St 39 else St 0) else St 39)
  | 42 => Some (
      if w =? 32 then Tr 37 else if w =? 33 then St 43 else if w =? 35 then Tr 39 else
      if w =? 37 then St 44 else if w =? 47 then St 26 else if w =? 58 then St 46 else
      if w =? 61 then St 43 else if w =? 63 then Tr 42 else if w =? 91 then St 47 else
      if w =? 95 then St 43 else if w =? 126 then St 43 else if w =? 606 then St 43 else
      if w =? 635 then St 43 else if w =? 637 then St 43 else
      if w <? 65 then (if (36 <=? w) && (w <=? 59) then St 43 else St 0) else
      if 90 <? w then (if (97 <=? w) && (w <=? 122) then St 43 else St 0) else St 43)
  | 43 => Some (
      if w =? 32 then Tr 37 else if w =? 33 then St 43 else if w =? 35 then Tr 39 else
      if w =? 37 then St 44 else if w =? 47 then St 26 else if w =? 58 then St 46 else
      if w =? 61 then St 43 else if w =? 63 then Tr 42 else if w =? 95 then St 43 else
      if w =? 126 then St 43 else if w =? 606 then St 43 else if w =? 635 then St 43 else
      if w =? 637 then St 43 else if w <? 65 then (if (36 <=? w) && (w <=? 59) then St 43 else
      St 0) else if 90 <? w then (if (97 <=? w) && (w <=? 122) then St 43 else St 0) else
      St 43)
  | 44 => Some (
      if c <? 65 then (if (48 <=? c) && (c <=? 57) then St 45 else St 0) else
      if 70 <? c then (if (97 <=? c) && (c <=? 102) then St 45 else St 0) else St 45)
  | 45 => Some (
      if c <? 65 then (if (48 <=? c) && (c <=? 57) then St 43 else St 0) else
      if 70 <? c then (if (97 <=? c) && (c <=? 102) then St 43 else St 0) else St 43)
  | 46 => Some (
      if c =? 32 then Tr 37 else if c =? 35 then Tr 39 else if c =? 47 then St 26 else
      if c =? 63 then Tr 42 else if (48 <=? c) && (c <=? 57) then St 46 else St 0)
  | _ => None
  end.

Definition states_11 (relaxed : bool) (cs c : Z) : option jump :=
  let w := widec relaxed c in
  match cs with
  | 47 => Some (
      if c =? 6 then St 48 else if c =? 58 then St 167 else if c =? 118 then St 169 else
      if c <? 65 then (if (48 <=? c) && (c <=? 57) then St 91 else St 0) else
      if 70 <? c then (if (97 <=? c) && (c <=? 102) then St 91 else St 0) else St 91)
  | 48 => Some (
      if c <? 65 then (if (48 <=? c) && (c <=? 57) then St 49 else St 0) else
      if 70 <? c then (if (97 <=? c) && (c <=? 102) then St 49 else St 0) else St 49)
  | 49 => Some (
      if c =? 58 then St 53 else if c <? 65 then (if (48 <=? c) && (c <=? 57) then St 50 else
      St 0) else if 70 <? c then (if (97 <=? c) && (c <=? 102) then St 50 else St 0) else
      St 50)
  | 50 => Some (
      if c =? 58 then St 53 else if c <? 65 then (if (48 <=? c) && (c <=? 57) then St 51 else
      St 0) else if 70 <? c then (if (97 <=? c) && (c <=? 102) then St 51 else St 0) else
      St 51)
  | 51 => Some (
      if c =? 58 then St 53 else if c <? 65 then (if (48 <=? c) && (c <=? 57) then St 52 else
      St 0) else if 70 <? c then (if (97 <=? c) && (c <=? 102) then St 52 else St 0) else
      St 52)
  | 52 => Some (
      if c =? 58 then St 53 else St 0)
  | 53 => Some (
      if c =? 49 then St 84 else if c =? 50 then St 87 else
      if c <? 65 then (if (48 <=? c) && (c <=? 57) then St 54 else St 0) else
      if 70 <? c then (if (97 <=? c) && (c <=? 102) then St 90 else St 0) else St 90)
  | 54 => Some (
      if c =? 46 then St 55 else if c =? 58 then St 80 else
      if c <? 65 then (if (48 <=? c) && (c <=? 57) then St 77 else St 0) else
      if 70 <? c then (if (97 <=? c) && (c <=? 102) then St 77 else St 0) else St 77)
  | 55 => Some (
      if c =? 49 then St 72 else if c =? 50 then St 74 else
      if (48 <=? c) && (c <=? 57) then St 56 else St 0)
  | 56 => Some (
      if c =? 46 then St 57 else St 0)
  | 57 => Some (
      if c =? 49 then St 67 else if c =? 50 then St 69 else
      if (48 <=? c) && (c <=? 57) then St 58 else St 0)
  | 58 => Some (
      if c =? 46 then St 59 else St 0)
  | _ => None
  end.

Definition states_12 (relaxed : bool) (cs c : Z) : option jump :=
  let w := widec relaxed c in
  match cs with
  | 59 => Some (
      if c =? 49 then St 62 else if c =? 50 then St 64 else
      if (48 <=? c) && (c <=? 57) then St 60 else St 0)
  | 60 => Some (
      if c =? 93 then St 61 else St 0)
  | 61 => Some (
      if c =? 32 then Tr 37 else if c =? 35 then Tr 39 else if c =? 47 then St 26 else
      if c =? 58 then St 46 else if c =? 63 then Tr 42 else St 0)
  | 62 => Some (
      if c =? 93 then St 61 else if (48 <=? c) && (c <=? 57) then St 63 else St 0)
  | 63 => Some (
      if c =? 93 then St 61 else if (48 <=? c) && (c <=? 57) then St 60 else St 0)
  | 64 => Some (
      if c =? 48 then St 65 else if c =? 53 then St 66 else if c =? 93 then St 61 else St 0)
  | 65 => Some (
      if (48 <=? c) && (c <=? 57) then St 60 else St 0)
  | 66 => Some (
      if c =? 48 then St 60 else St 0)
  | 67 => Some (
      if c =? 46 then St 59 else if (48 <=? c) && (c <=? 57) then St 68 else St 0)
  | 68 => Some (
      if c =? 46 then St 59 else if (48 <=? c) && (c <=? 57) then St 58 else St 0)
  | 69 => Some (
      if c =? 46 then St 59 else if c =? 48 then St 70 else if c =? 53 then St 71 else St 0)
  | 70 => Some (
      if (48 <=? c) && (c <=? 57) then St 58 else St 0)
  | 71 => Some (
      if c =? 48 then St 58 else St 0)
  | 72 => Some (
      if c =? 46 then St 57 else if (48 <=? c) && (c <=? 57) then St 73 else St 0)
  | 73 => Some (
      if c =? 46 then St 57 else if (48 <=? c) && (c <=? 57) then St 56 else St 0)
  | 74 => Some (
      if c =? 46 then St 57 else if c =? 48 then St 75 else if c =? 53 then St 76 else St 0)
  | 75 => Some (
      if (48 <=? c) && (c <=? 57) then St 56 else St 0)
  | _ => None
  end.

Definition states_13 (relaxed : bool) (cs c : Z) : option jump :=
  let w := widec relaxed c in
  match cs with
  | 76 => Some (
      if c =? 48 then St 56 else St 0)
  | 77 => Some (
      if c =? 58 then St 80 else if c <? 65 then (if (48 <=? c) && (c <=? 57) then St 78 else
      St 0) else if 70 <? c then (if (97 <=? c) && (c <=? 102) then St 78 else St 0) else
      St 78)
  | 78 => Some (
      if c =? 58 then St 80 else if c <? 65 then (if (48 <=? c) && (c <=? 57) then St 79 else
      St 0) else if 70 <? c then (if (97 <=? c) && (c <=? 102) then St 79 else St 0) else
      St 79)
  | 79 => Some (
      if c =? 58 then St 80 else St 0)
  | 80 => Some (
      if c <? 65 then (if (48 <=? c) && (c <=? 57) then St 81 else St 0) else
      if 70 <? c then (if (97 <=? c) && (c <=? 102) then St 81 else St 0) else St 81)
  | 81 => Some (
      if c =? 93 then St 61 else if c <? 65 then (if (48 <=? c) && (c <=? 57) then St 82 else
      St 0) else if 70 <? c then (if (97 <=? c) && (c <=? 102) then St 82 else St 0) else
      St 82)
  | 82 => Some (
      if c =? 93 then St 61 else if c <? 65 then (if (48 <=? c) && (c <=? 57) then St 83 else
      St 0) else if 70 <? c then (if (97 <=? c) && (c <=? 102) then St 83 else St 0) else
      St 83)
  | 83 => Some (
      if c =? 93 then St 61 else if c <? 65 then (if (48 <=? c) && (c <=? 57) then St 60 else
      St 0) else if 70 <? c then (if (97 <=? c) && (c <=? 102) then St 60 else St 0) else
      St 60)
  | 84 => Some (
      if c =? 46 then St 55 else if c =? 58 then St 80 else
      if c <? 65 then (if (48 <=? c) && (c <=? 57) then St 85 else St 0) else
      if 70 <? c then (if (97 <=? c) && (c <=? 102) then St 77 else St 0) else St 77)
  | 85 => Some (
      if c =? 46 then St 55 else if c =? 58 then St 80 else
      if c <? 65 then (if (48 <=? c) && (c <=? 57) then St 86 else St 0) else
      if 70 <? c then (if (97 <=? c) && (c <=? 102) then St 78 else St 0) else St 78)
  | 86 => Some (
      if c =? 46 then St 55 else if c =? 58 then St 80 else
      if c <? 65 then (if (48 <=? c) && (c <=? 57) then St 79 else St 0) else
      if 70 <? c then (if (97 <=? c) && (c <=? 102) then St 79 else St 0) else St 79)
  | _ => None
  end.

Definition states_14 (relaxed : bool) (cs c : Z) : option jump :=
  let w := widec relaxed c in
  match cs with
  | 87 => Some (
      if c =? 46 then St 55 else if c =? 48 then St 88 else if c =? 53 then St 89 else
      if c =? 58 then St 80 else if c <? 65 then (if (49 <=? c) && (c <=? 57) then St 77 else
      St 0) else if 70 <? c then (if (97 <=? c) && (c <=? 102) then St 77 else St 0) else
      St 77)
  | 88 => Some (
      if c =? 58 then St 80 else if c <? 65 then (if (48 <=? c) && (c <=? 57) then St 86 else
      St 0) else if 70 <? c then (if (97 <=? c) && (c <=? 102) then St 78 else St 0) else
      St 78)
  | 89 => Some (
      if c =? 48 then St 86 else if c =? 58 then St 80 else
      if c <? 65 then (if (49 <=? c) && (c <=? 57) then St 78 else St 0) else
      if 70 <? c then (if (97 <=? c) && (c <=? 102) then St 78 else St 0) else St 78)
  | 90 => Some (
      if c =? 58 then St 80 else if c <? 65 then (if (48 <=? c) && (c <=? 57) then St 77 else
      St 0) else if 70 <? c then (if (97 <=? c) && (c <=? 102) then St 77 else St 0) else
      St 77)
  | 91 => Some (
      if c =? 58 then St 95 else if c <? 65 then (if (48 <=? c) && (c <=? 57) then St 92 else
      St 0) else if 70 <? c then (if (97 <=? c) && (c <=? 102) then St 92 else St 0) else
      St 92)
  | 92 => Some (
      if c =? 58 then St 95 else if c <? 65 then (if (48 <=? c) && (c <=? 57) then St 93 else
      St 0) else if 70 <? c then (if (97 <=? c) && (c <=? 102) then St 93 else St 0) else
      St 93)
  | 93 => Some (
      if c =? 58 then St 95 else if c <? 65 then (if (48 <=? c) && (c <=? 57) then St 94 else
      St 0) else if 70 <? c then (if (97 <=? c) && (c <=? 102) then St 94 else St 0) else
      St 94)
  | 94 => Some (
      if c =? 58 then St 95 else St 0)
  | 95 => Some (
      if c =? 58 then St 166 else if c <? 65 then (if (48 <=? c) && (c <=? 57) then St 96 else
      St 0) else if 70 <? c then (if (97 <=? c) && (c <=? 102) then St 96 else St 0) else
      St 96)
  | 96 => Some (
      if c =? 58 then St 100 else if c <? 65 then (if (48 <=? c) && (c <=? 57) then St 97 else
      St 0) else if 70 <? c then (if (97 <=? c) && (c <=? 102) then St 97 else St 0) else
      St 97)
  | _ => None
  end.

Definition states_15 (relaxed : bool) (cs c : Z) : option jump :=
  let w := widec relaxed c in
  match cs with
  | 97 => Some (
      if c =? 58 then St 100 else if c <? 65 then (if (48 <=? c) && (c <=? 57) then St 98 else
      St 0) else if 70 <? c then (if (97 <=? c) && (c <=? 102) then St 98 else St 0) else
      St 98)
  | 98 => Some (
      if c =? 58 then St 100 else if c <? 65 then (if (48 <=? c) && (c <=? 57) then St 99 else
      St 0) else if 70 <? c then (if (97 <=? c) && (c <=? 102) then St 99 else St 0) else
      St 99)
  | 99 => Some (
      if c =? 58 then St 100 else St 0)
  | 100 => Some (
      if c =? 58 then St 165 else
      if c <? 65 then (if (48 <=? c) && (c <=? 57) then St 101 else St 0) else
      if 70 <? c then (if (97 <=? c) && (c <=? 102) then St 101 else St 0) else St 101)
  | 101 => Some (
      if c =? 58 then St 105 else
      if c <? 65 then (if (48 <=? c) && (c <=? 57) then St 102 else St 0) else
      if 70 <? c then (if (97 <=? c) && (c <=? 102) then St 102 else St 0) else St 102)
  | 102 => Some (
      if c =? 58 then St 105 else
      if c <? 65 then (if (48 <=? c) && (c <=? 57) then St 103 else St 0) else
      if 70 <? c then (if (97 <=? c) && (c <=? 102) then St 103 else St 0) else St 103)
  | 103 => Some (
      if c =? 58 then St 105 else
      if c <? 65 then (if (48 <=? c) && (c <=? 57) then St 104 else St 0) else
      if 70 <? c then (if (97 <=? c) && (c <=? 102) then St 104 else St 0) else St 104)
  | 104 => Some (
      if c =? 58 then St 105 else St 0)
  | 105 => Some (
      if c =? 58 then St 164 else
      if c <? 65 then (if (48 <=? c) && (c <=? 57) then St 106 else St 0) else
      if 70 <? c then (if (97 <=? c) && (c <=? 102) then St 106 else St 0) else St 106)
  | 106 => Some (
      if c =? 58 then St 110 else
      if c <? 65 then (if (48 <=? c) && (c <=? 57) then St 107 else St 0) else
      if 70 <? c then (if (97 <=? c) && (c <=? 102) then St 107 else St 0) else St 107)
  | 107 => Some (
      if c =? 58 then St 110 else
      if c <? 65 then (if (48 <=? c) && (c <=? 57) then St 108 else St 0) else
      if 70 <? c then (if (97 <=? c) && (c <=? 102) then St 108 else St 0) else St 108)
  | _ => None
  end.

Definition states_16 (relaxed : bool) (cs c : Z) : option jump :=
  let w := widec relaxed c in
  match cs with
  | 108 => Some (
      if c =? 58 then St 110 else
      if c <? 65 then (if (48 <=? c) && (c <=? 57) then St 109 else St 0) else
      if 70 <? c then (if (97 <=? c) && (c <=? 102) then St 109 else St 0) else St 109)
  | 109 => Some (
      if c =? 58 then St 110 else St 0)
  | 110 => Some (
      if c =? 58 then St 163 else
      if c <? 65 then (if (48 <=? c) && (c <=? 57) then St 111 else St 0) else
      if 70 <? c then (if (97 <=? c) && (c <=? 102) then St 111 else St 0) else St 111)
  | 111 => Some (
      if c =? 58 then St 115 else
      if c <? 65 then (if (48 <=? c) && (c <=? 57) then St 112 else St 0) else
      if 70 <? c then (if (97 <=? c) && (c <=? 102) then St 112 else St 0) else St 112)
  | 112 => Some (
      if c =? 58 then St 115 else
      if c <? 65 then (if (48 <=? c) && (c <=? 57) then St 113 else St 0) else
      if 70 <? c then (if (97 <=? c) && (c <=? 102) then St 113 else St 0) else St 113)
  | 113 => Some (
      if c =? 58 then St 115 else
      if c <? 65 then (if (48 <=? c) && (c <=? 57) then St 114 else St 0) else
      if 70 <? c then (if (97 <=? c) && (c <=? 102) then St 114 else St 0) else St 114)
  | 114 => Some (
      if c =? 58 then St 115 else St 0)
  | 115 => Some (
      if c =? 58 then St 151 else
      if c <? 65 then (if (48 <=? c) && (c <=? 57) then St 116 else St 0) else
      if 70 <? c then (if (97 <=? c) && (c <=? 102) then St 116 else St 0) else St 116)
  | 116 => Some (
      if c =? 58 then St 120 else
      if c <? 65 then (if (48 <=? c) && (c <=? 57) then St 117 else St 0) else
      if 70 <? c then (if (97 <=? c) && (c <=? 102) then St 117 else St 0) else St 117)
  | 117 => Some (
      if c =? 58 then St 120 else
      if c <? 65 then (if (48 <=? c) && (c <=? 57) then St 118 else St 0) else
      if 70 <? c then (if (97 <=? c) && (c <=? 102) then St 118 else St 0) else St 118)
  | 118 => Some (
      if c =? 58 then St 120 else
      if c <? 65 then (if (48 <=? c) && (c <=? 57) then St 119 else St 0) else
      if 70 <? c then (if (97 <=? c) && (c <=? 102) then St 119 else St 0) else St 119)
  | _ => None
  end.

Definition states_17 (relaxed : bool) (cs c : Z) : option jump :=
  let w := widec relaxed c in
  match cs with
  | 119 => Some (
      if c =? 58 then St 120 else St 0)
  | 120 => Some (
      if c =? 58 then St 150 else
      if c <? 65 then (if (48 <=? c) && (c <=? 57) then St 121 else St 0) else
      if 70 <? c then (if (97 <=? c) && (c <=? 102) then St 121 else St 0) else St 121)
  | 121 => Some (
      if c =? 58 then St 125 else
      if c <? 65 then (if (48 <=? c) && (c <=? 57) then St 122 else St 0) else
      if 70 <? c then (if (97 <=? c) && (c <=? 102) then St 122 else St 0) else St 122)
  | 122 => Some (
      if c =? 58 then St 125 else
      if c <? 65 then (if (48 <=? c) && (c <=? 57) then St 123 else St 0) else
      if 70 <? c then (if (97 <=? c) && (c <=? 102) then St 123 else St 0) else St 123)
  | 123 => Some (
      if c =? 58 then St 125 else
      if c <? 65 then (if (48 <=? c) && (c <=? 57) then St 124 else St 0) else
      if 70 <? c then (if (97 <=? c) && (c <=? 102) then St 124 else St 0) else St 124)
  | 124 => Some (
      if c =? 58 then St 125 else St 0)
  | 125 => Some (
      if c =? 58 then St 126 else
      if c <? 65 then (if (48 <=? c) && (c <=? 57) then St 121 else St 0) else
      if 70 <? c then (if (97 <=? c) && (c <=? 102) then St 121 else St 0) else St 121)
  | 126 => Some (
      if c =? 49 then St 143 else if c =? 50 then St 146 else if c =? 93 then St 61 else
      if c <? 48 then (if (2 <=? c) && (c <=? 3) then St 48 else St 0) else
      if 57 <? c then (if 70 <? c then (if (97 <=? c) && (c <=? 102) then St 149 else St 0)
      else if 65 <=? c then St 149 else St 0) else St 127)
  | 127 => Some (
      if c =? 46 then St 55 else if c =? 58 then St 131 else if c =? 93 then St 61 else
      if c <? 65 then (if (48 <=? c) && (c <=? 57) then St 128 else St 0) else
      if 70 <? c then (if (97 <=? c) && (c <=? 102) then St 128 else St 0) else St 128)
  | 128 => Some (
      if c =? 58 then St 131 else if c =? 93 then St 61 else
      if c <? 65 then (if (48 <=? c) && (c <=? 57) then St 129 else St 0) else
      if 70 <? c then (if (97 <=? c) && (c <=? 102) then St 129 else St 0) else St 129)
  | _ => None
  end.

Definition states_18 (relaxed : bool) (cs c : Z) : option jump :=
  let w := widec relaxed c in
  match cs with
  | 129 => Some (
      if c =? 58 then St 131 else if c =? 93 then St 61 else
      if c <? 65 then (if (48 <=? c) && (c <=? 57) then St 130 else St 0) else
      if 70 <? c then (if (97 <=? c) && (c <=? 102) then St 130 else St 0) else St 130)
  | 130 => Some (
      if c =? 58 then St 131 else if c =? 93 then St 61 else St 0)
  | 131 => Some (
      if c =? 49 then St 136 else if c =? 50 then St 139 else
      if c <? 65 then (if (48 <=? c) && (c <=? 57) then St 132 else St 0) else
      if 70 <? c then (if (97 <=? c) && (c <=? 102) then St 142 else St 0) else St 142)
  | 132 => Some (
      if c =? 46 then St 55 else if c =? 58 then St 80 else if c =? 93 then St 61 else
      if c <? 65 then (if (48 <=? c) && (c <=? 57) then St 133 else St 0) else
      if 70 <? c then (if (97 <=? c) && (c <=? 102) then St 133 else St 0) else St 133)
  | 133 => Some (
      if c =? 58 then St 80 else if c =? 93 then St 61 else
      if c <? 65 then (if (48 <=? c) && (c <=? 57) then St 134 else St 0) else
      if 70 <? c then (if (97 <=? c) && (c <=? 102) then St 134 else St 0) else St 134)
  | 134 => Some (
      if c =? 58 then St 80 else if c =? 93 then St 61 else
      if c <? 65 then (if (48 <=? c) && (c <=? 57) then St 135 else St 0) else
      if 70 <? c then (if (97 <=? c) && (c <=? 102) then St 135 else St 0) else St 135)
  | 135 => Some (
      if c =? 58 then St 80 else if c =? 93 then St 61 else St 0)
  | 136 => Some (
      if c =? 46 then St 55 else if c =? 58 then St 80 else if c =? 93 then St 61 else
      if c <? 65 then (if (48 <=? c) && (c <=? 57) then St 137 else St 0) else
      if 70 <? c then (if (97 <=? c) && (c <=? 102) then St 133 else St 0) else St 133)
  | 137 => Some (
      if c =? 46 then St 55 else if c =? 58 then St 80 else if c =? 93 then St 61 else
      if c <? 65 then (if (48 <=? c) && (c <=? 57) then St 138 else St 0) else
      if 70 <? c then (if (97 <=? c) && (c <=? 102) then St 134 else St 0) else St 134)
  | _ => None
  end.

Definition states_19 (relaxed : bool) (cs c : Z) : option jump :=
  let w := widec relaxed c in
  match cs with
  | 138 => Some (
      if c =? 46 then St 55 else if c =? 58 then St 80 else if c =? 93 then St 61 else
      if c <? 65 then (if (48 <=? c) && (c <=? 57) then St 135 else St 0) else
      if 70 <? c then (if (97 <=? c) && (c <=? 102) then St 135 else St 0) else St 135)
  | 139 => Some (
      if c =? 46 then St 55 else if c =? 48 then St 140 else if c =? 53 then St 141 else
      if c =? 58 then St 80 else if c =? 93 then St 61 else
      if c <? 65 then (if (49 <=? c) && (c <=? 57) then St 133 else St 0) else
      if 70 <? c then (if (97 <=? c) && (c <=? 102) then St 133 else St 0) else St 133)
  | 140 => Some (
      if c =? 58 then St 80 else if c =? 93 then St 61 else
      if c <? 65 then (if (48 <=? c) && (c <=? 57) then St 138 else St 0) else
      if 70 <? c then (if (97 <=? c) && (c <=? 102) then St 134 else St 0) else St 134)
  | 141 => Some (
      if c =? 48 then St 138 else if c =? 58 then St 80 else if c =? 93 then St 61 else
      if c <? 65 then (if (49 <=? c) && (c <=? 57) then St 134 else St 0) else
      if 70 <? c then (if (97 <=? c) && (c <=? 102) then St 134 else St 0) else St 134)
  | 142 => Some (
      if c =? 58 then St 80 else if c =? 93 then St 61 else
      if c <? 65 then (if (48 <=? c) && (c <=? 57) then St 133 else St 0) else
      if 70 <? c then (if (97 <=? c) && (c <=? 102) then St 133 else St 0) else St 133)
  | 143 => Some (
      if c =? 46 then St 55 else if c =? 58 then St 131 else if c =? 93 then St 61 else
      if c <? 65 then (if (48 <=? c) && (c <=? 57) then St 144 else St 0) else
      if 70 <? c then (if (97 <=? c) && (c <=? 102) then St 128 else St 0) else St 128)
  | 144 => Some (
      if c =? 46 then St 55 else if c =? 58 then St 131 else if c =? 93 then St 61 else
      if c <? 65 then (if (48 <=? c) && (c <=? 57) then St 145 else St 0) else
      if 70 <? c then (if (97 <=? c) && (c <=? 102) then St 129 else St 0) else St 129)
  | 145 => Some (
      if c =? 46 then St 55 else if c =? 58 then St 131 else if c =? 93 then St 61 else
      if c <? 65 then (if (48 <=? c) && (c <=? 57) then St 130 else St 0) else
      if 70 <? c then (if (97 <=? c) && (c <=? 102) then St 130 else St 0) else St 130)
  | _ => None
  end.

Definition states_20 (relaxed : bool) (cs c : Z) : option jump :=
  let w := widec relaxed c in
  match cs with
  | 146 => Some (
      if c =? 46 then St 55 else if c =? 48 then St 147 else if c =? 53 then St 148 else
      if c =? 58 then St 131 else if c =? 93 then St 61 else
      if c <? 65 then (if (49 <=? c) && (c <=? 57) then St 128 else St 0) else
      if 70 <? c then (if (97 <=? c) && (c <=? 102) then St 128 else St 0) else St 128)
  | 147 => Some (
      if c =? 58 then St 131 else if c =? 93 then St 61 else
      if c <? 65 then (if (48 <=? c) && (c <=? 57) then St 145 else St 0) else
      if 70 <? c then (if (97 <=? c) && (c <=? 102) then St 129 else St 0) else St 129)
  | 148 => Some (
      if c =? 48 then St 145 else if c =? 58 then St 131 else if c =? 93 then St 61 else
      if c <? 65 then (if (49 <=? c) && (c <=? 57) then St 129 else St 0) else
      if 70 <? c then (if (97 <=? c) && (c <=? 102) then St 129 else St 0) else St 129)
  | 149 => Some (
      if c =? 58 then St 131 else if c =? 93 then St 61 else
      if c <? 65 then (if (48 <=? c) && (c <=? 57) then St 128 else St 0) else
      if 70 <? c then (if (97 <=? c) && (c <=? 102) then St 128 else St 0) else St 128)
  | 150 => Some (
      if c =? 49 then St 143 else if c =? 50 then St 146 else
      if c <? 48 then (if (2 <=? c) && (c <=? 3) then St 48 else St 0) else
      if 57 <? c then (if 70 <? c then (if (97 <=? c) && (c <=? 102) then St 149 else St 0)
      else if 65 <=? c then St 149 else St 0) else St 127)
  | 151 => Some (
      if c =? 49 then St 156 else if c =? 50 then St 159 else
      if c <? 48 then (if (2 <=? c) && (c <=? 3) then St 48 else St 0) else
      if 57 <? c then (if 70 <? c then (if (97 <=? c) && (c <=? 102) then St 162 else St 0)
      else if 65 <=? c then St 162 else St 0) else St 152)
  | 152 => Some (
      if c =? 46 then St 55 else if c =? 58 then St 131 else
      if c <? 65 then (if (48 <=? c) && (c <=? 57) then St 153 else St 0) else
      if 70 <? c then (if (97 <=? c) && (c <=? 102) then St 153 else St 0) else St 153)
  | 153 => Some (
      if c =? 58 then St 131 else
      if c <? 65 then (if (48 <=? c) && (c <=? 57) then St 154 else St 0) else
      if 70 <? c then (if (97 <=? c) && (c <=? 102) then St 154 else St 0) else St 154)
  | _ => None
  end.

Definition states_21 (relaxed : bool) (cs c : Z) : option jump :=
  let w := widec relaxed c in
  match cs with
  | 154 => Some (
      if c =? 58 then St 131 else
      if c <? 65 then (if (48 <=? c) && (c <=? 57) then St 155 else St 0) else
      if 70 <? c then (if (97 <=? c) && (c <=? 102) then St 155 else St 0) else St 155)
  | 155 => Some (
      if c =? 58 then St 131 else St 0)
  | 156 => Some (
      if c =? 46 then St 55 else if c =? 58 then St 131 else
      if c <? 65 then (if (48 <=? c) && (c <=? 57) then St 157 else St 0) else
      if 70 <? c then (if (97 <=? c) && (c <=? 102) then St 153 else St 0) else St 153)
  | 157 => Some (
      if c =? 46 then St 55 else if c =? 58 then St 131 else
      if c <? 65 then (if (48 <=? c) && (c <=? 57) then St 158 else St 0) else
      if 70 <? c then (if (97 <=? c) && (c <=? 102) then St 154 else St 0) else St 154)
  | 158 => Some (
      if c =? 46 then St 55 else if c =? 58 then St 131 else
      if c <? 65 then (if (48 <=? c) && (c <=? 57) then St 155 else St 0) else
      if 70 <? c then (if (97 <=? c) && (c <=? 102) then St 155 else St 0) else St 155)
  | 159 => Some (
      if c =? 46 then St 55 else if c =? 48 then St 160 else if c =? 53 then St 161 else
      if c =? 58 then St 131 else
      if c <? 65 then (if (49 <=? c) && (c <=? 57) then St 153 else St 0) else
      if 70 <? c then (if (97 <=? c) && (c <=? 102) then St 153 else St 0) else St 153)
  | 160 => Some (
      if c =? 58 then St 131 else
      if c <? 65 then (if (48 <=? c) && (c <=? 57) then St 158 else St 0) else
      if 70 <? c then (if (97 <=? c) && (c <=? 102) then St 154 else St 0) else St 154)
  | 161 => Some (
      if c =? 48 then St 158 else if c =? 58 then St 131 else
      if c <? 65 then (if (49 <=? c) && (c <=? 57) then St 154 else St 0) else
      if 70 <? c then (if (97 <=? c) && (c <=? 102) then St 154 else St 0) else St 154)
  | 162 => Some (
      if c =? 58 then St 131 else
      if c <? 65 then (if (48 <=? c) && (c <=? 57) then St 153 else St 0) else
      if 70 <? c then (if (97 <=? c) && (c <=? 102) then St 153 else St 0) else St 153)
  | _ => None
  end.

Definition states_22 (relaxed : bool) (cs c : Z) : option jump :=
  let w := widec relaxed c in
  match cs with
  | 163 => Some (
      if c <? 48 then (if (2 <=? c) && (c <=? 3) then St 48 else St 0) else
      if 57 <? c then (if 70 <? c then (if (97 <=? c) && (c <=? 102) then St 49 else St 0)
      else if 65 <=? c then St 49 else St 0) else St 49)
  | 164 => Some (
      if (2 <=? c) && (c <=? 3) then St 48 else St 0)
  | 165 => Some (
      if c =? 3 then St 48 else St 0)
  | 166 => Some (
      if c =? 4 then St 48 else St 0)
  | 167 => Some (
      if c =? 58 then St 168 else St 0)
  | 168 => Some (
      if c =? 49 then St 143 else if c =? 50 then St 146 else if c =? 93 then St 61 else
      if c <? 48 then (if (2 <=? c) && (c <=? 5) then St 48 else St 0) else
      if 57 <? c then (if 70 <? c then (if (97 <=? c) && (c <=? 102) then St 149 else St 0)
      else if 65 <=? c then St 149 else St 0) else St 127)
  | 169 => Some (
      if c <? 65 then (if (48 <=? c) && (c <=? 57) then St 170 else St 0) else
      if 70 <? c then (if (97 <=? c) && (c <=? 102) then St 170 else St 0) else St 170)
  | 170 => Some (
      if c =? 46 then St 171 else
      if c <? 65 then (if (48 <=? c) && (c <=? 57) then St 170 else St 0) else
      if 70 <? c then (if (97 <=? c) && (c <=? 102) then St 170 else St 0) else St 170)
  | 171 => Some (
      if w =? 33 then St 172 else if w =? 36 then St 172 else if w =? 61 then St 172 else
      if w =? 95 then St 172 else if w =? 126 then St 172 else if w =? 606 then St 172 else
      if w =? 635 then St 172 else if w =? 637 then St 172 else
      if w <? 48 then (if (38 <=? w) && (w <=? 46) then St 172 else St 0) else
      if 59 <? w then (if 90 <? w then (if (97 <=? w) && (w <=? 122) then St 172 else St 0)
      else if 65 <=? w then St 172 else St 0) else St 172)
  | _ => None
  end.

Definition states_23 (relaxed : bool) (cs c : Z) : option jump :=
  let w := widec relaxed c in
  match cs with
  | 172 => Some (
      if w =? 33 then St 172 else if w =? 36 then St 172 else if w =? 61 then St 172 else
      if w =? 93 then St 61 else if w =? 95 then St 172 else if w =? 126 then St 172 else
      if w =? 606 then St 172 else if w =? 635 then St 172 else if w =? 637 then St 172 else
      if w <? 48 then (if (38 <=? w) && (w <=? 46) then St 172 else St 0) else
      if 59 <? w then (if 90 <? w then (if (97 <=? w) && (w <=? 122) then St 172 else St 0)
      else if 65 <=? w then St 172 else St 0) else St 172)
  | 173 => Some (
      if w =? 32 then Tr 37 else if w =? 33 then St 19 else if w =? 35 then Tr 39 else
      if w =? 37 then St 24 else if w =? 43 then St 173 else if w =? 47 then St 26 else
      if w =? 58 then St 174 else if w =? 59 then St 19 else if w =? 61 then St 19 else
      if w =? 63 then Tr 42 else if w =? 64 then St 19 else if w =? 95 then St 19 else
      if w =? 126 then St 19 else if w =? 606 then St 19 else if w =? 635 then St 19 else
      if w =? 637 then St 19 else if w <? 45 then (if (36 <=? w) && (w <=? 44) then St 19 else
      St 0) else
      if 57 <? w then (if 90 <? w then (if (97 <=? w) && (w <=? 122) then St 173 else St 0)
      else if 65 <=? w then St 173 else St 0) else St 173)
  | _ => None
  end.

Definition states_24 (relaxed : bool) (cs c : Z) : option jump :=
  let w := widec relaxed c in
  match cs with
  | 174 => Some (
      if w =? 32 then Tr 6 else if w =? 33 then Tr 203 else if w =? 35 then Tr 8 else
      if w =? 37 then Tr 204 else if w =? 47 then Tr 10 else if w =? 61 then Tr 203 else
      if w =? 63 then Tr 11 else if w =? 95 then Tr 203 else if w =? 126 then Tr 203 else
      if w =? 606 then Tr 203 else if w =? 635 then Tr 203 else if w =? 637 then Tr 203 else
      if w <? 64 then (if (36 <=? w) && (w <=? 59) then Tr 203 else St 0) else
      if 90 <? w then (if (97 <=? w) && (w <=? 122) then Tr 203 else St 0) else Tr 203)
  | 175 => Some (
      if c =? 32 then Tr 4 else if 57 <? c then (if (65 <=? c) && (c <=? 90) then St 176 else
      St 0) else if 48 <=? c then St 176 else St 0)
  | 176 => Some (
      if c =? 32 then Tr 4 else if 57 <? c then (if (65 <=? c) && (c <=? 90) then St 177 else
      St 0) else if 48 <=? c then St 177 else St 0)
  | 177 => Some (
      if c =? 32 then Tr 4 else if 57 <? c then (if (65 <=? c) && (c <=? 90) then St 178 else
      St 0) else if 48 <=? c then St 178 else St 0)
  | 178 => Some (
      if c =? 32 then Tr 4 else if 57 <? c then (if (65 <=? c) && (c <=? 90) then St 179 else
      St 0) else if 48 <=? c then St 179 else St 0)
  | 179 => Some (
      if c =? 32 then Tr 4 else if 57 <? c then (if (65 <=? c) && (c <=? 90) then St 180 else
      St 0) else if 48 <=? c then St 180 else St 0)
  | 180 => Some (
      if c =? 32 then Tr 4 else if 57 <? c then (if (65 <=? c) && (c <=? 90) then St 181 else
      St 0) else if 48 <=? c then St 181 else St 0)
  | 181 => Some (
      if c =? 32 then Tr 4 else if 57 <? c then (if (65 <=? c) && (c <=? 90) then St 182 else
      St 0) else if 48 <=? c then St 182 else St 0)
  | 182 => Some (
      if c =? 32 then Tr 4 else if 57 <? c then (if (65 <=? c) && (c <=? 90) then St 183 else
      St 0) else if 48 <=? c then St 183 else St 0)
  | _ => None
  end.

Definition states_25 (relaxed : bool) (cs c : Z) : option jump :=
  let w := widec relaxed c in
  match cs with
  | 183 => Some (
      if c =? 32 then Tr 4 else if 57 <? c then (if (65 <=? c) && (c <=? 90) then St 184 else
      St 0) else if 48 <=? c then St 184 else St 0)
  | 184 => Some (
      if c =? 32 then Tr 4 else if 57 <? c then (if (65 <=? c) && (c <=? 90) then St 185 else
      St 0) else if 48 <=? c then St 185 else St 0)
  | 185 => Some (
      if c =? 32 then Tr 4 else if 57 <? c then (if (65 <=? c) && (c <=? 90) then St 186 else
      St 0) else if 48 <=? c then St 186 else St 0)
  | 186 => Some (
      if c =? 32 then Tr 4 else if 57 <? c then (if (65 <=? c) && (c <=? 90) then St 187 else
      St 0) else if 48 <=? c then St 187 else St 0)
  | 187 => Some (
      if c =? 32 then Tr 4 else if 57 <? c then (if (65 <=? c) && (c <=? 90) then St 188 else
      St 0) else if 48 <=? c then St 188 else St 0)
  | 188 => Some (
      if c =? 32 then Tr 4 else if 57 <? c then (if (65 <=? c) && (c <=? 90) then St 189 else
      St 0) else if 48 <=? c then St 189 else St 0)
  | 189 => Some (
      if c =? 32 then Tr 4 else if 57 <? c then (if (65 <=? c) && (c <=? 90) then St 190 else
      St 0) else if 48 <=? c then St 190 else St 0)
  | 190 => Some (
      if c =? 32 then Tr 4 else if 57 <? c then (if (65 <=? c) && (c <=? 90) then St 191 else
      St 0) else if 48 <=? c then St 191 else St 0)
  | 191 => Some (
      if c =? 32 then Tr 4 else if 57 <? c then (if (65 <=? c) && (c <=? 90) then St 192 else
      St 0) else if 48 <=? c then St 192 else St 0)
  | 192 => Some (
      if c =? 32 then Tr 4 else if 57 <? c then (if (65 <=? c) && (c <=? 90) then St 193 else
      St 0) else if 48 <=? c then St 193 else St 0)
  | 193 => Some (
      if c =? 32 then Tr 4 else St 0)
  | 194 => Some (
      if c <? 48 then (if (45 <=? c) && (c <=? 46) then St 195 else St 0) else
      if 57 <? c then (if 90 <? c then (if (97 <=? c) && (c <=? 122) then St 195 else St 0)
      else if 65 <=? c then St 195 else St 0) else St 195)
  | _ => None
  end.

Definition states_26 (relaxed : bool) (cs c : Z) : option jump :=
  let w := widec relaxed c in
  match cs with
  | 195 => Some (
      if c =? 32 then Tr 224 else if c =? 47 then Tr 224 else if c =? 62 then Tr 224 else
      if c <? 45 then (if (9 <=? c) && (c <=? 13) then Tr 224 else St 0) else
      if 57 <? c then (if 90 <? c then (if (97 <=? c) && (c <=? 122) then St 195 else St 0)
      else if 65 <=? c then St 195 else St 0) else St 195)
  | 196 => Some (
      if c =? 62 then St 197 else St 196)
  | 197 => Some (
      if c =? 0 then Tr 227 else if c =? 62 then St 197 else St 196)
  | 349 => Some (
      St 0)
  | 198 => Some (
      if w =? 32 then Tr 228 else if w =? 33 then St 202 else if w =? 37 then St 203 else
      if w =? 47 then St 208 else if w =? 59 then St 202 else if w =? 61 then St 202 else
      if w =? 95 then St 202 else if w =? 126 then St 202 else if w =? 606 then St 202 else
      if w =? 635 then St 202 else if w =? 637 then St 202 else
      if w <? 64 then (if (36 <=? w) && (w <=? 57) then St 202 else St 0) else
      if 90 <? w then (if (97 <=? w) && (w <=? 122) then St 202 else St 0) else St 202)
  | _ => None
  end.

Definition states_27 (relaxed : bool) (cs c : Z) : option jump :=
  let w := widec relaxed c in
  match cs with
  | 199 => Some (
      if c =? 123 then Tr 232 else St 0)
  | 200 => Some (
      if c =? 125 then St 201 else St 200)
  | 201 => Some (
      if c =? 0 then Tr 235 else if c =? 125 then St 201 else St 200)
  | 202 => Some (
      if w =? 32 then Tr 228 else if w =? 33 then St 202 else if w =? 37 then St 203 else
      if w =? 47 then St 205 else if w =? 59 then St 202 else if w =? 61 then St 202 else
      if w =? 95 then St 202 else if w =? 126 then St 202 else if w =? 606 then St 202 else
      if w =? 635 then St 202 else if w =? 637 then St 202 else
      if w <? 64 then (if (36 <=? w) && (w <=? 57) then St 202 else St 0) else
      if 90 <? w then (if (97 <=? w) && (w <=? 122) then St 202 else St 0) else St 202)
  | 203 => Some (
      if c <? 65 then (if (48 <=? c) && (c <=? 57) then St 204 else St 0) else
      if 70 <? c then (if (97 <=? c) && (c <=? 102) then St 204 else St 0) else St 204)
  | 204 => Some (
      if c <? 65 then (if (48 <=? c) && (c <=? 57) then St 202 else St 0) else
      if 70 <? c then (if (97 <=? c) && (c <=? 102) then St 202 else St 0) else St 202)
  | 205 => Some (
      if w =? 32 then Tr 228 else if w =? 33 then St 205 else if w =? 37 then St 206 else
      if w =? 61 then St 205 else if w =? 95 then St 205 else if w =? 126 then St 205 else
      if w =? 606 then St 205 else if w =? 635 then St 205 else if w =? 637 then St 205 else
      if w <? 64 then (if (36 <=? w) && (w <=? 59) then St 205 else St 0) else
      if 90 <? w then (if (97 <=? w) && (w <=? 122) then St 205 else St 0) else St 205)
  | _ => None
  end.

Definition states_28 (relaxed : bool) (cs c : Z) : option jump :=
  let w := widec relaxed c in
  match cs with
  | 206 => Some (
      if c <? 65 then (if (48 <=? c) && (c <=? 57) then St 207 else St 0) else
      if 70 <? c then (if (97 <=? c) && (c <=? 102) then St 207 else St 0) else St 207)
  | 207 => Some (
      if c <? 65 then (if (48 <=? c) && (c <=? 57) then St 205 else St 0) else
      if 70 <? c then (if (97 <=? c) && (c <=? 102) then St 205 else St 0) else St 205)
  | 208 => Some (
      if w =? 32 then Tr 228 else if w =? 33 then St 205 else if w =? 37 then St 206 else
      if w =? 47 then St 209 else if w =? 61 then St 205 else if w =? 95 then St 205 else
      if w =? 126 then St 205 else if w =? 606 then St 205 else if w =? 635 then St 205 else
      if w =? 637 then St 205 else
      if w <? 64 then (if (36 <=? w) && (w <=? 59) then St 205 else St 0) else
      if 90 <? w then (if (97 <=? w) && (w <=? 122) then St 205 else St 0) else St 205)
  | 209 => Some (
      if w =? 32 then Tr 228 else if w =? 33 then St 210 else if w =? 37 then St 211 else
      if w =? 47 then St 205 else if w =? 58 then St 213 else if w =? 61 then St 210 else
      if w =? 64 then St 217 else if w =? 91 then St 222 else if w =? 95 then St 210 else
      if w =? 126 then St 210 else if w =? 606 then St 210 else if w =? 635 then St 210 else
      if w =? 637 then St 210 else
      if w <? 65 then (if (36 <=? w) && (w <=? 59) then St 210 else St 0) else
      if 90 <? w then (if (97 <=? w) && (w <=? 122) then St 210 else St 0) else St 210)
  | _ => None
  end.

Definition states_29 (relaxed : bool) (cs c : Z) : option jump :=
  let w := widec relaxed c in
  match cs with
  | 210 => Some (
      if w =? 32 then Tr 228 else if w =? 33 then St 210 else if w =? 37 then St 211 else
      if w =? 47 then St 205 else if w =? 58 then St 213 else if w =? 61 then St 210 else
      if w =? 64 then St 217 else if w =? 95 then St 210 else if w =? 126 then St 210 else
      if w =? 606 then St 210 else if w =? 635 then St 210 else if w =? 637 then St 210 else
      if w <? 65 then (if (36 <=? w) && (w <=? 59) then St 210 else St 0) else
      if 90 <? w then (if (97 <=? w) && (w <=? 122) then St 210 else St 0) else St 210)
  | 211 => Some (
      if c <? 65 then (if (48 <=? c) && (c <=? 57) then St 212 else St 0) else
      if 70 <? c then (if (97 <=? c) && (c <=? 102) then St 212 else St 0) else St 212)
  | 212 => Some (
      if c <? 65 then (if (48 <=? c) && (c <=? 57) then St 210 else St 0) else
      if 70 <? c then (if (97 <=? c) && (c <=? 102) then St 210 else St 0) else St 210)
  | 213 => Some (
      if w =? 32 then Tr 228 else if w =? 33 then St 214 else if w =? 37 then St 215 else
      if w =? 47 then St 205 else if w =? 61 then St 214 else if w =? 64 then St 217 else
      if w =? 95 then St 214 else if w =? 126 then St 214 else if w =? 606 then St 214 else
      if w =? 635 then St 214 else if w =? 637 then St 214 else
      if w <? 58 then (if 46 <? w then (if (48 <=? w) && (w <=? 57) then St 213 else St 0)
      else if 36 <=? w then St 214 else St 0) else
      if 59 <? w then (if 90 <? w then (if (97 <=? w) && (w <=? 122) then St 214 else St 0)
      else if 65 <=? w then St 214 else St 0) else St 214)
  | _ => None
  end.

Definition states_30 (relaxed : bool) (cs c : Z) : option jump :=
  let w := widec relaxed c in
  match cs with
  | 214 => Some (
      if w =? 33 then St 214 else if w =? 37 then St 215 else if w =? 61 then St 214 else
      if w =? 64 then St 217 else if w =? 95 then St 214 else if w =? 126 then St 214 else
      if w =? 606 then St 214 else if w =? 635 then St 214 else if w =? 637 then St 214 else
      if w <? 48 then (if (36 <=? w) && (w <=? 46) then St 214 else St 0) else
      if 59 <? w then (if 90 <? w then (if (97 <=? w) && (w <=? 122) then St 214 else St 0)
      else if 65 <=? w then St 214 else St 0) else St 214)
  | 215 => Some (
      if c <? 65 then (if (48 <=? c) && (c <=? 57) then St 216 else St 0) else
      if 70 <? c then (if (97 <=? c) && (c <=? 102) then St 216 else St 0) else St 216)
  | 216 => Some (
      if c <? 65 then (if (48 <=? c) && (c <=? 57) then St 214 else St 0) else
      if 70 <? c then (if (97 <=? c) && (c <=? 102) then St 214 else St 0) else St 214)
  | 217 => Some (
      if w =? 32 then Tr 228 else if w =? 33 then St 218 else if w =? 37 then St 219 else
      if w =? 47 then St 205 else if w =? 58 then St 221 else if w =? 61 then St 218 else
      if w =? 91 then St 222 else if w =? 95 then St 218 else if w =? 126 then St 218 else
      if w =? 606 then St 218 else if w =? 635 then St 218 else if w =? 637 then St 218 else
      if w <? 65 then (if (36 <=? w) && (w <=? 59) then St 218 else St 0) else
      if 90 <? w then (if (97 <=? w) && (w <=? 122) then St 218 else St 0) else St 218)
  | _ => None
  end.

Definition states_31 (relaxed : bool) (cs c : Z) : option jump :=
  let w := widec relaxed c in
  match cs with
  | 218 => Some (
      if w =? 32 then Tr 228 else if w =? 33 then St 218 else if w =? 37 then St 219 else
      if w =? 47 then St 205 else if w =? 58 then St 221 else if w =? 61 then St 218 else
      if w =? 95 then St 218 else if w =? 126 then St 218 else if w =? 606 then St 218 else
      if w =? 635 then St 218 else if w =? 637 then St 218 else
      if w <? 65 then (if (36 <=? w) && (w <=? 59) then St 218 else St 0) else
      if 90 <? w then (if (97 <=? w) && (w <=? 122) then St 218 else St 0) else St 218)
  | 219 => Some (
      if c <? 65 then (if (48 <=? c) && (c <=? 57) then St 220 else St 0) else
      if 70 <? c then (if (97 <=? c) && (c <=? 102) then St 220 else St 0) else St 220)
  | 220 => Some (
      if c <? 65 then (if (48 <=? c) && (c <=? 57) then St 218 else St 0) else
      if 70 <? c then (if (97 <=? c) && (c <=? 102) then St 218 else St 0) else St 218)
  | 221 => Some (
      if c =? 32 then Tr 228 else if c =? 47 then St 205 else
      if (48 <=? c) && (c <=? 57) then St 221 else St 0)
  | 222 => Some (
      if c =? 6 then St 223 else if c =? 58 then St 342 else if c =? 118 then St 344 else
      if c <? 65 then (if (48 <=? c) && (c <=? 57) then St 266 else St 0) else
      if 70 <? c then (if (97 <=? c) && (c <=? 102) then St 266 else St 0) else St 266)
  | 223 => Some (
      if c <? 65 then (if (48 <=? c) && (c <=? 57) then St 224 else St 0) else
      if 70 <? c then (if (97 <=? c) && (c <=? 102) then St 224 else St 0) else St 224)
  | 224 => Some (
      if c =? 58 then St 228 else
      if c <? 65 then (if (48 <=? c) && (c <=? 57) then St 225 else St 0) else
      if 70 <? c then (if (97 <=? c) && (c <=? 102) then St 225 else St 0) else St 225)
  | 225 => Some (
      if c =? 58 then St 228 else
      if c <? 65 then (if (48 <=? c) && (c <=? 57) then St 226 else St 0) else
      if 70 <? c then (if (97 <=? c) && (c <=? 102) then St 226 else St 0) else St 226)
  | _ => None
  end.

Definition states_32 (relaxed : bool) (cs c : Z) : option jump :=
  let w := widec relaxed c in
  match cs with
  | 226 => Some (
      if c =? 58 then St 228 else
      if c <? 65 then (if (48 <=? c) && (c <=? 57) then St 227 else St 0) else
      if 70 <? c then (if (97 <=? c) && (c <=? 102) then St 227 else St 0) else St 227)
  | 227 => Some (
      if c =? 58 then St 228 else St 0)
  | 228 => Some (
      if c =? 49 then St 259 else if c =? 50 then St 262 else
      if c <? 65 then (if (48 <=? c) && (c <=? 57) then St 229 else St 0) else
      if 70 <? c then (if (97 <=? c) && (c <=? 102) then St 265 else St 0) else St 265)
  | 229 => Some (
      if c =? 46 then St 230 else if c =? 58 then St 255 else
      if c <? 65 then (if (48 <=? c) && (c <=? 57) then St 252 else St 0) else
      if 70 <? c then (if (97 <=? c) && (c <=? 102) then St 252 else St 0) else St 252)
  | 230 => Some (
      if c =? 49 then St 247 else if c =? 50 then St 249 else
      if (48 <=? c) && (c <=? 57) then St 231 else St 0)
  | 231 => Some (
      if c =? 46 then St 232 else St 0)
  | 232 => Some (
      if c =? 49 then St 242 else if c =? 50 then St 244 else
      if (48 <=? c) && (c <=? 57) then St 233 else St 0)
  | 233 => Some (
      if c =? 46 then St 234 else St 0)
  | 234 => Some (
      if c =? 49 then St 237 else if c =? 50 then St 239 else
      if (48 <=? c) && (c <=? 57) then St 235 else St 0)
  | 235 => Some (
      if c =? 93 then St 236 else St 0)
  | 236 => Some (
      if c =? 32 then Tr 228 else if c =? 47 then St 205 else if c =? 58 then St 221 else St 0)
  | 237 => Some (
      if c =? 93 then St 236 else if (48 <=? c) && (c <=? 57) then St 238 else St 0)
  | 238 => Some (
      if c =? 93 then St 236 else if (48 <=? c) && (c <=? 57) then St 235 else St 0)
  | 239 => Some (
      if c =? 48 then St 240 else if c =? 53 then St 241 else if c =? 93 then St 236 else St 0)
  | _ => None
  end.

Definition states_33 (relaxed : bool) (cs c : Z) : option jump :=
  let w := widec relaxed c in
  match cs with
  | 240 => Some (
      if (48 <=? c) && (c <=? 57) then St 235 else St 0)
  | 241 => Some (
      if c =? 48 then St 235 else St 0)
  | 242 => Some (
      if c =? 46 then St 234 else if (48 <=? c) && (c <=? 57) then St 243 else St 0)
  | 243 => Some (
      if c =? 46 then St 234 else if (48 <=? c) && (c <=? 57) then St 233 else St 0)
  | 244 => Some (
      if c =? 46 then St 234 else if c =? 48 then St 245 else if c =? 53 then St 246 else St 0)
  | 245 => Some (
      if (48 <=? c) && (c <=? 57) then St 233 else St 0)
  | 246 => Some (
      if c =? 48 then St 233 else St 0)
  | 247 => Some (
      if c =? 46 then St 232 else if (48 <=? c) && (c <=? 57) then St 248 else St 0)
  | 248 => Some (
      if c =? 46 then St 232 else if (48 <=? c) && (c <=? 57) then St 231 else St 0)
  | 249 => Some (
      if c =? 46 then St 232 else if c =? 48 then St 250 else if c =? 53 then St 251 else St 0)
  | 250 => Some (
      if (48 <=? c) && (c <=? 57) then St 231 else St 0)
  | 251 => Some (
      if c =? 48 then St 231 else St 0)
  | 252 => Some (
      if c =? 58 then St 255 else
      if c <? 65 then (if (48 <=? c) && (c <=? 57) then St 253 else St 0) else
      if 70 <? c then (if (97 <=? c) && (c <=? 102) then St 253 else St 0) else St 253)
  | 253 => Some (
      if c =? 58 then St 255 else
      if c <? 65 then (if (48 <=? c) && (c <=? 57) then St 254 else St 0) else
      if 70 <? c then (if (97 <=? c) && (c <=? 102) then St 254 else St 0) else St 254)
  | 254 => Some (
      if c =? 58 then St 255 else St 0)
  | 255 => Some (
      if c <? 65 then (if (48 <=? c) && (c <=? 57) then St 256 else St 0) else
      if 70 <? c then (if (97 <=? c) && (c <=? 102) then St 256 else St 0) else St 256)
  | _ => None
  end.

Definition states_34 (relaxed : bool) (cs c : Z) : option jump :=
  let w := widec relaxed c in
  match cs with
  | 256 => Some (
      if c =? 93 then St 236 else
      if c <? 65 then (if (48 <=? c) && (c <=? 57) then St 257 else St 0) else
      if 70 <? c then (if (97 <=? c) && (c <=? 102) then St 257 else St 0) else St 257)
  | 257 => Some (
      if c =? 93 then St 236 else
      if c <? 65 then (if (48 <=? c) && (c <=? 57) then St 258 else St 0) else
      if 70 <? c then (if (97 <=? c) && (c <=? 102) then St 258 else St 0) else St 258)
  | 258 => Some (
      if c =? 93 then St 236 else
      if c <? 65 then (if (48 <=? c) && (c <=? 57) then St 235 else St 0) else
      if 70 <? c then (if (97 <=? c) && (c <=? 102) then St 235 else St 0) else St 235)
  | 259 => Some (
      if c =? 46 then St 230 else if c =? 58 then St 255 else
      if c <? 65 then (if (48 <=? c) && (c <=? 57) then St 260 else St 0) else
      if 70 <? c then (if (97 <=? c) && (c <=? 102) then St 252 else St 0) else St 252)
  | 260 => Some (
      if c =? 46 then St 230 else if c =? 58 then St 255 else
      if c <? 65 then (if (48 <=? c) && (c <=? 57) then St 261 else St 0) else
      if 70 <? c then (if (97 <=? c) && (c <=? 102) then St 253 else St 0) else St 253)
  | 261 => Some (
      if c =? 46 then St 230 else if c =? 58 then St 255 else
      if c <? 65 then (if (48 <=? c) && (c <=? 57) then St 254 else St 0) else
      if 70 <? c then (if (97 <=? c) && (c <=? 102) then St 254 else St 0) else St 254)
  | 262 => Some (
      if c =? 46 then St 230 else if c =? 48 then St 263 else if c =? 53 then St 264 else
      if c =? 58 then St 255 else
      if c <? 65 then (if (49 <=? c) && (c <=? 57) then St 252 else St 0) else
      if 70 <? c then (if (97 <=? c) && (c <=? 102) then St 252 else St 0) else St 252)
  | 263 => Some (
      if c =? 58 then St 255 else
      if c <? 65 then (if (48 <=? c) && (c <=? 57) then St 261 else St 0) else
      if 70 <? c then (if (97 <=? c) && (c <=? 102) then St 253 else St 0) else St 253)
  | 264 => Some (
      if c =? 48 then St 261 else if c =? 58 then St 255 else
      if c <? 65 then (if (49 <=? c) && (c <=? 57) then St 253 else St 0) else
      if 70 <? c then (if (97 <=? c) && (c <=? 102) then St 253 else St 0) else St 253)
  | _ => None
  end.

Definition states_35 (relaxed : bool) (cs c : Z) : option jump :=
  let w := widec relaxed c in
  match cs with
  | 265 => Some (
      if c =? 58 then St 255 else
      if c <? 65 then (if (48 <=? c) && (c <=? 57) then St 252 else St 0) else
      if 70 <? c then (if (97 <=? c) && (c <=? 102) then St 252 else St 0) else St 252)
  | 266 => Some (
      if c =? 58 then St 270 else
      if c <? 65 then (if (48 <=? c) && (c <=? 57) then St 267 else St 0) else
      if 70 <? c then (if (97 <=? c) && (c <=? 102) then St 267 else St 0) else St 267)
  | 267 => Some (
      if c =? 58 then St 270 else
      if c <? 65 then (if (48 <=? c) && (c <=? 57) then St 268 else St 0) else
      if 70 <? c then (if (97 <=? c) && (c <=? 102) then St 268 else St 0) else St 268)
  | 268 => Some (
      if c =? 58 then St 270 else
      if c <? 65 then (if (48 <=? c) && (c <=? 57) then St 269 else St 0) else
      if 70 <? c then (if (97 <=? c) && (c <=? 102) then St 269 else St 0) else St 269)
  | 269 => Some (
      if c =? 58 then St 270 else St 0)
  | 270 => Some (
      if c =? 58 then St 341 else
      if c <? 65 then (if (48 <=? c) && (c <=? 57) then St 271 else St 0) else
      if 70 <? c then (if (97 <=? c) && (c <=? 102) then St 271 else St 0) else St 271)
  | 271 => Some (
      if c =? 58 then St 275 else
      if c <? 65 then (if (48 <=? c) && (c <=? 57) then St 272 else St 0) else
      if 70 <? c then (if (97 <=? c) && (c <=? 102) then St 272 else St 0) else St 272)
  | 272 => Some (
      if c =? 58 then St 275 else
      if c <? 65 then (if (48 <=? c) && (c <=? 57) then St 273 else St 0) else
      if 70 <? c then (if (97 <=? c) && (c <=? 102) then St 273 else St 0) else St 273)
  | 273 => Some (
      if c =? 58 then St 275 else
      if c <? 65 then (if (48 <=? c) && (c <=? 57) then St 274 else St 0) else
      if 70 <? c then (if (97 <=? c) && (c <=? 102) then St 274 else St 0) else St 274)
  | 274 => Some (
      if c =? 58 then St 275 else St 0)
  | 275 => Some (
      if c =? 58 then St 340 else
      if c <? 65 then (if (48 <=? c) && (c <=? 57) then St 276 else St 0) else
      if 70 <? c then (if (97 <=? c) && (c <=? 102) then St 276 else St 0) else St 276)
  | _ => None
  end.

Definition states_36 (relaxed : bool) (cs c : Z) : option jump :=
  let w := widec relaxed c in
  match cs with
  | 276 => Some (
      if c =? 58 then St 280 else
      if c <? 65 then (if (48 <=? c) && (c <=? 57) then St 277 else St 0) else
      if 70 <? c then (if (97 <=? c) && (c <=? 102) then St 277 else St 0) else St 277)
  | 277 => Some (
      if c =? 58 then St 280 else
      if c <? 65 then (if (48 <=? c) && (c <=? 57) then St 278 else St 0) else
      if 70 <? c then (if (97 <=? c) && (c <=? 102) then St 278 else St 0) else St 278)
  | 278 => Some (
      if c =? 58 then St 280 else
      if c <? 65 then (if (48 <=? c) && (c <=? 57) then St 279 else St 0) else
      if 70 <? c then (if (97 <=? c) && (c <=? 102) then St 279 else St 0) else St 279)
  | 279 => Some (
      if c =? 58 then St 280 else St 0)
  | 280 => Some (
      if c =? 58 then St 339 else
      if c <? 65 then (if (48 <=? c) && (c <=? 57) then St 281 else St 0) else
      if 70 <? c then (if (97 <=? c) && (c <=? 102) then St 281 else St 0) else St 281)
  | 281 => Some (
      if c =? 58 then St 285 else
      if c <? 65 then (if (48 <=? c) && (c <=? 57) then St 282 else St 0) else
      if 70 <? c then (if (97 <=? c) && (c <=? 102) then St 282 else St 0) else St 282)
  | 282 => Some (
      if c =? 58 then St 285 else
      if c <? 65 then (if (48 <=? c) && (c <=? 57) then St 283 else St 0) else
      if 70 <? c then (if (97 <=? c) && (c <=? 102) then St 283 else St 0) else St 283)
  | 283 => Some (
      if c =? 58 then St 285 else
      if c <? 65 then (if (48 <=? c) && (c <=? 57) then St 284 else St 0) else
      if 70 <? c then (if (97 <=? c) && (c <=? 102) then St 284 else St 0) else St 284)
  | 284 => Some (
      if c =? 58 then St 285 else St 0)
  | 285 => Some (
      if c =? 58 then St 338 else
      if c <? 65 then (if (48 <=? c) && (c <=? 57) then St 286 else St 0) else
      if 70 <? c then (if (97 <=? c) && (c <=? 102) then St 286 else St 0) else St 286)
  | 286 => Some (
      if c =? 58 then St 290 else
      if c <? 65 then (if (48 <=? c) && (c <=? 57) then St 287 else St 0) else
      if 70 <? c then (if (97 <=? c) && (c <=? 102) then St 287 else St 0) else St 287)
  | _ => None
  end.

Definition states_37 (relaxed : bool) (cs c : Z) : option jump :=
  let w := widec relaxed c in
  match cs with
  | 287 => Some (
      if c =? 58 then St 290 else
      if c <? 65 then (if (48 <=? c) && (c <=? 57) then St 288 else St 0) else
      if 70 <? c then (if (97 <=? c) && (c <=? 102) then St 288 else St 0) else St 288)
  | 288 => Some (
      if c =? 58 then St 290 else
      if c <? 65 then (if (48 <=? c) && (c <=? 57) then St 289 else St 0) else
      if 70 <? c then (if (97 <=? c) && (c <=? 102) then St 289 else St 0) else St 289)
  | 289 => Some (
      if c =? 58 then St 290 else St 0)
  | 290 => Some (
      if c =? 58 then St 326 else
      if c <? 65 then (if (48 <=? c) && (c <=? 57) then St 291 else St 0) else
      if 70 <? c then (if (97 <=? c) && (c <=? 102) then St 291 else St 0) else St 291)
  | 291 => Some (
      if c =? 58 then St 295 else
      if c <? 65 then (if (48 <=? c) && (c <=? 57) then St 292 else St 0) else
      if 70 <? c then (if (97 <=? c) && (c <=? 102) then St 292 else St 0) else St 292)
  | 292 => Some (
      if c =? 58 then St 295 else
      if c <? 65 then (if (48 <=? c) && (c <=? 57) then St 293 else St 0) else
      if 70 <? c then (if (97 <=? c) && (c <=? 102) then St 293 else St 0) else St 293)
  | 293 => Some (
      if c =? 58 then St 295 else
      if c <? 65 then (if (48 <=? c) && (c <=? 57) then St 294 else St 0) else
      if 70 <? c then (if (97 <=? c) && (c <=? 102) then St 294 else St 0) else St 294)
  | 294 => Some (
      if c =? 58 then St 295 else St 0)
  | 295 => Some (
      if c =? 58 then St 325 else
      if c <? 65 then (if (48 <=? c) && (c <=? 57) then St 296 else St 0) else
      if 70 <? c then (if (97 <=? c) && (c <=? 102) then St 296 else St 0) else St 296)
  | 296 => Some (
      if c =? 58 then St 300 else
      if c <? 65 then (if (48 <=? c) && (c <=? 57) then St 297 else St 0) else
      if 70 <? c then (if (97 <=? c) && (c <=? 102) then St 297 else St 0) else St 297)
  | 297 => Some (
      if c =? 58 then St 300 else
      if c <? 65 then (if (48 <=? c) && (c <=? 57) then St 298 else St 0) else
      if 70 <? c then (if (97 <=? c) && (c <=? 102) then St 298 else St 0) else St 298)
  | _ => None
  end.

Definition states_38 (relaxed : bool) (cs c : Z) : option jump :=
  let w := widec relaxed c in
  match cs with
  | 298 => Some (
      if c =? 58 then St 300 else
      if c <? 65 then (if (48 <=? c) && (c <=? 57) then St 299 else St 0) else
      if 70 <? c then (if (97 <=? c) && (c <=? 102) then St 299 else St 0) else St 299)
  | 299 => Some (
      if c =? 58 then St 300 else St 0)
  | 300 => Some (
      if c =? 58 then St 301 else
      if c <? 65 then (if (48 <=? c) && (c <=? 57) then St 296 else St 0) else
      if 70 <? c then (if (97 <=? c) && (c <=? 102) then St 296 else St 0) else St 296)
  | 301 => Some (
      if c =? 49 then St 318 else if c =? 50 then St 321 else if c =? 93 then St 236 else
      if c <? 48 then (if (2 <=? c) && (c <=? 3) then St 223 else St 0) else
      if 57 <? c then (if 70 <? c then (if (97 <=? c) && (c <=? 102) then St 324 else St 0)
      else if 65 <=? c then St 324 else St 0) else St 302)
  | 302 => Some (
      if c =? 46 then St 230 else if c =? 58 then St 306 else if c =? 93 then St 236 else
      if c <? 65 then (if (48 <=? c) && (c <=? 57) then St 303 else St 0) else
      if 70 <? c then (if (97 <=? c) && (c <=? 102) then St 303 else St 0) else St 303)
  | 303 => Some (
      if c =? 58 then St 306 else if c =? 93 then St 236 else
      if c <? 65 then (if (48 <=? c) && (c <=? 57) then St 304 else St 0) else
      if 70 <? c then (if (97 <=? c) && (c <=? 102) then St 304 else St 0) else St 304)
  | 304 => Some (
      if c =? 58 then St 306 else if c =? 93 then St 236 else
      if c <? 65 then (if (48 <=? c) && (c <=? 57) then St 305 else St 0) else
      if 70 <? c then (if (97 <=? c) && (c <=? 102) then St 305 else St 0) else St 305)
  | 305 => Some (
      if c =? 58 then St 306 else if c =? 93 then St 236 else St 0)
  | 306 => Some (
      if c =? 49 then St 311 else if c =? 50 then St 314 else
      if c <? 65 then (if (48 <=? c) && (c <=? 57) then St 307 else St 0) else
      if 70 <? c then (if (97 <=? c) && (c <=? 102) then St 317 else St 0) else St 317)
  | _ => None
  end.

Definition states_39 (relaxed : bool) (cs c : Z) : option jump :=
  let w := widec relaxed c in
  match cs with
  | 307 => Some (
      if c =? 46 then St 230 else if c =? 58 then St 255 else if c =? 93 then St 236 else
      if c <? 65 then (if (48 <=? c) && (c <=? 57) then St 308 else St 0) else
      if 70 <? c then (if (97 <=? c) && (c <=? 102) then St 308 else St 0) else St 308)
  | 308 => Some (
      if c =? 58 then St 255 else if c =? 93 then St 236 else
      if c <? 65 then (if (48 <=? c) && (c <=? 57) then St 309 else St 0) else
      if 70 <? c then (if (97 <=? c) && (c <=? 102) then St 309 else St 0) else St 309)
  | 309 => Some (
      if c =? 58 then St 255 else if c =? 93 then St 236 else
      if c <? 65 then (if (48 <=? c) && (c <=? 57) then St 310 else St 0) else
      if 70 <? c then (if (97 <=? c) && (c <=? 102) then St 310 else St 0) else St 310)
  | 310 => Some (
      if c =? 58 then St 255 else if c =? 93 then St 236 else St 0)
  | 311 => Some (
      if c =? 46 then St 230 else if c =? 58 then St 255 else if c =? 93 then St 236 else
      if c <? 65 then (if (48 <=? c) && (c <=? 57) then St 312 else St 0) else
      if 70 <? c then (if (97 <=? c) && (c <=? 102) then St 308 else St 0) else St 308)
  | 312 => Some (
      if c =? 46 then St 230 else if c =? 58 then St 255 else if c =? 93 then St 236 else
      if c <? 65 then (if (48 <=? c) && (c <=? 57) then St 313 else St 0) else
      if 70 <? c then (if (97 <=? c) && (c <=? 102) then St 309 else St 0) else St 309)
  | 313 => Some (
      if c =? 46 then St 230 else if c =? 58 then St 255 else if c =? 93 then St 236 else
      if c <? 65 then (if (48 <=? c) && (c <=? 57) then St 310 else St 0) else
      if 70 <? c then (if (97 <=? c) && (c <=? 102) then St 310 else St 0) else St 310)
  | 314 => Some (
      if c =? 46 then St 230 else if c =? 48 then St 315 else if c =? 53 then St 316 else
      if c =? 58 then St 255 else if c =? 93 then St 236 else
      if c <? 65 then (if (49 <=? c) && (c <=? 57) then St 308 else St 0) else
      if 70 <? c then (if (97 <=? c) && (c <=? 102) then St 308 else St 0) else St 308)
  | 315 => Some (
      if c =? 58 then St 255 else if c =? 93 then St 236 else
      if c <? 65 then (if (48 <=? c) && (c <=? 57) then St 313 else St 0) else
      if 70 <? c then (if (97 <=? c) && (c <=? 102) then St 309 else St 0) else St 309)
  | _ => None
  end.

Definition states_40 (relaxed : bool) (cs c : Z) : option jump :=
  let w := widec relaxed c in
  match cs with
  | 316 => Some (
      if c =? 48 then St 313 else if c =? 58 then St 255 else if c =? 93 then St 236 else
      if c <? 65 then (if (49 <=? c) && (c <=? 57) then St 309 else St 0) else
      if 70 <? c then (if (97 <=? c) && (c <=? 102) then St 309 else St 0) else St 309)
  | 317 => Some (
      if c =? 58 then St 255 else if c =? 93 then St 236 else
      if c <? 65 then (if (48 <=? c) && (c <=? 57) then St 308 else St 0) else
      if 70 <? c then (if (97 <=? c) && (c <=? 102) then St 308 else St 0) else St 308)
  | 318 => Some (
      if c =? 46 then St 230 else if c =? 58 then St 306 else if c =? 93 then St 236 else
      if c <? 65 then (if (48 <=? c) && (c <=? 57) then St 319 else St 0) else
      if 70 <? c then (if (97 <=? c) && (c <=? 102) then St 303 else St 0) else St 303)
  | 319 => Some (
      if c =? 46 then St 230 else if c =? 58 then St 306 else if c =? 93 then St 236 else
      if c <? 65 then (if (48 <=? c) && (c <=? 57) then St 320 else St 0) else
      if 70 <? c then (if (97 <=? c) && (c <=? 102) then St 304 else St 0) else St 304)
  | 320 => Some (
      if c =? 46 then St 230 else if c =? 58 then St 306 else if c =? 93 then St 236 else
      if c <? 65 then (if (48 <=? c) && (c <=? 57) then St 305 else St 0) else
      if 70 <? c then (if (97 <=? c) && (c <=? 102) then St 305 else St 0) else St 305)
  | 321 => Some (
      if c =? 46 then St 230 else if c =? 48 then St 322 else if c =? 53 then St 323 else
      if c =? 58 then St 306 else if c =? 93 then St 236 else
      if c <? 65 then (if (49 <=? c) && (c <=? 57) then St 303 else St 0) else
      if 70 <? c then (if (97 <=? c) && (c <=? 102) then St 303 else St 0) else St 303)
  | 322 => Some (
      if c =? 58 then St 306 else if c =? 93 then St 236 else
      if c <? 65 then (if (48 <=? c) && (c <=? 57) then St 320 else St 0) else
      if 70 <? c then (if (97 <=? c) && (c <=? 102) then St 304 else St 0) else St 304)
  | 323 => Some (
      if c =? 48 then St 320 else if c =? 58 then St 306 else if c =? 93 then St 236 else
      if c <? 65 then (if (49 <=? c) && (c <=? 57) then St 304 else St 0) else
      if 70 <? c then (if (97 <=? c) && (c <=? 102) then St 304 else St 0) else St 304)
  | _ => None
  end.

Definition states_41 (relaxed : bool) (cs c : Z) : option jump :=
  let w := widec relaxed c in
  match cs with
  | 324 => Some (
      if c =? 58 then St 306 else if c =? 93 then St 236 else
      if c <? 65 then (if (48 <=? c) && (c <=? 57) then St 303 else St 0) else
      if 70 <? c then (if (97 <=? c) && (c <=? 102) then St 303 else St 0) else St 303)
  | 325 => Some (
      if c =? 49 then St 318 else if c =? 50 then St 321 else
      if c <? 48 then (if (2 <=? c) && (c <=? 3) then St 223 else St 0) else
      if 57 <? c then (if 70 <? c then (if (97 <=? c) && (c <=? 102) then St 324 else St 0)
      else if 65 <=? c then St 324 else St 0) else St 302)
  | 326 => Some (
      if c =? 49 then St 331 else if c =? 50 then St 334 else
      if c <? 48 then (if (2 <=? c) && (c <=? 3) then St 223 else St 0) else
      if 57 <? c then (if 70 <? c then (if (97 <=? c) && (c <=? 102) then St 337 else St 0)
      else if 65 <=? c then St 337 else St 0) else St 327)
  | 327 => Some (
      if c =? 46 then St 230 else if c =? 58 then St 306 else
      if c <? 65 then (if (48 <=? c) && (c <=? 57) then St 328 else St 0) else
      if 70 <? c then (if (97 <=? c) && (c <=? 102) then St 328 else St 0) else St 328)
  | 328 => Some (
      if c =? 58 then St 306 else
      if c <? 65 then (if (48 <=? c) && (c <=? 57) then St 329 else St 0) else
      if 70 <? c then (if (97 <=? c) && (c <=? 102) then St 329 else St 0) else St 329)
  | 329 => Some (
      if c =? 58 then St 306 else
      if c <? 65 then (if (48 <=? c) && (c <=? 57) then St 330 else St 0) else
      if 70 <? c then (if (97 <=? c) && (c <=? 102) then St 330 else St 0) else St 330)
  | 330 => Some (
      if c =? 58 then St 306 else St 0)
  | 331 => Some (
      if c =? 46 then St 230 else if c =? 58 then St 306 else
      if c <? 65 then (if (48 <=? c) && (c <=? 57) then St 332 else St 0) else
      if 70 <? c then (if (97 <=? c) && (c <=? 102) then St 328 else St 0) else St 328)
  | 332 => Some (
      if c =? 46 then St 230 else if c =? 58 then St 306 else
      if c <? 65 then (if (48 <=? c) && (c <=? 57) then St 333 else St 0) else
      if 70 <? c then (if (97 <=? c) && (c <=? 102) then St 329 else St 0) else St 329)
  | _ => None
  end.

Definition states_42 (relaxed : bool) (cs c : Z) : option jump :=
  let w := widec relaxed c in
  match cs with
  | 333 => Some (
      if c =? 46 then St 230 else if c =? 58 then St 306 else
      if c <? 65 then (if (48 <=? c) && (c <=? 57) then St 330 else St 0) else
      if 70 <? c then (if (97 <=? c) && (c <=? 102) then St 330 else St 0) else St 330)
  | 334 => Some (
      if c =? 46 then St 230 else if c =? 48 then St 335 else if c =? 53 then St 336 else
      if c =? 58 then St 306 else
      if c <? 65 then (if (49 <=? c) && (c <=? 57) then St 328 else St 0) else
      if 70 <? c then (if (97 <=? c) && (c <=? 102) then St 328 else St 0) else St 328)
  | 335 => Some (
      if c =? 58 then St 306 else
      if c <? 65 then (if (48 <=? c) && (c <=? 57) then St 333 else St 0) else
      if 70 <? c then (if (97 <=? c) && (c <=? 102) then St 329 else St 0) else St 329)
  | 336 => Some (
      if c =? 48 then St 333 else if c =? 58 then St 306 else
      if c <? 65 then (if (49 <=? c) && (c <=? 57) then St 329 else St 0) else
      if 70 <? c then (if (97 <=? c) && (c <=? 102) then St 329 else St 0) else St 329)
  | 337 => Some (
      if c =? 58 then St 306 else
      if c <? 65 then (if (48 <=? c) && (c <=? 57) then St 328 else St 0) else
      if 70 <? c then (if (97 <=? c) && (c <=? 102) then St 328 else St 0) else St 328)
  | 338 => Some (
      if c <? 48 then (if (2 <=? c) && (c <=? 3) then St 223 else St 0) else
      if 57 <? c then (if 70 <? c then (if (97 <=? c) && (c <=? 102) then St 224 else St 0)
      else if 65 <=? c then St 224 else St 0) else St 224)
  | 339 => Some (
      if (2 <=? c) && (c <=? 3) then St 223 else St 0)
  | 340 => Some (
      if c =? 3 then St 223 else St 0)
  | 341 => Some (
      if c =? 4 then St 223 else St 0)
  | 342 => Some (
      if c =? 58 then St 343 else St 0)
  | 343 => Some (
      if c =? 49 then St 318 else if c =? 50 then St 321 else if c =? 93 then St 236 else
      if c <? 48 then (if (2 <=? c) && (c <=? 5) then St 223 else St 0) else
      if 57 <? c then (if 70 <? c then (if (97 <=? c) && (c <=? 102) then St 324 else St 0)
      else if 65 <=? c then St 324 else St 0) else St 302)
  | _ => None
  end.

Definition states_43 (relaxed : bool) (cs c : Z) : option jump :=
  let w := widec relaxed c in
  match cs with
  | 344 => Some (
      if c <? 65 then (if (48 <=? c) && (c <=? 57) then St 345 else St 0) else
      if 70 <? c then (if (97 <=? c) && (c <=? 102) then St 345 else St 0) else St 345)
  | 345 => Some (
      if c =? 46 then St 346 else
      if c <? 65 then (if (48 <=? c) && (c <=? 57) then St 345 else St 0) else
      if 70 <? c then (if (97 <=? c) && (c <=? 102) then St 345 else St 0) else St 345)
  | 346 => Some (
      if w =? 33 then St 347 else if w =? 36 then St 347 else if w =? 61 then St 347 else
      if w =? 95 then St 347 else if w =? 126 then St 347 else if w =? 606 then St 347 else
      if w =? 635 then St 347 else if w =? 637 then St 347 else
      if w <? 48 then (if (38 <=? w) && (w <=? 46) then St 347 else St 0) else
      if 59 <? w then (if 90 <? w then (if (97 <=? w) && (w <=? 122) then St 347 else St 0)
      else if 65 <=? w then St 347 else St 0) else St 347)
  | 347 => Some (
      if w =? 33 then St 347 else if w =? 36 then St 347 else if w =? 61 then St 347 else
      if w =? 93 then St 236 else if w =? 95 then St 347 else if w =? 126 then St 347 else
      if w =? 606 then St 347 else if w =? 635 then St 347 else if w =? 637 then St 347 else
      if w <? 48 then (if (38 <=? w) && (w <=? 46) then St 347 else St 0) else
      if 59 <? w then (if 90 <? w then (if (97 <=? w) && (w <=? 122) then St 347 else St 0)
      else if 65 <=? w then St 347 else St 0) else St 347)
  | _ => None
  end.

(** [switch(cs)]: the jump taken in state [cs] on the character [c]; [None]
    when there is no such case. *)
Fixpoint first_case (l : list (bool → Z → Z → option jump)) (relaxed : bool) (cs c : Z) :
    option jump :=
  match l with
  | [] => None
  | f :: l => match f relaxed cs c with Some j => Some j | None => first_case l relaxed cs c end
  end.

Definition all_states : list (bool → Z → Z → option jump) :=
  [states_1; states_2; states_3; states_4; states_5; states_6;
   states_7; states_8; states_9; states_10; states_11; states_12;
   states_13; states_14; states_15; states_16; states_17; states_18;
   states_19; states_20; states_21; states_22; states_23; states_24;
   states_25; states_26; states_27; states_28; states_29; states_30;
   states_31; states_32; states_33; states_34; states_35; states_36;
   states_37; states_38; states_39; states_40; states_41; states_42;
   states_43].

Definition case_of (relaxed : bool) (cs c : Z) : option jump :=
  first_case all_states relaxed cs c.

(** The block a jump leads to: its actions and the next state. *)
Definition target (j : jump) : list action * Z :=
  match j with
  | St n => ([], n)
  | Tr k => tr k
  end.
