(* ===== verification/HttpParser.v ===== *)
(** * The request parser (megalo/http/http_parser.cc, http11_parser.rl.cc)

    [http_parser] is the C structure of the machine, [HttpRequestParser] the
    object its callbacks fill.  The bytes are given as the memory from the
    start of the caller's buffer to the end of its allocation, with the number
    [len] of valid bytes: a callback reads the memory its pointer and length
    designate.  The constructor does not set every member ([header_done],
    [uri_relaxed], [query_start]); their initial values are an argument. *)
From S2P Require Import Prelude Bytes Util Http HttpDfa.

Record http_parser := mkParser {
  p_cs : Z;
  p_body_start : Z;
  p_content_len : Z;
  p_nread : Z;
  p_mark : Z;
  p_field_start : Z;
  p_field_len : Z;
  p_query_start : Z;
  p_xml_sent : bool;
  p_json_sent : bool;
  p_uri_relaxed : bool;
  p_header_done : bool     (* is the pointer not null? *)
}.

Record HttpRequestParser := mkRequestParser {
  m_parser : http_parser;
  m_data : HttpRequest;
  m_error : Z
}.

Definition http_parser_start : Z := 1.
Definition http_parser_first_final : Z := 348.
Definition http_parser_error : Z := 0.

Definition set_mark (v : Z) (p : http_parser) : http_parser :=
  mkParser (p_cs p) (p_body_start p) (p_content_len p) (p_nread p) v (p_field_start p)
    (p_field_len p) (p_query_start p) (p_xml_sent p) (p_json_sent p) (p_uri_relaxed p)
    (p_header_done p).
Definition set_field (start len : Z) (p : http_parser) : http_parser :=
  mkParser (p_cs p) (p_body_start p) (p_content_len p) (p_nread p) (p_mark p) start
    len (p_query_start p) (p_xml_sent p) (p_json_sent p) (p_uri_relaxed p)
    (p_header_done p).
Definition set_query_start (v : Z) (p : http_parser) : http_parser :=
  mkParser (p_cs p) (p_body_start p) (p_content_len p) (p_nread p) (p_mark p) (p_field_start p)
    (p_field_len p) v (p_xml_sent p) (p_json_sent p) (p_uri_relaxed p) (p_header_done p).
Definition set_sent (x j : bool) (p : http_parser) : http_parser :=
  mkParser (p_cs p) (p_body_start p) (p_content_len p) (p_nread p) (p_mark p) (p_field_start p)
    (p_field_len p) (p_query_start p) x j (p_uri_relaxed p) (p_header_done p).
Definition set_body (start len : Z) (p : http_parser) : http_parser :=
  mkParser (p_cs p) start len (p_nread p) (p_mark p) (p_field_start p)
    (p_field_len p) (p_query_start p) (p_xml_sent p) (p_json_sent p) (p_uri_relaxed p)
    (p_header_done p).
Definition set_progress (cs nread : Z) (p : http_parser) : http_parser :=
  mkParser cs (p_body_start p) (p_content_len p) nread (p_mark p) (p_field_start p)
    (p_field_len p) (p_query_start p) (p_xml_sent p) (p_json_sent p) (p_uri_relaxed p)
    (p_header_done p).

Definition on_parser (f : http_parser → http_parser) : M HttpRequestParser () :=
  modify (λ s, mkRequestParser (f (m_parser s)) (m_data s) (m_error s)).
Definition on_data (f : HttpRequest → HttpRequest) : M HttpRequestParser () :=
  modify (λ s, mkRequestParser (m_parser s) (f (m_data s)) (m_error s)).
Definition setError (v : Z) : M HttpRequestParser () :=
  modify (λ s, mkRequestParser (m_parser s) (m_data s) v).

(** [http_parser_init]. *)
Definition http_parser_init (p : http_parser) : http_parser :=
  mkParser http_parser_start 0 0 0 0 0 0 (p_query_start p) false false (p_uri_relaxed p)
    (p_header_done p).

(** [HttpRequestParser::HttpRequestParser]; [p] is what the memory of
    [m_parser] holds. *)
Definition new_HttpRequestParser (p : http_parser) : HttpRequestParser :=
  mkRequestParser (http_parser_init p) (new_HttpRequest 17 true) 0.

(** ** The callbacks *)

(** [strncmp(at, lit, n) == 0] for a literal. *)
Fixpoint strncmp_eq (at_ lit : bytes) (n : Z) : bool :=
  if n <=? 0 then true else
  match lit, at_ with
  | [], [] => true
  | [], c :: _ => is_chr 0 c
  | _ :: _, [] => false
  | x :: lit, c :: at_ => (code c =? code x) && strncmp_eq at_ lit (n - 1)
  end.

Definition on_request_method (mem : bytes) (at_ length_ : Z) : M HttpRequestParser () :=
  let m := CharsToHttpMethod (drop (Z.to_nat at_) mem) in
  if bool_decide (m = INVALID_METHOD) then
    _ ← mem_string mem at_ length_; setError 1000
  else on_data (setMethod m).

Definition on_fragment (mem : bytes) (at_ length_ : Z) : M HttpRequestParser () :=
  s ← mem_string mem at_ length_; on_data (setFragment s).
Definition on_request_path (mem : bytes) (at_ length_ : Z) : M HttpRequestParser () :=
  s ← mem_string mem at_ length_; on_data (setPath s).
Definition on_query_string (mem : bytes) (at_ length_ : Z) : M HttpRequestParser () :=
  s ← mem_string mem at_ length_; on_data (setQuery s).

Definition on_http_version (mem : bytes) (at_ length_ : Z) : M HttpRequestParser () :=
  let a := drop (Z.to_nat at_) mem in
  if strncmp_eq a (str "HTTP/1.1") length_ then on_data (setVersion 17)
  else if strncmp_eq a (str "HTTP/1.0") length_ then on_data (setVersion 16)
  else _ ← mem_string mem at_ length_; setError 1001.

Definition on_http_field (mem : bytes) (field flen value vlen : Z) : M HttpRequestParser () :=
  if flen =? 0 then setError 1002 else
  v ← mem_string mem value vlen;
  k ← mem_string mem field flen;
  on_data (setHeader k v).

(** ** The machine *)

(** [LEN(AT, FPC)], a [size_t]. *)
Definition LEN (at_ p : Z) : Z := u64 (p - at_).

(** An action of the grammar at position [p] of the buffer. *)
Definition run_action (mem : bytes) (p : Z) (a : action) : M HttpRequestParser () :=
  q ← gets m_parser;
  match a with
  | mark => on_parser (set_mark p)
  | start_field => on_parser (set_field p (p_field_len q))
  | write_field => on_parser (set_field (p_field_start q) (LEN (p_field_start q) p))
  | start_value => on_parser (set_mark p)
  | write_value =>
      on_http_field mem (p_field_start q) (p_field_len q) (p_mark q) (LEN (p_mark q) p)
  | request_method => on_request_method mem (p_mark q) (LEN (p_mark q) p)
  | request_uri => mret tt
  | fragment => on_fragment mem (p_mark q) (LEN (p_mark q) p)
  | start_query => on_parser (set_query_start p)
  | query_string => on_query_string mem (p_query_start q) (LEN (p_query_start q) p)
  | http_version => on_http_version mem (p_mark q) (LEN (p_mark q) p)
  | request_path => on_request_path mem (p_mark q) (LEN (p_mark q) p)
  | done =>
      if p_xml_sent q || p_json_sent q then
        on_parser (set_body (p_mark q) (i32 (u64 (p - p_mark q + 1))))
      else
        on_parser (set_body (p + 1) (p_content_len q));;
        if p_header_done q then crash Uninitialised else mret tt
  | xml => on_parser (set_sent true (p_json_sent q))
  | json => on_parser (set_sent (p_xml_sent q) true)
  end.

Fixpoint run_actions (mem : bytes) (p : Z) (l : list action) : M HttpRequestParser () :=
  match l with
  | [] => mret tt
  | a :: l => run_action mem p a;; run_actions mem p l
  end.

Definition is_done (l : list action) : bool :=
  existsb (λ a, match a with done => true | _ => false end) l.

(** The machine from state [cs] at position [p], [l] being the characters from
    there to [pe]: the state and position it stops at. *)
Fixpoint machine (mem l : bytes) (cs p : Z) : M HttpRequestParser (Z * Z) :=
  match l with
  | [] => mret (cs, p)
  | c :: l =>
      relaxed ← gets (λ s, p_uri_relaxed (m_parser s));
      match case_of relaxed cs (i8 (code c)) with
      | None => mret (cs, p)
      | Some j =>
          let '(acts, n) := target j in
          if n =? 0 then mret (0, p) else
          run_actions mem p acts;;
          if is_done acts then mret (n, p + 1) else machine mem l n (p + 1)
      end
  end.

Definition http_parser_has_error (p : http_parser) : bool := p_cs p =? http_parser_error.
Definition http_parser_is_finished (p : http_parser) : bool := http_parser_first_final <=? p_cs p.
Definition http_parser_finish (p : http_parser) : Z :=
  if http_parser_has_error p then -1 else if http_parser_is_finished p then 1 else 0.

(** [http_parser_execute(parser, buffer, len, 0)]. *)
Definition http_parser_execute (mem : bytes) (len : Z) : M HttpRequestParser Z :=
  if len =? 0 then mret 0 else
  q ← gets m_parser;
  massert (len =? i32 len);;
  r ← machine mem (take (Z.to_nat len) mem) (p_cs q) 0;
  massert (r.2 <=? len);;
  on_parser (λ q, set_progress (if http_parser_has_error q then p_cs q else r.1)
                    (u64 (p_nread q + r.2)) q);;
  q ← gets m_parser;
  massert (p_nread q <=? len);;
  massert (p_body_start q <=? len);;
  massert (p_mark q <? len);;
  massert (p_field_len q <=? len);;
  massert (p_field_start q <? len);;
  mret (p_nread q).

(** [HttpRequestParser::execute(data, len)]: the number of bytes and the memory
    after the [memmove]. *)
Definition execute (mem : bytes) (len : Z) : M HttpRequestParser (Z * bytes) :=
  offset ← http_parser_execute mem len;
  let rest := slice (Z.to_nat offset) (Z.to_nat (len - offset)) mem in
  mret (offset, splice 0 rest mem).

Definition isFinished (s : HttpRequestParser) : Z := http_parser_finish (m_parser s).
Definition hasError (s : HttpRequestParser) : bool :=
  negb (m_error s =? 0) || http_parser_has_error (m_parser s).
Definition getContentLength (lexical_cast : bytes → option Z) (s : HttpRequestParser) : Z :=
  getAs lexical_cast (m_headers (m_data s)) (str "content-length") 0.

(** ** Examples *)

Definition zero_memory : http_parser := mkParser 0 0 0 0 0 0 0 0 false false false false.

Definition ex_text : bytes :=
  str "GET /a/b?x=1&y=%20 HTTP/1.1" ++ crlf ++ str "Host: www.example.com" ++ crlf ++
  str "content-length: 4" ++ crlf ++ crlf ++ str "body".

Example parse_example :
  match execute ex_text (Z.of_nat (length ex_text)) (new_HttpRequestParser zero_memory) with
  | Ret (n, mem) s =>
      (n, take 4 mem, isFinished s, hasError s, m_method (m_data s), m_path (m_data s),
       m_query (m_data s), m_version (m_data s), m_headers (m_data s)) =
      (73, str "body", 1, false, GET, str "/a/b", str "x=1&y=%20", 17,
       [(str "content-length", str "4"); (str "Host", str "www.example.com")])
  | _ => False
  end.
Proof. vm_compute. reflexivity. Qed.

(** ** What the machine reads

    [walk] is a run over characters on which the machine only moves.  A state
    is checked on all 256 bytes by computation ([step_class]). *)

Definition jump_is (o : option jump) (j : jump) : bool :=
  match o, j with
  | Some (St n), St m => n =? m
  | Some (Tr k), Tr m => k =? m
  | _, _ => false
  end.

Lemma jump_is_spec o j : jump_is o j = true → o = Some j.
Proof. destruct o as [[n|n]|], j as [m|m]; simpl; try done; intros ->%Z.eqb_eq; done. Qed.

(** Characters of a class all take the jump [j] from [cs]. *)
Definition class_steps (relaxed : bool) (cs : Z) (C : byte → bool) (j : jump) : bool :=
  forallb (λ c, implb (C c) (jump_is (case_of relaxed cs (i8 (code c))) j)) all_bytes.

Definition class_walks (cs : Z) (C : byte → bool) (j : jump) : bool :=
  class_steps true cs C j && class_steps false cs C j.

#[local] Opaque case_of.

Lemma step_class relaxed cs C j c :
  class_walks cs C j = true → C c = true → case_of relaxed cs (i8 (code c)) = Some j.
Proof.
  unfold class_walks. rewrite andb_true_iff. intros [Ht Hf] Hc. apply jump_is_spec.
  assert (class_steps relaxed cs C j = true) as H by (destruct relaxed; [exact Ht|exact Hf]).
  pose proof (forall_bytes _ H c) as H'. cbv beta in H'. rewrite Hc in H'. exact H'.
Qed.

#[local] Opaque class_walks.

Fixpoint walk (relaxed : bool) (cs : Z) (l : bytes) : option Z :=
  match l with
  | [] => Some cs
  | c :: l =>
      match case_of relaxed cs (i8 (code c)) with
      | Some (St n) => if n =? 0 then None else walk relaxed n l
      | _ => None
      end
  end.

Lemma walk_class relaxed cs C l :
  cs ≠ 0 → class_walks cs C (St cs) = true → Forall (λ c, C c = true) l →
  walk relaxed cs l = Some cs.
Proof.
  intros H0 HC. induction 1 as [|c l Hc _ IH]; simpl; [done|].
  rewrite (step_class relaxed cs C (St cs) c HC Hc). by rewrite (proj2 (Z.eqb_neq cs 0) H0).
Qed.

(** Text with percent escapes: from [cs], by [%] to [h1], by hex digits to
    [h2] and back. *)
Fixpoint uri_text (C : byte → bool) (l : bytes) : bool :=
  match l with
  | [] => true
  | c :: l' =>
      if is_chr 37 c then
        match l' with
        | a :: b :: l => isxdigit a && isxdigit b && uri_text C l
        | _ => false
        end
      else C c && uri_text C l'
  end.

Definition unreserved_or (C : byte → bool) (c : byte) : bool := C c && negb (is_chr 37 c).

Lemma walk_uri_text relaxed cs h1 h2 C l :
  cs ≠ 0 → h1 ≠ 0 → h2 ≠ 0 →
  class_walks cs (unreserved_or C) (St cs) = true → class_walks cs (is_chr 37) (St h1) = true →
  class_walks h1 isxdigit (St h2) = true → class_walks h2 isxdigit (St cs) = true →
  uri_text C l = true → walk relaxed cs l = Some cs.
Proof.
  intros Hcs%Z.eqb_neq H1%Z.eqb_neq H2%Z.eqb_neq W0 W1 W2 W3.
  assert (∀ n l, (length l ≤ n)%nat → uri_text C l = true → walk relaxed cs l = Some cs) as H;
    [|by apply (H (length l))]. clear l.
  induction n as [|n IH]; intros [|c l] Hn; simpl in *; try done; [lia|].
  destruct (is_chr 37 c) eqn:Ec.
  - destruct l as [|a [|b l]]; [done..|]. rewrite !andb_true_iff. intros [[Ha Hb] Hl].
    rewrite (step_class _ _ _ _ _ W1 Ec), H1. simpl.
    rewrite (step_class _ _ _ _ _ W2 Ha), H2, (step_class _ _ _ _ _ W3 Hb), Hcs.
    apply IH; [simpl in Hn; lia|done].
  - rewrite andb_true_iff. intros [Hc Hl].
    assert (unreserved_or C c = true) as Hu by (unfold unreserved_or; by rewrite Hc, Ec).
    rewrite (step_class _ _ _ _ _ W0 Hu), Hcs. apply IH; [lia|done].
Qed.

Lemma machine_walk mem l k cs cs' p s :
  walk (p_uri_relaxed (m_parser s)) cs l = Some cs' →
  machine mem (l ++ k) cs p s = machine mem k cs' (p + Z.of_nat (length l)) s.
Proof.
  revert cs p. induction l as [|c l IH]; intros cs p; simpl.
  { intros [= ->]. by rewrite Z.add_0_r. }
  rewrite bind_gets. destruct (case_of _ cs _) as [[n|n]|]; [|done..]. simpl.
  destruct (n =? 0); [done|]. intros Hw. rewrite bind_mret. rewrite (IH _ (p + 1)) by done.
  f_equal. lia.
Qed.

Lemma machine_step mem c l cs p s j acts n s' :
  case_of (p_uri_relaxed (m_parser s)) cs (i8 (code c)) = Some j → target j = (acts, n) →
  (n =? 0) = false → is_done acts = false → run_actions mem p acts s = Ret tt s' →
  machine mem (c :: l) cs p s = machine mem l n (p + 1) s'.
Proof.
  intros Hj Ht Hn Hd Hr. simpl. rewrite bind_gets, Hj, Ht, Hn. mstep Hr. by rewrite Hd.
Qed.

#[local] Arguments machine : simpl never.

(** One action that only marks. *)
Lemma run_actions_cons mem p a l s s' r :
  run_action mem p a s = Ret tt s' → run_actions mem p l s' = r → run_actions mem p (a :: l) s = r.
Proof. intros H <-. simpl. by mstep H. Qed.

(** ** The pieces of a request *)

(** Characters of a path, of a query or fragment, of a header name, of a
    header value and the first character of a value. *)
Definition in_range (a b : Z) (c : byte) : bool := (a <=? code c) && (code c <=? b).
Definition path_char (c : byte) : bool :=
  is_chr 33 c || in_range 36 59 c || is_chr 61 c || in_range 64 90 c || is_chr 95 c ||
  in_range 97 122 c || is_chr 126 c.
Definition query_char (c : byte) : bool := path_char c || is_chr 63 c.
Definition name_char (c : byte) : bool :=
  is_chr 33 c || in_range 35 39 c || in_range 42 43 c || in_range 45 46 c || in_range 48 57 c ||
  in_range 65 90 c || in_range 94 122 c || is_chr 124 c || is_chr 126 c.
Definition value_char (c : byte) : bool :=
  negb (is_chr 0 c || is_chr 10 c || is_chr 13 c || is_chr 127 c).
Definition value_first (c : byte) : bool :=
  value_char c && negb (is_chr 32 c) && negb (is_chr 9 c).

(** A path that starts with one slash. *)
Definition path_ok (l : bytes) : bool :=
  match l with
  | c :: l => is_chr 47 c && uri_text path_char l &&
      match l with c :: _ => negb (is_chr 47 c) | [] => true end
  | [] => false
  end.

Definition field_ok (x : bytes * bytes) : bool :=
  negb (bool_decide (x.1 = [])) && forallb name_char x.1 &&
  match x.2 with [] => true | c :: l => value_first c && forallb value_char l end.

Definition field_line (x : bytes * bytes) : bytes := x.1 ++ str ": " ++ x.2 ++ crlf.

Definition opt_part (c : Z) (o : option bytes) : bytes :=
  match o with Some l => chr c :: l | None => [] end.

Definition version_text (v : Z) : bytes := str "HTTP/1." ++ (if v =? 17 then str "1" else str "0").

(** The text of a request up to its body. *)
Definition request_text (m : HttpMethod) (path : bytes) (query frag : option bytes) (v : Z)
    (hs : list (bytes * bytes)) : bytes :=
  HttpMethodToString m ++ chr 32 :: path ++ opt_part 63 query ++ opt_part 35 frag ++
  chr 32 :: version_text v ++ crlf ++ concat (map field_line hs) ++ crlf.

Section pieces.
Context (mem post : bytes) (n0 cs0 cl : Z) (relaxed : bool) (err : Z).
Context (Hmem : Z.of_nat (length mem) < 2 ^ 31).

(** The state inside a request: the marks move, the rest stays. *)
Definition inside (mk fs fl qs : Z) (d : HttpRequest) : HttpRequestParser :=
  mkRequestParser (mkParser cs0 0 cl n0 mk fs fl qs false false relaxed false) d err.

(** The text [l] and what follows the request are what the memory holds from
    position [p] on. *)
Definition at_pos (p : Z) (l : bytes) : Prop := 0 ≤ p ∧ drop (Z.to_nat p) mem = l ++ post.

Lemma at_app p w l : at_pos p (w ++ l) → at_pos (p + Z.of_nat (length w)) l.
Proof.
  intros [Hp Hd]. split; [lia|]. replace (Z.to_nat _) with (Z.to_nat p + length w)%nat by lia.
  rewrite <- drop_drop, Hd, <- app_assoc. apply drop_app_length.
Qed.

Lemma at_bound p l : at_pos p l → p + Z.of_nat (length l) ≤ Z.of_nat (length mem) ∨ l ++ post = [].
Proof.
  intros [Hp Hd]. destruct (decide (l ++ post = [])); [by right|]. left.
  assert (length (drop (Z.to_nat p) mem) = length (l ++ post)) as H by congruence.
  rewrite length_drop, length_app in H. assert (length (l ++ post) ≠ 0%nat) as Hn
    by (by destruct (l ++ post)). rewrite length_app in Hn. lia.
Qed.

(** The string between a mark and the current position. *)
Lemma mem_string_at {S} p w x l (s : S) :
  at_pos p (w ++ x :: l) →
  mem_string mem p (LEN p (p + Z.of_nat (length w))) s = Ret w s.
Proof.
  intros Hat. destruct (at_bound _ _ Hat) as [Hb|Hb]; [|by destruct w].
  destruct Hat as [Hp Hd]. rewrite length_app in Hb. simpl in Hb.
  unfold mem_string, LEN. replace (p + Z.of_nat (length w) - p) with (Z.of_nat (length w)) by lia.
  rewrite wrap_id by (unfold unsigned_in; lia).
  rewrite (proj2 (Z.leb_gt _ _)) by lia. rewrite (proj2 (Z.leb_le _ _)) by lia.
  unfold slice. rewrite Nat2Z.id, Hd, <- app_assoc, take_app_length. done.
Qed.

(** The method. *)
Lemma strpre_space a w r :
  chr 32 ∉ a → cstr w = w → strpre a (w ++ chr 32 :: r) = strpre a (w ++ [chr 32]).
Proof.
  intros Ha Hw. unfold strpre. apply bool_decide_ext.
  assert (∀ r, ∃ r', cstr (w ++ chr 32 :: r) = w ++ chr 32 :: r' ∧ (r = [] → r' = [])) as Hc.
  { clear r. intros r. exists (cstr r). split; [|by intros ->].
    clear Ha. induction w as [|c w IH]; simpl in *; [done|]. destruct (is_chr 0 c); [done|].
    simplify_eq. f_equal. by apply IH. }
  destruct (Hc r) as (r1&->&_). destruct (Hc []) as (r2&->&Hr2). rewrite (Hr2 eq_refl).
  destruct (decide (length a ≤ length w)%nat).
  - by rewrite !take_app_le by lia.
  - rewrite !(take_app_ge w) by lia. destruct (length a - length w)%nat as [|k] eqn:Ek; [lia|].
    simpl. split; intros H; exfalso; apply Ha; rewrite <- H; set_solver.
Qed.

Lemma CharsToHttpMethod_space w r :
  cstr w = w → CharsToHttpMethod (w ++ chr 32 :: r) = CharsToHttpMethod (w ++ [chr 32]).
Proof.
  intros Hw. unfold CharsToHttpMethod.
  assert (Forall (λ x : Z * HttpMethod * bytes, chr 32 ∉ x.2) HTTP_METHOD_MAP) as Hall
    by (apply (bool_decide_unpack _); vm_compute; exact I).
  induction Hall as [|x l Hx _ IH]; simpl; [done|]. rewrite strpre_space by done.
  by destruct (strpre x.2 _).
Qed.

Definition parseable (m : HttpMethod) : Prop := m ≠ INVALID_METHOD ∧ m ≠ MSEARCH.

Lemma machine_method m d l fs fl qs :
  parseable m → at_pos 0 (HttpMethodToString m ++ chr 32 :: l) →
  machine mem (HttpMethodToString m ++ chr 32 :: l) 1 0 (inside 0 fs fl qs d) =
    machine mem l 3 (Z.of_nat (length (HttpMethodToString m)) + 1)
      (inside 0 fs fl qs (setMethod m d)).
Proof.
  intros [H1 H2] [_ Hat]. simpl in Hat. rewrite drop_0 in Hat.
  set (w := HttpMethodToString m) in *.
  assert (∃ c w' cs', w = c :: w' ∧ case_of relaxed 1 (i8 (code c)) = Some (Tr 0) ∧
    walk relaxed 2 w' = Some cs' ∧ case_of relaxed cs' (i8 32) = Some (Tr 4) ∧
    cstr w = w ∧ CharsToHttpMethod (w ++ [chr 32]) = m) as (c&w'&cs'&Hw&Hc&Hw'&Hs&Hz&Hm).
  { destruct m; try done; subst w; destruct relaxed;
      (eexists _, _, _; split; [reflexivity|]; split; [vm_compute; reflexivity|];
       split; [vm_compute; reflexivity|]; split; [vm_compute; reflexivity|];
       split; vm_compute; reflexivity). }
  assert (on_request_method mem 0 (LEN 0 (Z.of_nat (length w))) (inside 0 fs fl qs d) =
    Ret tt (inside 0 fs fl qs (setMethod m d))) as Hon.
  { unfold on_request_method. simpl. rewrite drop_0, Hat, <- app_assoc. simpl.
    rewrite CharsToHttpMethod_space, Hm by done. rewrite bool_decide_eq_false_2 by done. done. }
  clearbody w. subst w. rewrite <- app_comm_cons.
  rewrite (machine_step mem c _ 1 0 _ (Tr 0) [mark] 2 (inside 0 fs fl qs d)) by done.
  rewrite (machine_walk _ _ _ _ cs') by done.
  replace (0 + 1 + Z.of_nat (length w')) with (Z.of_nat (length (c :: w'))) by (simpl; lia).
  apply (machine_step _ _ _ _ _ _ (Tr 4) [request_method]); [exact Hs|done..|].
  eapply run_actions_cons; [exact Hon|reflexivity].
Qed.

(** A path ends at a space, [#] or [?], a query at a space or [#]. *)
Definition path_end (x n : Z) : Prop := (x, n) ∈ [(32, 4); (35, 20); (63, 29)].
Definition query_end (x n : Z) : Prop := (x, n) ∈ [(32, 4); (35, 20)].

Lemma machine_path path x n l p mk fs fl qs d :
  path_ok path = true → path_end x n → at_pos p (path ++ chr x :: l) →
  machine mem (path ++ chr x :: l) 3 p (inside mk fs fl qs d) =
    machine mem l n (p + Z.of_nat (length path) + 1) (inside p fs fl qs (setPath path d)).
Proof.
  intros Hok Hx Hat.
  assert (∃ c w cs', path = c :: w ∧ is_chr 47 c = true ∧ walk relaxed 33 w = Some cs' ∧
    (cs' = 33 ∨ cs' = 26)) as (c&w&cs'&->&Hc&Hw&Hcs').
  { destruct path as [|c w]; simpl in Hok; [done|]. rewrite !andb_true_iff in Hok.
    destruct Hok as [[Hc Hw] Hn]. exists c, w. destruct w as [|b w]; [exists 33; auto|].
    exists 26. split_and!; [done..| |by right].
    assert (walk relaxed 26 (b :: w) = Some 26) as Hw' by
      (apply (walk_uri_text relaxed 26 27 28 path_char); [done..|vm_compute; reflexivity|
        vm_compute; reflexivity|vm_compute; reflexivity|vm_compute; reflexivity|done]).
    rewrite <- Hw'. simpl. 
    assert (∀ j, case_of relaxed 26 (i8 (code b)) = Some j → case_of relaxed 33 (i8 (code b)) = Some j) as Hj.
    { intros j <-. simpl in Hw. destruct (is_chr 37 b) eqn:Eb.
      - transitivity (Some (St 27)); [|symmetry]; apply (step_class _ _ (is_chr 37)); try done;
          vm_compute; reflexivity.
      - apply andb_true_iff in Hw as [Hb _].
        transitivity (Some (St 26)); [|symmetry];
          apply (step_class _ _ (λ c, path_char c && negb (is_chr 37 c) && negb (is_chr 47 c))
                   ); try (vm_compute; reflexivity); by rewrite Hb, Eb, Hn. }
    simpl in Hw'. destruct (case_of relaxed 26 _) as [j|]; [|done]. by rewrite (Hj j). }
  rewrite <- app_comm_cons.
  rewrite (machine_step mem c _ 3 p _ (Tr 10) [mark] 33 (inside p fs fl qs d)); [|
    apply (step_class _ _ (is_chr 47)); [vm_compute; reflexivity|done]|done..].
  rewrite (machine_walk _ _ _ _ cs') by done.
  replace (p + 1 + Z.of_nat (length w)) with (p + Z.of_nat (length (c :: w))) by (simpl; lia).
  assert (∃ j, case_of relaxed cs' (i8 (code (chr x))) = Some j ∧
    ((n ≠ 29 ∧ target j = ([request_path; request_uri], n)) ∨ (n = 29 ∧ target j = ([request_path], n)))
    ∧ n ≠ 0) as (j&Hj&Ht&Hn).
  { unfold path_end in Hx. rewrite !elem_of_cons, elem_of_nil in Hx.
    destruct Hx as [[= -> ->]|[[= -> ->]|[[= -> ->]|[]]]], Hcs' as [->| ->], relaxed;
      (eexists; split; [vm_compute; reflexivity|]); (split; [|done]); simpl; naive_solver. }
  apply Z.eqb_neq in Hn.
  assert (run_action mem (p + Z.of_nat (length (c :: w))) request_path (inside p fs fl qs d) =
    Ret tt (inside p fs fl qs (setPath (c :: w) d))) as Hon.
  { unfold run_action. msteps. unfold on_request_path. simpl p_mark.
    mstep (mem_string_at p (c :: w) _ l (inside p fs fl qs d) Hat). done. }
  destruct Ht as [[_ Ht]|[_ Ht]]; eapply machine_step; try done; 
    (eapply run_actions_cons; [exact Hon|reflexivity]).
Qed.

Ltac by_class := vm_compute; reflexivity.

Lemma Forall_forallb (f : byte → bool) l : forallb f l = true → Forall (λ c, f c = true) l.
Proof.
  rewrite List.forallb_forall. intros H. apply Forall_forall. intros y Hy. by apply H, list_elem_of_In.
Qed.

(** The first character of a query or fragment marks its start. *)
Lemma first_of_text cs cs' h h' k1 k2 acts w x :
  cs' ≠ 0 → h ≠ 0 → h' ≠ 0 →
  class_walks cs' (unreserved_or query_char) (St cs') = true →
  class_walks cs' (is_chr 37) (St h) = true →
  class_walks h isxdigit (St h') = true → class_walks h' isxdigit (St cs') = true →
  class_walks cs (unreserved_or query_char) (Tr k1) = true →
  class_walks cs (is_chr 37) (Tr k2) = true →
  target (Tr k1) = (acts, cs') → target (Tr k2) = (acts, h) →
  uri_text query_char (x :: w) = true →
  ∃ j n, case_of relaxed cs (i8 (code x)) = Some j ∧ target j = (acts, n) ∧ (n =? 0) = false ∧
    walk relaxed n w = Some cs'.
Proof.
  intros Hcs H1 H2 W0 W1 W2 W3 W4 W5 T1 T2 Hw. 
  pose proof (walk_uri_text relaxed cs' h h' query_char (x :: w) Hcs H1 H2 W0 W1 W2 W3 Hw) as H.
  apply Z.eqb_neq in Hcs, H1. simpl in H, Hw. destruct (is_chr 37 x) eqn:Ex.
  - exists (Tr k2), h. rewrite (step_class _ _ _ _ _ W1 Ex), H1 in H.
    by rewrite (step_class _ _ _ _ _ W5 Ex).
  - apply andb_true_iff in Hw as [Hx _].
    assert (unreserved_or query_char x = true) as Hu by (unfold unreserved_or; by rewrite Hx, Ex).
    exists (Tr k1), cs'. rewrite (step_class _ _ _ _ _ W0 Hu), Hcs in H.
    by rewrite (step_class _ _ _ _ _ W4 Hu).
Qed.

Lemma machine_query q x n l p mk fs fl qs d :
  uri_text query_char q = true → query_end x n → at_pos p (q ++ chr x :: l) →
  machine mem (q ++ chr x :: l) 29 p (inside mk fs fl qs d) =
    machine mem l n (p + Z.of_nat (length q) + 1) (inside mk fs fl p (setQuery q d)).
Proof.
  intros Hok Hx Hat. unfold query_end in Hx. rewrite !elem_of_cons, elem_of_nil in Hx.
  assert (run_action mem (p + Z.of_nat (length q)) query_string (inside mk fs fl p d) =
    Ret tt (inside mk fs fl p (setQuery q d))) as Hon.
  { unfold run_action. msteps. unfold on_query_string. simpl p_query_start.
    mstep (mem_string_at p q _ l (inside mk fs fl p d) Hat). done. }
  destruct q as [|c w].
  - simpl. rewrite Z.add_0_r in *.
    destruct Hx as [[= -> ->]|[[= -> ->]|[]]];
      (eapply machine_step; [destruct relaxed; vm_compute; reflexivity|done..|]);
      (eapply run_actions_cons; [reflexivity|]); by eapply run_actions_cons.
  - destruct (first_of_text 29 30 31 32 54 56 [start_query] w c) as (j&m&Hj&Ht&Hm&Hw);
      [done|done|done|by_class|by_class|by_class|by_class|by_class|by_class|done|done|exact Hok|].
    rewrite <- app_comm_cons.
    rewrite (machine_step mem c _ 29 p _ j [start_query] m (inside mk fs fl p d)) by done.
    rewrite (machine_walk _ _ _ _ 30) by done.
    replace (p + 1 + Z.of_nat (length w)) with (p + Z.of_nat (length (c :: w))) by (simpl; lia).
    destruct Hx as [[= -> ->]|[[= -> ->]|[]]];
      (eapply machine_step; [destruct relaxed; vm_compute; reflexivity|done..|]);
      by eapply run_actions_cons.
Qed.

Lemma machine_fragment q l p mk fs fl qs d :
  uri_text query_char q = true → at_pos p (q ++ chr 32 :: l) →
  machine mem (q ++ chr 32 :: l) 20 p (inside mk fs fl qs d) =
    machine mem l 4 (p + Z.of_nat (length q) + 1) (inside p fs fl qs (setFragment q d)).
Proof.
  intros Hok Hat.
  assert (run_action mem (p + Z.of_nat (length q)) fragment (inside p fs fl qs d) =
    Ret tt (inside p fs fl qs (setFragment q d))) as Hon.
  { unfold run_action. msteps. unfold on_fragment. simpl p_mark.
    mstep (mem_string_at p q _ l (inside p fs fl qs d) Hat). done. }
  destruct q as [|c w].
  - simpl. rewrite Z.add_0_r in *.
    eapply machine_step; [destruct relaxed; vm_compute; reflexivity|done..|].
    eapply run_actions_cons; [reflexivity|]. by eapply run_actions_cons.
  - destruct (first_of_text 20 21 22 23 44 45 [mark] w c) as (j&m&Hj&Ht&Hm&Hw);
      [done|done|done|by_class|by_class|by_class|by_class|by_class|by_class|done|done|exact Hok|].
    rewrite <- app_comm_cons.
    rewrite (machine_step mem c _ 20 p _ j [mark] m (inside p fs fl qs d)) by done.
    rewrite (machine_walk _ _ _ _ 21) by done.
    replace (p + 1 + Z.of_nat (length w)) with (p + Z.of_nat (length (c :: w))) by (simpl; lia).
    eapply machine_step; [destruct relaxed; vm_compute; reflexivity|done..|].
    by eapply run_actions_cons.
Qed.

Lemma machine_version v l p mk fs fl qs d :
  v = 16 ∨ v = 17 → at_pos p (version_text v ++ crlf ++ l) →
  machine mem (version_text v ++ crlf ++ l) 4 p (inside mk fs fl qs d) =
    machine mem l 13 (p + 10) (inside p fs fl qs (setVersion v d)).
Proof.
  intros Hv Hat.
  assert (run_action mem (p + 8) http_version (inside p fs fl qs d) =
    Ret tt (inside p fs fl qs (setVersion v d))) as Hon.
  { unfold run_action. msteps. unfold on_http_version. simpl p_mark.
    destruct Hat as [_ Hd]. cbn [p_mark m_parser inside]. rewrite Hd, <- app_assoc.
    replace (LEN p (p + 8)) with 8 by (unfold LEN; by replace (p + 8 - p) with 8 by lia).
    by destruct Hv as [-> | ->]. }
  assert (∃ w, version_text v = chr 72 :: w ∧ walk relaxed 5 w = Some 12 ∧ length w = 7%nat)
    as (w&Hvt&Hw&Hl).
  { destruct Hv as [-> | ->], relaxed; eexists; (split; [reflexivity|]); split; vm_compute; reflexivity. }
  rewrite Hvt. rewrite <- app_comm_cons.
  rewrite (machine_step mem _ _ 4 p _ (Tr 13) [mark] 5 (inside p fs fl qs d)); [|
    destruct relaxed; vm_compute; reflexivity|done..].
  rewrite (machine_walk _ _ _ _ 12) by done. rewrite Hl.
  replace (p + 1 + Z.of_nat 7) with (p + 8) by lia.
  unfold crlf. rewrite <- !app_comm_cons.
  rewrite (machine_step mem _ _ 12 _ _ (Tr 22) [http_version] 17 (inside p fs fl qs (setVersion v d)));
    [|destruct relaxed; vm_compute; reflexivity|done..|by eapply run_actions_cons].
  rewrite (machine_step mem _ _ 17 _ _ (St 13) [] 13 (inside p fs fl qs (setVersion v d)));
    [|destruct relaxed; vm_compute; reflexivity|done..].
  f_equal. lia.
Qed.

(** A header is stored at the end of its value. *)
Lemma write_value_at p k v m mk l d qs x :
  k ≠ [] → at_pos p (k ++ chr 58 :: m) → at_pos mk (v ++ x :: l) →
  run_action mem (mk + Z.of_nat (length v)) write_value
    (inside mk p (LEN p (p + Z.of_nat (length k))) qs d) =
  Ret tt (inside mk p (LEN p (p + Z.of_nat (length k))) qs (setHeader k v d)).
Proof.
  intros Hk Hatk Hatv. set (s := inside mk p _ qs d).
  pose proof (mem_string_at p k _ m s Hatk) as H1. pose proof (mem_string_at mk v _ l s Hatv) as H2.
  assert ((LEN p (p + Z.of_nat (length k)) =? 0) = false) as Hl.
  { destruct (at_bound _ _ Hatk) as [Hb|Hb]; [|by destruct k]. rewrite length_app in Hb.
    destruct Hatk as [Hp _]. apply Z.eqb_neq. unfold LEN. destruct k as [|c k]; [done|]. simpl in *.
    rewrite wrap_id by (unfold unsigned_in; lia). lia. }
  unfold run_action. msteps. unfold on_http_field. subst s. cbn [p_mark p_field_start p_field_len m_parser inside].
  rewrite Hl. mstep H2. mstep H1. done.
Qed.

Lemma machine_value v l p k fs mk qs d m :
  k ≠ [] → match v with [] => true | c :: l => value_first c && forallb value_char l end = true →
  at_pos fs (k ++ chr 58 :: m) → at_pos p (v ++ crlf ++ l) →
  machine mem (v ++ crlf ++ l) 15 p (inside mk fs (LEN fs (fs + Z.of_nat (length k))) qs d) =
    machine mem l 13 (p + Z.of_nat (length v) + 2)
      (inside p fs (LEN fs (fs + Z.of_nat (length k))) qs (setHeader k v d)).
Proof.
  intros Hk Hv Hatk Hatv.
  pose proof (write_value_at fs k v m p (chr 10 :: l) d qs (chr 13) Hk Hatk Hatv) as Hon.
  set (fl := LEN fs (fs + Z.of_nat (length k))) in *.
  assert (machine mem (v ++ crlf ++ l) 15 p (inside mk fs fl qs d) =
    machine mem (chr 10 :: l) 17 (p + Z.of_nat (length v) + 1)
      (inside p fs fl qs (setHeader k v d))) as ->.
  { destruct v as [|c w].
    - simpl in Hon |- *. rewrite Z.add_0_r in *.
      eapply (machine_step _ _ _ _ _ _ (Tr 31)); [destruct relaxed; vm_compute; reflexivity|done..|].
      eapply run_actions_cons; [reflexivity|]. by eapply run_actions_cons.
    - apply andb_true_iff in Hv as [Hc Hw]. rewrite <- app_comm_cons.
      rewrite (machine_step mem c _ 15 p _ (Tr 28) [start_value] 16 (inside p fs fl qs d));
        [|apply (step_class _ _ value_first); [by_class|done]|done..].
      rewrite (machine_walk _ _ _ _ 16) by
        (apply (walk_class _ _ value_char); [done|by_class|by apply Forall_forallb]).
      replace (p + 1 + Z.of_nat (length w)) with (p + Z.of_nat (length (c :: w))) by (simpl; lia).
      eapply (machine_step _ _ _ _ _ _ (Tr 34)); [destruct relaxed; vm_compute; reflexivity|done..|].
      by eapply run_actions_cons. }
  rewrite (machine_step mem _ _ 17 _ _ (St 13) [] 13 (inside p fs fl qs (setHeader k v d)));
    [|destruct relaxed; vm_compute; reflexivity|done..].
  f_equal. lia.
Qed.

Lemma machine_field x l p mk fs fl qs d :
  field_ok x = true → at_pos p (field_line x ++ l) →
  machine mem (field_line x ++ l) 13 p (inside mk fs fl qs d) =
    machine mem l 13 (p + Z.of_nat (length (field_line x)))
      (inside (p + Z.of_nat (length x.1) + 2) p (LEN p (p + Z.of_nat (length x.1))) qs
        (setHeader x.1 x.2 d)).
Proof.
  destruct x as [k v]. unfold field_ok, field_line. simpl fst. simpl snd.
  rewrite !andb_true_iff, negb_true_iff, bool_decide_eq_false. intros [[Hk Hn] Hv] Hat.
  rewrite <- !app_assoc in *. 
  assert (at_pos (p + Z.of_nat (length k) + 2) (v ++ crlf ++ l)) as Hatv.
  { pose proof (at_app _ _ _ Hat) as H. by apply (at_app _ (str ": ")) in H. }
  assert (machine mem (k ++ str ": " ++ v ++ crlf ++ l) 13 p (inside mk fs fl qs d) =
    machine mem (v ++ crlf ++ l) 15 (p + Z.of_nat (length k) + 2)
      (inside (p + Z.of_nat (length k) + 1) p (LEN p (p + Z.of_nat (length k))) qs d)) as ->.
  { destruct k as [|c w]; [done|]. simpl in Hn. apply andb_true_iff in Hn as [Hc Hw].
    rewrite <- app_comm_cons.
    rewrite (machine_step mem c _ 13 p _ (Tr 23) [start_field] 14 (inside mk p fl qs d));
      [|apply (step_class _ _ name_char); [by_class|done]|done..].
    rewrite (machine_walk _ _ _ _ 14) by
      (apply (walk_class _ _ name_char); [done|by_class|by apply Forall_forallb]).
    replace (p + 1 + Z.of_nat (length w)) with (p + Z.of_nat (length (c :: w))) by (simpl; lia).
    set (q := p + Z.of_nat (length (c :: w))). change (str ": ") with [chr 58; chr 32]. simpl app.
    rewrite (machine_step mem _ _ 14 _ _ (Tr 27) [write_field] 15 (inside mk p (LEN p q) qs d));
      [|destruct relaxed; vm_compute; reflexivity|done..].
    rewrite (machine_step mem _ _ 15 _ _ (Tr 29) [start_value] 15 (inside (q + 1) p (LEN p q) qs d));
      [|destruct relaxed; vm_compute; reflexivity|done..].
    f_equal. lia. }
  rewrite (machine_value v l _ k p _ qs d (chr 32 :: v ++ crlf ++ l)) by done.
  f_equal. rewrite !length_app. change (length (str ": ")) with 2%nat. change (length crlf) with 2%nat. lia.
Qed.

(** The marks stay before the position. *)
Definition marks_before (p mk fs fl : Z) : Prop := mk < p ∧ fs < p ∧ fl ≤ p.

Lemma LEN_le a b : a ≤ b → LEN a b ≤ b - a.
Proof. intros. unfold LEN, wrap. apply Z.mod_le; lia. Qed.

Lemma machine_fields qs hs : ∀ p mk fs fl d l,
  Forall (λ x, field_ok x = true) hs → at_pos p (concat (map field_line hs) ++ l) →
  marks_before p mk fs fl →
  let p' := p + Z.of_nat (length (concat (map field_line hs))) in
  ∃ mk' fs' fl',
    machine mem (concat (map field_line hs) ++ l) 13 p (inside mk fs fl qs d) =
      machine mem l 13 p' (inside mk' fs' fl' qs (fold_left (λ d x, setHeader x.1 x.2 d) hs d)) ∧
    marks_before p' mk' fs' fl'.
Proof.
  induction hs as [|x hs IH]; intros p mk fs fl d l Hok Hat Hb; simpl.
  { exists mk, fs, fl. rewrite Z.add_0_r. done. }
  inversion_clear Hok as [|?? Hx Hhs]. simpl in Hat. rewrite <- app_assoc in Hat |- *.
  rewrite machine_field by done. pose proof (at_app _ _ _ Hat) as Hat'.
  assert (Z.of_nat (length (field_line x)) = Z.of_nat (length x.1) + Z.of_nat (length x.2) + 4) as Hl
    by (unfold field_line; rewrite !length_app; change (length (str ": ")) with 2%nat;
        change (length crlf) with 2%nat; lia).
  destruct (IH (p + Z.of_nat (length (field_line x))) (p + Z.of_nat (length x.1) + 2) p
    (LEN p (p + Z.of_nat (length x.1))) (setHeader x.1 x.2 d) l Hhs Hat') as (mk'&fs'&fl'&Hr&Hb').
  { unfold marks_before in *. destruct Hat as [Hp Hd].
    pose proof (LEN_le p (p + Z.of_nat (length x.1)) ltac:(lia)). lia. }
  exists mk', fs', fl'. rewrite Hr, length_app.
  rewrite Nat2Z.inj_add, Z.add_assoc. done.
Qed.
End pieces.

(** The request line and the headers. *)
Definition opt_ok (o : option bytes) : bool :=
  match o with Some q => uri_text query_char q | None => true end.

(** What is parsed from [request_text]. *)
Definition parsed_request (m : HttpMethod) (path : bytes) (query frag : option bytes) (v : Z)
    (hs : list (bytes * bytes)) (r : HttpRequest) : HttpRequest :=
  let r := setPath path (setMethod m r) in
  let r := match query with Some q => setQuery q r | None => r end in
  let r := match frag with Some q => setFragment q r | None => r end in
  fold_left (λ d x, setHeader x.1 x.2 d) hs (setVersion v r).

Section request.
Context (mem post : bytes) (n0 cs0 cl : Z) (relaxed : bool) (err : Z).
Context (Hmem : Z.of_nat (length mem) < 2 ^ 31).
#[local] Abbreviation inside := (inside n0 cs0 cl relaxed err).
#[local] Abbreviation at_pos := (at_pos mem post).

Ltac by_end := done || (cbv [path_end query_end]; apply (bool_decide_unpack _); vm_compute; exact I).

(** From the end of the path to the version. *)
Lemma machine_uri_tail path query frag l p mk fs fl qs d :
  path_ok path = true → opt_ok query = true → opt_ok frag = true →
  let w := path ++ opt_part 63 query ++ opt_part 35 frag in
  at_pos p (w ++ chr 32 :: l) →
  ∃ mk' qs', mk' < p + Z.of_nat (length w) + 1 ∧
  machine mem (w ++ chr 32 :: l) 3 p (inside mk fs fl qs d) =
    machine mem l 4 (p + Z.of_nat (length w) + 1) (inside mk' fs fl qs'
      (let r := setPath path d in
       let r := match query with Some q => setQuery q r | None => r end in
       match frag with Some q => setFragment q r | None => r end)).
Proof.
  intros Hp Hq Hf w Hat. subst w. destruct query as [q|], frag as [g|]; simpl in *;
    rewrite ?app_nil_r, <- ?app_assoc in *; simpl in *; rewrite <- ?app_assoc in *;
    rewrite ?length_app in *; simpl in *; rewrite ?length_app in *; simpl in *.
  - rewrite (machine_path mem post n0 cs0 cl relaxed err Hmem path 63 29) by by_end.
    pose proof (at_app mem post _ _ _ Hat) as Hat1. apply (at_app mem post _ [chr 63]) in Hat1.
    rewrite (machine_query mem post n0 cs0 cl relaxed err Hmem q 35 20); [|done|by_end|done].
    pose proof (at_app mem post _ _ _ Hat1) as Hat2. apply (at_app mem post _ [chr 35]) in Hat2.
    rewrite (machine_fragment mem post n0 cs0 cl relaxed err Hmem g) by done.
    eexists _, _. split; [|f_equal; lia]. destruct Hat. lia.
  - rewrite (machine_path mem post n0 cs0 cl relaxed err Hmem path 63 29) by by_end.
    pose proof (at_app mem post _ _ _ Hat) as Hat1. apply (at_app mem post _ [chr 63]) in Hat1.
    rewrite (machine_query mem post n0 cs0 cl relaxed err Hmem q 32 4); [|done|by_end|done].
    eexists _, _. split; [|f_equal; lia]. destruct Hat. lia.
  - rewrite (machine_path mem post n0 cs0 cl relaxed err Hmem path 35 20) by by_end.
    pose proof (at_app mem post _ _ _ Hat) as Hat1. apply (at_app mem post _ [chr 35]) in Hat1.
    rewrite (machine_fragment mem post n0 cs0 cl relaxed err Hmem g) by done.
    eexists _, _. split; [|f_equal; lia]. destruct Hat. lia.
  - rewrite (machine_path mem post n0 cs0 cl relaxed err Hmem path 32 4) by by_end.
    eexists _, _. split; [|reflexivity]. destruct Hat. lia.
Qed.

(** The whole text. *)
Lemma machine_request m path query frag v hs qs d k :
  parseable m → path_ok path = true → opt_ok query = true → opt_ok frag = true →
  v = 16 ∨ v = 17 → Forall (λ x, field_ok x = true) hs →
  let t := request_text m path query frag v hs in
  mem = (t ++ k) ++ post →
  ∃ mk fs fl qs', marks_before (Z.of_nat (length t)) mk fs fl ∧
  machine mem (t ++ k) 1 0 (inside 0 0 0 qs d) =
    (on_parser (set_body (Z.of_nat (length t)) cl);; mret (348, Z.of_nat (length t)))
      (inside mk fs fl qs' (parsed_request m path query frag v hs d)).
Proof.
  intros Hm Hp Hq Hf Hv Hhs t Hmt.
  assert (at_pos 0 (t ++ k)) as Hat by (split; [done|]; simpl; by rewrite drop_0).
  assert (t = HttpMethodToString m ++ chr 32 :: (path ++ opt_part 63 query ++ opt_part 35 frag) ++
    chr 32 :: (version_text v ++ crlf ++ concat (map field_line hs) ++ crlf)) as Ht
    by (unfold t, request_text; by rewrite <- !app_assoc).
  remember (Z.of_nat (length t)) as N eqn:HN. clearbody t. clear Hmt. rewrite Ht in Hat |- *.
  repeat (rewrite <- !app_assoc in Hat |- * || rewrite <- !app_comm_cons in Hat |- * ).
  rewrite (app_assoc path), (app_assoc (_ ++ _)) in Hat |- *. rewrite <- (app_assoc path) in Hat |- *.
  rewrite (machine_method mem post) by done.
  pose proof (at_app mem post _ _ _ Hat) as Hat1. apply (at_app mem post _ [chr 32]) in Hat1.
  edestruct (machine_uri_tail path query frag) as (mk&qs'&Hmk&->); [done|done|done|exact Hat1|].
  cbv zeta. 
  pose proof (at_app mem post _ _ _ Hat1) as Hat2. apply (at_app mem post _ [chr 32]) in Hat2.
  set (p2 := 0 + _ + _ + _ + _) in Hat2. 
  set (d2 := match frag with Some _ => _ | None => _ end).
  match goal with |- context [machine mem _ 4 ?p] => replace p with p2 by (unfold p2; simpl; lia) end.
  rewrite (machine_version mem post) by done.
  pose proof (at_app mem post _ _ _ Hat2) as Hat3. apply (at_app mem post _ crlf) in Hat3.
  assert (length (version_text v) = 8%nat) as Hvl by (by destruct Hv as [-> | ->]).
  rewrite Hvl in Hat3. change (length crlf) with 2%nat in Hat3.
  replace (p2 + 10) with (p2 + Z.of_nat 8 + Z.of_nat 2) by lia. set (p3 := _ + Z.of_nat 2) in *.
  assert (Hp2 : 0 ≤ p2) by apply Hat2.
  destruct (machine_fields mem post n0 cs0 cl relaxed err Hmem qs' hs p3 p2 0 0 (setVersion v d2) (crlf ++ k) Hhs Hat3)
    as (mk'&fs'&fl'&->&Hb). { unfold marks_before, p3. lia. }
  set (p4 := p3 + _) in *.
  assert (N = p4 + 2) as Hlt.
  { rewrite HN, Ht. unfold p4, p3, p2. repeat rewrite ?length_app, ?length_cons. rewrite Hvl.
    change (length (@nil byte)) with 0%nat. change (length crlf) with 2%nat. lia. }
  rewrite Hlt. exists mk', p4, fl', qs'. split; [unfold marks_before in *; lia|].
  unfold crlf. rewrite <- !app_comm_cons.
  rewrite (machine_step mem _ _ 13 p4 _ (Tr 25) [start_field] 18
    (inside mk' p4 fl' qs' (fold_left (λ d x, setHeader x.1 x.2 d) hs (setVersion v d2))));
    [|destruct relaxed; vm_compute; reflexivity|done..].
  replace (p4 + 2) with (p4 + 1 + 1) by lia. reflexivity.
Qed.
End request.

Lemma execute_request mem post junk m path query frag v hs prior :
  p_header_done prior = false → Z.of_nat (length mem) < 2 ^ 31 →
  parseable m → path_ok path = true → opt_ok query = true → opt_ok frag = true →
  v = 16 ∨ v = 17 → Forall (λ x, field_ok x = true) hs →
  let t := request_text m path query frag v hs in
  let n := Z.of_nat (length t) in
  let len := Z.of_nat (length (t ++ post)) in
  mem = (t ++ post) ++ junk →
  ∃ mem' s,
    execute mem len (new_HttpRequestParser prior) = Ret (n, mem') s ∧
    take (length post) mem' = post ∧ length mem' = length mem ∧
    isFinished s = 1 ∧ hasError s = false ∧
    m_data s = parsed_request m path query frag v hs (new_HttpRequest 17 true).
Proof.
  intros Hhd Hlen Hm Hp Hq Hf Hv Hhs t n len Hmem.
  set (d := parsed_request m path query frag v hs (new_HttpRequest 17 true)).
  assert (0 < n) as Hn by (unfold n, t, request_text; rewrite length_app, length_cons; lia).
  assert (len = n + Z.of_nat (length post)) as Hml by (unfold len; rewrite length_app; lia).
  assert (len ≤ Z.of_nat (length mem)) as Hle by (unfold len; rewrite Hmem, (length_app (t ++ post)); lia).
  destruct (machine_request mem junk 0 1 0 (p_uri_relaxed prior) 0 Hlen m path query frag v hs
    (p_query_start prior) (new_HttpRequest 17 true) post) as (mk&fs&fl&qs&Hb&Hr);
    [done..|].
  fold d in Hr. fold t n in Hb, Hr.
  assert (new_HttpRequestParser prior = inside 0 1 0 (p_uri_relaxed prior) 0 0 0 0 (p_query_start prior)
    (new_HttpRequest 17 true)) as -> by (unfold new_HttpRequestParser, http_parser_init; by rewrite Hhd).
  set (s := mkRequestParser (mkParser 348 n 0 n mk fs fl qs false false (p_uri_relaxed prior) false) d 0).
  assert (http_parser_execute mem len (inside 0 1 0 (p_uri_relaxed prior) 0 0 0 0
    (p_query_start prior) (new_HttpRequest 17 true)) = Ret n s) as He.
  { unfold http_parser_execute. rewrite (proj2 (Z.eqb_neq _ 0)) by lia. msteps.
    rewrite swrap_id, Z.eqb_refl by (unfold signed_in; lia). simpl massert. msteps.
    replace (take (Z.to_nat len) mem) with (t ++ post)
      by (unfold len; rewrite Hmem, Nat2Z.id; symmetry; apply take_app_length).
    cbn [p_cs m_parser inside].
    rewrite (bind_ret _ _ _ (348, n) (mkRequestParser (mkParser 1 n 0 0 mk fs fl qs false false
      (p_uri_relaxed prior) false) d 0)) by (exact Hr).
    simpl snd. unfold massert. unfold marks_before in Hb.
    rewrite (proj2 (Z.leb_le _ _)) by lia. unfold on_parser. msteps. simpl.
    rewrite wrap_id by (unfold unsigned_in; lia).
    rewrite Z.add_0_l, !(proj2 (Z.leb_le n _)) by lia. rewrite (proj2 (Z.ltb_lt mk _)) by lia.
    rewrite (proj2 (Z.leb_le fl _)) by lia. rewrite (proj2 (Z.ltb_lt fs _)) by lia.
    reflexivity. }
  assert (slice (Z.to_nat n) (Z.to_nat (len - n)) mem = post) as Hs.
  { unfold slice. rewrite Hml. replace (Z.to_nat n) with (length t) by (unfold n; lia).
    replace (Z.to_nat _) with (length post) by lia.
    rewrite Hmem, <- app_assoc, drop_app_length. apply take_app_length. }
  eexists _, s. split; [|split_and!].
  - unfold execute. mstep He. by rewrite Hs.
  - unfold splice. by rewrite take_0, app_nil_l, take_app_length.
  - apply length_splice. simpl. rewrite Hmem, !length_app. lia.
  - done.
  - done.
  - done.
Qed.

(** ** Header fields in a row *)

(** The value the fields [hs] leave for [key]: that of the last one whose name
    is the same up to case. *)
Definition last_value (key : bytes) (o : option bytes) (hs : list (bytes * bytes)) : option bytes :=
  fold_left (λ o x, if bool_decide (fold_key key = fold_key x.1) then Some x.2 else o) hs o.

Lemma fold_setHeader_wf hs : ∀ d, map_wf (m_headers d) →
  map_wf (m_headers (fold_left (λ d x, setHeader x.1 x.2 d) hs d)).
Proof.
  induction hs as [|x hs IH]; intros d Hd; simpl; [done|]. apply IH. by apply map_assign_wf.
Qed.

Lemma fold_setHeader_find key hs : ∀ d, map_wf (m_headers d) →
  snd <$> map_find key (m_headers (fold_left (λ d x, setHeader x.1 x.2 d) hs d)) =
    last_value key (snd <$> map_find key (m_headers d)) hs.
Proof.
  induction hs as [|x hs IH]; intros d Hd; simpl; [done|].
  rewrite IH by (by apply map_assign_wf). f_equal. apply map_assign_find. done.
Qed.

(** The other members are untouched. *)
Lemma fold_setHeader_other hs : ∀ d,
  let d' := fold_left (λ d x, setHeader x.1 x.2 d) hs d in
  m_method d' = m_method d ∧ m_path d' = m_path d ∧ m_query d' = m_query d ∧
  m_fragment d' = m_fragment d ∧ m_version d' = m_version d ∧ m_body d' = m_body d.
Proof. induction hs as [|x hs IH]; intros d; [done|]. apply (IH (setHeader x.1 x.2 d)). Qed.

Lemma parsed_request_fields m path query frag v hs (key : bytes) :
  let r := parsed_request m path query frag v hs (new_HttpRequest 17 true) in
  m_method r = m ∧ m_path r = path ∧ m_query r = default [] query ∧ m_fragment r = default [] frag ∧
  m_version r = v ∧ m_body r = [] ∧ map_wf (m_headers r) ∧
  snd <$> map_find key (m_headers r) = last_value key None hs.
Proof.
  unfold parsed_request. set (d := setVersion v _). cbv zeta.
  assert (m_method d = m ∧ m_path d = path ∧ m_query d = default [] query ∧
    m_fragment d = default [] frag ∧ m_version d = v ∧ m_body d = [] ∧ m_headers d = []) as
    (H1&H2&H3&H4&H5&H6&H7) by (by destruct query, frag).
  destruct (fold_setHeader_other hs d) as (G1&G2&G3&G4&G5&G6).
  split_and!; try congruence.
  - apply fold_setHeader_wf. rewrite H7. constructor.
  - rewrite fold_setHeader_find by (rewrite H7; constructor). by rewrite H7.
Qed.

Lemma last_value_none key o hs :
  (∀ x, x ∈ hs → fold_key key ≠ fold_key x.1) → last_value key o hs = o.
Proof.
  revert o. induction hs as [|x hs IH]; intros o H; simpl; [done|].
  rewrite bool_decide_eq_false_2 by (apply H; set_solver). apply IH. set_solver.
Qed.

(** In a map each name occurs once. *)
Lemma last_value_map key m : map_wf m → last_value key None m = snd <$> map_find key m.
Proof.
  intros Hwf. destruct (map_find key m) as [x|] eqn:E.
  - apply map_find_Some in E as [Hx Hk]; [|done]. simpl.
    apply list_elem_of_split in Hx as (l&l'&->).
    unfold last_value. rewrite fold_left_app. simpl. rewrite bool_decide_eq_true_2 by done.
    apply last_value_none. intros y Hy Heq.
    apply StronglySorted_app in Hwf as (_&Hwf&_). inversion_clear Hwf as [|?? _ Hall].
    rewrite Forall_forall in Hall. specialize (Hall y Hy). unfold key_less in Hall.
    rewrite <- Hk in Heq. apply fold_key_eq in Heq as [Heq _]. congruence.
  - apply last_value_none. intros x Hx Heq. rewrite map_find_None in E by done.
    by apply (E x Hx).
Qed.

(** ** A dumped request *)

Definition is_connection (k : bytes) : bool := strcasecmp k (str "connection") =? 0.

(** The fields [dump] writes. *)
Definition dump_fields (r : HttpRequest) : list (bytes * bytes) :=
  (if m_websocket r then []
   else [(str "connection", if m_close r then str "close" else str "keep-alive")]) ++
  List.filter (λ x, m_websocket r || negb (is_connection x.1)) (m_headers r).

Definition some_if (l : bytes) : option bytes := if bool_decide (l = []) then None else Some l.

Lemma dump_headers_fields w m :
  dump_headers w m =
    concat (map field_line (List.filter (λ x, w || negb (is_connection x.1)) m)).
Proof.
  unfold dump_headers. induction m as [|x m IH]; [done|]. cbn [map concat List.filter]. rewrite IH.
  unfold is_connection. destruct w, (strcasecmp x.1 _ =? 0); done.
Qed.

Lemma dump_request_text r :
  m_body r = [] → m_version r = 16 ∨ m_version r = 17 →
  dump r = request_text (m_method r) (m_path r) (some_if (m_query r)) (some_if (m_fragment r))
    (m_version r) (dump_fields r).
Proof.
  intros Hb Hv. unfold dump, request_text, dump_fields. rewrite Hb, dump_headers_fields, map_app, concat_app.
  assert (dump_version (m_version r) = version_text (m_version r)) as -> by (by destruct Hv as [-> | ->]).
  assert (∀ c q, (if bool_decide (q = []) then [] else [chr c]) ++ q = opt_part c (some_if q)) as Hq.
  { intros c [|x q]; unfold some_if; [done|]. by rewrite bool_decide_eq_false_2. }
  change (str "?") with [chr 63]. change (str "#") with [chr 35].
  rewrite (app_assoc _ (m_query r)), (app_assoc _ (m_fragment r)), !Hq.
  change (str " ") with [chr 32]. change (dump_body []) with crlf. unfold dump_connection.
  destruct (m_websocket r); cbn [negb map concat app]; [reflexivity|].
  unfold field_line at 2. change (str "connection: ") with (str "connection" ++ str ": ").
  simpl fst. simpl snd. rewrite <- !app_assoc. reflexivity.
Qed.

Lemma is_connection_spec k : is_connection k = true ↔ fold_key k = fold_key (str "connection").
Proof. unfold is_connection, strcasecmp. rewrite Z.eqb_eq. apply casecmp_0. Qed.

Lemma filter_true {A} (l : list A) : List.filter (λ _, true) l = l.
Proof. induction l as [|x l IH]; simpl; congruence. Qed.

Lemma last_value_filter key f o hs :
  (∀ x, fold_key key = fold_key x.1 → f x = true) →
  last_value key o (List.filter f hs) = last_value key o hs.
Proof.
  intros Hf. revert o. induction hs as [|x hs IH]; intros o; [done|]. simpl.
  destruct (f x) eqn:E; simpl; [by rewrite IH|]. rewrite IH.
  rewrite bool_decide_eq_false_2; [done|]. intros H%Hf. congruence.
Qed.

Lemma some_if_ok l : uri_text query_char l = true → opt_ok (some_if l) = true.
Proof. by destruct l. Qed.
Lemma dump_fields_ok r :
  Forall (λ x, field_ok x = true) (m_headers r) → Forall (λ x, field_ok x = true) (dump_fields r).
Proof.
  intros Hhs. unfold dump_fields. apply Forall_app. split.
  - destruct (m_websocket r); [constructor|]. destruct (m_close r); repeat constructor.
  - rewrite Forall_forall in Hhs |- *. intros x Hx. apply Hhs.
    apply list_elem_of_In in Hx. apply List.filter_In in Hx as [Hx _]. by apply list_elem_of_In.
Qed.

(** What the dumped fields say of a header. *)
Lemma dump_fields_value r key def :
  map_wf (m_headers r) →
  default def (last_value key None (dump_fields r)) =
    if negb (m_websocket r) && is_connection key
    then (if m_close r then str "close" else str "keep-alive")
    else default def (snd <$> map_find key (m_headers r)).
Proof.
  intros Hwf. unfold dump_fields. rewrite <- last_value_map by done.
  destruct (m_websocket r); cbn [negb andb app orb].
  { by rewrite filter_true. }
  match goal with |- context [last_value key None (?x :: ?l)] =>
    change (last_value key None (x :: l)) with
      (last_value key (if bool_decide (fold_key key = fold_key x.1) then Some x.2 else None) l) end.
  cbn [fst snd].
  destruct (is_connection key) eqn:Ek.
  - pose proof (proj1 (is_connection_spec key) Ek) as Hk. rewrite bool_decide_eq_true_2 by done.
    rewrite last_value_none; [done|]. intros x Hx Heq.
    apply list_elem_of_In, List.filter_In in Hx as [_ Hx]. apply negb_true_iff in Hx.
    assert (is_connection x.1 = true) by (apply is_connection_spec; congruence). congruence.
  - rewrite bool_decide_eq_false_2.
    + rewrite last_value_filter; [done|]. intros x Hx. apply negb_true_iff, not_true_is_false.
      rewrite is_connection_spec, <- Hx, <- is_connection_spec. congruence.
    + intros H. apply is_connection_spec in H. congruence.
Qed.

(** ** A request in several pieces *)

(** The actions leave the count of bytes read and the state alone. *)
Definition same_progress (s s' : HttpRequestParser) : Prop :=
  p_nread (m_parser s') = p_nread (m_parser s) ∧ p_cs (m_parser s') = p_cs (m_parser s).

Lemma mem_string_inv {S} mem a n (s : S) r s' : mem_string mem a n s = Ret r s' → s' = s.
Proof. unfold mem_string. destruct (_ <=? n); [done|]. destruct (_ <=? _); [|done]. by intros [= _ ->]. Qed.

Ltac by_string :=
  match goal with
  | H : (mem_string _ _ _ ≫= _) _ = Ret _ _ |- _ =>
      let K := fresh in let K' := fresh in
      apply bind_Ret_inv in H as (?&?&K&K'); apply mem_string_inv in K; subst
  end.

Lemma run_action_progress mem p a s x s' : run_action mem p a s = Ret x s' → same_progress s s'.
Proof.
  unfold run_action. msteps.
  destruct a; unfold on_http_field, on_request_method, on_fragment, on_query_string, on_http_version,
    on_request_path; intros Hr; repeat case_match; repeat by_string; cbv [mbind M_bind mret M_ret on_parser on_data
      setError modify crash] in *; try (by injection Hr as _ <-); simplify_eq/=; try done.
Qed.

Lemma run_actions_progress mem p l : ∀ s x s', run_actions mem p l s = Ret x s' → same_progress s s'.
Proof.
  induction l as [|a l IH]; intros s x s' H; simpl in H; [by injection H as _ <-|].
  apply bind_Ret_inv in H as (u&s1&H1%run_action_progress&H2%IH).
  destruct H1, H2. split; congruence.
Qed.

Lemma machine_progress mem l : ∀ cs p s cs' p' s',
  machine mem l cs p s = Ret (cs', p') s' →
  p ≤ p' ≤ p + Z.of_nat (length l) ∧ same_progress s s'.
Proof.
  induction l as [|c l IH]; intros cs p s cs' p' s' H; unfold machine in H; fold machine in H.
  { injection H as _ <- <-. simpl. split; [lia|done]. }
  rewrite bind_gets in H. destruct (case_of _ _ _) as [j|];
    [|injection H as _ <- <-; simpl; split; [lia|done]].
  destruct (target j) as [acts n]. destruct (n =? 0);
    [injection H as _ <- <-; simpl; split; [lia|done]|].
  apply bind_Ret_inv in H as (u&s1&H1%run_actions_progress&H).
  destruct (is_done acts); [injection H as _ <- <-; rewrite length_cons; split; [lia|done]|].
  apply IH in H as [Hb H2]. rewrite length_cons. split; [lia|].
  destruct H1, H2. split; congruence.
Qed.

Lemma massert_inv {S} b (s s' : S) x : massert b s = Ret x s' → b = true ∧ s' = s.
Proof. destruct b; [|done]. by intros [= _ <-]. Qed.

(** What a call that returns did. *)
Lemma http_parser_execute_inv mem len s r s' :
  0 < len → 0 ≤ p_nread (m_parser s) → p_nread (m_parser s) + len < 2 ^ 31 →
  http_parser_execute mem len s = Ret r s' →
  ∃ cs c s1, machine mem (take (Z.to_nat len) mem) (p_cs (m_parser s)) 0 s = Ret (cs, c) s1 ∧
    0 ≤ c ∧ r = p_nread (m_parser s) + c ∧ r ≤ len.
Proof.
  intros Hlen Hn Hb H. unfold http_parser_execute in H.
  rewrite (proj2 (Z.eqb_neq len 0)) in H by lia. rewrite bind_gets in H.
  apply bind_Ret_inv in H as (u1&s1&[_ ->]%massert_inv&H).
  apply bind_Ret_inv in H as ([cs c]&s2&Hm&H). exists cs, c, s2. split; [done|].
  pose proof (machine_progress _ _ _ _ _ _ _ _ Hm) as [Hc [Hs _]].
  rewrite length_take in Hc.
  apply bind_Ret_inv in H as (u2&s3&[_ ->]%massert_inv&H). unfold on_parser in H.
  rewrite bind_modify, bind_gets in H. simpl in H. rewrite Hs in H.
  rewrite wrap_id in H by (unfold unsigned_in; lia).
  apply bind_Ret_inv in H as (u4&s4&[H4%Z.leb_le ->]%massert_inv&H).
  do 4 apply bind_Ret_inv in H as (?&?&[_ ->]%massert_inv&H).
  injection H as <- _. lia.
Qed.

(** C40. A request that arrives in pieces: once [n] bytes have been read, a call
    on [len] further bytes reports [n] plus what it consumed, not what it
    consumed, and returns only when that sum is at most [len] (the assertions of
    [http_parser_execute]); on a piece shorter than what was read before the
    call never returns, whatever the bytes are. *)
Theorem split_request_aborts (mem : bytes) (len n : Z) (s : HttpRequestParser)
    (Hlen : 0 < len) (Hn : p_nread (m_parser s) = n) (Hn0 : 0 ≤ n) (Hsum : n + len < 2 ^ 31) :
  (∀ r s', http_parser_execute mem len s = Ret r s' →
     ∃ cs consumed s1,
       machine mem (take (Z.to_nat len) mem) (p_cs (m_parser s)) 0 s = Ret (cs, consumed) s1 ∧
       0 ≤ consumed ∧ r = n + consumed ∧ n + consumed ≤ len) ∧
  (len < n → ∀ r s', execute mem len s ≠ Ret r s').
Proof.
  subst n. split.
  - intros r s' H. apply http_parser_execute_inv in H as (cs&c&s1&?&?&?&?); [|done..].
    exists cs, c, s1. split_and!; [done..|lia].
  - intros Hlt r s' H. unfold execute in H. apply bind_Ret_inv in H as (r'&s1&H&_).
    apply http_parser_execute_inv in H as (cs&c&s2&?&?&?&?); [|done..]. lia.
Qed.

Definition ex_piece1 : bytes := str "GET /index HTTP/1.1" ++ crlf.
Definition ex_piece2 : bytes := str "Host: a" ++ crlf ++ crlf.

(** The request is complete, but its second piece stops the process. *)
Lemma split_request_witness :
  match execute ex_piece1 21 (new_HttpRequestParser zero_memory) with
  | Ret (n, _) s =>
      n = 21 ∧ (∀ r s', execute ex_piece2 11 s ≠ Ret r s') ∧ execute ex_piece2 11 s = Crash AssertFailed
  | _ => False
  end.
Proof.
  destruct (execute ex_piece1 21 (new_HttpRequestParser zero_memory)) as [[n m] s| |] eqn:E;
    vm_compute in E; [|discriminate E|discriminate E].
  injection E as <- <- <-. split; [reflexivity|]. split; [|vm_compute; reflexivity].
  match goal with |- ∀ r s', execute _ _ ?s ≠ _ =>
    refine (proj2 (split_request_aborts ex_piece2 11 21 s _ eq_refl _ _) _) end; lia.
Defined.

(** C15. Parsing a request: for a method the grammar knows, a path of RFC 3986
    characters and escapes, an optional query and fragment, version 1.0 or 1.1
    and header lines [name: value], one call of [execute] on the text and
    whatever was received after it returns the length of the text, leaves what followed at the
    start of the buffer, and the parser is finished without an error, with the
    method, path, query, fragment and version of the text, and for every header
    name the value of the last line of that name (up to case).  It needs the
    [header_done] member, which the constructor does not set, to be null. *)
Theorem request_parsed (mem post junk : bytes) (m : HttpMethod) (path : bytes) (query frag : option bytes)
    (v : Z) (hs : list (bytes * bytes)) (prior : http_parser)
    (Hhd : p_header_done prior = false) (Hlen : Z.of_nat (length mem) < 2 ^ 31)
    (Hm : parseable m) (Hp : path_ok path = true) (Hq : opt_ok query = true)
    (Hf : opt_ok frag = true) (Hv : v = 16 ∨ v = 17)
    (Hhs : Forall (λ x, field_ok x = true) hs)
    (Hmem : mem = (request_text m path query frag v hs ++ post) ++ junk) :
  ∃ mem' s,
    execute mem (Z.of_nat (length (request_text m path query frag v hs ++ post)))
        (new_HttpRequestParser prior) =
      Ret (Z.of_nat (length (request_text m path query frag v hs)), mem') s ∧
    take (length post) mem' = post ∧ isFinished s = 1 ∧ hasError s = false ∧
    m_method (m_data s) = m ∧ m_path (m_data s) = path ∧ m_query (m_data s) = default [] query ∧
    m_fragment (m_data s) = default [] frag ∧ m_version (m_data s) = v ∧
    ∀ key def, getHeader key def (m_data s) = default def (last_value key None hs).
Proof.
  destruct (execute_request mem post junk m path query frag v hs prior) as (mem'&s&He&Ht&_&Hfin&Herr&Hd);
    try done.
  exists mem', s. rewrite Hd.
  assert (∀ key, _) as Hfields by (intros key; exact (parsed_request_fields m path query frag v hs key)).
  destruct (Hfields []) as (?&?&?&?&?&_). split_and!; try done.
  intros key def. unfold getHeader. rewrite map_get_find.
  by destruct (Hfields key) as (_&_&_&_&_&_&_&->).
Qed.

Lemma request_parsed_witness :
  ∃ mem' s, execute ex_text (Z.of_nat (length ex_text)) (new_HttpRequestParser zero_memory) =
      Ret (73, mem') s ∧ take 4 mem' = str "body" ∧ isFinished s = 1 ∧
    getHeader (str "HOST") [] (m_data s) = str "www.example.com".
Proof.
  destruct (request_parsed ex_text (str "body") [] GET (str "/a/b") (Some (str "x=1&y=%20")) None 17
    [(str "Host", str "www.example.com"); (str "content-length", str "4")] zero_memory)
    as (mem'&s&He&Ht&Hf&_&_&_&_&_&_&Hh);
    [reflexivity|vm_compute; reflexivity|split; discriminate|vm_compute; reflexivity..
    |by right|repeat constructor|vm_compute; reflexivity|].
  exists mem', s. split; [exact He|]. split; [exact Ht|]. split; [exact Hf|].
  rewrite Hh. vm_compute. reflexivity.
Defined.

(** C6. Dump and parse: a request without a body that [dump] wrote is parsed
    back to the same method, path, query, fragment and version, and to the same
    headers, except that a request that is not a websocket carries a
    [connection] header that tells whether it closes. *)
Theorem dump_parse_round_trip (r : HttpRequest) (prior : http_parser)
    (Hhd : p_header_done prior = false) (Hlen : Z.of_nat (length (dump r)) < 2 ^ 31)
    (Hm : parseable (m_method r)) (Hp : path_ok (m_path r) = true)
    (Hq : uri_text query_char (m_query r) = true) (Hf : uri_text query_char (m_fragment r) = true)
    (Hv : m_version r = 16 ∨ m_version r = 17) (Hb : m_body r = [])
    (Hwf : map_wf (m_headers r)) (Hhs : Forall (λ x, field_ok x = true) (m_headers r)) :
  ∃ mem' s,
    execute (dump r) (Z.of_nat (length (dump r))) (new_HttpRequestParser prior) =
      Ret (Z.of_nat (length (dump r)), mem') s ∧
    isFinished s = 1 ∧ hasError s = false ∧
    m_method (m_data s) = m_method r ∧ m_path (m_data s) = m_path r ∧
    m_query (m_data s) = m_query r ∧ m_fragment (m_data s) = m_fragment r ∧
    m_version (m_data s) = m_version r ∧
    ∀ key def, getHeader key def (m_data s) =
      if negb (m_websocket r) && is_connection key
      then (if m_close r then str "close" else str "keep-alive") else getHeader key def r.
Proof.
  pose proof (dump_request_text r Hb Hv) as Hd.
  assert (∀ l, default [] (some_if l) = l) as Hsome by (by intros [|]).
  destruct (execute_request (dump r) [] [] (m_method r) (m_path r) (some_if (m_query r))
    (some_if (m_fragment r)) (m_version r) (dump_fields r) prior) as (mem'&s&He&_&_&Hfin&Herr&Hdata);
    try done; [by apply some_if_ok|by apply some_if_ok|by apply dump_fields_ok|by rewrite !app_nil_r|].
  rewrite app_nil_r, <- Hd in He. exists mem', s. rewrite Hdata.
  assert (∀ key, _) as Hfields by
    (intros key; exact (parsed_request_fields (m_method r) (m_path r) (some_if (m_query r))
      (some_if (m_fragment r)) (m_version r) (dump_fields r) key)).
  destruct (Hfields []) as (H1&H2&H3&H4&H5&_). rewrite Hsome in H3, H4. split_and!; try done.
  intros key def. unfold getHeader. rewrite !map_get_find.
  destruct (Hfields key) as (_&_&_&_&_&_&_&->). by apply dump_fields_value.
Qed.

Definition ex_request : HttpRequest :=
  Request POST 16 false false 0 (str "/x") (str "a=b") [] [] [(str "Accept", str "*/*")] [] [].

Lemma dump_parse_witness :
  ∃ mem' s,
    execute (dump ex_request) (Z.of_nat (length (dump ex_request))) (new_HttpRequestParser zero_memory) =
      Ret (Z.of_nat (length (dump ex_request)), mem') s ∧
    m_method (m_data s) = POST ∧ m_query (m_data s) = str "a=b" ∧
    getHeader (str "accept") [] (m_data s) = str "*/*" ∧
    getHeader (str "Connection") [] (m_data s) = str "keep-alive".
Proof.
  destruct (dump_parse_round_trip ex_request zero_memory) as (mem'&s&He&_&_&Hm&_&Hq&_&_&Hh);
    [reflexivity|vm_compute; reflexivity|split; discriminate|vm_compute; reflexivity..
    |by left|reflexivity|repeat constructor|repeat constructor|].
  exists mem', s. split; [exact He|]. split; [exact Hm|]. split; [exact Hq|].
  rewrite !Hh. split; vm_compute; reflexivity.
Defined.

(** ** What the grammar lets through *)

(** [HTTP_CTL = (0 - 31) | 127] is a difference in Ragel, not a range: a
    control character may be part of a header name, and a line without a colon
    becomes part of the name of the next header. *)
Definition ex_no_colon : bytes :=
  str "GET / HTTP/1.1" ++ crlf ++ str "broken" ++ crlf ++ str "Host: a" ++ crlf ++ crlf.

Example header_name_with_newline :
  match execute ex_no_colon (Z.of_nat (length ex_no_colon)) (new_HttpRequestParser zero_memory) with
  | Ret _ s =>
      hasError s = false ∧ isFinished s = 1 ∧
      m_headers (m_data s) = [(str "broken" ++ crlf ++ str "Host", str "a")]
  | _ => False
  end.
Proof. vm_compute. auto. Qed.

(** A garbage [header_done] is called when the headers are complete. *)
Example header_done_uninitialised :
  execute ex_text (Z.of_nat (length ex_text))
    (new_HttpRequestParser (mkParser 0 0 0 0 0 0 0 0 false false false true)) = Crash Uninitialised.
Proof. vm_compute. reflexivity. Qed.

(** The method [M-SEARCH] of [HTTP_METHOD_MAP] is not one the grammar accepts. *)
Definition ex_msearch : bytes := request_text MSEARCH (str "/") None None 17 [].
Example msearch_rejected :
  match execute ex_msearch (Z.of_nat (length ex_msearch)) (new_HttpRequestParser zero_memory) with
  | Ret _ s => isFinished s = -1 ∧ hasError s = true
  | _ => False
  end.
Proof. vm_compute. auto. Qed.
