(* ===== verification/HttpClientDfa.v ===== *)
(** * The state machine of the response parser (megalo/http/httpclient_parser.rl.cc)

    The machine Ragel made of httpclient_parser.rl: for each state the decisions
    of its [case] on the character [*p], as jumps to a state label ([goto stN])
    or to an action block ([goto trN]).  [c] is the value of the (signed)
    [char].  [St 0] is the error state.  The states are in the order of the
    file, in groups. *)
From S2P Require Import Prelude.

(** The actions of the grammar. *)
Inductive action :=
  | mark | start_field | write_field | start_value | write_content_len
  | write_connection_close | write_value | reason_phrase | status_code | http_version
  | chunk_size | trans_chunked | done.

Inductive jump := St (n : Z) | Tr (k : Z).

(** The blocks [tr0] to [tr159]: the actions, and the state they go to. *)
Definition tr (k : Z) : list action * Z :=
  match k with
  | 0 => ([mark], 2)
  | 2 => ([mark], 8)
  | 3 => ([chunk_size; done], 120)
  | 4 => ([chunk_size], 3)
  | 6 => ([chunk_size], 4)
  | 7 => ([done], 120)
  | 8 => ([start_field], 5)
  | 9 => ([write_field; start_value; write_value; done], 120)
  | 10 => ([write_field; start_value; write_value], 3)
  | 12 => ([write_field; start_value; write_value], 4)
  | 13 => ([write_field; start_value], 6)
  | 14 => ([start_value], 7)
  | 15 => ([write_value; done], 120)
  | 16 => ([write_value], 3)
  | 18 => ([write_value], 4)
  | 26 => ([http_version], 16)
  | 27 => ([mark], 17)
  | 28 => ([status_code], 18)
  | 30 => ([mark], 19)
  | 32 => ([reason_phrase], 20)
  | 33 => ([reason_phrase], 24)
  | 35 => ([start_field], 21)
  | 36 => ([start_field], 25)
  | 37 => ([start_field], 44)
  | 39 => ([write_field], 22)
  | 40 => ([start_value], 23)
  | 41 => ([start_value], 22)
  | 42 => ([start_value; write_value], 20)
  | 43 => ([start_value; write_value], 24)
  | 45 => ([write_value], 20)
  | 46 => ([write_value], 24)
  | 58 => ([write_field], 35)
  | 59 => ([start_value], 35)
  | 60 => ([start_value; write_value], 36)
  | 61 => ([start_value; write_value], 95)
  | 62 => ([start_value], 96)
  | 64 => ([done], 122)
  | 66 => ([start_field], 90)
  | 74 => ([write_connection_close; done], 120)
  | 75 => ([write_connection_close], 3)
  | 76 => ([write_connection_close; start_field], 21)
  | 77 => ([write_connection_close; start_field], 25)
  | 78 => ([write_connection_close; start_field], 44)
  | 95 => ([write_field], 61)
  | 96 => ([start_value], 61)
  | 97 => ([start_value; write_value], 62)
  | 98 => ([start_value; write_value], 80)
  | 99 => ([start_value], 81)
  | 101 => ([done], 121)
  | 103 => ([start_value; start_field], 73)
  | 104 => ([start_value], 64)
  | 111 => ([write_value; trans_chunked], 20)
  | 112 => ([write_value], 71)
  | 113 => ([trans_chunked], 20)
  | 136 => ([write_value], 43)
  | 137 => ([write_value], 88)
  | 148 => ([write_field], 112)
  | 149 => ([start_value], 112)
  | 150 => ([start_value; write_value], 113)
  | 151 => ([start_value; write_value], 118)
  | 152 => ([start_value], 119)
  | 154 => ([done], 123)
  | 156 => ([start_value; start_field], 117)
  | 157 => ([start_value], 115)
  | 158 => ([write_content_len; write_value], 20)
  | 159 => ([write_content_len; write_value], 24)
  | _ => ([], 0)
  end.

(** ** The states *)

Definition states_1 (cs c : Z) : option jump :=
  match cs with
  | 1 => Some (
      if c =? 72 then Tr 2 else if c <? 65 then (if (48 <=? c) && (c <=? 57) then Tr 0 else
      St 0) else if 70 <? c then (if (97 <=? c) && (c <=? 102) then Tr 0 else St 0) else Tr 0)
  | 2 => Some (
      if c =? 10 then Tr 3 else if c =? 13 then Tr 4 else if c =? 59 then Tr 6 else
      if c <? 65 then (if (48 <=? c) && (c <=? 57) then St 2 else St 0) else
      if 70 <? c then (if (97 <=? c) && (c <=? 102) then St 2 else St 0) else St 2)
  | 120 => Some (
      St 0)
  | _ => None
  end.

Definition states_2 (cs c : Z) : option jump :=
  match cs with
  | 3 => Some (
      if c =? 10 then Tr 7 else St 0)
  | 4 => Some (
      if c =? 33 then Tr 8 else if c =? 124 then Tr 8 else if c =? 126 then Tr 8 else
      if c <? 45 then (if 39 <? c then (if (42 <=? c) && (c <=? 43) then Tr 8 else St 0) else
      if 35 <=? c then Tr 8 else St 0) else
      if 46 <? c then (if c <? 65 then (if (48 <=? c) && (c <=? 57) then Tr 8 else St 0) else
      if 90 <? c then (if (94 <=? c) && (c <=? 122) then Tr 8 else St 0) else Tr 8) else Tr 8)
  | 5 => Some (
      if c =? 10 then Tr 9 else if c =? 13 then Tr 10 else if c =? 33 then St 5 else
      if c =? 59 then Tr 12 else if c =? 61 then Tr 13 else if c =? 124 then St 5 else
      if c =? 126 then St 5 else
      if c <? 45 then (if 39 <? c then (if (42 <=? c) && (c <=? 43) then St 5 else St 0) else
      if 35 <=? c then St 5 else St 0) else
      if 46 <? c then (if c <? 65 then (if (48 <=? c) && (c <=? 57) then St 5 else St 0) else
      if 90 <? c then (if (94 <=? c) && (c <=? 122) then St 5 else St 0) else St 5) else St 5)
  | 6 => Some (
      if c =? 33 then Tr 14 else if c =? 124 then Tr 14 else if c =? 126 then Tr 14 else
      if c <? 45 then (if 39 <? c then (if (42 <=? c) && (c <=? 43) then Tr 14 else St 0) else
      if 35 <=? c then Tr 14 else St 0) else
      if 46 <? c then (if c <? 65 then (if (48 <=? c) && (c <=? 57) then Tr 14 else St 0) else
      if 90 <? c then (if (94 <=? c) && (c <=? 122) then Tr 14 else St 0) else Tr 14) else
      Tr 14)
  | _ => None
  end.

Definition states_3 (cs c : Z) : option jump :=
  match cs with
  | 7 => Some (
      if c =? 10 then Tr 15 else if c =? 13 then Tr 16 else if c =? 33 then St 7 else
      if c =? 59 then Tr 18 else if c =? 124 then St 7 else if c =? 126 then St 7 else
      if c <? 45 then (if 39 <? c then (if (42 <=? c) && (c <=? 43) then St 7 else St 0) else
      if 35 <=? c then St 7 else St 0) else
      if 46 <? c then (if c <? 65 then (if (48 <=? c) && (c <=? 57) then St 7 else St 0) else
      if 90 <? c then (if (94 <=? c) && (c <=? 122) then St 7 else St 0) else St 7) else St 7)
  | 8 => Some (
      if c =? 84 then St 9 else St 0)
  | 9 => Some (
      if c =? 84 then St 10 else St 0)
  | 10 => Some (
      if c =? 80 then St 11 else St 0)
  | 11 => Some (
      if c =? 47 then St 12 else St 0)
  | 12 => Some (
      if (48 <=? c) && (c <=? 57) then St 13 else St 0)
  | 13 => Some (
      if c =? 46 then St 14 else if (48 <=? c) && (c <=? 57) then St 13 else St 0)
  | 14 => Some (
      if (48 <=? c) && (c <=? 57) then St 15 else St 0)
  | 15 => Some (
      if c =? 32 then Tr 26 else if (48 <=? c) && (c <=? 57) then St 15 else St 0)
  | 16 => Some (
      if (48 <=? c) && (c <=? 57) then Tr 27 else St 0)
  | 17 => Some (
      if c =? 32 then Tr 28 else if (48 <=? c) && (c <=? 57) then St 17 else St 0)
  | 18 => Some (
      if c =? 10 then St 0 else Tr 30)
  | _ => None
  end.

Definition states_4 (cs c : Z) : option jump :=
  match cs with
  | 19 => Some (
      if c =? 10 then Tr 32 else if c =? 13 then Tr 33 else St 19)
  | 20 => Some (
      if c =? 10 then Tr 7 else if c =? 13 then St 3 else if c =? 33 then Tr 35 else
      if c =? 67 then Tr 36 else if c =? 84 then Tr 37 else if c =? 99 then Tr 36 else
      if c =? 116 then Tr 37 else if c =? 124 then Tr 35 else if c =? 126 then Tr 35 else
      if c <? 45 then (if 39 <? c then (if (42 <=? c) && (c <=? 43) then Tr 35 else St 0) else
      if 35 <=? c then Tr 35 else St 0) else
      if 46 <? c then (if c <? 65 then (if (48 <=? c) && (c <=? 57) then Tr 35 else St 0) else
      if 90 <? c then (if (94 <=? c) && (c <=? 122) then Tr 35 else St 0) else Tr 35) else
      Tr 35)
  | 21 => Some (
      if c =? 33 then St 21 else if c =? 58 then Tr 39 else if c =? 124 then St 21 else
      if c =? 126 then St 21 else
      if c <? 45 then (if 39 <? c then (if (42 <=? c) && (c <=? 43) then St 21 else St 0) else
      if 35 <=? c then St 21 else St 0) else
      if 46 <? c then (if c <? 65 then (if (48 <=? c) && (c <=? 57) then St 21 else St 0) else
      if 90 <? c then (if (94 <=? c) && (c <=? 122) then St 21 else St 0) else St 21) else
      St 21)
  | _ => None
  end.

Definition states_5 (cs c : Z) : option jump :=
  match cs with
  | 22 => Some (
      if c =? 10 then Tr 42 else if c =? 13 then Tr 43 else if c =? 32 then Tr 41 else
      if (9 <=? c) && (c <=? 12) then Tr 41 else Tr 40)
  | 23 => Some (
      if c =? 10 then Tr 45 else if c =? 13 then Tr 46 else St 23)
  | 24 => Some (
      if c =? 10 then St 20 else St 0)
  | 25 => Some (
      if c =? 33 then St 21 else if c =? 58 then Tr 39 else if c =? 79 then St 26 else
      if c =? 111 then St 26 else if c =? 124 then St 21 else if c =? 126 then St 21 else
      if c <? 45 then (if 39 <? c then (if (42 <=? c) && (c <=? 43) then St 21 else St 0) else
      if 35 <=? c then St 21 else St 0) else
      if 46 <? c then (if c <? 65 then (if (48 <=? c) && (c <=? 57) then St 21 else St 0) else
      if 90 <? c then (if (94 <=? c) && (c <=? 122) then St 21 else St 0) else St 21) else
      St 21)
  | 26 => Some (
      if c =? 33 then St 21 else if c =? 58 then Tr 39 else if c =? 78 then St 27 else
      if c =? 110 then St 27 else if c =? 124 then St 21 else if c =? 126 then St 21 else
      if c <? 45 then (if 39 <? c then (if (42 <=? c) && (c <=? 43) then St 21 else St 0) else
      if 35 <=? c then St 21 else St 0) else
      if 46 <? c then (if c <? 65 then (if (48 <=? c) && (c <=? 57) then St 21 else St 0) else
      if 90 <? c then (if (94 <=? c) && (c <=? 122) then St 21 else St 0) else St 21) else
      St 21)
  | _ => None
  end.

Definition states_6 (cs c : Z) : option jump :=
  match cs with
  | 27 => Some (
      if c =? 33 then St 21 else if c =? 58 then Tr 39 else if c =? 78 then St 28 else
      if c =? 84 then St 101 else if c =? 110 then St 28 else if c =? 116 then St 101 else
      if c =? 124 then St 21 else if c =? 126 then St 21 else
      if c <? 45 then (if 39 <? c then (if (42 <=? c) && (c <=? 43) then St 21 else St 0) else
      if 35 <=? c then St 21 else St 0) else
      if 46 <? c then (if c <? 65 then (if (48 <=? c) && (c <=? 57) then St 21 else St 0) else
      if 90 <? c then (if (94 <=? c) && (c <=? 122) then St 21 else St 0) else St 21) else
      St 21)
  | 28 => Some (
      if c =? 33 then St 21 else if c =? 58 then Tr 39 else if c =? 69 then St 29 else
      if c =? 101 then St 29 else if c =? 124 then St 21 else if c =? 126 then St 21 else
      if c <? 45 then (if 39 <? c then (if (42 <=? c) && (c <=? 43) then St 21 else St 0) else
      if 35 <=? c then St 21 else St 0) else
      if 46 <? c then (if c <? 65 then (if (48 <=? c) && (c <=? 57) then St 21 else St 0) else
      if 90 <? c then (if (94 <=? c) && (c <=? 122) then St 21 else St 0) else St 21) else
      St 21)
  | 29 => Some (
      if c =? 33 then St 21 else if c =? 58 then Tr 39 else if c =? 67 then St 30 else
      if c =? 99 then St 30 else if c =? 124 then St 21 else if c =? 126 then St 21 else
      if c <? 45 then (if 39 <? c then (if (42 <=? c) && (c <=? 43) then St 21 else St 0) else
      if 35 <=? c then St 21 else St 0) else
      if 46 <? c then (if c <? 65 then (if (48 <=? c) && (c <=? 57) then St 21 else St 0) else
      if 90 <? c then (if (94 <=? c) && (c <=? 122) then St 21 else St 0) else St 21) else
      St 21)
  | 30 => Some (
      if c =? 33 then St 21 else if c =? 58 then Tr 39 else if c =? 84 then St 31 else
      if c =? 116 then St 31 else if c =? 124 then St 21 else if c =? 126 then St 21 else
      if c <? 45 then (if 39 <? c then (if (42 <=? c) && (c <=? 43) then St 21 else St 0) else
      if 35 <=? c then St 21 else St 0) else
      if 46 <? c then (if c <? 65 then (if (48 <=? c) && (c <=? 57) then St 21 else St 0) else
      if 90 <? c then (if (94 <=? c) && (c <=? 122) then St 21 else St 0) else St 21) else
      St 21)
  | 31 => Some (
      if c =? 33 then St 21 else if c =? 58 then Tr 39 else if c =? 73 then St 32 else
      if c =? 105 then St 32 else if c =? 124 then St 21 else if c =? 126 then St 21 else
      if c <? 45 then (if 39 <? c then (if (42 <=? c) && (c <=? 43) then St 21 else St 0) else
      if 35 <=? c then St 21 else St 0) else
      if 46 <? c then (if c <? 65 then (if (48 <=? c) && (c <=? 57) then St 21 else St 0) else
      if 90 <? c then (if (94 <=? c) && (c <=? 122) then St 21 else St 0) else St 21) else
      St 21)
  | _ => None
  end.

Definition states_7 (cs c : Z) : option jump :=
  match cs with
  | 32 => Some (
      if c =? 33 then St 21 else if c =? 58 then Tr 39 else if c =? 79 then St 33 else
      if c =? 111 then St 33 else if c =? 124 then St 21 else if c =? 126 then St 21 else
      if c <? 45 then (if 39 <? c then (if (42 <=? c) && (c <=? 43) then St 21 else St 0) else
      if 35 <=? c then St 21 else St 0) else
      if 46 <? c then (if c <? 65 then (if (48 <=? c) && (c <=? 57) then St 21 else St 0) else
      if 90 <? c then (if (94 <=? c) && (c <=? 122) then St 21 else St 0) else St 21) else
      St 21)
  | 33 => Some (
      if c =? 33 then St 21 else if c =? 58 then Tr 39 else if c =? 78 then St 34 else
      if c =? 110 then St 34 else if c =? 124 then St 21 else if c =? 126 then St 21 else
      if c <? 45 then (if 39 <? c then (if (42 <=? c) && (c <=? 43) then St 21 else St 0) else
      if 35 <=? c then St 21 else St 0) else
      if 46 <? c then (if c <? 65 then (if (48 <=? c) && (c <=? 57) then St 21 else St 0) else
      if 90 <? c then (if (94 <=? c) && (c <=? 122) then St 21 else St 0) else St 21) else
      St 21)
  | 34 => Some (
      if c =? 33 then St 21 else if c =? 58 then Tr 58 else if c =? 124 then St 21 else
      if c =? 126 then St 21 else
      if c <? 45 then (if 39 <? c then (if (42 <=? c) && (c <=? 43) then St 21 else St 0) else
      if 35 <=? c then St 21 else St 0) else
      if 46 <? c then (if c <? 65 then (if (48 <=? c) && (c <=? 57) then St 21 else St 0) else
      if 90 <? c then (if (94 <=? c) && (c <=? 122) then St 21 else St 0) else St 21) else
      St 21)
  | 35 => Some (
      if c =? 10 then Tr 60 else if c =? 13 then Tr 61 else if c =? 32 then Tr 59 else
      if c =? 67 then Tr 62 else if c =? 99 then Tr 62 else
      if (9 <=? c) && (c <=? 12) then Tr 59 else Tr 40)
  | _ => None
  end.

Definition states_8 (cs c : Z) : option jump :=
  match cs with
  | 36 => Some (
      if c =? 10 then Tr 64 else if c =? 13 then St 89 else if c =? 32 then St 37 else
      if c =? 33 then Tr 35 else if c =? 67 then Tr 66 else if c =? 84 then Tr 37 else
      if c =? 99 then Tr 66 else if c =? 116 then Tr 37 else if c =? 124 then Tr 35 else
      if c =? 126 then Tr 35 else
      if c <? 45 then (if c <? 35 then (if (9 <=? c) && (c <=? 12) then St 37 else St 0) else
      if 39 <? c then (if (42 <=? c) && (c <=? 43) then Tr 35 else St 0) else Tr 35) else
      if 46 <? c then (if c <? 65 then (if (48 <=? c) && (c <=? 57) then Tr 35 else St 0) else
      if 90 <? c then (if (94 <=? c) && (c <=? 122) then Tr 35 else St 0) else Tr 35) else
      Tr 35)
  | 37 => Some (
      if c =? 32 then St 37 else if c =? 67 then St 38 else if c =? 99 then St 38 else
      if (9 <=? c) && (c <=? 13) then St 37 else St 0)
  | 38 => Some (
      if c =? 76 then St 39 else if c =? 108 then St 39 else St 0)
  | 39 => Some (
      if c =? 79 then St 40 else if c =? 111 then St 40 else St 0)
  | 40 => Some (
      if c =? 83 then St 41 else if c =? 115 then St 41 else St 0)
  | 41 => Some (
      if c =? 69 then St 42 else if c =? 101 then St 42 else St 0)
  | 42 => Some (
      if c =? 10 then St 43 else if c =? 13 then St 88 else St 0)
  | 43 => Some (
      if c =? 10 then Tr 74 else if c =? 13 then Tr 75 else if c =? 33 then Tr 76 else
      if c =? 67 then Tr 77 else if c =? 84 then Tr 78 else if c =? 99 then Tr 77 else
      if c =? 116 then Tr 78 else if c =? 124 then Tr 76 else if c =? 126 then Tr 76 else
      if c <? 45 then (if 39 <? c then (if (42 <=? c) && (c <=? 43) then Tr 76 else St 0) else
      if 35 <=? c then Tr 76 else St 0) else
      if 46 <? c then (if c <? 65 then (if (48 <=? c) && (c <=? 57) then Tr 76 else St 0) else
      if 90 <? c then (if (94 <=? c) && (c <=? 122) then Tr 76 else St 0) else Tr 76) else
      Tr 76)
  | _ => None
  end.

Definition states_9 (cs c : Z) : option jump :=
  match cs with
  | 44 => Some (
      if c =? 33 then St 21 else if c =? 58 then Tr 39 else if c =? 82 then St 45 else
      if c =? 114 then St 45 else if c =? 124 then St 21 else if c =? 126 then St 21 else
      if c <? 45 then (if 39 <? c then (if (42 <=? c) && (c <=? 43) then St 21 else St 0) else
      if 35 <=? c then St 21 else St 0) else
      if 46 <? c then (if c <? 65 then (if (48 <=? c) && (c <=? 57) then St 21 else St 0) else
      if 90 <? c then (if (94 <=? c) && (c <=? 122) then St 21 else St 0) else St 21) else
      St 21)
  | 45 => Some (
      if c =? 33 then St 21 else if c =? 58 then Tr 39 else if c =? 65 then St 46 else
      if c =? 97 then St 46 else if c =? 124 then St 21 else if c =? 126 then St 21 else
      if c <? 45 then (if 39 <? c then (if (42 <=? c) && (c <=? 43) then St 21 else St 0) else
      if 35 <=? c then St 21 else St 0) else
      if 46 <? c then (if c <? 66 then (if (48 <=? c) && (c <=? 57) then St 21 else St 0) else
      if 90 <? c then (if (94 <=? c) && (c <=? 122) then St 21 else St 0) else St 21) else
      St 21)
  | 46 => Some (
      if c =? 33 then St 21 else if c =? 58 then Tr 39 else if c =? 78 then St 47 else
      if c =? 110 then St 47 else if c =? 124 then St 21 else if c =? 126 then St 21 else
      if c <? 45 then (if 39 <? c then (if (42 <=? c) && (c <=? 43) then St 21 else St 0) else
      if 35 <=? c then St 21 else St 0) else
      if 46 <? c then (if c <? 65 then (if (48 <=? c) && (c <=? 57) then St 21 else St 0) else
      if 90 <? c then (if (94 <=? c) && (c <=? 122) then St 21 else St 0) else St 21) else
      St 21)
  | 47 => Some (
      if c =? 33 then St 21 else if c =? 58 then Tr 39 else if c =? 83 then St 48 else
      if c =? 115 then St 48 else if c =? 124 then St 21 else if c =? 126 then St 21 else
      if c <? 45 then (if 39 <? c then (if (42 <=? c) && (c <=? 43) then St 21 else St 0) else
      if 35 <=? c then St 21 else St 0) else
      if 46 <? c then (if c <? 65 then (if (48 <=? c) && (c <=? 57) then St 21 else St 0) else
      if 90 <? c then (if (94 <=? c) && (c <=? 122) then St 21 else St 0) else St 21) else
      St 21)
  | 48 => Some (
      if c =? 33 then St 21 else if c =? 58 then Tr 39 else if c =? 70 then St 49 else
      if c =? 102 then St 49 else if c =? 124 then St 21 else if c =? 126 then St 21 else
      if c <? 45 then (if 39 <? c then (if (42 <=? c) && (c <=? 43) then St 21 else St 0) else
      if 35 <=? c then St 21 else St 0) else
      if 46 <? c then (if c <? 65 then (if (48 <=? c) && (c <=? 57) then St 21 else St 0) else
      if 90 <? c then (if (94 <=? c) && (c <=? 122) then St 21 else St 0) else St 21) else
      St 21)
  | _ => None
  end.

Definition states_10 (cs c : Z) : option jump :=
  match cs with
  | 49 => Some (
      if c =? 33 then St 21 else if c =? 58 then Tr 39 else if c =? 69 then St 50 else
      if c =? 101 then St 50 else if c =? 124 then St 21 else if c =? 126 then St 21 else
      if c <? 45 then (if 39 <? c then (if (42 <=? c) && (c <=? 43) then St 21 else St 0) else
      if 35 <=? c then St 21 else St 0) else
      if 46 <? c then (if c <? 65 then (if (48 <=? c) && (c <=? 57) then St 21 else St 0) else
      if 90 <? c then (if (94 <=? c) && (c <=? 122) then St 21 else St 0) else St 21) else
      St 21)
  | 50 => Some (
      if c =? 33 then St 21 else if c =? 58 then Tr 39 else if c =? 82 then St 51 else
      if c =? 114 then St 51 else if c =? 124 then St 21 else if c =? 126 then St 21 else
      if c <? 45 then (if 39 <? c then (if (42 <=? c) && (c <=? 43) then St 21 else St 0) else
      if 35 <=? c then St 21 else St 0) else
      if 46 <? c then (if c <? 65 then (if (48 <=? c) && (c <=? 57) then St 21 else St 0) else
      if 90 <? c then (if (94 <=? c) && (c <=? 122) then St 21 else St 0) else St 21) else
      St 21)
  | 51 => Some (
      if c =? 33 then St 21 else if c =? 45 then St 52 else if c =? 46 then St 21 else
      if c =? 58 then Tr 39 else if c =? 124 then St 21 else if c =? 126 then St 21 else
      if c <? 48 then (if 39 <? c then (if (42 <=? c) && (c <=? 43) then St 21 else St 0) else
      if 35 <=? c then St 21 else St 0) else
      if 57 <? c then (if 90 <? c then (if (94 <=? c) && (c <=? 122) then St 21 else St 0)
      else if 65 <=? c then St 21 else St 0) else St 21)
  | 52 => Some (
      if c =? 33 then St 21 else if c =? 58 then Tr 39 else if c =? 69 then St 53 else
      if c =? 101 then St 53 else if c =? 124 then St 21 else if c =? 126 then St 21 else
      if c <? 45 then (if 39 <? c then (if (42 <=? c) && (c <=? 43) then St 21 else St 0) else
      if 35 <=? c then St 21 else St 0) else
      if 46 <? c then (if c <? 65 then (if (48 <=? c) && (c <=? 57) then St 21 else St 0) else
      if 90 <? c then (if (94 <=? c) && (c <=? 122) then St 21 else St 0) else St 21) else
      St 21)
  | 53 => Some (
      if c =? 33 then St 21 else if c =? 58 then Tr 39 else if c =? 78 then St 54 else
      if c =? 110 then St 54 else if c =? 124 then St 21 else if c =? 126 then St 21 else
      if c <? 45 then (if 39 <? c then (if (42 <=? c) && (c <=? 43) then St 21 else St 0) else
      if 35 <=? c then St 21 else St 0) else
      if 46 <? c then (if c <? 65 then (if (48 <=? c) && (c <=? 57) then St 21 else St 0) else
      if 90 <? c then (if (94 <=? c) && (c <=? 122) then St 21 else St 0) else St 21) else
      St 21)
  | _ => None
  end.

Definition states_11 (cs c : Z) : option jump :=
  match cs with
  | 54 => Some (
      if c =? 33 then St 21 else if c =? 58 then Tr 39 else if c =? 67 then St 55 else
      if c =? 99 then St 55 else if c =? 124 then St 21 else if c =? 126 then St 21 else
      if c <? 45 then (if 39 <? c then (if (42 <=? c) && (c <=? 43) then St 21 else St 0) else
      if 35 <=? c then St 21 else St 0) else
      if 46 <? c then (if c <? 65 then (if (48 <=? c) && (c <=? 57) then St 21 else St 0) else
      if 90 <? c then (if (94 <=? c) && (c <=? 122) then St 21 else St 0) else St 21) else
      St 21)
  | 55 => Some (
      if c =? 33 then St 21 else if c =? 58 then Tr 39 else if c =? 79 then St 56 else
      if c =? 111 then St 56 else if c =? 124 then St 21 else if c =? 126 then St 21 else
      if c <? 45 then (if 39 <? c then (if (42 <=? c) && (c <=? 43) then St 21 else St 0) else
      if 35 <=? c then St 21 else St 0) else
      if 46 <? c then (if c <? 65 then (if (48 <=? c) && (c <=? 57) then St 21 else St 0) else
      if 90 <? c then (if (94 <=? c) && (c <=? 122) then St 21 else St 0) else St 21) else
      St 21)
  | 56 => Some (
      if c =? 33 then St 21 else if c =? 58 then Tr 39 else if c =? 68 then St 57 else
      if c =? 100 then St 57 else if c =? 124 then St 21 else if c =? 126 then St 21 else
      if c <? 45 then (if 39 <? c then (if (42 <=? c) && (c <=? 43) then St 21 else St 0) else
      if 35 <=? c then St 21 else St 0) else
      if 46 <? c then (if c <? 65 then (if (48 <=? c) && (c <=? 57) then St 21 else St 0) else
      if 90 <? c then (if (94 <=? c) && (c <=? 122) then St 21 else St 0) else St 21) else
      St 21)
  | 57 => Some (
      if c =? 33 then St 21 else if c =? 58 then Tr 39 else if c =? 73 then St 58 else
      if c =? 105 then St 58 else if c =? 124 then St 21 else if c =? 126 then St 21 else
      if c <? 45 then (if 39 <? c then (if (42 <=? c) && (c <=? 43) then St 21 else St 0) else
      if 35 <=? c then St 21 else St 0) else
      if 46 <? c then (if c <? 65 then (if (48 <=? c) && (c <=? 57) then St 21 else St 0) else
      if 90 <? c then (if (94 <=? c) && (c <=? 122) then St 21 else St 0) else St 21) else
      St 21)
  | 58 => Some (
      if c =? 33 then St 21 else if c =? 58 then Tr 39 else if c =? 78 then St 59 else
      if c =? 110 then St 59 else if c =? 124 then St 21 else if c =? 126 then St 21 else
      if c <? 45 then (if 39 <? c then (if (42 <=? c) && (c <=? 43) then St 21 else St 0) else
      if 35 <=? c then St 21 else St 0) else
      if 46 <? c then (if c <? 65 then (if (48 <=? c) && (c <=? 57) then St 21 else St 0) else
      if 90 <? c then (if (94 <=? c) && (c <=? 122) then St 21 else St 0) else St 21) else
      St 21)
  | _ => None
  end.

Definition states_12 (cs c : Z) : option jump :=
  match cs with
  | 59 => Some (
      if c =? 33 then St 21 else if c =? 58 then Tr 39 else if c =? 71 then St 60 else
      if c =? 103 then St 60 else if c =? 124 then St 21 else if c =? 126 then St 21 else
      if c <? 45 then (if 39 <? c then (if (42 <=? c) && (c <=? 43) then St 21 else St 0) else
      if 35 <=? c then St 21 else St 0) else
      if 46 <? c then (if c <? 65 then (if (48 <=? c) && (c <=? 57) then St 21 else St 0) else
      if 90 <? c then (if (94 <=? c) && (c <=? 122) then St 21 else St 0) else St 21) else
      St 21)
  | 60 => Some (
      if c =? 33 then St 21 else if c =? 58 then Tr 95 else if c =? 124 then St 21 else
      if c =? 126 then St 21 else
      if c <? 45 then (if 39 <? c then (if (42 <=? c) && (c <=? 43) then St 21 else St 0) else
      if 35 <=? c then St 21 else St 0) else
      if 46 <? c then (if c <? 65 then (if (48 <=? c) && (c <=? 57) then St 21 else St 0) else
      if 90 <? c then (if (94 <=? c) && (c <=? 122) then St 21 else St 0) else St 21) else
      St 21)
  | 61 => Some (
      if c =? 10 then Tr 97 else if c =? 13 then Tr 98 else if c =? 32 then Tr 96 else
      if c =? 67 then Tr 99 else if c =? 99 then Tr 99 else
      if (9 <=? c) && (c <=? 12) then Tr 96 else Tr 40)
  | 62 => Some (
      if c =? 10 then Tr 101 else if c =? 13 then St 72 else if c =? 32 then St 63 else
      if c =? 33 then Tr 35 else if c =? 67 then Tr 103 else if c =? 84 then Tr 37 else
      if c =? 99 then Tr 103 else if c =? 116 then Tr 37 else if c =? 124 then Tr 35 else
      if c =? 126 then Tr 35 else
      if c <? 45 then (if c <? 35 then (if (9 <=? c) && (c <=? 12) then St 63 else St 0) else
      if 39 <? c then (if (42 <=? c) && (c <=? 43) then Tr 35 else St 0) else Tr 35) else
      if 46 <? c then (if c <? 65 then (if (48 <=? c) && (c <=? 57) then Tr 35 else St 0) else
      if 90 <? c then (if (94 <=? c) && (c <=? 122) then Tr 35 else St 0) else Tr 35) else
      Tr 35)
  | 63 => Some (
      if c =? 32 then St 63 else if c =? 67 then Tr 104 else if c =? 99 then Tr 104 else
      if (9 <=? c) && (c <=? 13) then St 63 else St 0)
  | _ => None
  end.

Definition states_13 (cs c : Z) : option jump :=
  match cs with
  | 64 => Some (
      if c =? 72 then St 65 else if c =? 104 then St 65 else St 0)
  | 65 => Some (
      if c =? 85 then St 66 else if c =? 117 then St 66 else St 0)
  | 66 => Some (
      if c =? 78 then St 67 else if c =? 110 then St 67 else St 0)
  | 67 => Some (
      if c =? 75 then St 68 else if c =? 107 then St 68 else St 0)
  | 68 => Some (
      if c =? 69 then St 69 else if c =? 101 then St 69 else St 0)
  | 69 => Some (
      if c =? 68 then St 70 else if c =? 100 then St 70 else St 0)
  | 70 => Some (
      if c =? 10 then Tr 111 else if c =? 13 then Tr 112 else St 0)
  | 71 => Some (
      if c =? 10 then Tr 113 else St 0)
  | 121 => Some (
      if c =? 32 then St 63 else if c =? 67 then Tr 104 else if c =? 99 then Tr 104 else
      if (9 <=? c) && (c <=? 13) then St 63 else St 0)
  | 72 => Some (
      if c =? 10 then Tr 101 else if c =? 32 then St 63 else if c =? 67 then Tr 104 else
      if c =? 99 then Tr 104 else if (9 <=? c) && (c <=? 13) then St 63 else St 0)
  | _ => None
  end.

Definition states_14 (cs c : Z) : option jump :=
  match cs with
  | 73 => Some (
      if c =? 33 then St 21 else if c =? 58 then Tr 39 else if c =? 72 then St 74 else
      if c =? 79 then St 26 else if c =? 104 then St 74 else if c =? 111 then St 26 else
      if c =? 124 then St 21 else if c =? 126 then St 21 else
      if c <? 45 then (if 39 <? c then (if (42 <=? c) && (c <=? 43) then St 21 else St 0) else
      if 35 <=? c then St 21 else St 0) else
      if 46 <? c then (if c <? 65 then (if (48 <=? c) && (c <=? 57) then St 21 else St 0) else
      if 90 <? c then (if (94 <=? c) && (c <=? 122) then St 21 else St 0) else St 21) else
      St 21)
  | 74 => Some (
      if c =? 33 then St 21 else if c =? 58 then Tr 39 else if c =? 85 then St 75 else
      if c =? 117 then St 75 else if c =? 124 then St 21 else if c =? 126 then St 21 else
      if c <? 45 then (if 39 <? c then (if (42 <=? c) && (c <=? 43) then St 21 else St 0) else
      if 35 <=? c then St 21 else St 0) else
      if 46 <? c then (if c <? 65 then (if (48 <=? c) && (c <=? 57) then St 21 else St 0) else
      if 90 <? c then (if (94 <=? c) && (c <=? 122) then St 21 else St 0) else St 21) else
      St 21)
  | 75 => Some (
      if c =? 33 then St 21 else if c =? 58 then Tr 39 else if c =? 78 then St 76 else
      if c =? 110 then St 76 else if c =? 124 then St 21 else if c =? 126 then St 21 else
      if c <? 45 then (if 39 <? c then (if (42 <=? c) && (c <=? 43) then St 21 else St 0) else
      if 35 <=? c then St 21 else St 0) else
      if 46 <? c then (if c <? 65 then (if (48 <=? c) && (c <=? 57) then St 21 else St 0) else
      if 90 <? c then (if (94 <=? c) && (c <=? 122) then St 21 else St 0) else St 21) else
      St 21)
  | 76 => Some (
      if c =? 33 then St 21 else if c =? 58 then Tr 39 else if c =? 75 then St 77 else
      if c =? 107 then St 77 else if c =? 124 then St 21 else if c =? 126 then St 21 else
      if c <? 45 then (if 39 <? c then (if (42 <=? c) && (c <=? 43) then St 21 else St 0) else
      if 35 <=? c then St 21 else St 0) else
      if 46 <? c then (if c <? 65 then (if (48 <=? c) && (c <=? 57) then St 21 else St 0) else
      if 90 <? c then (if (94 <=? c) && (c <=? 122) then St 21 else St 0) else St 21) else
      St 21)
  | 77 => Some (
      if c =? 33 then St 21 else if c =? 58 then Tr 39 else if c =? 69 then St 78 else
      if c =? 101 then St 78 else if c =? 124 then St 21 else if c =? 126 then St 21 else
      if c <? 45 then (if 39 <? c then (if (42 <=? c) && (c <=? 43) then St 21 else St 0) else
      if 35 <=? c then St 21 else St 0) else
      if 46 <? c then (if c <? 65 then (if (48 <=? c) && (c <=? 57) then St 21 else St 0) else
      if 90 <? c then (if (94 <=? c) && (c <=? 122) then St 21 else St 0) else St 21) else
      St 21)
  | _ => None
  end.

Definition states_15 (cs c : Z) : option jump :=
  match cs with
  | 78 => Some (
      if c =? 33 then St 21 else if c =? 58 then Tr 39 else if c =? 68 then St 79 else
      if c =? 100 then St 79 else if c =? 124 then St 21 else if c =? 126 then St 21 else
      if c <? 45 then (if 39 <? c then (if (42 <=? c) && (c <=? 43) then St 21 else St 0) else
      if 35 <=? c then St 21 else St 0) else
      if 46 <? c then (if c <? 65 then (if (48 <=? c) && (c <=? 57) then St 21 else St 0) else
      if 90 <? c then (if (94 <=? c) && (c <=? 122) then St 21 else St 0) else St 21) else
      St 21)
  | 79 => Some (
      if c =? 10 then Tr 111 else if c =? 13 then Tr 112 else if c =? 33 then St 21 else
      if c =? 58 then Tr 39 else if c =? 124 then St 21 else if c =? 126 then St 21 else
      if c <? 45 then (if 39 <? c then (if (42 <=? c) && (c <=? 43) then St 21 else St 0) else
      if 35 <=? c then St 21 else St 0) else
      if 46 <? c then (if c <? 65 then (if (48 <=? c) && (c <=? 57) then St 21 else St 0) else
      if 90 <? c then (if (94 <=? c) && (c <=? 122) then St 21 else St 0) else St 21) else
      St 21)
  | 80 => Some (
      if c =? 10 then St 62 else if c =? 32 then St 63 else if c =? 67 then Tr 104 else
      if c =? 99 then Tr 104 else if (9 <=? c) && (c <=? 13) then St 63 else St 0)
  | 81 => Some (
      if c =? 10 then Tr 45 else if c =? 13 then Tr 46 else if c =? 72 then St 82 else
      if c =? 104 then St 82 else St 23)
  | 82 => Some (
      if c =? 10 then Tr 45 else if c =? 13 then Tr 46 else if c =? 85 then St 83 else
      if c =? 117 then St 83 else St 23)
  | 83 => Some (
      if c =? 10 then Tr 45 else if c =? 13 then Tr 46 else if c =? 78 then St 84 else
      if c =? 110 then St 84 else St 23)
  | 84 => Some (
      if c =? 10 then Tr 45 else if c =? 13 then Tr 46 else if c =? 75 then St 85 else
      if c =? 107 then St 85 else St 23)
  | 85 => Some (
      if c =? 10 then Tr 45 else if c =? 13 then Tr 46 else if c =? 69 then St 86 else
      if c =? 101 then St 86 else St 23)
  | _ => None
  end.

Definition states_16 (cs c : Z) : option jump :=
  match cs with
  | 86 => Some (
      if c =? 10 then Tr 45 else if c =? 13 then Tr 46 else if c =? 68 then St 87 else
      if c =? 100 then St 87 else St 23)
  | 87 => Some (
      if c =? 10 then Tr 111 else if c =? 13 then Tr 112 else St 23)
  | 88 => Some (
      if c =? 10 then St 43 else St 0)
  | 122 => Some (
      if c =? 32 then St 37 else if c =? 67 then St 38 else if c =? 99 then St 38 else
      if (9 <=? c) && (c <=? 13) then St 37 else St 0)
  | 89 => Some (
      if c =? 10 then Tr 64 else if c =? 32 then St 37 else if c =? 67 then St 38 else
      if c =? 99 then St 38 else if (9 <=? c) && (c <=? 13) then St 37 else St 0)
  | 90 => Some (
      if c =? 33 then St 21 else if c =? 58 then Tr 39 else if c =? 76 then St 91 else
      if c =? 79 then St 26 else if c =? 108 then St 91 else if c =? 111 then St 26 else
      if c =? 124 then St 21 else if c =? 126 then St 21 else
      if c <? 45 then (if 39 <? c then (if (42 <=? c) && (c <=? 43) then St 21 else St 0) else
      if 35 <=? c then St 21 else St 0) else
      if 46 <? c then (if c <? 65 then (if (48 <=? c) && (c <=? 57) then St 21 else St 0) else
      if 90 <? c then (if (94 <=? c) && (c <=? 122) then St 21 else St 0) else St 21) else
      St 21)
  | 91 => Some (
      if c =? 33 then St 21 else if c =? 58 then Tr 39 else if c =? 79 then St 92 else
      if c =? 111 then St 92 else if c =? 124 then St 21 else if c =? 126 then St 21 else
      if c <? 45 then (if 39 <? c then (if (42 <=? c) && (c <=? 43) then St 21 else St 0) else
      if 35 <=? c then St 21 else St 0) else
      if 46 <? c then (if c <? 65 then (if (48 <=? c) && (c <=? 57) then St 21 else St 0) else
      if 90 <? c then (if (94 <=? c) && (c <=? 122) then St 21 else St 0) else St 21) else
      St 21)
  | _ => None
  end.

Definition states_17 (cs c : Z) : option jump :=
  match cs with
  | 92 => Some (
      if c =? 33 then St 21 else if c =? 58 then Tr 39 else if c =? 83 then St 93 else
      if c =? 115 then St 93 else if c =? 124 then St 21 else if c =? 126 then St 21 else
      if c <? 45 then (if 39 <? c then (if (42 <=? c) && (c <=? 43) then St 21 else St 0) else
      if 35 <=? c then St 21 else St 0) else
      if 46 <? c then (if c <? 65 then (if (48 <=? c) && (c <=? 57) then St 21 else St 0) else
      if 90 <? c then (if (94 <=? c) && (c <=? 122) then St 21 else St 0) else St 21) else
      St 21)
  | 93 => Some (
      if c =? 33 then St 21 else if c =? 58 then Tr 39 else if c =? 69 then St 94 else
      if c =? 101 then St 94 else if c =? 124 then St 21 else if c =? 126 then St 21 else
      if c <? 45 then (if 39 <? c then (if (42 <=? c) && (c <=? 43) then St 21 else St 0) else
      if 35 <=? c then St 21 else St 0) else
      if 46 <? c then (if c <? 65 then (if (48 <=? c) && (c <=? 57) then St 21 else St 0) else
      if 90 <? c then (if (94 <=? c) && (c <=? 122) then St 21 else St 0) else St 21) else
      St 21)
  | 94 => Some (
      if c =? 10 then St 43 else if c =? 13 then St 88 else if c =? 33 then St 21 else
      if c =? 58 then Tr 39 else if c =? 124 then St 21 else if c =? 126 then St 21 else
      if c <? 45 then (if 39 <? c then (if (42 <=? c) && (c <=? 43) then St 21 else St 0) else
      if 35 <=? c then St 21 else St 0) else
      if 46 <? c then (if c <? 65 then (if (48 <=? c) && (c <=? 57) then St 21 else St 0) else
      if 90 <? c then (if (94 <=? c) && (c <=? 122) then St 21 else St 0) else St 21) else
      St 21)
  | 95 => Some (
      if c =? 10 then St 36 else if c =? 32 then St 37 else if c =? 67 then St 38 else
      if c =? 99 then St 38 else if (9 <=? c) && (c <=? 13) then St 37 else St 0)
  | 96 => Some (
      if c =? 10 then Tr 45 else if c =? 13 then Tr 46 else if c =? 76 then St 97 else
      if c =? 108 then St 97 else St 23)
  | 97 => Some (
      if c =? 10 then Tr 45 else if c =? 13 then Tr 46 else if c =? 79 then St 98 else
      if c =? 111 then St 98 else St 23)
  | 98 => Some (
      if c =? 10 then Tr 45 else if c =? 13 then Tr 46 else if c =? 83 then St 99 else
      if c =? 115 then St 99 else St 23)
  | _ => None
  end.

Definition states_18 (cs c : Z) : option jump :=
  match cs with
  | 99 => Some (
      if c =? 10 then Tr 45 else if c =? 13 then Tr 46 else if c =? 69 then St 100 else
      if c =? 101 then St 100 else St 23)
  | 100 => Some (
      if c =? 10 then Tr 136 else if c =? 13 then Tr 137 else St 23)
  | 101 => Some (
      if c =? 33 then St 21 else if c =? 58 then Tr 39 else if c =? 69 then St 102 else
      if c =? 101 then St 102 else if c =? 124 then St 21 else if c =? 126 then St 21 else
      if c <? 45 then (if 39 <? c then (if (42 <=? c) && (c <=? 43) then St 21 else St 0) else
      if 35 <=? c then St 21 else St 0) else
      if 46 <? c then (if c <? 65 then (if (48 <=? c) && (c <=? 57) then St 21 else St 0) else
      if 90 <? c then (if (94 <=? c) && (c <=? 122) then St 21 else St 0) else St 21) else
      St 21)
  | 102 => Some (
      if c =? 33 then St 21 else if c =? 58 then Tr 39 else if c =? 78 then St 103 else
      if c =? 110 then St 103 else if c =? 124 then St 21 else if c =? 126 then St 21 else
      if c <? 45 then (if 39 <? c then (if (42 <=? c) && (c <=? 43) then St 21 else St 0) else
      if 35 <=? c then St 21 else St 0) else
      if 46 <? c then (if c <? 65 then (if (48 <=? c) && (c <=? 57) then St 21 else St 0) else
      if 90 <? c then (if (94 <=? c) && (c <=? 122) then St 21 else St 0) else St 21) else
      St 21)
  | 103 => Some (
      if c =? 33 then St 21 else if c =? 58 then Tr 39 else if c =? 84 then St 104 else
      if c =? 116 then St 104 else if c =? 124 then St 21 else if c =? 126 then St 21 else
      if c <? 45 then (if 39 <? c then (if (42 <=? c) && (c <=? 43) then St 21 else St 0) else
      if 35 <=? c then St 21 else St 0) else
      if 46 <? c then (if c <? 65 then (if (48 <=? c) && (c <=? 57) then St 21 else St 0) else
      if 90 <? c then (if (94 <=? c) && (c <=? 122) then St 21 else St 0) else St 21) else
      St 21)
  | 104 => Some (
      if c =? 33 then St 21 else if c =? 45 then St 105 else if c =? 46 then St 21 else
      if c =? 58 then Tr 39 else if c =? 124 then St 21 else if c =? 126 then St 21 else
      if c <? 48 then (if 39 <? c then (if (42 <=? c) && (c <=? 43) then St 21 else St 0) else
      if 35 <=? c then St 21 else St 0) else
      if 57 <? c then (if 90 <? c then (if (94 <=? c) && (c <=? 122) then St 21 else St 0)
      else if 65 <=? c then St 21 else St 0) else St 21)
  | _ => None
  end.

Definition states_19 (cs c : Z) : option jump :=
  match cs with
  | 105 => Some (
      if c =? 33 then St 21 else if c =? 58 then Tr 39 else if c =? 76 then St 106 else
      if c =? 108 then St 106 else if c =? 124 then St 21 else if c =? 126 then St 21 else
      if c <? 45 then (if 39 <? c then (if (42 <=? c) && (c <=? 43) then St 21 else St 0) else
      if 35 <=? c then St 21 else St 0) else
      if 46 <? c then (if c <? 65 then (if (48 <=? c) && (c <=? 57) then St 21 else St 0) else
      if 90 <? c then (if (94 <=? c) && (c <=? 122) then St 21 else St 0) else St 21) else
      St 21)
  | 106 => Some (
      if c =? 33 then St 21 else if c =? 58 then Tr 39 else if c =? 69 then St 107 else
      if c =? 101 then St 107 else if c =? 124 then St 21 else if c =? 126 then St 21 else
      if c <? 45 then (if 39 <? c then (if (42 <=? c) && (c <=? 43) then St 21 else St 0) else
      if 35 <=? c then St 21 else St 0) else
      if 46 <? c then (if c <? 65 then (if (48 <=? c) && (c <=? 57) then St 21 else St 0) else
      if 90 <? c then (if (94 <=? c) && (c <=? 122) then St 21 else St 0) else St 21) else
      St 21)
  | 107 => Some (
      if c =? 33 then St 21 else if c =? 58 then Tr 39 else if c =? 78 then St 108 else
      if c =? 110 then St 108 else if c =? 124 then St 21 else if c =? 126 then St 21 else
      if c <? 45 then (if 39 <? c then (if (42 <=? c) && (c <=? 43) then St 21 else St 0) else
      if 35 <=? c then St 21 else St 0) else
      if 46 <? c then (if c <? 65 then (if (48 <=? c) && (c <=? 57) then St 21 else St 0) else
      if 90 <? c then (if (94 <=? c) && (c <=? 122) then St 21 else St 0) else St 21) else
      St 21)
  | 108 => Some (
      if c =? 33 then St 21 else if c =? 58 then Tr 39 else if c =? 71 then St 109 else
      if c =? 103 then St 109 else if c =? 124 then St 21 else if c =? 126 then St 21 else
      if c <? 45 then (if 39 <? c then (if (42 <=? c) && (c <=? 43) then St 21 else St 0) else
      if 35 <=? c then St 21 else St 0) else
      if 46 <? c then (if c <? 65 then (if (48 <=? c) && (c <=? 57) then St 21 else St 0) else
      if 90 <? c then (if (94 <=? c) && (c <=? 122) then St 21 else St 0) else St 21) else
      St 21)
  | 109 => Some (
      if c =? 33 then St 21 else if c =? 58 then Tr 39 else if c =? 84 then St 110 else
      if c =? 116 then St 110 else if c =? 124 then St 21 else if c =? 126 then St 21 else
      if c <? 45 then (if 39 <? c then (if (42 <=? c) && (c <=? 43) then St 21 else St 0) else
      if 35 <=? c then St 21 else St 0) else
      if 46 <? c then (if c <? 65 then (if (48 <=? c) && (c <=? 57) then St 21 else St 0) else
      if 90 <? c then (if (94 <=? c) && (c <=? 122) then St 21 else St 0) else St 21) else
      St 21)
  | _ => None
  end.

Definition states_20 (cs c : Z) : option jump :=
  match cs with
  | 110 => Some (
      if c =? 33 then St 21 else if c =? 58 then Tr 39 else if c =? 72 then St 111 else
      if c =? 104 then St 111 else if c =? 124 then St 21 else if c =? 126 then St 21 else
      if c <? 45 then (if 39 <? c then (if (42 <=? c) && (c <=? 43) then St 21 else St 0) else
      if 35 <=? c then St 21 else St 0) else
      if 46 <? c then (if c <? 65 then (if (48 <=? c) && (c <=? 57) then St 21 else St 0) else
      if 90 <? c then (if (94 <=? c) && (c <=? 122) then St 21 else St 0) else St 21) else
      St 21)
  | 111 => Some (
      if c =? 33 then St 21 else if c =? 58 then Tr 148 else if c =? 124 then St 21 else
      if c =? 126 then St 21 else
      if c <? 45 then (if 39 <? c then (if (42 <=? c) && (c <=? 43) then St 21 else St 0) else
      if 35 <=? c then St 21 else St 0) else
      if 46 <? c then (if c <? 65 then (if (48 <=? c) && (c <=? 57) then St 21 else St 0) else
      if 90 <? c then (if (94 <=? c) && (c <=? 122) then St 21 else St 0) else St 21) else
      St 21)
  | 112 => Some (
      if c =? 10 then Tr 150 else if c =? 13 then Tr 151 else if c =? 32 then Tr 149 else
      if 12 <? c then (if (48 <=? c) && (c <=? 57) then Tr 152 else Tr 40) else
      if 9 <=? c then Tr 149 else Tr 40)
  | 113 => Some (
      if c =? 10 then Tr 154 else if c =? 13 then St 116 else if c =? 32 then St 114 else
      if c =? 33 then Tr 35 else if c =? 67 then Tr 36 else if c =? 84 then Tr 37 else
      if c =? 99 then Tr 36 else if c =? 116 then Tr 37 else if c =? 124 then Tr 35 else
      if c =? 126 then Tr 35 else
      if c <? 45 then (if c <? 35 then (if (9 <=? c) && (c <=? 12) then St 114 else St 0) else
      if 39 <? c then (if (42 <=? c) && (c <=? 43) then Tr 35 else St 0) else Tr 35) else
      if 46 <? c then (if c <? 65 then (if (48 <=? c) && (c <=? 57) then Tr 156 else St 0)
      else if 90 <? c then (if (94 <=? c) && (c <=? 122) then Tr 35 else St 0) else Tr 35)
      else Tr 35)
  | 114 => Some (
      if c =? 32 then St 114 else
      if 13 <? c then (if (48 <=? c) && (c <=? 57) then Tr 157 else St 0) else
      if 9 <=? c then St 114 else St 0)
  | _ => None
  end.

Definition states_21 (cs c : Z) : option jump :=
  match cs with
  | 115 => Some (
      if c =? 10 then Tr 158 else if c =? 13 then Tr 159 else
      if (48 <=? c) && (c <=? 57) then St 115 else St 0)
  | 123 => Some (
      if c =? 32 then St 114 else
      if 13 <? c then (if (48 <=? c) && (c <=? 57) then Tr 157 else St 0) else
      if 9 <=? c then St 114 else St 0)
  | 116 => Some (
      if c =? 10 then Tr 154 else if c =? 32 then St 114 else
      if 13 <? c then (if (48 <=? c) && (c <=? 57) then Tr 157 else St 0) else
      if 9 <=? c then St 114 else St 0)
  | 117 => Some (
      if c =? 10 then Tr 158 else if c =? 13 then Tr 159 else if c =? 33 then St 21 else
      if c =? 58 then Tr 39 else if c =? 124 then St 21 else if c =? 126 then St 21 else
      if c <? 45 then (if 39 <? c then (if (42 <=? c) && (c <=? 43) then St 21 else St 0) else
      if 35 <=? c then St 21 else St 0) else
      if 46 <? c then (if c <? 65 then (if (48 <=? c) && (c <=? 57) then St 117 else St 0)
      else if 90 <? c then (if (94 <=? c) && (c <=? 122) then St 21 else St 0) else St 21)
      else St 21)
  | 118 => Some (
      if c =? 10 then St 113 else if c =? 32 then St 114 else
      if 13 <? c then (if (48 <=? c) && (c <=? 57) then Tr 157 else St 0) else
      if 9 <=? c then St 114 else St 0)
  | 119 => Some (
      if c =? 10 then Tr 158 else if c =? 13 then Tr 159 else
      if (48 <=? c) && (c <=? 57) then St 119 else St 23)
  | _ => None
  end.

(** [switch(cs)]: the jump taken in state [cs] on the character [c]; [None]
    when there is no such case. *)
Fixpoint first_case (l : list (Z → Z → option jump)) (cs c : Z) : option jump :=
  match l with
  | [] => None
  | f :: l => match f cs c with Some j => Some j | None => first_case l cs c end
  end.

Definition all_states : list (Z → Z → option jump) :=
  [states_1; states_2; states_3; states_4; states_5; states_6;
   states_7; states_8; states_9; states_10; states_11; states_12;
   states_13; states_14; states_15; states_16; states_17; states_18;
   states_19; states_20; states_21].

Definition case_of (cs c : Z) : option jump := first_case all_states cs c.

(** The block a jump leads to: its actions and the next state. *)
Definition target (j : jump) : list action * Z :=
  match j with
  | St n => ([], n)
  | Tr k => tr k
  end.
