(* ===== verification/HttpClientParser.v ===== *)
(** * The response parser (megalo/http/http_parser.cc, httpclient_parser.rl.cc)

    [httpclient_parser] is the C structure of the machine, [HttpResponseParser]
    the object its callbacks fill.  The memory is that from the start of the
    caller's buffer to the end of its allocation; [len] bytes of it are valid
    and the byte after them has to be NUL.  [status] is not set by the
    initialisation. *)
From S2P Require Import Prelude Bytes Util Http HttpParser HttpClientDfa.

Record httpclient_parser := mkClient {
  c_cs : Z;
  c_body_start : Z;
  c_content_len : Z;
  c_status : Z;
  c_chunked : Z;
  c_chunks_done : Z;
  c_close : Z;
  c_nread : Z;
  c_mark : Z;
  c_field_start : Z;
  c_field_len : Z
}.

Record HttpResponseParser := mkResponseParser {
  rp_parser : httpclient_parser;
  rp_data : HttpResponse;
  rp_error : Z
}.

Definition httpclient_parser_start : Z := 1.
Definition httpclient_parser_first_final : Z := 120.
Definition httpclient_parser_error : Z := 0.

(** [strtol(s, NULL, base)] for base 10 or 16, without the [0x] prefix that no
    state accepts: white space, a sign and digits; the value saturates.  Nothing
    when the characters run to the end of the memory. *)
Definition isspace (c : byte) : bool := is_chr 32 c || in_range 9 13 c.
Definition digit_in (base : Z) (c : byte) : option Z :=
  if in_range 48 57 c then Some (code c - 48)
  else if (base =? 16) && in_range 65 70 c then Some (code c - 55)
  else if (base =? 16) && in_range 97 102 c then Some (code c - 87)
  else None.
Fixpoint strtol_digits (base v : Z) (s : bytes) : option Z :=
  match s with
  | [] => None
  | c :: s =>
      match digit_in base c with
      | Some d => strtol_digits base (v * base + d) s
      | None => Some v
      end
  end.
Fixpoint skip_space (s : bytes) : bytes :=
  match s with
  | c :: s' => if isspace c then skip_space s' else s
  | [] => []
  end.
Definition clamp_long (v : Z) : Z := Z.max (- 2 ^ 63) (Z.min v (2 ^ 63 - 1)).
Definition strtol (base : Z) (s : bytes) : option Z :=
  match skip_space s with
  | [] => None
  | c :: s =>
      if is_chr 45 c then (λ v, clamp_long (- v)) <$> strtol_digits base 0 s
      else if is_chr 43 c then clamp_long <$> strtol_digits base 0 s
      else clamp_long <$> strtol_digits base 0 (c :: s)
  end.

(** Updates of the structure. *)
Definition upd_mark (v : Z) (p : httpclient_parser) : httpclient_parser :=
  mkClient (c_cs p) (c_body_start p) (c_content_len p) (c_status p) (c_chunked p) (c_chunks_done p)
    (c_close p) (c_nread p) v (c_field_start p) (c_field_len p).
Definition upd_field (start len : Z) (p : httpclient_parser) : httpclient_parser :=
  mkClient (c_cs p) (c_body_start p) (c_content_len p) (c_status p) (c_chunked p) (c_chunks_done p)
    (c_close p) (c_nread p) (c_mark p) start len.
Definition upd_content_len (v : Z) (p : httpclient_parser) : httpclient_parser :=
  mkClient (c_cs p) (c_body_start p) v (c_status p) (c_chunked p) (c_chunks_done p)
    (c_close p) (c_nread p) (c_mark p) (c_field_start p) (c_field_len p).
Definition upd_status (v : Z) (p : httpclient_parser) : httpclient_parser :=
  mkClient (c_cs p) (c_body_start p) (c_content_len p) v (c_chunked p) (c_chunks_done p)
    (c_close p) (c_nread p) (c_mark p) (c_field_start p) (c_field_len p).
Definition upd_chunked (v chunks_done : Z) (p : httpclient_parser) : httpclient_parser :=
  mkClient (c_cs p) (c_body_start p) (c_content_len p) (c_status p) v chunks_done
    (c_close p) (c_nread p) (c_mark p) (c_field_start p) (c_field_len p).
Definition upd_close (v : Z) (p : httpclient_parser) : httpclient_parser :=
  mkClient (c_cs p) (c_body_start p) (c_content_len p) (c_status p) (c_chunked p) (c_chunks_done p)
    v (c_nread p) (c_mark p) (c_field_start p) (c_field_len p).
Definition upd_body_start (v : Z) (p : httpclient_parser) : httpclient_parser :=
  mkClient (c_cs p) v (c_content_len p) (c_status p) (c_chunked p) (c_chunks_done p)
    (c_close p) (c_nread p) (c_mark p) (c_field_start p) (c_field_len p).
Definition upd_progress (cs nread : Z) (p : httpclient_parser) : httpclient_parser :=
  mkClient cs (c_body_start p) (c_content_len p) (c_status p) (c_chunked p) (c_chunks_done p)
    (c_close p) nread (c_mark p) (c_field_start p) (c_field_len p).

Definition on_client (f : httpclient_parser → httpclient_parser) : M HttpResponseParser () :=
  modify (λ s, mkResponseParser (f (rp_parser s)) (rp_data s) (rp_error s)).
Definition on_rsp (f : HttpResponse → HttpResponse) : M HttpResponseParser () :=
  modify (λ s, mkResponseParser (rp_parser s) (f (rp_data s)) (rp_error s)).
Definition rp_setError (v : Z) : M HttpResponseParser () :=
  modify (λ s, mkResponseParser (rp_parser s) (rp_data s) v).

(** [httpclient_parser_init]. *)
Definition httpclient_parser_init (p : httpclient_parser) : httpclient_parser :=
  mkClient httpclient_parser_start 0 (-1) (c_status p) 0 0 0 0 0 0 0.

(** [HttpResponseParser::HttpResponseParser]; [p] is what the memory of
    [m_parser] holds. *)
Definition new_HttpResponseParser (p : httpclient_parser) : HttpResponseParser :=
  mkResponseParser (httpclient_parser_init p) (new_HttpResponse 17 true) 0.

(** ** The callbacks *)

(** [strtol] at an offset of the memory. *)
Definition strtol_at (mem : bytes) (at_ base : Z) : M HttpResponseParser Z :=
  match strtol base (drop (Z.to_nat at_) mem) with
  | Some v => mret v
  | None => crash OutOfBounds
  end.

Definition on_response_http_field (mem : bytes) (field flen value vlen : Z) : M HttpResponseParser () :=
  if flen =? 0 then rp_setError 1002 else
  v ← mem_string mem value vlen;
  k ← mem_string mem field flen;
  on_rsp (rs_setHeader k v).
Definition on_response_reason (mem : bytes) (at_ length_ : Z) : M HttpResponseParser () :=
  s ← mem_string mem at_ length_; on_rsp (rs_setReason s).
(** [atoi] is [strtol] in base 10, as an [int]. *)
Definition on_response_status (mem : bytes) (at_ length_ : Z) : M HttpResponseParser () :=
  v ← strtol_at mem at_ 10; on_rsp (rs_setStatus (i32 v)).
Definition on_response_version (mem : bytes) (at_ length_ : Z) : M HttpResponseParser () :=
  let a := drop (Z.to_nat at_) mem in
  if strncmp_eq a (str "HTTP/1.1") length_ then on_rsp (rs_setVersion 17)
  else if strncmp_eq a (str "HTTP/1.0") length_ then on_rsp (rs_setVersion 16)
  else _ ← mem_string (S := HttpResponseParser) mem at_ length_; rp_setError 1001.
Definition on_response_chunk (mem : bytes) (at_ length_ : Z) : M HttpResponseParser () := mret tt.
Definition on_response_header_done (mem : bytes) (at_ length_ : Z) : M HttpResponseParser () := mret tt.
Definition on_response_last_chunk (mem : bytes) (at_ length_ : Z) : M HttpResponseParser () := mret tt.

(** ** The machine *)

(** An action of the grammar at position [p] of the buffer that ends at
    [pe]. *)
Definition run_action (mem : bytes) (pe p : Z) (a : action) : M HttpResponseParser () :=
  q ← gets rp_parser;
  match a with
  | mark | start_value => on_client (upd_mark p)
  | start_field => on_client (upd_field p (c_field_len q))
  | write_field => on_client (upd_field (c_field_start q) (LEN (c_field_start q) p))
  | write_content_len => v ← strtol_at mem (c_mark q) 10; on_client (upd_content_len (i32 v))
  | write_connection_close => on_client (upd_close 1)
  | write_value =>
      on_response_http_field mem (c_field_start q) (c_field_len q) (c_mark q) (LEN (c_mark q) p)
  | reason_phrase => on_response_reason mem (c_mark q) (LEN (c_mark q) p)
  | status_code =>
      v ← strtol_at mem (c_mark q) 10;
      on_client (upd_status (i32 v));;
      on_response_status mem (c_mark q) (LEN (c_mark q) p)
  | http_version => on_response_version mem (c_mark q) (LEN (c_mark q) p)
  | chunk_size =>
      v ← strtol_at mem (c_mark q) 16;
      on_client (upd_content_len (i32 v));;
      on_client (upd_chunked 1 (if i32 v <=? 0 then 1 else 0));;
      if i32 v <=? 0 then on_response_last_chunk mem (c_mark q) (LEN (c_mark q) p)
      else on_response_chunk mem (c_mark q) (LEN (c_mark q) p)
  | trans_chunked => on_client (upd_chunked 1 (c_chunks_done q))
  | done =>
      on_client (upd_body_start (p + 1));; on_response_header_done mem (p + 1) (pe - p - 1)
  end.

Fixpoint run_actions (mem : bytes) (pe p : Z) (l : list action) : M HttpResponseParser () :=
  match l with
  | [] => mret tt
  | a :: l => run_action mem pe p a;; run_actions mem pe p l
  end.

Definition is_done (l : list action) : bool :=
  existsb (λ a, match a with done => true | _ => false end) l.

(** The machine from state [cs] at position [p], [l] being the characters from
    there to [pe]: the state and position it stops at.  The action [done] leaves
    the machine after its character. *)
Fixpoint machine (mem : bytes) (pe : Z) (l : bytes) (cs p : Z) : M HttpResponseParser (Z * Z) :=
  match l with
  | [] => mret (cs, p)
  | c :: l =>
      match case_of cs (i8 (code c)) with
      | None => mret (cs, p)
      | Some j =>
          let '(acts, n) := target j in
          if n =? 0 then mret (0, p) else
          run_actions mem pe p acts;;
          if is_done acts then mret (n, p + 1) else machine mem pe l n (p + 1)
      end
  end.

Definition httpclient_parser_has_error (p : httpclient_parser) : bool :=
  c_cs p =? httpclient_parser_error.
Definition httpclient_parser_is_finished (p : httpclient_parser) : bool :=
  c_cs p =? httpclient_parser_first_final.
Definition httpclient_parser_finish (p : httpclient_parser) : Z :=
  if httpclient_parser_has_error p then -1 else if httpclient_parser_is_finished p then 1 else 0.

(** [httpclient_parser_execute(parser, buffer, len, 0)], an [int]. *)
Definition httpclient_parser_execute (mem : bytes) (len : Z) : M HttpResponseParser Z :=
  q ← gets rp_parser;
  match mem !! Z.to_nat len with
  | None => crash OutOfBounds
  | Some e =>
      massert (is_chr 0 e);;
      massert (len =? i32 len);;
      r ← machine mem len (take (Z.to_nat len) mem) (c_cs q) 0;
      on_client (λ q, upd_progress r.1 (u64 (c_nread q + r.2)) q);;
      massert (r.2 <=? len);;
      q ← gets rp_parser;
      massert (c_nread q <=? len);;
      massert (c_body_start q <=? len);;
      mret (i32 (c_nread q))
  end.

(** [HttpResponseParser::execute(data, len, chunck)]: the number of bytes and
    the memory after the [memmove]. *)
Definition execute (mem : bytes) (len : Z) (chunck : bool) : M HttpResponseParser (Z * bytes) :=
  (if chunck then on_client httpclient_parser_init else mret tt);;
  offset ← httpclient_parser_execute mem len;
  let offset := u64 offset in
  let rest := slice (Z.to_nat offset) (Z.to_nat (len - offset)) mem in
  mret (offset, splice 0 rest mem).

Definition isFinished (s : HttpResponseParser) : Z := httpclient_parser_finish (rp_parser s).
Definition hasError (s : HttpResponseParser) : bool :=
  negb (rp_error s =? 0) || httpclient_parser_has_error (rp_parser s).
Definition getContentLength (lexical_cast : bytes → option Z) (s : HttpResponseParser) : Z :=
  getAs lexical_cast (rs_headers (rp_data s)) (str "content-length") 0.

(** ** Examples *)

Definition zero_client : httpclient_parser := mkClient 0 0 0 0 0 0 0 0 0 0 0.

Definition ex_response : bytes :=
  str "HTTP/1.1 404 Not Found" ++ crlf ++ str "Content-Length: 4" ++ crlf ++
  str "connection: close" ++ crlf ++ crlf ++ str "body".

Example response_example :
  match execute (ex_response ++ [chr 0]) (Z.of_nat (length ex_response)) false
          (new_HttpResponseParser zero_client) with
  | Ret (n, mem) s =>
      (n, take 4 mem, isFinished s, hasError s, rs_status (rp_data s), rs_reason (rp_data s),
       rs_version (rp_data s), c_content_len (rp_parser s), c_close (rp_parser s), rs_headers (rp_data s)) =
      (64, str "body", 1, false, 404, str "Not Found", 17, 4, 1,
       [(str "connection", str "close"); (str "Content-Length", str "4")])
  | _ => False
  end.
Proof. vm_compute. reflexivity. Qed.

(** The header of a chunk. *)
Example chunk_example :
  match execute (str "1f;a=b" ++ crlf ++ [chr 0]) 8 true (new_HttpResponseParser zero_client) with
  | Ret (n, _) s => (n, isFinished s, c_content_len (rp_parser s), c_chunked (rp_parser s), c_chunks_done (rp_parser s))
      = (8, 1, 31, 1, 0)
  | _ => False
  end.
Proof. vm_compute. reflexivity. Qed.

(** ** Runs through sets of states

    The states of one phase of a response (a header name, a header value, ...)
    differ only in which special header they still expect.  [goes] checks by
    computation that from every state of a set the characters of a class lead
    to a second set with one of the given action lists. *)

#[export] Instance action_eq_dec : EqDecision action.
Proof. solve_decision. Defined.

Definition goes (S S' : list Z) (C : byte → bool) (A : list (list action)) : bool :=
  forallb (λ cs, forallb (λ c, implb (C c)
    match case_of cs (i8 (code c)) with
    | Some j => let '(a, n) := target j in
        bool_decide (a ∈ A) && existsb (Z.eqb n) S' && negb (n =? 0) && negb (is_done a)
    | None => false
    end) all_bytes) S.

#[local] Opaque case_of.

Lemma goes_step S S' C A cs c :
  goes S S' C A = true → cs ∈ S → C c = true →
  ∃ j a n, case_of cs (i8 (code c)) = Some j ∧ target j = (a, n) ∧ a ∈ A ∧ n ∈ S' ∧
    (n =? 0) = false ∧ is_done a = false.
Proof.
  unfold goes. rewrite List.forallb_forall. intros H Hcs Hc.
  specialize (H cs (proj1 (list_elem_of_In _ _) Hcs)).
  pose proof (forall_bytes _ H c) as H'. cbv beta in H'. rewrite Hc in H'. cbn [implb] in H'.
  destruct (case_of cs _) as [j|]; [|done]. exists j. destruct (target j) as [a n].
  apply andb_true_iff in H' as [[[Ha Hn]%andb_true_iff H0%negb_true_iff]%andb_true_iff Hd%negb_true_iff].
  exists a, n. split_and!; try done.
  - by apply bool_decide_eq_true_1 in Ha.
  - apply List.existsb_exists in Hn as (x&Hx&<-%Z.eqb_eq). by apply list_elem_of_In.
Qed.

#[local] Opaque goes.

Section run.
Context (mem rest : bytes) (pe : Z) (Hmem : Z.of_nat (length mem) < 2 ^ 31).
#[local] Abbreviation at_pos := (at_pos mem rest).
#[local] Abbreviation machine := (machine mem pe).

Lemma machine_goes S S' C A (P : HttpResponseParser → Prop) c l cs p s :
  goes S S' C A = true → cs ∈ S → C c = true →
  (∀ a, a ∈ A → ∃ s', run_actions mem pe p a s = Ret tt s' ∧ P s') →
  ∃ n s', machine (c :: l) cs p s = machine l n (p + 1) s' ∧ n ∈ S' ∧ P s'.
Proof.
  intros Hg Hcs Hc HA. destruct (goes_step _ _ _ _ _ _ Hg Hcs Hc) as (j&a&n&Hj&Ht&Ha&Hn&H0&Hd).
  destruct (HA a Ha) as (s'&Hr&HP). exists n, s'. split; [|done].
  cbn [HttpClientParser.machine]. rewrite Hj, Ht, H0. mstep Hr. by rewrite Hd.
Qed.

Lemma machine_stays S C w : ∀ l cs p s,
  goes S S C [[]] = true → cs ∈ S → forallb C w = true →
  ∃ n, machine (w ++ l) cs p s = machine l n (p + Z.of_nat (length w)) s ∧ n ∈ S.
Proof.
  induction w as [|c w IH]; intros l cs p s Hg Hcs Hw.
  { exists cs. simpl. by rewrite Z.add_0_r. }
  simpl in Hw. apply andb_true_iff in Hw as [Hc Hw]. rewrite <- app_comm_cons.
  destruct (machine_goes S S C [[]] (λ s', s' = s) c (w ++ l) cs p s Hg Hcs Hc) as (n&s'&->&Hn&->).
  { intros a ->%list_elem_of_singleton. by exists s. }
  destruct (IH l n (p + 1) s Hg Hn Hw) as (n'&->&Hn'). exists n'. split; [|done].
  f_equal. simpl. lia.
Qed.

(** Inside a response: the marks, what no action before the end changes, and
    the response so far. *)
Definition inside (mk fs fl : Z) (d : HttpResponse) (s : HttpResponseParser) : Prop :=
  c_mark (rp_parser s) = mk ∧ c_field_start (rp_parser s) = fs ∧ c_field_len (rp_parser s) = fl ∧
  c_nread (rp_parser s) = 0 ∧ c_body_start (rp_parser s) = 0 ∧ rp_error s = 0 ∧ rp_data s = d.

(** [strtol] stops at the first character that is no digit. *)
Lemma strtol_digits_value w : ∀ v c r,
  Forall (λ c, 48 ≤ code c ≤ 57) w → in_range 48 57 c = false →
  strtol_digits 10 v (w ++ c :: r) = Some (fold_left (λ v c, v * 10 + (code c - 48)) w v).
Proof.
  intros v c r Hw Hc. revert v. induction Hw as [|x w Hx _ IH]; intros v; simpl.
  - unfold digit_in. by rewrite Hc.
  - assert (digit_in 10 x = Some (code x - 48)) as -> by
      (unfold digit_in, in_range; by rewrite (proj2 (Z.leb_le _ _)), (proj2 (Z.leb_le _ _)) by lia).
    by rewrite IH.
Qed.

Lemma strtol_digits_stops w r : ∀ v, is_Some (strtol_digits 10 v (w ++ chr 13 :: r)).
Proof. induction w as [|c w IH]; intros v; simpl; [done|]. case_match; [apply IH|done]. Qed.

Lemma strtol_stops c w r : isspace c = false → is_Some (strtol 10 (c :: w ++ chr 13 :: r)).
Proof.
  intros Hc. unfold strtol. simpl skip_space. rewrite Hc.
  destruct (strtol_digits_stops w r 0) as [v Hv]. destruct (strtol_digits_stops (c :: w) r 0) as [v' Hv'].
  simpl app in Hv'. rewrite Hv, Hv'. by repeat case_match.
Qed.

Lemma strtol_show z c r : 0 ≤ z < 2 ^ 63 → in_range 48 57 c = false →
  strtol 10 (show_Z z ++ c :: r) = Some z.
Proof.
  intros Hz Hc. pose proof (show_Z_digits z ltac:(lia)) as Hd. pose proof (digits_value_show z ltac:(lia)) as Hv.
  destruct (show_Z z) as [|x w] eqn:E; [by apply show_Z_nonempty in E|].
  unfold strtol. simpl skip_space. pose proof (Forall_inv Hd) as Hx. cbv beta in Hx.
  assert (isspace x = false ∧ is_chr 45 x = false ∧ is_chr 43 x = false) as (->&->&->).
  { unfold isspace, is_chr, in_range. split_and!; rewrite ?orb_false_iff, ?andb_false_iff, ?Z.eqb_neq, ?Z.leb_gt; lia. }
  pose proof (strtol_digits_value (x :: w) 0 c r Hd Hc) as Hs. simpl app in Hs. rewrite Hs. simpl.
  unfold digits_value in Hv. simpl in Hv. rewrite Hv. unfold clamp_long. f_equal. lia.
Qed.

(** The phases of the header lines. *)
Definition LINE : list Z := [20; 43].
Definition NAME : list Z :=
  [21; 25; 26; 27; 28; 29; 30; 31; 32; 33; 34; 44; 45; 46; 47; 48; 49; 50; 51; 52; 53; 54; 55;
   56; 57; 58; 59; 60; 101; 102; 103; 104; 105; 106; 107; 108; 109; 110; 111].
Definition BEFORE_VALUE : list Z := [22; 35; 61; 112].
Definition VALUE : list Z := [23; 81; 82; 83; 84; 85; 86; 87; 96; 97; 98; 99; 100; 119].
Definition LINE_END : list Z := [24; 71; 88].

(** Characters of a header value and of a reason, and the first of a value. *)
Definition text_char (c : byte) : bool := negb (is_chr 10 c || is_chr 13 c).
Definition first_char (c : byte) : bool := text_char c && negb (isspace c).

Definition rs_field_ok (x : bytes * bytes) : bool :=
  negb (bool_decide (x.1 = [])) && forallb name_char x.1 &&
  match x.2 with [] => false | c :: v => first_char c && forallb text_char v end.

Ltac by_goes := vm_compute; reflexivity.
Ltac by_inside :=
  match goal with H : inside _ _ _ _ _ |- _ => destruct H as (?&?&?&?&?&?&?) end;
  eexists; (split; [reflexivity|]); unfold inside; simpl; split_and!; congruence.

(** The value is stored at the end of its line. *)
Lemma write_value_run mk fs k v l m d s :
  k ≠ [] → at_pos fs (k ++ chr 58 :: m) → at_pos mk (v ++ chr 13 :: l) →
  inside mk fs (LEN fs (fs + Z.of_nat (length k))) d s →
  ∃ s', run_action mem pe (mk + Z.of_nat (length v)) write_value s = Ret tt s' ∧
    inside mk fs (LEN fs (fs + Z.of_nat (length k))) (rs_setHeader k v d) s'.
Proof.
  intros Hk Hatk Hatv Hs. pose proof (mem_string_at mem rest Hmem fs k _ m s Hatk) as H1.
  pose proof (mem_string_at mem rest Hmem mk v _ l s Hatv) as H2.
  assert ((LEN fs (fs + Z.of_nat (length k)) =? 0) = false) as Hl.
  { destruct (at_bound mem rest _ _ Hatk) as [Hb|Hb]; [|by destruct k]. rewrite length_app in Hb.
    destruct Hatk as [Hp _]. apply Z.eqb_neq. unfold LEN. destruct k as [|c k]; [done|]. simpl in *.
    rewrite wrap_id by (unfold unsigned_in; lia). lia. }
  destruct Hs as (Hmk&Hfs&Hfl&?&?&?&?). unfold run_action. msteps. unfold on_response_http_field.
  rewrite Hmk, Hfs, Hfl, Hl. mstep H2. mstep H1. eexists. split; [reflexivity|].
  unfold inside. simpl. split_and!; congruence.
Qed.

Lemma content_len_run mk fs fl d c v l p s :
  at_pos mk ((c :: v) ++ chr 13 :: l) → isspace c = false → inside mk fs fl d s →
  ∃ s', run_action mem pe p write_content_len s = Ret tt s' ∧ inside mk fs fl d s'.
Proof.
  intros [_ Hd] Hc (Hmk&?&?&?&?&?&?). destruct (strtol_stops c v (l ++ rest) Hc) as [z Hz].
  unfold run_action. msteps. unfold strtol_at. rewrite Hmk, Hd, <- !app_assoc. simpl app. rewrite Hz.
  eexists. split; [reflexivity|]. unfold inside. simpl. split_and!; congruence.
Qed.

Lemma at_pos_app p w l : at_pos p (w ++ l) → at_pos (p + Z.of_nat (length w)) l.
Proof. apply at_app. Qed.

Lemma machine_name x l cs p mk fs fl d s :
  cs ∈ LINE → x ≠ [] → forallb name_char x = true → inside mk fs fl d s →
  ∃ n s', machine (x ++ str ": " ++ l) cs p s = machine l n (p + Z.of_nat (length x) + 2) s' ∧
    n ∈ BEFORE_VALUE ∧
    inside (p + Z.of_nat (length x) + 1) p (LEN p (p + Z.of_nat (length x))) d s'.
Proof.
  intros Hcs Hx Hn Hs. destruct x as [|c x]; [done|]. simpl in Hn. apply andb_true_iff in Hn as [Hc Hn].
  rewrite <- app_comm_cons.
  destruct (machine_goes LINE NAME name_char [[start_field]; [write_connection_close; start_field]]
    (inside mk p fl d) c (x ++ str ": " ++ l) cs p s) as (n1&s1&->&Hn1&Hs1); [by_goes|done|done| |].
  { intros a Ha. rewrite !elem_of_cons, elem_of_nil in Ha. destruct Ha as [->|[->|[]]]; by_inside. }
  destruct (machine_stays NAME name_char x (str ": " ++ l) n1 (p + 1) s1) as (n2&->&Hn2); [by_goes|done|done|].
  replace (p + 1 + Z.of_nat (length x)) with (p + Z.of_nat (length (c :: x))) by (simpl; lia).
  set (q := p + Z.of_nat (length (c :: x))). change (str ": " ++ l) with (chr 58 :: chr 32 :: l).
  destruct (machine_goes NAME BEFORE_VALUE (is_chr 58) [[write_field]] (inside mk p (LEN p q) d)
    (chr 58) (chr 32 :: l) n2 q s1) as (n3&s3&->&Hn3&Hs3); [by_goes|done|done| |].
  { intros a ->%list_elem_of_singleton. by_inside. }
  destruct (machine_goes BEFORE_VALUE BEFORE_VALUE (is_chr 32) [[start_value]] (inside (q + 1) p (LEN p q) d)
    (chr 32) l n3 (q + 1) s3) as (n4&s4&->&Hn4&Hs4); [by_goes|done|done| |].
  { intros a ->%list_elem_of_singleton. by_inside. }
  exists n4, s4. split; [f_equal; lia|]. done.
Qed.

Lemma response_field_run x l cs p mk fs fl d s :
  cs ∈ LINE → rs_field_ok x = true → at_pos p (field_line x ++ l) → inside mk fs fl d s →
  ∃ n mk' fs' fl' s', machine (field_line x ++ l) cs p s =
      machine l n (p + Z.of_nat (length (field_line x))) s' ∧
    n ∈ LINE ∧ inside mk' fs' fl' (rs_setHeader x.1 x.2 d) s'.
Proof.
  destruct x as [k v]. unfold rs_field_ok, field_line. cbn [fst snd]. rewrite !andb_true_iff.
  intros Hcs [[Hk%negb_true_iff%bool_decide_eq_false_1 Hkc] Hv] Hat Hs.
  destruct v as [|c v]; [done|]. apply andb_true_iff in Hv as [Hc Hv].
  rewrite <- !app_assoc in Hat |- *.
  destruct (machine_name k ((c :: v) ++ crlf ++ l) cs p mk fs fl d s) as (n1&s1&->&Hn1&Hs1); [done..|].
  pose proof (at_pos_app _ _ _ Hat) as Hatv. apply (at_pos_app _ (str ": ")) in Hatv.
  change (Z.of_nat (length (str ": "))) with 2 in Hatv.
  set (q := p + Z.of_nat (length k) + 2) in *. set (fl1 := LEN p _) in *.
  rewrite <- app_comm_cons.
  destruct (machine_goes BEFORE_VALUE VALUE first_char [[start_value]] (inside q p fl1 d)
    c (v ++ crlf ++ l) n1 q s1) as (n2&s2&->&Hn2&Hs2); [by_goes|done|done| |].
  { intros a ->%list_elem_of_singleton. by_inside. }
  destruct (machine_stays VALUE text_char v (crlf ++ l) n2 (q + 1) s2) as (n3&->&Hn3); [by_goes|done|done|].
  replace (q + 1 + Z.of_nat (length v)) with (q + Z.of_nat (length (c :: v))) by (simpl; lia).
  assert (isspace c = false) as Hsp.
  { unfold first_char in Hc. apply andb_true_iff in Hc as [_ Hc]. by apply negb_true_iff in Hc. }
  destruct (machine_goes VALUE LINE_END (is_chr 13) [[write_value]; [write_content_len; write_value]]
    (inside q p fl1 (rs_setHeader k (c :: v) d)) (chr 13) (chr 10 :: l) n3
    (q + Z.of_nat (length (c :: v))) s2) as (n4&s4&Hm4&Hn4&Hs4); [by_goes|done|done| |].
  { intros a Ha. rewrite !elem_of_cons, elem_of_nil in Ha.
    pose proof (λ s, write_value_run q p k (c :: v) (chr 10 :: l) (chr 32 :: (c :: v) ++ crlf ++ l) d s Hk Hat Hatv)
      as Hw. fold fl1 in Hw.
    destruct Ha as [->|[->|[]]]; cbn [run_actions].
    - destruct (Hw s2 Hs2) as (s'&Hr&Hi). exists s'. split; [by mstep Hr|done].
    - destruct (content_len_run q p fl1 d c v (chr 10 :: l) (q + Z.of_nat (length (c :: v))) s2 Hatv Hsp Hs2)
        as (s3&Hr3&Hs3). destruct (Hw s3 Hs3) as (s'&Hr&Hi). exists s'. split; [|done].
      mstep Hr3. by mstep Hr. }
  change (crlf ++ l) with (chr 13 :: chr 10 :: l). rewrite Hm4.
  destruct (machine_goes LINE_END LINE (is_chr 10) [[]; [trans_chunked]]
    (inside q p fl1 (rs_setHeader k (c :: v) d)) (chr 10) l n4 (q + Z.of_nat (length (c :: v)) + 1) s4)
    as (n5&s5&->&Hn5&Hs5); [by_goes|done|done| |].
  { intros a Ha. rewrite !elem_of_cons, elem_of_nil in Ha. destruct Ha as [->|[->|[]]]; by_inside. }
  exists n5, q, p, fl1, s5. split; [|done]. f_equal. unfold q. rewrite !length_app.
  change (length (str ": ")) with 2%nat. change (length crlf) with 2%nat. lia.
Qed.

Lemma response_fields_run hs : ∀ l cs p mk fs fl d s,
  cs ∈ LINE → Forall (λ x, rs_field_ok x = true) hs → at_pos p (concat (map field_line hs) ++ l) →
  inside mk fs fl d s →
  ∃ n mk' fs' fl' s', machine (concat (map field_line hs) ++ l) cs p s =
      machine l n (p + Z.of_nat (length (concat (map field_line hs)))) s' ∧
    n ∈ LINE ∧ inside mk' fs' fl' (fold_left (λ d x, rs_setHeader x.1 x.2 d) hs d) s'.
Proof.
  induction hs as [|x hs IH]; intros l cs p mk fs fl d s Hcs Hhs Hat Hs.
  { exists cs, mk, fs, fl, s. simpl. by rewrite Z.add_0_r. }
  simpl in Hat |- *. rewrite <- app_assoc in Hat |- *. apply Forall_cons in Hhs as [Hx Hhs].
  destruct (response_field_run x (concat (map field_line hs) ++ l) cs p mk fs fl d s)
    as (n1&mk1&fs1&fl1&s1&->&Hn1&Hs1); [done..|].
  destruct (IH l n1 _ mk1 fs1 fl1 _ s1 Hn1 Hhs (at_pos_app _ _ _ Hat) Hs1)
    as (n&mk'&fs'&fl'&s'&->&Hn&Hs').
  exists n, mk', fs', fl', s'. split; [|done]. f_equal. rewrite length_app. lia.
Qed.

(** ** The status line *)

Fixpoint walk (cs : Z) (l : bytes) : option Z :=
  match l with
  | [] => Some cs
  | c :: l =>
      match case_of cs (i8 (code c)) with
      | Some (St n) => if n =? 0 then None else walk n l
      | _ => None
      end
  end.

Lemma response_walk_run l k cs' s : ∀ cs p,
  walk cs l = Some cs' → machine (l ++ k) cs p s = machine k cs' (p + Z.of_nat (length l)) s.
Proof.
  induction l as [|c l IH]; intros cs p; simpl.
  { intros [= ->]. by rewrite Z.add_0_r. }
  destruct (case_of cs _) as [[n|n]|]; [|done..]. simpl.
  destruct (n =? 0); [done|]. intros Hw. rewrite bind_mret. rewrite (IH _ (p + 1)) by done.
  f_equal. lia.
Qed.

Lemma response_version_run v l p mk fs fl d s :
  v = 16 ∨ v = 17 → at_pos p (version_text v ++ chr 32 :: l) → inside mk fs fl d s →
  ∃ s', machine (version_text v ++ chr 32 :: l) 1 p s = machine l 16 (p + 9) s' ∧
    inside p fs fl (rs_setVersion v d) s'.
Proof.
  intros Hv Hat Hs.
  assert (∃ w, version_text v = chr 72 :: w ∧ walk 8 w = Some 15 ∧ length w = 7%nat) as (w&Hvt&Hw&Hl)
    by (destruct Hv as [-> | ->]; eexists; (split; [reflexivity|]); split; vm_compute; reflexivity).
  rewrite Hvt, <- app_comm_cons.
  destruct (machine_goes [1] [8] (is_chr 72) [[mark]] (inside p fs fl d) (chr 72) (w ++ chr 32 :: l) 1 p s)
    as (n1&s1&->&->%list_elem_of_singleton&Hs1); [by_goes|by left|done| |].
  { intros a ->%list_elem_of_singleton. by_inside. }
  rewrite (response_walk_run w _ 15) by done. rewrite Hl. replace (p + 1 + Z.of_nat 7) with (p + 8) by lia.
  destruct (machine_goes [15] [16] (is_chr 32) [[http_version]] (inside p fs fl (rs_setVersion v d))
    (chr 32) l 15 (p + 8) s1) as (n2&s2&->&->%list_elem_of_singleton&Hs2); [by_goes|by left|done| |].
  { intros a ->%list_elem_of_singleton. destruct Hs1 as (Hmk&?&?&?&?&?&?). destruct Hat as [_ Hd].
    cbn [run_actions]. unfold run_action. rewrite bind_assoc. msteps. unfold on_response_version.
    rewrite Hmk, Hd, <- app_assoc. replace (LEN p (p + 8)) with 8 by (unfold LEN; by replace (p + 8 - p) with 8 by lia).
    destruct Hv as [-> | ->]; (eexists; split; [reflexivity|]); unfold inside; simpl; split_and!; congruence. }
  exists s2. split; [f_equal; lia|done].
Qed.

Definition digit_char (c : byte) : bool := in_range 48 57 c.

Lemma digit_chars w : Forall (λ c, 48 ≤ code c ≤ 57) w → forallb digit_char w = true.
Proof.
  induction 1 as [|c w Hc _ IH]; [done|]. simpl. rewrite IH. unfold digit_char, in_range.
  by rewrite (proj2 (Z.leb_le _ _)), (proj2 (Z.leb_le _ _)) by lia.
Qed.

Lemma machine_status st l p mk fs fl d s :
  0 ≤ st < 2 ^ 31 → at_pos p (show_Z st ++ chr 32 :: l) → inside mk fs fl d s →
  ∃ s', machine (show_Z st ++ chr 32 :: l) 16 p s =
      machine l 18 (p + Z.of_nat (length (show_Z st)) + 1) s' ∧
    inside p fs fl (rs_setStatus st d) s'.
Proof.
  intros Hst Hat Hs. pose proof (digit_chars _ (show_Z_digits st ltac:(lia))) as Hdig.
  assert (strtol_at mem p 10 = mret st) as Hstr.
  { destruct Hat as [_ Hd]. unfold strtol_at. rewrite Hd, <- app_assoc. simpl app.
    by rewrite strtol_show by (done || lia). }
  clear Hat. pose proof (show_Z_nonempty st) as Hne. destruct (show_Z st) as [|c w]; [done|].
  simpl in Hdig. apply andb_true_iff in Hdig as [Hc Hw]. rewrite <- app_comm_cons.
  destruct (machine_goes [16] [17] digit_char [[mark]] (inside p fs fl d) c (w ++ chr 32 :: l) 16 p s)
    as (n1&s1&->&Hn1&Hs1); [by_goes|by left|done| |].
  { intros a ->%list_elem_of_singleton. by_inside. }
  destruct (machine_stays [17] digit_char w (chr 32 :: l) n1 (p + 1) s1) as (n2&->&Hn2); [by_goes|done|done|].
  destruct (machine_goes [17] [18] (is_chr 32) [[status_code]] (inside p fs fl (rs_setStatus st d))
    (chr 32) l n2 (p + 1 + Z.of_nat (length w)) s1) as (n3&s3&->&->%list_elem_of_singleton&Hs3);
    [by_goes|done|done| |].
  { intros a ->%list_elem_of_singleton. destruct Hs1 as (Hmk&?&?&?&?&?&?).
    cbn [run_actions]. unfold run_action. rewrite bind_assoc. msteps. unfold on_response_status.
    rewrite Hmk, Hstr, bind_assoc, bind_mret. pose proof (swrap_id 32 st ltac:(lia) ltac:(unfold signed_in; lia)).
    eexists. split; [reflexivity|]. unfold inside; simpl; split_and!; congruence. }
  exists s3. split; [f_equal; simpl; lia|done].
Qed.

Lemma machine_reason reason l p mk fs fl d s :
  reason ≠ [] → forallb text_char reason = true → at_pos p (reason ++ crlf ++ l) → inside mk fs fl d s →
  ∃ n s', machine (reason ++ crlf ++ l) 18 p s = machine l n (p + Z.of_nat (length reason) + 2) s' ∧
    n ∈ LINE ∧ inside p fs fl (rs_setReason reason d) s'.
Proof.
  intros Hne Hok Hat Hs. destruct reason as [|c w]; [done|].
  simpl in Hok. apply andb_true_iff in Hok as [Hc Hw]. rewrite <- app_comm_cons.
  destruct (machine_goes [18] [19] text_char [[mark]] (inside p fs fl d) c (w ++ crlf ++ l) 18 p s)
    as (n1&s1&->&Hn1&Hs1); [by_goes|by left|done| |].
  { intros a ->%list_elem_of_singleton. by_inside. }
  destruct (machine_stays [19] text_char w (crlf ++ l) n1 (p + 1) s1) as (n2&->&Hn2); [by_goes|done|done|].
  replace (p + 1 + Z.of_nat (length w)) with (p + Z.of_nat (length (c :: w))) by (simpl; lia).
  change (crlf ++ l) with (chr 13 :: chr 10 :: l) in Hat |- *.
  destruct (machine_goes [19] LINE_END (is_chr 13) [[reason_phrase]] (inside p fs fl (rs_setReason (c :: w) d))
    (chr 13) (chr 10 :: l) n2 (p + Z.of_nat (length (c :: w))) s1) as (n3&s3&->&Hn3&Hs3); [by_goes|done|done| |].
  { intros a ->%list_elem_of_singleton.
    pose proof (mem_string_at mem rest Hmem p (c :: w) _ _ s1 Hat) as Hm.
    destruct Hs1 as (Hmk&?&?&?&?&?&?). cbn [run_actions]. unfold run_action. rewrite bind_assoc. msteps.
    unfold on_response_reason. rewrite Hmk, bind_assoc. mstep Hm.
    eexists. split; [reflexivity|]. unfold inside; simpl; split_and!; congruence. }
  destruct (machine_goes LINE_END LINE (is_chr 10) [[]; [trans_chunked]]
    (inside p fs fl (rs_setReason (c :: w) d)) (chr 10) l n3 (p + Z.of_nat (length (c :: w)) + 1) s3)
    as (n4&s4&->&Hn4&Hs4); [by_goes|done|done| |].
  { intros a Ha. rewrite !elem_of_cons, elem_of_nil in Ha. destruct Ha as [->|[->|[]]]; by_inside. }
  exists n4, s4. split; [f_equal; lia|done].
Qed.

(** ** The whole response *)

Lemma machine_end l cs p mk fs fl d s :
  cs ∈ LINE → inside mk fs fl d s →
  ∃ s', machine (crlf ++ l) cs p s = Ret (120, p + 2) s' ∧
    c_nread (rp_parser s') = 0 ∧ c_body_start (rp_parser s') = p + 2 ∧ rp_error s' = 0 ∧ rp_data s' = d.
Proof.
  intros Hcs Hs. change (crlf ++ l) with (chr 13 :: chr 10 :: l).
  destruct (machine_goes LINE [3] (is_chr 13) [[]; [write_connection_close]] (inside mk fs fl d)
    (chr 13) (chr 10 :: l) cs p s) as (n1&s1&->&->%list_elem_of_singleton&Hs1); [by_goes|done|done| |].
  { intros a Ha. rewrite !elem_of_cons, elem_of_nil in Ha. destruct Ha as [->|[->|[]]]; by_inside. }
  cbn [HttpClientParser.machine]. assert (case_of 3 (i8 (code (chr 10))) = Some (Tr 7)) as -> by
    (vm_compute; reflexivity).
  destruct Hs1 as (?&?&?&?&?&?&?). replace (p + 2) with (p + 1 + 1) by lia.
  eexists. split; [reflexivity|]. by simpl.
Qed.
End run.

(** The text of a response up to its body. *)
Definition response_text (v st : Z) (reason : bytes) (hs : list (bytes * bytes)) : bytes :=
  version_text v ++ chr 32 :: show_Z st ++ chr 32 :: reason ++ crlf ++
  concat (map field_line hs) ++ crlf.

(** What is parsed from [response_text]. *)
Definition parsed_response (v st : Z) (reason : bytes) (hs : list (bytes * bytes)) (r : HttpResponse) :
    HttpResponse :=
  fold_left (λ d x, rs_setHeader x.1 x.2 d) hs (rs_setReason reason (rs_setStatus st (rs_setVersion v r))).

Lemma machine_response mem rest pe v st reason hs d s fs fl k :
  Z.of_nat (length mem) < 2 ^ 31 → v = 16 ∨ v = 17 → 0 ≤ st < 2 ^ 31 →
  reason ≠ [] → forallb text_char reason = true → Forall (λ x, rs_field_ok x = true) hs →
  let t := response_text v st reason hs in
  mem = (t ++ k) ++ rest → inside 0 fs fl d s →
  ∃ s', machine mem pe (t ++ k) 1 0 s = Ret (120, Z.of_nat (length t)) s' ∧
    c_nread (rp_parser s') = 0 ∧ c_body_start (rp_parser s') = Z.of_nat (length t) ∧
    rp_error s' = 0 ∧ rp_data s' = parsed_response v st reason hs d.
Proof.
  intros Hmem Hv Hst Hne Hr Hhs t Hm Hs.
  assert (at_pos mem rest 0 (t ++ k)) as Hat by (split; [done|]; by rewrite Hm, drop_0).
  assert (length (version_text v) = 8%nat) as Hvl by (by destruct Hv as [-> | ->]).
  assert (Z.of_nat (length t) = 0 + 9 + Z.of_nat (length (show_Z st)) + 1 + Z.of_nat (length reason) + 2 +
    Z.of_nat (length (concat (map field_line hs))) + 2) as ->.
  { unfold t, response_text. repeat (rewrite length_app || rewrite length_cons). rewrite Hvl.
    change (length crlf) with 2%nat. lia. }
  clear Hm. unfold t, response_text in Hat |- *.
  repeat (rewrite <- !app_assoc in Hat |- * || rewrite <- !app_comm_cons in Hat |- * ).
  destruct (response_version_run mem rest pe v _ 0 0 fs fl d s Hv Hat Hs) as (s1&->&Hs1).
  pose proof (at_pos_app mem rest _ _ _ Hat) as Hat1. apply (at_pos_app mem rest _ [chr 32]) in Hat1.
  rewrite Hvl in Hat1. change (0 + Z.of_nat 8 + Z.of_nat (length [chr 32])) with (0 + 9) in Hat1.
  destruct (machine_status mem rest pe st _ (0 + 9) 0 fs fl _ s1 Hst Hat1 Hs1) as (s2&->&Hs2).
  pose proof (at_pos_app mem rest _ _ _ Hat1) as Hat2. apply (at_pos_app mem rest _ [chr 32]) in Hat2.
  change (Z.of_nat (length [chr 32])) with 1 in Hat2.
  destruct (machine_reason mem rest pe Hmem reason _ _ (0 + 9) fs fl _ s2 Hne Hr Hat2 Hs2) as (n&s3&->&Hn&Hs3).
  pose proof (at_pos_app mem rest _ _ _ Hat2) as Hat3. apply (at_pos_app mem rest _ crlf) in Hat3.
  change (Z.of_nat (length crlf)) with 2 in Hat3.
  destruct (response_fields_run mem rest pe Hmem hs _ n _ _ fs fl _ s3 Hn Hhs Hat3 Hs3)
    as (n4&mk4&fs4&fl4&s4&->&Hn4&Hs4).
  destruct (machine_end mem pe k n4 (0 + 9 + Z.of_nat (length (show_Z st)) + 1 + Z.of_nat (length reason) + 2 +
    Z.of_nat (length (concat (map field_line hs)))) mk4 fs4 fl4 _ s4 Hn4 Hs4) as (s5&->&H5).
  by exists s5.
Qed.

Lemma parsed_response_fields v st reason hs key :
  let r := parsed_response v st reason hs (new_HttpResponse 17 true) in
  rs_version r = v ∧ rs_status r = st ∧ rs_reason r = reason ∧ rs_body r = [] ∧
  snd <$> map_find key (rs_headers r) = last_value key None hs.
Proof.
  unfold parsed_response. set (d := rs_setReason _ _).
  assert (∀ hs d, map_wf (rs_headers d) →
    let r := fold_left (λ d x, rs_setHeader x.1 x.2 d) hs d in
    rs_version r = rs_version d ∧ rs_status r = rs_status d ∧ rs_reason r = rs_reason d ∧ rs_body r = rs_body d ∧
    snd <$> map_find key (rs_headers r) = last_value key (snd <$> map_find key (rs_headers d)) hs) as H.
  { clear. induction hs as [|x hs IH]; intros d Hd; [done|]. simpl.
    destruct (IH (rs_setHeader x.1 x.2 d)) as (?&?&?&?&Hf); [by apply map_assign_wf|].
    split_and!; try done. rewrite Hf. f_equal. by apply map_assign_find. }
  exact (H hs d ltac:(constructor)).
Qed.

Lemma parse_text (mem post junk : bytes) (v st : Z) (reason : bytes) (hs : list (bytes * bytes))
    (prior : httpclient_parser)
    (Hlen : Z.of_nat (length mem) < 2 ^ 31) (Hv : v = 16 ∨ v = 17) (Hst : 0 ≤ st < 2 ^ 31)
    (Hne : reason ≠ []) (Hr : forallb text_char reason = true)
    (Hhs : Forall (λ x, rs_field_ok x = true) hs)
    (Hmem : mem = (response_text v st reason hs ++ post) ++ chr 0 :: junk) :
  ∃ mem' s,
    execute mem (Z.of_nat (length (response_text v st reason hs ++ post))) false
        (new_HttpResponseParser prior) =
      Ret (Z.of_nat (length (response_text v st reason hs)), mem') s ∧
    take (length post) mem' = post ∧ isFinished s = 1 ∧ hasError s = false ∧
    rs_version (rp_data s) = v ∧ rs_status (rp_data s) = st ∧ rs_reason (rp_data s) = reason ∧
    ∀ key def, rs_getHeader key def (rp_data s) = default def (last_value key None hs).
Proof.
  set (t := response_text v st reason hs) in *.
  set (n := Z.of_nat (length t)). set (len := Z.of_nat (length (t ++ post))).
  assert (len = n + Z.of_nat (length post)) as Hl by (unfold len; rewrite length_app; lia).
  assert (len < Z.of_nat (length mem)) as Hle by (unfold len; rewrite Hmem, (length_app (t ++ post)); simpl; lia).
  destruct (machine_response mem (chr 0 :: junk) len v st reason hs (new_HttpResponse 17 true)
    (new_HttpResponseParser prior) 0 0 post) as (s1&Hm&Hn1&Hb1&He1&Hd1); [done..|].
  fold t n in Hm, Hb1. exists (splice 0 post mem), (mkResponseParser (upd_progress 120 n (rp_parser s1)) (rp_data s1) 0).
  assert (httpclient_parser_execute mem len (new_HttpResponseParser prior) =
    Ret n (mkResponseParser (upd_progress 120 n (rp_parser s1)) (rp_data s1) 0)) as He.
  { unfold httpclient_parser_execute. msteps.
    assert (mem !! Z.to_nat len = Some (chr 0)) as -> by
      (unfold len; rewrite Nat2Z.id, Hmem; by apply list_lookup_middle).
    unfold massert. rewrite swrap_id, Z.eqb_refl by (unfold signed_in; lia).
    change (is_chr 0 (chr 0)) with true. cbn iota. msteps.
    replace (take (Z.to_nat len) mem) with (t ++ post)
      by (unfold len; rewrite Hmem, Nat2Z.id; symmetry; apply take_app_length).
    change (c_cs (rp_parser (new_HttpResponseParser prior))) with 1. mstep Hm. unfold on_client. msteps.
    cbn [fst snd]. rewrite Hn1, He1, Z.add_0_l, wrap_id by (unfold unsigned_in; lia).
    rewrite (proj2 (Z.leb_le n len)) by lia. msteps. cbn [rp_parser upd_progress c_nread c_body_start].
    rewrite Hb1, (proj2 (Z.leb_le n len)) by lia. msteps.
    by rewrite swrap_id by (done || unfold signed_in; lia). }
  assert (∀ key, _) as Hf by (intros key; exact (parsed_response_fields v st reason hs key)).
  destruct (Hf []) as (Hfv&Hfs&Hfr&_). cbn [rp_data]. split_and!; [|..|]; try done; try by rewrite Hd1.
  - unfold execute. rewrite bind_mret. mstep He. rewrite wrap_id by (unfold unsigned_in; lia).
    assert (slice (Z.to_nat n) (Z.to_nat (len - n)) mem = post) as ->; [|done].
    unfold slice. rewrite Hl. replace (Z.to_nat n) with (length t) by (unfold n; lia).
    replace (Z.to_nat _) with (length post) by lia.
    rewrite Hmem, <- app_assoc, drop_app_length. apply take_app_length.
  - unfold splice. by rewrite take_0, app_nil_l, take_app_length.
  - intros key def. unfold rs_getHeader. rewrite Hd1, map_get_find.
    by destruct (Hf key) as (_&_&_&_&->).
Qed.

(** C16. Parsing a response: the text of a status line (version 1.0 or 1.1, a
    status below 2^31, a reason without line breaks) and of header lines [name:
    value], with whatever was received after it and the NUL the parser asks for,
    is parsed in one call, whatever the generated machine makes of the
    [Content-Length], [Connection] and [Transfer-Encoding] lines among them: the call
    returns the length of the text and leaves what followed at the start of the
    buffer, the parser is finished without an error, and the response has the
    version, status, reason and, for every header name, the last value given. *)
Theorem response_parsed (mem post junk : bytes) (v st : Z) (reason : bytes) (hs : list (bytes * bytes))
    (prior : httpclient_parser)
    (Hlen : Z.of_nat (length mem) < 2 ^ 31) (Hv : v = 16 ∨ v = 17) (Hst : 0 ≤ st < 2 ^ 31)
    (Hne : reason ≠ []) (Hr : forallb text_char reason = true)
    (Hhs : Forall (λ x, rs_field_ok x = true) hs)
    (Hmem : mem = (response_text v st reason hs ++ post) ++ chr 0 :: junk) :
  ∃ mem' s,
    execute mem (Z.of_nat (length (response_text v st reason hs ++ post))) false
        (new_HttpResponseParser prior) =
      Ret (Z.of_nat (length (response_text v st reason hs)), mem') s ∧
    take (length post) mem' = post ∧ isFinished s = 1 ∧ hasError s = false ∧
    rs_version (rp_data s) = v ∧ rs_status (rp_data s) = st ∧ rs_reason (rp_data s) = reason ∧
    ∀ key def, rs_getHeader key def (rp_data s) = default def (last_value key None hs).
Proof. by apply parse_text with junk. Qed.

(** ** A dumped response *)

(** The reason [dump] writes and the fields. *)
Definition dump_reason (r : HttpResponse) : bytes :=
  if bool_decide (rs_reason r = []) then HttpStatusToString (rs_status r) else rs_reason r.
Definition rs_dump_fields (r : HttpResponse) : list (bytes * bytes) :=
  List.filter (λ x, rs_websocket r || negb (is_connection x.1)) (rs_headers r) ++
  map (λ i, (str "Set-Cookie", i)) (rs_cookies r) ++
  (if rs_websocket r then []
   else [(str "connection", if rs_close r then str "close" else str "keep-alive")]).

Lemma rs_dump_text r :
  rs_body r = [] → rs_version r = 16 ∨ rs_version r = 17 →
  rs_dump r = response_text (rs_version r) (rs_status r) (dump_reason r) (rs_dump_fields r).
Proof.
  intros Hb Hv. unfold rs_dump, response_text, rs_dump_fields. fold (dump_reason r).
  rewrite Hb, dump_headers_fields, !map_app, !concat_app, map_map.
  assert (dump_version (rs_version r) = version_text (rs_version r)) as -> by (by destruct Hv as [-> | ->]).
  change (dump_body []) with crlf. change (str " ") with [chr 32]. unfold dump_connection.
  assert (map (λ i, str "Set-Cookie: " ++ i ++ crlf) (rs_cookies r) =
    map (λ x, field_line (str "Set-Cookie", x)) (rs_cookies r)) as -> by done.
  destruct (rs_websocket r); cbn [negb map concat app]; [by rewrite <- !app_assoc|].
  destruct (rs_close r); rewrite <- !app_assoc; reflexivity.
Qed.

Lemma status_text_ok st : HttpStatusToString st ≠ [] ∧ forallb text_char (HttpStatusToString st) = true.
Proof.
  unfold HttpStatusToString. destruct (List.find _ _) as [x|] eqn:E; [|done].
  apply List.find_some in E as [Hx _].
  assert (forallb (λ x : Z * bytes, negb (bool_decide (x.2 = [])) && forallb text_char x.2) HTTP_STATUS_MAP = true)
    as Hall by (vm_compute; reflexivity).
  rewrite List.forallb_forall in Hall. specialize (Hall x Hx). apply andb_true_iff in Hall as [H1 H2].
  split; [by apply negb_true_iff, bool_decide_eq_false_1 in H1|done].
Qed.

Definition is_set_cookie (k : bytes) : bool := bool_decide (fold_key k = fold_key (str "Set-Cookie")).

(** What the dumped fields say of a header that is neither [connection] nor
    [Set-Cookie], and of [connection]. *)
Lemma rs_dump_fields_value r key def :
  map_wf (rs_headers r) → is_set_cookie key = false →
  default def (last_value key None (rs_dump_fields r)) =
    if negb (rs_websocket r) && is_connection key
    then (if rs_close r then str "close" else str "keep-alive")
    else rs_getHeader key def r.
Proof.
  intros Hwf Hck. unfold rs_getHeader. rewrite map_get_find, <- last_value_map by done.
  unfold rs_dump_fields, last_value at 1. rewrite !fold_left_app.
  fold (last_value key None (List.filter (λ x, rs_websocket r || negb (is_connection x.1)) (rs_headers r))).
  set (o := last_value key None (List.filter _ _)).
  fold (last_value key o (map (λ i, (str "Set-Cookie", i)) (rs_cookies r))).
  rewrite (last_value_none key o).
  2: { intros x (i&->&_)%list_elem_of_fmap. by apply bool_decide_eq_false_1 in Hck. }
  destruct (rs_websocket r) eqn:Ew; simpl.
  { unfold o. simpl. by rewrite filter_true. }
  destruct (is_connection key) eqn:Ek; simpl.
  - rewrite bool_decide_eq_true_2 by (by apply is_connection_spec). by destruct (rs_close r).
  - rewrite bool_decide_eq_false_2 by (intros H%is_connection_spec; congruence).
    unfold o. simpl. rewrite last_value_filter; [done|]. intros x Hx.
    apply negb_true_iff, not_true_is_false. rewrite is_connection_spec, <- Hx, <- is_connection_spec. congruence.
Qed.

Lemma dump_read_back (r : HttpResponse) (prior : httpclient_parser)
    (Hlen : Z.of_nat (length (rs_dump r)) < 2 ^ 31 - 1)
    (Hv : rs_version r = 16 ∨ rs_version r = 17) (Hst : 0 ≤ rs_status r < 2 ^ 31)
    (Hb : rs_body r = []) (Hr : forallb text_char (rs_reason r) = true) (Hwf : map_wf (rs_headers r))
    (Hhs : Forall (λ x, rs_field_ok x = true) (rs_headers r))
    (Hck : Forall (λ i, rs_field_ok (str "Set-Cookie", i) = true) (rs_cookies r)) :
  ∃ mem' s,
    execute (rs_dump r ++ [chr 0]) (Z.of_nat (length (rs_dump r))) false (new_HttpResponseParser prior) =
      Ret (Z.of_nat (length (rs_dump r)), mem') s ∧
    isFinished s = 1 ∧ hasError s = false ∧
    rs_version (rp_data s) = rs_version r ∧ rs_status (rp_data s) = rs_status r ∧
    rs_reason (rp_data s) = dump_reason r ∧
    ∀ key def, is_set_cookie key = false →
      rs_getHeader key def (rp_data s) =
      if negb (rs_websocket r) && is_connection key
      then (if rs_close r then str "close" else str "keep-alive") else rs_getHeader key def r.
Proof.
  pose proof (rs_dump_text r Hb Hv) as Hd. destruct (status_text_ok (rs_status r)) as [Hs1 Hs2].
  destruct (parse_text (rs_dump r ++ [chr 0]) [] [] (rs_version r) (rs_status r) (dump_reason r)
    (rs_dump_fields r) prior) as (mem'&s&He&_&Hf&Herr&H1&H2&H3&H4).
  - rewrite length_app. change (length [chr 0]) with 1%nat. lia.
  - done.
  - done.
  - unfold dump_reason. by case_bool_decide.
  - unfold dump_reason. by case_bool_decide.
  - unfold rs_dump_fields. rewrite !Forall_app. split_and!.
    + rewrite Forall_forall in Hhs |- *. intros x Hx. apply Hhs.
      apply list_elem_of_In in Hx. apply List.filter_In in Hx as [Hx _]. by apply list_elem_of_In.
    + by apply Forall_fmap.
    + destruct (rs_websocket r), (rs_close r); repeat constructor.
  - by rewrite <- Hd, app_nil_r.
  - rewrite app_nil_r, <- Hd in He. exists mem', s. split_and!; try done.
    intros key def Hk. rewrite H4. by apply rs_dump_fields_value.
Qed.

(** Server to client: a response without a body that [dump] wrote is parsed
    by the client's machine to the same version and status, the reason written
    (that of the status when there was none) and the same headers, with a
    [connection] header that tells whether the server closes. *)
Theorem response_round_trip (r : HttpResponse) (prior : httpclient_parser)
    (Hlen : Z.of_nat (length (rs_dump r)) < 2 ^ 31 - 1)
    (Hv : rs_version r = 16 ∨ rs_version r = 17) (Hst : 0 ≤ rs_status r < 2 ^ 31)
    (Hb : rs_body r = []) (Hr : forallb text_char (rs_reason r) = true) (Hwf : map_wf (rs_headers r))
    (Hhs : Forall (λ x, rs_field_ok x = true) (rs_headers r))
    (Hck : Forall (λ i, rs_field_ok (str "Set-Cookie", i) = true) (rs_cookies r)) :
  ∃ mem' s,
    execute (rs_dump r ++ [chr 0]) (Z.of_nat (length (rs_dump r))) false (new_HttpResponseParser prior) =
      Ret (Z.of_nat (length (rs_dump r)), mem') s ∧
    isFinished s = 1 ∧ hasError s = false ∧
    rs_version (rp_data s) = rs_version r ∧ rs_status (rp_data s) = rs_status r ∧
    rs_reason (rp_data s) = dump_reason r ∧
    ∀ key def, is_set_cookie key = false →
      rs_getHeader key def (rp_data s) =
      if negb (rs_websocket r) && is_connection key
      then (if rs_close r then str "close" else str "keep-alive") else rs_getHeader key def r.
Proof. by apply dump_read_back. Qed.

Lemma response_parsed_witness :
  ∃ mem' s, execute (ex_response ++ [chr 0]) (Z.of_nat (length ex_response)) false
      (new_HttpResponseParser zero_client) = Ret (64, mem') s ∧
    take 4 mem' = str "body" ∧ isFinished s = 1 ∧ rs_status (rp_data s) = 404 ∧
    rs_getHeader (str "content-length") [] (rp_data s) = str "4".
Proof.
  destruct (response_parsed (ex_response ++ [chr 0]) (str "body") [] 17 404 (str "Not Found")
    [(str "Content-Length", str "4"); (str "connection", str "close")] zero_client)
    as (mem'&s&He&Ht&Hf&_&_&Hst&_&Hh);
    [vm_compute; reflexivity|by right|lia|discriminate|vm_compute; reflexivity|repeat constructor
    |vm_compute; reflexivity|].
  exists mem', s. split; [exact He|]. split; [exact Ht|]. split; [exact Hf|]. split; [exact Hst|].
  rewrite Hh. vm_compute. reflexivity.
Defined.

Definition ex_rsp : HttpResponse :=
  Response 302 17 false false [] [] [(str "Location", str "/login")] [str "id=1;path=/"].

Lemma response_round_trip_witness :
  ∃ mem' s,
    execute (rs_dump ex_rsp ++ [chr 0]) (Z.of_nat (length (rs_dump ex_rsp))) false
      (new_HttpResponseParser zero_client) = Ret (Z.of_nat (length (rs_dump ex_rsp)), mem') s ∧
    rs_status (rp_data s) = 302 ∧ rs_reason (rp_data s) = str "Found" ∧
    rs_getHeader (str "location") [] (rp_data s) = str "/login" ∧
    rs_getHeader (str "Connection") [] (rp_data s) = str "keep-alive".
Proof.
  destruct (response_round_trip ex_rsp zero_client) as (mem'&s&He&_&_&_&Hst&Hr&Hh);
    [vm_compute; reflexivity|by right|split; [discriminate|reflexivity]|reflexivity|reflexivity
    |repeat constructor|repeat constructor|repeat constructor|].
  exists mem', s. split; [exact He|]. split; [exact Hst|]. split; [exact Hr|].
  rewrite !Hh by reflexivity. split; vm_compute; reflexivity.
Defined.

(** The machine has four final states and [httpclient_parser_is_finished] knows
    one: a response that ends with a special header without a value is consumed
    to the end and never counts as finished. *)
Definition ex_unfinished : bytes :=
  str "HTTP/1.1 200 OK" ++ crlf ++ str "Transfer-Encoding:" ++ crlf ++ crlf.
Example response_never_finished :
  match execute (ex_unfinished ++ [chr 0]) (Z.of_nat (length ex_unfinished)) false
          (new_HttpResponseParser zero_client) with
  | Ret (n, _) s => (n, c_cs (rp_parser s), isFinished s, hasError s) = (39, 121, 0, false)
  | _ => False
  end.
Proof. vm_compute. reflexivity. Qed.

(** A second response parsed by the same object without [chunck] starts in the
    final state and is an error. *)
Example second_response_is_an_error :
  match execute (ex_response ++ [chr 0]) (Z.of_nat (length ex_response)) false
          (new_HttpResponseParser zero_client) with
  | Ret _ s =>
      match execute (ex_response ++ [chr 0]) (Z.of_nat (length ex_response)) false s with
      | Ret _ s => isFinished s = -1
      | _ => False
      end
  | _ => False
  end.
Proof. vm_compute. reflexivity. Qed.
