(* ===== verification/Stream.v ===== *)
(** * Streams (megalo/stream.h, megalo/stream.cc, megalo/socket_stream.cc)

    [Stream] is an abstract class: its pure virtual [read], [write] and [close]
    are the operations of [StreamOps], and what a derived class promises are the
    laws of [StreamLaws].  The loops [readFixSize] and [writeFixSize] are
    written against that interface; a buffer that is read into is the list of
    the bytes put in it so far.  [SocketStream] forwards to a socket when it is
    connected; its operations are instances for any socket. *)
From S2P Require Import Prelude Bytes.

Class StreamOps (T : Type) := {
  st_read : Z → M T (Z * bytes);     (* the result and the bytes it wrote *)
  st_write : bytes → M T Z;
  st_close : M T ()
}.

(** [st_ok] are the states a stream gets into; [st_in] is what the peer has still
    to deliver, [st_out] what was sent. *)
Class StreamLaws (T : Type) `{StreamOps T} := {
  st_ok : T → Prop;
  st_in : T → bytes;
  st_out : T → bytes;
  law_read n s : st_ok s → 0 < n →
    ∃ r d s', st_read n s = Ret (r, d) s' ∧ st_ok s' ∧ st_out s' = st_out s ∧ st_in s = d ++ st_in s' ∧
      Z.of_nat (length d) = Z.max 0 r ∧ r ≤ n ∧ signed_in 32 r;
  law_write b s : st_ok s → b ≠ [] →
    ∃ r s', st_write b s = Ret r s' ∧ st_ok s' ∧ st_in s' = st_in s ∧
      st_out s' = st_out s ++ take (Z.to_nat r) b ∧ r ≤ Z.of_nat (length b) ∧ signed_in 32 r;
  law_close s : st_ok s → ∃ s', st_close s = Ret tt s' ∧ st_ok s' ∧ st_in s' = st_in s ∧ st_out s' = st_out s
}.

Section stream.
Context {T : Type} `{StreamOps T}.

(** The loop of [readFixSize(buffer, length)]: [done] is in the buffer, [left]
    is missing; every round that goes on reads at least one byte. *)
Fixpoint read_loop (fuel : nat) (done : bytes) (left : Z) : M T (option Z * bytes) :=
  if left <=? 0 then mret (None, done) else
  match fuel with
  | 0%nat => crash Diverges
  | S fuel =>
      r ← st_read left;
      if r.1 <=? 0 then mret (Some r.1, done)
      else read_loop fuel (done ++ r.2) (left - r.1)
  end.

(** The result, an [int], and the bytes in the buffer. *)
Definition readFixSize (length_ : Z) : M T (Z * bytes) :=
  let left := i64 length_ in
  r ← read_loop (Z.to_nat left) [] left;
  mret (match r.1 with Some len => i32 len | None => i32 length_ end, r.2).

Fixpoint write_loop (fuel : nat) (buffer : bytes) : M T (option Z) :=
  match buffer with
  | [] => mret None
  | _ =>
      match fuel with
      | 0%nat => crash Diverges
      | S fuel =>
          len ← st_write buffer;
          if len <=? 0 then mret (Some len)
          else write_loop fuel (drop (Z.to_nat len) buffer)
      end
  end.

(** [writeFixSize(buffer, length)] of the whole buffer. *)
Definition writeFixSize (buffer : bytes) : M T Z :=
  r ← write_loop (length buffer) buffer;
  mret (match r with Some len => i32 len | None => i32 (Z.of_nat (length buffer)) end).
End stream.

(** ** What the loops do *)

Section stream_laws.
Context {T : Type} `{StreamLaws T}.

Lemma read_loop_ok fuel : ∀ done left s, st_ok s → (Z.to_nat left ≤ fuel)%nat →
  ∃ o d s', read_loop fuel done left s = Ret (o, done ++ d) s' ∧ st_ok s' ∧
    st_out s' = st_out s ∧ st_in s = d ++ st_in s' ∧
    match o with
    | None => Z.of_nat (length d) = Z.max 0 left
    | Some len => len ≤ 0 ∧ signed_in 32 len ∧ Z.of_nat (length d) < left
    end.
Proof.
  induction fuel as [|fuel IH]; intros done left s Hok Hf; simpl.
  all: destruct (Z.leb_spec left 0) as [Hl|Hl];
    [exists None, [], s; rewrite app_nil_r; simpl; split_and!; done || lia|].
  { lia. }
  destruct (law_read left s Hok Hl) as (r&d&s1&Hr&Hok1&Ho&Hi&Hd&Hrl&Hrs). mstep Hr. cbn [fst snd].
  destruct (Z.leb_spec r 0) as [Hr0|Hr0].
  { exists (Some r), [], s1. rewrite app_nil_r.
    assert (d = []) as -> by (destruct d; [done|simpl in Hd; lia]). simpl. split_and!; done || lia. }
  destruct (IH (done ++ d) (left - r) s1) as (o&d'&s2&Hr2&Hok2&Ho2&Hi2&Hod); [done|lia|].
  exists o, (d ++ d'), s2. rewrite Hr2, app_assoc. split; [done|]. split; [done|]. split; [congruence|].
  split; [by rewrite Hi, Hi2, app_assoc|]. rewrite length_app.
  destruct o; [destruct Hod as (?&?&?); split_and!; [done|done|lia]|lia].
Qed.

(** [readFixSize] gives all the bytes it was asked for, or a code that is not
    positive and fewer; either way it took from the peer what it gives. *)
Lemma readFixSize_ok n s : st_ok s → 0 ≤ n < 2 ^ 31 →
  ∃ r d s', readFixSize n s = Ret (r, d) s' ∧ st_ok s' ∧ st_out s' = st_out s ∧ st_in s = d ++ st_in s' ∧
    (r = n ∧ Z.of_nat (length d) = n ∨ r ≤ 0 ∧ Z.of_nat (length d) < n).
Proof.
  intros Hok Hn. unfold readFixSize. cbv zeta. rewrite (swrap_id 64 n), (swrap_id 32 n) by (unfold signed_in; lia).
  destruct (read_loop_ok (Z.to_nat n) [] n s) as (o&d&s'&Hr&Hok'&Ho&Hi&Hod); [done..|].
  mstep Hr. eexists _, d, s'. split; [reflexivity|]. split; [done|]. split; [done|]. split; [done|]. cbn [fst].
  destruct o as [len|].
  - right. rewrite swrap_id by (done || tauto). tauto.
  - left. split; [done|lia].
Qed.

Lemma write_loop_ok fuel : ∀ b s, st_ok s → (length b ≤ fuel)%nat →
  ∃ o k s', write_loop fuel b s = Ret o s' ∧ st_ok s' ∧ st_in s' = st_in s ∧
    st_out s' = st_out s ++ take k b ∧
    match o with
    | None => (length b ≤ k)%nat
    | Some len => len ≤ 0 ∧ signed_in 32 len ∧ (k < length b)%nat
    end.
Proof.
  induction fuel as [|fuel IH]; intros [|x b] s Hok Hf; simpl in *.
  1,3: exists None, 0%nat, s; by rewrite app_nil_r.
  { lia. }
  destruct (law_write (x :: b) s Hok) as (r&s1&Hr&Hok1&Hi&Ho&Hrl&Hrs); [done|]. mstep Hr.
  destruct (Z.leb_spec r 0) as [Hr0|Hr0].
  { exists (Some r), 0%nat, s1. replace (Z.to_nat r) with 0%nat in Ho by lia. simpl in *.
    split_and!; done || lia. }
  destruct (IH (drop (Z.to_nat r) (x :: b)) s1 Hok1) as (o&k&s2&H2&Hok2&Hi2&Ho2&Hres).
  { rewrite length_drop. simpl. lia. }
  exists o, (Z.to_nat r + k)%nat, s2. split; [done|]. split; [done|]. split; [congruence|]. split.
  - rewrite Ho2, Ho, <- app_assoc. f_equal. apply take_take_drop.
  - rewrite length_drop in Hres.
    destruct o; simpl in *; [destruct Hres as (?&?&?); split_and!; [done|done|lia]|lia].
Qed.

Lemma writeFixSize_ok b s : st_ok s → Z.of_nat (length b) < 2 ^ 31 →
  ∃ r k s', writeFixSize b s = Ret r s' ∧ st_ok s' ∧ st_in s' = st_in s ∧ st_out s' = st_out s ++ take k b ∧
    (r = Z.of_nat (length b) ∧ take k b = b ∨ r ≤ 0 ∧ (k < length b)%nat).
Proof.
  intros Hok Hb. unfold writeFixSize.
  destruct (write_loop_ok (length b) b s) as (o&k&s'&Hr&Hok'&Hi&Ho&Hres); [done..|].
  mstep Hr. eexists _, k, s'. split; [reflexivity|]. split; [done|]. split; [done|]. split; [done|].
  destruct o as [len|].
  - right. rewrite swrap_id by (done || tauto). tauto.
  - left. rewrite swrap_id by (unfold signed_in; lia). split; [done|]. by apply take_ge.
Qed.

(** C28. [readFixSize] and [writeFixSize] end, and either move exactly the
    number of bytes asked for, in order, and return it, or return a code that
    is not positive after fewer; no byte is lost or read twice: what was read
    and what is still to come make up what the peer sends, and what was sent is
    a prefix of the buffer. *)
Theorem fix_size_transfers (n : Z) (b : bytes) (s : T) (Hok : st_ok s)
    (Hn : 0 ≤ n < 2 ^ 31) (Hb : Z.of_nat (length b) < 2 ^ 31) :
  (∃ r d s', readFixSize n s = Ret (r, d) s' ∧ st_ok s' ∧ st_out s' = st_out s ∧ st_in s = d ++ st_in s' ∧
    (r = n ∧ Z.of_nat (length d) = n ∨ r ≤ 0 ∧ Z.of_nat (length d) < n)) ∧
  (∃ r k s', writeFixSize b s = Ret r s' ∧ st_ok s' ∧ st_in s' = st_in s ∧ st_out s' = st_out s ++ take k b ∧
    (r = Z.of_nat (length b) ∧ take k b = b ∨ r ≤ 0 ∧ (k < length b)%nat)).
Proof. split; [by apply readFixSize_ok|by apply writeFixSize_ok]. Qed.
End stream_laws.

(** ** SocketStream *)

(** What [SocketStream] uses of a socket. *)
Class SocketOps (K : Type) := {
  sk_isConnected : K → bool;
  sk_recv : Z → M K (Z * bytes);
  sk_send : bytes → M K Z;
  sk_close : M K ()
}.

Section socket_stream.
Context {K : Type} `{SocketOps K}.

Record SocketStream := mkSocketStream { m_socket : option K; m_owner : bool }.

Definition on_socket {A} (m : M K A) : M SocketStream A := λ s,
  match m_socket s with
  | None => Crash NullDeref
  | Some k =>
      match m k with
      | Ret a k => Ret a (mkSocketStream (Some k) (m_owner s))
      | Throw e k => Throw e (mkSocketStream (Some k) (m_owner s))
      | Crash f => Crash f
      end
  end.

Definition isConnected (s : SocketStream) : bool :=
  match m_socket s with Some k => sk_isConnected k | None => false end.

Definition ss_read (length_ : Z) : M SocketStream (Z * bytes) :=
  b ← gets isConnected;
  if negb b then mret (-1, []) else on_socket (sk_recv length_).
Definition ss_write (buffer : bytes) : M SocketStream Z :=
  b ← gets isConnected;
  if negb b then mret (-1) else on_socket (sk_send buffer).
Definition ss_close : M SocketStream () :=
  k ← gets m_socket;
  if bool_decide (is_Some (const tt <$> k)) then on_socket sk_close else mret tt.

(** [SocketStream::~SocketStream]. *)
Definition delete_SocketStream : M SocketStream () :=
  own ← gets m_owner; if (own : bool) then ss_close else mret tt.

#[global] Instance socket_stream_ops : StreamOps SocketStream := {
  st_read := ss_read; st_write := ss_write; st_close := ss_close
}.
End socket_stream.
Arguments SocketStream K : clear implicits.

(** ** A wire *)

(** A socket whose peer delivers its bytes in segments: [recv] gives bytes of
    one segment, 0 when there is none, -1 when the socket is closed; [send]
    takes at most [w_window] bytes. *)
Record wire := Wire {
  w_segments : list bytes;
  w_out : bytes;
  w_window : nat;
  w_connected : bool
}.

Definition recv_segment (n : nat) (l : list bytes) : bytes * list bytes :=
  match l with
  | [] => ([], [])
  | seg :: l => (take n seg, if bool_decide (drop n seg = []) then l else drop n seg :: l)
  end.

#[global] Instance wire_socket : SocketOps wire := {
  sk_isConnected := w_connected;
  sk_recv n := λ w,
    let '(d, l) := recv_segment (Z.to_nat (Z.min n (2 ^ 31 - 1))) (w_segments w) in
    Ret (Z.of_nat (length d), d) (Wire l (w_out w) (w_window w) (w_connected w));
  sk_send b := λ w,
    let k := Z.to_nat (Z.min (Z.of_nat (Nat.min (length b) (w_window w))) (2 ^ 31 - 1)) in
    Ret (Z.of_nat k) (Wire (w_segments w) (w_out w ++ take k b) (w_window w) (w_connected w));
  sk_close := modify (λ w, Wire (w_segments w) (w_out w) (w_window w) false)
}.

#[global] Program Instance wire_stream : StreamLaws (SocketStream wire) := {
  st_ok _ := True;
  st_in s := match m_socket s with Some w => concat (w_segments w) | None => [] end;
  st_out s := match m_socket s with Some w => w_out w | None => [] end
}.
Next Obligation.
  intros n [[[[|seg l] out win [|]]|] own] _ Hn.
  - eexists 0, [], _. split; [reflexivity|]. split_and!; done || lia.
  - eexists (-1), [], _. split; [reflexivity|]. split_and!; done || lia.
  - set (k := Z.to_nat (Z.min n (2 ^ 31 - 1))).
    exists (Z.of_nat (length (take k seg))), (take k seg),
      (mkSocketStream (Some (Wire (if bool_decide (drop k seg = []) then l else drop k seg :: l)
        out win true)) own).
    split; [reflexivity|]. split; [done|]. split; [done|]. rewrite length_take. split.
    + simpl. case_bool_decide as Hd; simpl.
      * rewrite <- (take_drop k seg) at 1. by rewrite Hd, app_nil_r.
      * by rewrite app_assoc, take_drop.
    + split; [lia|]. split; [lia|]. unfold signed_in, k. lia.
  - eexists (-1), [], _. split; [reflexivity|]. split_and!; done || lia.
  - eexists (-1), [], _. split; [reflexivity|]. split_and!; done || lia.
Qed.
Next Obligation.
  intros b [[[segs out win [|]]|] own] _ Hb.
  - set (k := Z.to_nat (Z.min (Z.of_nat (Nat.min (length b) win)) (2 ^ 31 - 1))).
    exists (Z.of_nat k), (mkSocketStream (Some (Wire segs (out ++ take k b) win true)) own).
    split; [reflexivity|]. split; [done|]. split; [done|]. rewrite Nat2Z.id. split; [done|].
    split; [unfold k; lia|]. unfold signed_in, k. lia.
  - eexists (-1), _. split; [reflexivity|]. simpl. rewrite app_nil_r. split_and!; done || lia.
  - eexists (-1), _. split; [reflexivity|]. split_and!; done || lia.
Qed.
Next Obligation.
  intros [[w|] own] _; eexists; (split; [reflexivity|]); done.
Qed.

Definition ex_stream : SocketStream wire :=
  mkSocketStream (Some (Wire [str "ab"; str "cde"; str "f"] [] 2 true)) true.

Lemma fix_size_transfers_witness :
  ∃ r d s', readFixSize 4 ex_stream = Ret (r, d) s' ∧ st_in ex_stream = d ++ st_in s' ∧
    (r = 4 ∧ Z.of_nat (length d) = 4 ∨ r ≤ 0 ∧ Z.of_nat (length d) < 4).
Proof.
  destruct (fix_size_transfers 4 (str "xyz") ex_stream) as [(r&d&s'&Hr&_&_&Hi&Hd) _]; [exact I|lia|reflexivity|].
  exists r, d, s'. split; [exact Hr|]. split; [exact Hi|exact Hd].
Defined.

Example fix_size_example :
  (match readFixSize 4 ex_stream with Ret (r, d) s => (r, d, st_in s) | _ => (0, [], []) end,
   match writeFixSize (str "xyz") ex_stream with Ret r s => (r, st_out s) | _ => (0, []) end) =
  ((4, str "abcd", str "ef"), (3, str "xyz")).
Proof. reflexivity. Qed.
