(* ===== verification/StreamArray.v ===== *)
(** * Streams on a ByteArray (megalo/stream.cc, megalo/socket_stream.cc)

    The overloads of [read], [write], [readFixSize] and [writeFixSize] that
    move data between a stream and the nodes of a [ByteArray] without a buffer in between.
    The array is shared with the caller: the state is the stream with it.
    The socket fills and takes lists of buffers ([SocketVec]); what it promises
    about them is that they are worth their concatenation. *)
From S2P Require Import Prelude Bytes ByteArray Stream.

Class SocketVec (K : Type) := {
  sk_recv_vec : list Z → M K (Z * bytes);     (* the lengths of the buffers *)
  sk_send_vec : list bytes → M K Z
}.
Class SocketVecLaws (K : Type) `{SocketOps K} `{SocketVec K} := {
  law_recv_vec l k : l ≠ [] → sk_recv_vec l k = sk_recv (foldr Z.add 0 l) k;
  law_send_vec l k : l ≠ [] → sk_send_vec l k = sk_send (concat l) k
}.

(** ** The memory behind a list of buffers *)

(** [memcpy(cur->ptr + off, c, length c)] into node [i]. *)
Definition copy_to (i : nat) (off : Z) (c : bytes) : M ByteArray () := λ b,
  match m_nodes b !! i with
  | None => Crash NullDeref
  | Some n =>
      if off + Z.of_nat (length c) <=? Z.of_nat (length (n_ptr n)) then
        Ret () (set_nodes (<[i := Node (splice (Z.to_nat off) c (n_ptr n)) (n_size n)]> (m_nodes b)) b)
      else Crash OutOfBounds
  end.
(** Received bytes fill the buffers in order. *)
Fixpoint scatter (iovs : list iovec) (d : bytes) : M ByteArray () :=
  match iovs with
  | [] => mret ()
  | v :: iovs =>
      copy_to (iov_node v) (iov_off v) (take (Z.to_nat (iov_len v)) d);;
      scatter iovs (drop (Z.to_nat (iov_len v)) d)
  end.
(** The contents of the buffers. *)
Fixpoint gather (iovs : list iovec) : M ByteArray (list bytes) :=
  match iovs with
  | [] => mret []
  | v :: iovs =>
      nodes ← gets m_nodes;
      n ← deref (nodes !! iov_node v);
      c ← copy_out n (iov_off v) (iov_len v);
      l ← gather iovs;
      mret (c :: l)
  end.

Section stream_array.
Context {K : Type} `{SocketOps K} `{SocketVec K} (heap_bytes : nat → nat → byte).

Record endpoint := mkEndpoint { e_stream : SocketStream K; e_array : ByteArray }.

Definition on_stream {A} (m : M (SocketStream K) A) : M endpoint A := λ s,
  match m (e_stream s) with
  | Ret a t => Ret a (mkEndpoint t (e_array s))
  | Throw e t => Throw e (mkEndpoint t (e_array s))
  | Crash f => Crash f
  end.
Definition on_array {A} (m : M ByteArray A) : M endpoint A := λ s,
  match m (e_array s) with
  | Ret a b => Ret a (mkEndpoint (e_stream s) b)
  | Throw e b => Throw e (mkEndpoint (e_stream s) b)
  | Crash f => Crash f
  end.

(** [&iovs[0]] of an empty vector is undefined. *)
Definition first_of (iovs : list iovec) : M endpoint () :=
  match iovs with [] => crash OutOfBounds | _ => mret tt end.
Definition move_position (rt : Z) : M endpoint () :=
  if 0 <? rt then p ← on_array (gets m_position); on_array (setPosition (u64 (p + rt))) else mret tt.

(** [SocketStream::read(ba, length)] and [write(ba, length)]. *)
Definition ba_read (length_ : Z) : M endpoint Z :=
  b ← on_stream (gets isConnected);
  if negb b then mret (-1) else
  r ← on_array (getWriteBuffers heap_bytes length_);
  first_of r.2;;
  d ← on_stream (on_socket (sk_recv_vec (map iov_len r.2)));
  on_array (scatter r.2 d.2);;
  move_position d.1;;
  mret d.1.
Definition ba_write (length_ : Z) : M endpoint Z :=
  b ← on_stream (gets isConnected);
  if negb b then mret (-1) else
  r ← on_array (getReadBuffers length_);
  first_of r.2;;
  l ← on_array (gather r.2);
  rt ← on_stream (on_socket (sk_send_vec l));
  move_position rt;;
  mret rt.

(** The loops of [Stream]; every round that goes on moves a byte. *)
Fixpoint fix_loop (step : Z → M endpoint Z) (fuel : nat) (left : Z) : M endpoint (option Z) :=
  if left <=? 0 then mret None else
  match fuel with
  | 0%nat => crash Diverges
  | S fuel =>
      len ← step left;
      if len <=? 0 then mret (Some len) else fix_loop step fuel (left - len)
  end.
Definition fix_size (step : Z → M endpoint Z) (length_ : Z) : M endpoint Z :=
  let left := i64 length_ in
  r ← fix_loop step (Z.to_nat left) left;
  mret (match r with Some len => i32 len | None => i32 length_ end).
Definition ba_readFixSize : Z → M endpoint Z := fix_size ba_read.
Definition ba_writeFixSize : Z → M endpoint Z := fix_size ba_write.
End stream_array.
Arguments endpoint K : clear implicits.

(** ** What scattering and gathering do *)

Lemma iov_addrs_cons base v iovs p n : 0 < iov_len v → iov_addrs base (v :: iovs) = seqZ p n →
  base * Z.of_nat (iov_node v) + iov_off v = p ∧ iov_len v ≤ n ∧ iov_addrs base iovs = seqZ (p + iov_len v) (n - iov_len v).
Proof.
  intros Hl Ha. unfold iov_addrs in Ha. cbn [map concat] in Ha.
  assert (iov_len v ≤ n) as Hn.
  { apply (f_equal length) in Ha. rewrite length_app, !length_seqZ in Ha. lia. }
  replace n with (iov_len v + (n - iov_len v)) in Ha by lia. rewrite seqZ_app in Ha by lia.
  apply app_inj_1 in Ha as [Hh Ht]; [|by rewrite !length_seqZ].
  split; [|split; [done|exact Ht]].
  rewrite (seqZ_cons (base * _ + _)), (seqZ_cons p) in Hh by lia. by injection Hh.
Qed.

Lemma copy_to_spec b i off c : shape b → (i < length (m_nodes b))%nat → 0 ≤ off → off + Z.of_nat (length c) ≤ m_baseSize b →
  ∃ b', copy_to i off c b = Ret () b' ∧ shape b' ∧ view b' = splice (Z.to_nat (m_baseSize b * Z.of_nat i + off)) c (view b) ∧
    length (m_nodes b') = length (m_nodes b) ∧ b' = set_nodes (m_nodes b') b.
Proof.
  intros [Hb Hns Hroot Hcap Hl] Hi Ho Hc. destruct (lookup_lt_is_Some_2 _ _ Hi) as [n Hn].
  destruct (Forall_lookup_1 _ _ _ _ Hns Hn) as [Hln Hsn]. unfold copy_to. rewrite Hn, Hln.
  destruct (Z.leb_spec (off + Z.of_nat (length c)) (Z.of_nat (Z.to_nat (m_baseSize b)))); [|lia].
  eexists. split; [reflexivity|]. assert (length (<[i := Node (splice (Z.to_nat off) c (n_ptr n)) (n_size n)]> (m_nodes b)) = length (m_nodes b)) as Hlen by apply length_insert.
  split; [|split; [|split; [exact Hlen|done]]].
  - split; cbn; rewrite ?Hlen; try done. apply Forall_insert; [done|]. split; simpl; [|done]. rewrite length_splice; lia.
  - unfold view. cbn. rewrite list_fmap_insert. simpl. rewrite (splice_concat_blocks (Z.to_nat (m_baseSize b))).
    + f_equal. lia.
    + by apply blocks_all_length.
    + by rewrite list_lookup_fmap, Hn.
    + lia.
Qed.

Lemma scatter_spec iovs : ∀ b d p n, shape b → iov_addrs (m_baseSize b) iovs = seqZ p n → Forall (iov_ok b) iovs → 0 ≤ p →
  Z.of_nat (length d) ≤ n → p + n ≤ m_capacity b →
  ∃ b', scatter iovs d b = Ret () b' ∧ shape b' ∧ view b' = splice (Z.to_nat p) d (view b) ∧ b' = set_nodes (m_nodes b') b.
Proof.
  induction iovs as [|v iovs IH]; intros b d p n Hsh Ha Hok Hp Hd Hcap.
  { assert (d = []) as ->.
    { apply (f_equal length) in Ha. rewrite length_seqZ in Ha. simpl in Ha. destruct d; [done|simpl in Hd; lia]. }
    exists b. rewrite splice_nil. split_and!; try done. by destruct b. }
  apply Forall_cons in Hok as [(Hnode&Hoff&Hlen&Hfit) Hok]. destruct (iov_addrs_cons _ _ _ _ _ Hlen Ha) as (Hstart&Hn&Hrest).
  set (k := Z.to_nat (iov_len v)).
  destruct (copy_to_spec b (iov_node v) (iov_off v) (take k d) Hsh Hnode Hoff) as (b1&H1&Hsh1&Hv1&Hl1&He1).
  { rewrite length_take. lia. }
  destruct (IH b1 (drop k d) (p + iov_len v) (n - iov_len v)) as (b2&H2&Hsh2&Hv2&He2); [done| | |lia| | |].
  - rewrite He1. exact Hrest.
  - rewrite He1. eapply Forall_impl; [exact Hok|]. intros w (?&?&?&?). split; [|by rewrite He1 || done]. cbn. by rewrite Hl1.
  - rewrite length_drop. lia.
  - rewrite He1. cbn. lia.
  - exists b2. cbn [scatter]. mstep H1. split; [exact H2|]. split; [done|]. split; [|rewrite He2, He1; done].
    rewrite Hv2, Hv1, Hstart. destruct (decide (k ≤ length d)%nat) as [Hk|Hk].
    + assert (Z.to_nat (p + iov_len v) = Z.to_nat p + length (take k d))%nat as -> by (rewrite length_take; lia).
      rewrite splice_app, take_drop; [done|]. rewrite length_view by done. lia.
    + rewrite drop_ge, splice_nil, take_ge by lia. done.
Qed.

Lemma gather_spec iovs : ∀ b p n, shape b → iov_addrs (m_baseSize b) iovs = seqZ p n → Forall (iov_ok b) iovs → 0 ≤ p → 0 ≤ n →
  ∃ l, gather iovs b = Ret l b ∧ concat l = slice (Z.to_nat p) (Z.to_nat n) (view b) ∧ (iovs ≠ [] → l ≠ []).
Proof.
  induction iovs as [|v iovs IH]; intros b p n Hsh Ha Hok Hp Hn.
  { exists []. split; [done|]. split; [|done]. apply (f_equal length) in Ha. rewrite length_seqZ in Ha. simpl in Ha. by rewrite <- Ha, slice_0. }
  apply Forall_cons in Hok as [(Hnode&Hoff&Hlen&Hfit) Hok]. destruct (iov_addrs_cons _ _ _ _ _ Hlen Ha) as (Hstart&Hle&Hrest).
  destruct (lookup_lt_is_Some_2 _ _ Hnode) as [nd Hnd].
  destruct (IH b (p + iov_len v) (n - iov_len v)) as (l&Hl&Hc&_); [done..|lia|lia|].
  eexists (_ :: l). cbn [gather]. rewrite bind_gets, Hnd. cbn [deref]. rewrite bind_mret.
  mstep (copy_out_spec (m_baseSize b) (m_nodes b) (iov_node v) nd (iov_off v) (iov_len v) b (sh_nodes _ Hsh) Hnd Hoff ltac:(lia) Hfit).
  mstep Hl. split; [reflexivity|]. split; [|done]. cbn [concat]. rewrite Hc, Hstart. unfold view.
  replace (Z.to_nat (p + iov_len v)) with (Z.to_nat p + Z.to_nat (iov_len v))%nat by lia. rewrite slice_app. f_equal. lia.
Qed.

Lemma iov_addrs_fit iovs : ∀ b p n, shape b → iov_addrs (m_baseSize b) iovs = seqZ p n → Forall (iov_ok b) iovs → 0 < n →
  p + n ≤ m_capacity b.
Proof.
  induction iovs as [|v iovs IH]; intros b p n Hsh Ha Hok Hn.
  { apply (f_equal length) in Ha. rewrite length_seqZ in Ha. simpl in Ha. lia. }
  pose proof Hsh as [Hb Hns Hroot Hcap Hl].
  apply Forall_cons in Hok as [(Hnode&Hoff&Hlen&Hfit) Hok]. destruct (iov_addrs_cons _ _ _ _ _ Hlen Ha) as (Hstart&Hle&Hrest).
  destruct (decide (n = iov_len v)) as [->|Hne]; [nia|]. pose proof (IH b (p + iov_len v) (n - iov_len v) Hsh Hrest Hok ltac:(lia)). lia.
Qed.
Lemma iov_sum base iovs : ∀ p n, iov_addrs base iovs = seqZ p n → Forall (λ v, 0 < iov_len v) iovs → 0 ≤ n →
  foldr Z.add 0 (map iov_len iovs) = n.
Proof.
  induction iovs as [|v iovs IH]; intros p n Ha Hok Hn.
  { apply (f_equal length) in Ha. rewrite length_seqZ in Ha. simpl in *. lia. }
  apply Forall_cons in Hok as [Hlen Hok]. destruct (iov_addrs_cons _ _ _ _ _ Hlen Ha) as (_&Hle&Hrest).
  cbn [map foldr]. rewrite (IH (p + iov_len v) (n - iov_len v)) by (done || lia). lia.
Qed.
Lemma iov_nonempty base iovs p n : iov_addrs base iovs = seqZ p n → 0 < n → iovs ≠ [].
Proof. intros Ha Hn ->. apply (f_equal length) in Ha. rewrite length_seqZ in Ha. simpl in Ha. lia. Qed.

(** The array after [d] has been put in at its position. *)
Definition took (b : ByteArray) (d : bytes) (b' : ByteArray) : Prop :=
  m_position b' = m_position b + Z.of_nat (length d) ∧ data b' = splice (Z.to_nat (m_position b)) d (data b) ∧ same_frame b b'.

Lemma took_nil b : took b [] b.
Proof. unfold took, same_frame. simpl. rewrite splice_nil. repeat split; lia. Qed.
Lemma took_app b1 l1 b2 l2 b3 : wf b1 → took b1 l1 b2 → took b2 l2 b3 → took b1 (l1 ++ l2) b3.
Proof.
  intros Hwf1 (Hp1&Hd1&[Hb1 He1]) (Hp2&Hd2&[Hb2 He2]). pose proof (wf_pos _ Hwf1).
  unfold took, same_frame. rewrite length_app. rewrite Hp1 in *. split; [lia|]. split; [|split; congruence].
  rewrite Hd2, Hd1, Z2Nat.inj_add, Nat2Z.id by lia. apply splice_app. rewrite length_data by done. lia.
Qed.

(** The position after a transfer of [rt] bytes. *)
Lemma receive_spec b iovs n d : wf b → iov_addrs (m_baseSize b) iovs = seqZ (m_position b) n → Forall (iov_ok b) iovs → 0 < n →
  Z.of_nat (length d) ≤ n → m_position b + n < LIMIT →
  ∃ b1 b2, scatter iovs d b = Ret () b1 ∧ m_position b1 = m_position b ∧
    (if 0 <? Z.of_nat (length d) then setPosition (u64 (m_position b + Z.of_nat (length d))) b1 else Ret () b1) = Ret () b2 ∧
    wf b2 ∧ took b d b2.
Proof.
  intros Hwf Ha Hok Hn Hd Hlim. pose proof Hwf as [Hsh Hpos Hsz Hcur]. pose proof (iov_addrs_fit iovs b _ n Hsh Ha Hok Hn) as Hfit.
  destruct (scatter_spec iovs b d (m_position b) n Hsh Ha Hok) as (b1&H1&Hsh1&Hv1&He1); [lia..|].
  assert (wf b1) as Hwf1 by (rewrite He1 in *; by split). exists b1.
  assert (m_position b1 = m_position b ∧ m_size b1 = m_size b ∧ m_capacity b1 = m_capacity b ∧ same_frame b b1) as (Hp1&Hs1&Hc1&[Hb1 He'])
    by (rewrite He1; done).
  destruct (Z.ltb_spec 0 (Z.of_nat (length d))) as [Hd0|Hd0].
  - rewrite LIMIT_u64 by lia.
    destruct (setPosition_spec (m_position b + Z.of_nat (length d)) b1 Hwf1) as (b2&H2&Hwf2&Hp2&Hs2&Hv2&_&[Hb2 He2]); [lia|].
    exists b2. split_and!; try done. unfold took, same_frame. split; [done|]. split; [|split; congruence].
    unfold data. rewrite Hv2, Hv1, Hs2, Hs1.
    replace (Z.to_nat (m_size b `max` (m_position b + Z.of_nat (length d)))) with (Z.to_nat (m_size b) `max` (Z.to_nat (m_position b) + length d))%nat by lia.
    pose proof (length_view b Hsh). apply take_splice; lia.
  - assert (d = []) as -> by (destruct d; [done|simpl in Hd0; lia]). exists b1. split_and!; try done.
    unfold took, same_frame. simpl. rewrite Hp1, splice_nil. split; [lia|]. split; [|done]. unfold data. by rewrite Hv1, splice_nil, Hs1.
Qed.

Section equivalence.
Context {K : Type} `{SocketOps K} `{!StreamLaws (SocketStream K)} `{SocketVec K} `{!SocketVecLaws K} (h : nat → nat → byte).
Implicit Types (t : SocketStream K) (b : ByteArray).

Lemma on_socket_ext {A} (m m' : M K A) t : (∀ k, m k = m' k) → on_socket m t = on_socket m' t.
Proof. intros Hm. unfold on_socket. destruct (m_socket t); [by rewrite Hm|done]. Qed.

(** Reading into the array is reading and writing to the array. *)
Lemma ba_read_spec n t b : st_ok t → wf b → 0 < n → m_position b + n + m_baseSize b < LIMIT → ∃ r d t' b',
  st_read n t = Ret (r, d) t' ∧ ba_read h n (mkEndpoint t b) = Ret r (mkEndpoint t' b') ∧ st_ok t' ∧ wf b' ∧ took b d b' ∧
  Z.of_nat (length d) = Z.max 0 r ∧ r ≤ n.
Proof.
  intros Hst Hwf Hn Hlim. pose proof (sh_base _ (wf_shape _ Hwf)) as Hbase.
  destruct (law_read n t Hst Hn) as (r&d&t'&Hr&Hst'&_&_&Hd&Hrn&_). exists r, d, t'.
  destruct (isConnected t) eqn:Hcon.
  - destruct (getWriteBuffers_spec h n b Hwf) as (b1&iovs&H1&Hwf1&[Hb1 He1]&Hp1&Hd1&Ha&Hok); [lia|done|].
    rewrite <- Hb1, <- Hp1 in Ha. destruct (receive_spec b1 iovs n d Hwf1 Ha Hok Hn) as (b2&b3&H2&Hp2&H3&Hwf3&Ht3); [lia|rewrite Hp1; lia|].
    exists b3. split; [done|]. split; [|split; [done|split; [done|split; [|done]]]].
    + unfold ba_read. rewrite (bind_ret _ _ _ true (mkEndpoint t b)) by (unfold on_stream, gets; cbn; by rewrite Hcon). cbn [negb].
      rewrite (bind_ret _ _ _ (n, iovs) (mkEndpoint t b1)) by (unfold on_array; cbn [e_array]; by rewrite H1). cbn [fst snd].
      assert (iovs ≠ []) as Hne by (by apply (iov_nonempty _ _ _ _ Ha)).
      rewrite (bind_ret _ _ _ tt (mkEndpoint t b1)) by (by destruct iovs).
      rewrite (bind_ret _ _ _ (r, d) (mkEndpoint t' b1)).
      2: { unfold on_stream. cbn [e_stream]. rewrite (on_socket_ext _ (sk_recv n)).
           - cbn in Hr. unfold ss_read in Hr. rewrite bind_gets, Hcon in Hr. cbn [negb] in Hr. by rewrite Hr.
           - intros k. rewrite law_recv_vec by (by destruct iovs). rewrite (iov_sum _ _ _ _ Ha) by
               (lia || (eapply Forall_impl; [exact Hok|]; intros v (_&_&Hv&_); exact Hv)). done. }
      rewrite (bind_ret _ _ _ tt (mkEndpoint t' b2)) by (unfold on_array; cbn [e_array fst snd]; by rewrite H2). cbn [fst snd].
      unfold move_position. rewrite Hd in H3. destruct (Z.ltb_spec 0 r) as [Hr0|Hr0].
      * rewrite Z.max_r in H3 by lia. rewrite (proj2 (Z.ltb_lt 0 r)) in H3 by lia. rewrite bind_assoc.
        rewrite (bind_ret _ _ _ (m_position b2) (mkEndpoint t' b2)) by done. rewrite Hp2.
        rewrite (bind_ret _ _ _ tt (mkEndpoint t' b3)) by (unfold on_array; cbn [e_array]; by rewrite H3). done.
      * rewrite Z.max_l in H3 by lia. injection H3 as <-. by rewrite bind_mret.
    + destruct Ht3 as (Hp3&Hd3&[Hb3 He3]). unfold took, same_frame. rewrite Hp3, Hd3, Hp1, Hd1, Hb3, He3, Hb1, He1. done.
  - assert (r = -1 ∧ d = [] ∧ t' = t) as (->&->&->).
    { cbn in Hr. unfold ss_read in Hr. rewrite bind_gets, Hcon in Hr. by injection Hr as <- <- <-. }
    exists b. split; [done|]. split; [|split; [done|split; [done|split; [apply took_nil|split; [done|lia]]]]].
    unfold ba_read. rewrite (bind_ret _ _ _ false (mkEndpoint t b)) by (unfold on_stream, gets; cbn; by rewrite Hcon). done.
Qed.

Lemma read_loops n : ∀ left t b acc, (Z.to_nat left ≤ n)%nat → st_ok t → wf b → m_position b + Z.max 0 left + m_baseSize b < LIMIT →
  ∃ o d t' b', read_loop n acc left t = Ret (o, acc ++ d) t' ∧
    fix_loop (ba_read h) n left (mkEndpoint t b) = Ret o (mkEndpoint t' b') ∧ wf b' ∧ took b d b'.
Proof.
  induction n as [|n IH]; intros left t b acc Hf Hst Hwf Hlim; cbn [Stream.read_loop fix_loop];
    (destruct (Z.leb_spec left 0) as [Hl|Hl]; [exists None, [], t, b; rewrite app_nil_r; split_and!; [done..|apply took_nil]|]); [lia|].
  destruct (ba_read_spec left t b Hst Hwf Hl) as (r&d&t1&b1&Hr&Hba&Hst1&Hwf1&Ht1&Hd&Hrn); [lia|]. mstep Hr. mstep Hba. cbn [fst snd].
  destruct (Z.leb_spec r 0) as [Hr0|Hr0].
  - assert (d = []) as -> by (destruct d; [done|simpl in Hd; lia]). exists (Some r), [], t1, b1. by rewrite app_nil_r.
  - pose proof Ht1 as (Hp1&_&[Hb1 _]). destruct (IH (left - r) t1 b1 (acc ++ d)) as (o&d'&t2&b2&H1&H2&Hwf2&Ht2); [lia|done|done|rewrite Hp1, Hb1; lia|].
    exists o, (d ++ d'), t2, b2. rewrite H1, app_assoc. split_and!; [done..|]. by apply (took_app b d b1).
Qed.
(** The array after [k] bytes have been taken out at its position. *)
Definition gave (b : ByteArray) (k : Z) (b' : ByteArray) : Prop :=
  m_position b' = m_position b + k ∧ data b' = data b ∧ m_size b' = m_size b ∧ same_frame b b'.

Lemma slice_data b p n : 0 ≤ p → p + n ≤ m_size b → slice (Z.to_nat p) (Z.to_nat n) (view b) = slice (Z.to_nat p) (Z.to_nat n) (data b).
Proof.
  intros Hp Hn. unfold data, slice. rewrite skipn_firstn_comm, take_take. f_equal. lia.
Qed.

(** Writing from the array is writing what the array reads. *)
Lemma ba_write_spec n t b : st_ok t → wf b → 0 < n → n ≤ m_size b - m_position b → ∃ r t' b',
  st_write (slice (Z.to_nat (m_position b)) (Z.to_nat n) (data b)) t = Ret r t' ∧
  ba_write n (mkEndpoint t b) = Ret r (mkEndpoint t' b') ∧ st_ok t' ∧ wf b' ∧ gave b (Z.max 0 r) b' ∧ r ≤ n.
Proof.
  intros Hst Hwf Hn Hle. pose proof Hwf as [Hsh Hpos Hsz _]. set (buf := slice _ _ _).
  assert (length buf = Z.to_nat n) as Hlen by (unfold buf; rewrite length_slice; [done|rewrite length_data by done; lia]).
  destruct (law_write buf t Hst) as (r&t'&Hr&Hst'&_&_&Hrl&_); [intros Hb; rewrite Hb in Hlen; simpl in Hlen; lia|]. exists r, t'.
  assert (gave b 0 b) as Hstay by (unfold gave, same_frame; split_and!; done || lia).
  destruct (isConnected t) eqn:Hcon.
  - destruct (getReadBuffers_spec n b Hwf) as (iovs&H1&Ha&Hok); [lia|]. rewrite Z.min_l in H1, Ha by lia.
    destruct (gather_spec iovs b _ _ Hsh Ha Hok) as (l&H2&Hl&Hne); [lia..|]. rewrite slice_data in Hl by lia. fold buf in Hl.
    pose proof (iov_nonempty _ _ _ _ Ha Hn) as Hiovs.
    assert (∃ b', (if 0 <? r then setPosition (u64 (m_position b + r)) b else Ret () b) = Ret () b' ∧ wf b' ∧ gave b (Z.max 0 r) b') as (b'&Hset&Hwf'&Hg).
    { destruct (Z.ltb_spec 0 r) as [Hr0|Hr0]; [|exists b; rewrite Z.max_l by lia; done]. rewrite Z.max_r by lia.
      pose proof (sh_limit _ Hsh). rewrite LIMIT_u64 by lia.
      destruct (setPosition_spec (m_position b + r) b Hwf) as (b'&Hs&Hwf'&Hp'&Hs'&Hv'&_&Hf'); [lia|]. exists b'. split; [done|]. split; [done|].
      unfold gave. split; [done|]. split; [unfold data; rewrite Hv', Hs'; f_equal; lia|]. split; [lia|done]. }
    exists b'. split; [done|]. split; [|split; [done|split; [done|split; [done|lia]]]].
    unfold ba_write. rewrite (bind_ret _ _ _ true (mkEndpoint t b)) by (unfold on_stream, gets; cbn; by rewrite Hcon). cbn [negb].
    rewrite (bind_ret _ _ _ (n, iovs) (mkEndpoint t b)) by (unfold on_array; cbn [e_array]; by rewrite H1). cbn [fst snd].
    rewrite (bind_ret _ _ _ tt (mkEndpoint t b)) by (by destruct iovs).
    rewrite (bind_ret _ _ _ l (mkEndpoint t b)) by (unfold on_array; cbn [e_array]; by rewrite H2).
    rewrite (bind_ret _ _ _ r (mkEndpoint t' b)).
    2: { unfold on_stream. cbn [e_stream]. rewrite (on_socket_ext _ (sk_send buf)).
         - cbn in Hr. unfold ss_write in Hr. rewrite bind_gets, Hcon in Hr. cbn [negb] in Hr. by rewrite Hr.
         - intros k. rewrite law_send_vec by auto. by rewrite Hl. }
    unfold move_position. destruct (0 <? r); [|injection Hset as <-; by rewrite bind_mret].
    rewrite bind_assoc. rewrite (bind_ret _ _ _ (m_position b) (mkEndpoint t' b)) by done.
    by rewrite (bind_ret _ _ _ tt (mkEndpoint t' b')) by (unfold on_array; cbn [e_array]; by rewrite Hset).
  - assert (r = -1 ∧ t' = t) as [-> ->].
    { cbn in Hr. unfold ss_write in Hr. rewrite bind_gets, Hcon in Hr. by injection Hr as <- <-. }
    exists b. split; [done|]. split; [|split; [done|split; [done|split; [done|lia]]]].
    unfold ba_write. rewrite (bind_ret _ _ _ false (mkEndpoint t b)) by (unfold on_stream, gets; cbn; by rewrite Hcon). done.
Qed.

Lemma write_loops n : ∀ left t b, (Z.to_nat left ≤ n)%nat → st_ok t → wf b → 0 ≤ left → left ≤ m_size b - m_position b →
  ∃ o k t' b', write_loop n (slice (Z.to_nat (m_position b)) (Z.to_nat left) (data b)) t = Ret o t' ∧
    fix_loop ba_write n left (mkEndpoint t b) = Ret o (mkEndpoint t' b') ∧ wf b' ∧ gave b k b' ∧
    0 ≤ k ∧ (o = None → k = left).
Proof.
  induction n as [|n IH]; intros left t b Hf Hst Hwf H0' Hle.
  { assert (left = 0) as -> by lia. exists None, 0, t, b. rewrite slice_0. cbn. unfold gave, same_frame. split_and!; done || lia. }
  destruct (decide (left = 0)) as [->|Hne].
  { exists None, 0, t, b. rewrite slice_0. cbn. unfold gave, same_frame. split_and!; done || lia. }
  pose proof Hwf as [Hsh Hpos Hsz _]. set (buf := slice _ _ _).
  assert (length buf = Z.to_nat left) as Hlen by (unfold buf; rewrite length_slice; [done|rewrite length_data by done; lia]).
  destruct (ba_write_spec left t b Hst Hwf) as (r&t1&b1&Hr&Hba&Hst1&Hwf1&Hg1&Hrn); [lia..|]. fold buf in Hr.
  cbn [Stream.write_loop fix_loop]. destruct (Z.leb_spec left 0); [lia|]. mstep Hba.
  assert (write_loop (S n) buf t = (len ← st_write buf; if len <=? 0 then mret (Some len) else write_loop n (drop (Z.to_nat len) buf)) t) as Hstep.
  { destruct buf; [simpl in Hlen; lia|done]. }
  change (match buf with [] => _ | _ => _ end t) with (write_loop (S n) buf t). rewrite Hstep. mstep Hr.
  destruct (Z.leb_spec r 0) as [Hr0|Hr0].
  { exists (Some r), (Z.max 0 r), t1, b1. split_and!; done || lia. }
  rewrite Z.max_r in Hg1 by lia. destruct Hg1 as (Hp1&Hd1&Hs1&Hf1).
  destruct (IH (left - r) t1 b1) as (o&k&t2&b2&H1'&H2'&Hwf2&(Hp2&Hd2&Hs2&Hf2)&Hk&Ho); [lia|done|done|lia|lia|].
  assert (slice (Z.to_nat (m_position b1)) (Z.to_nat (left - r)) (data b1) = drop (Z.to_nat r) buf) as Hb.
  { unfold buf, slice. rewrite Hd1, Hp1, skipn_firstn_comm, drop_drop. f_equal; [lia|f_equal; lia]. }
  rewrite Hb in H1'. exists o, (r + k), t2, b2. split; [done|]. split; [done|]. split; [done|]. split.
  - unfold gave, same_frame in *. split; [lia|]. split; [congruence|]. split; [congruence|]. destruct Hf1, Hf2. split; congruence.
  - split; [lia|]. intros Hn. specialize (Ho Hn). lia.
Qed.

End equivalence.

(** ** Addresses of a stream *)

Section addresses.
Context {K A : Type} `{SocketOps K} (toString : A → bytes) (sk_getRemoteAddress sk_getLocalAddress : M K A).

Definition getRemoteAddress : M (SocketStream K) (option A) :=
  k ← gets m_socket;
  if bool_decide (is_Some (const tt <$> k)) then a ← on_socket sk_getRemoteAddress; mret (Some a) else mret None.
Definition getLocalAddress : M (SocketStream K) (option A) :=
  k ← gets m_socket;
  if bool_decide (is_Some (const tt <$> k)) then a ← on_socket sk_getLocalAddress; mret (Some a) else mret None.
Definition getRemoteAddressString : M (SocketStream K) bytes :=
  a ← getRemoteAddress; mret (match a with Some a => toString a | None => [] end).
Definition getLocalAddressString : M (SocketStream K) bytes :=
  a ← getLocalAddress; mret (match a with Some a => toString a | None => [] end).
End addresses.

(** ** A wire with lists of buffers *)

#[global] Instance wire_vec : SocketVec wire := {
  sk_recv_vec l := sk_recv (foldr Z.add 0 l);
  sk_send_vec l := sk_send (concat l)
}.
#[global] Instance wire_vec_laws : SocketVecLaws wire.
Proof. by split. Qed.

Definition ex_array : ByteArray :=
  match write zero_heap (str "hello") (make zero_heap 4) with Ret _ b => b | _ => make zero_heap 4 end.


(** Across the nodes of the array, in both directions. *)
Example array_transfer_runs :
  (match ba_readFixSize zero_heap 5 (mkEndpoint ex_stream (make zero_heap 2)) with
   | Ret r s => (r, data (e_array s), m_position (e_array s)) | _ => (0, [], 0) end,
   match (setPosition 1 ex_array) with
   | Ret _ b => match ba_writeFixSize 4 (mkEndpoint ex_stream b) with
                | Ret r s => (r, st_out (e_stream s), m_position (e_array s)) | _ => (0, [], 0) end
   | _ => (0, [], 0) end) =
  ((5, str "abcde", 5), (4, str "ello", 5)).
Proof. vm_compute. reflexivity. Qed.

(** [writeFixSize] of more than the array holds does not stop at its end: it
    goes on with an empty list of buffers and takes the address of its first element. *)
Example write_beyond_the_array :
  ba_writeFixSize 6 (mkEndpoint ex_stream (match setPosition 0 ex_array with Ret _ b => b | _ => ex_array end)) = Crash OutOfBounds.
Proof. vm_compute. reflexivity. Qed.
