(* ===== verification/Socket.v ===== *)
(** * Sockets (megalo/socket.h, megalo/socket.cc)

    The methods of a [Socket] run on the object and on the thread of [Hook]:
    every system call they make is the hooked one.  The calls that the hooks
    do not know, and the original functions the hooked ones take, are in
    [NetOps].  Buffers are on the side of the kernel: [n_buffer] is what the
    last receiving call wrote.  [fuel] bounds the retries of a blocking call.
    An address object passed in is taken by value. *)
From S2P Require Import Prelude Bytes Util Address Hook Stream.

Definition SOCK_STREAM : Z := 1.
Definition SOCK_DGRAM : Z := 2.
Definition SO_REUSEADDR : Z := 2.
Definition SO_ERROR : Z := 4.
Definition IPPROTO_TCP : Z := 6.
Definition TCP_NODELAY : Z := 1.
Definition SOMAXCONN : Z := 4096.

Record Socket := mkSocket {
  m_sock : Z;
  m_family : Z;
  m_type : Z;
  m_protocol : Z;
  m_isConnected : bool;
  m_localAddress : option Address;
  m_remoteAddress : option Address
}.

Class NetOps (E : Type) := {
  n_bind : Z → Address → M E (Z * Z);
  n_listen : Z → Z → M E (Z * Z);
  n_accept : Z → M E (Z * Z);
  n_connect : Z → Address → M E (Z * Z);
  (* the structure handed over, as the call leaves it, and its length *)
  n_getsockname : Z → Address → M E (Z * Z * (Address * Z));
  n_getpeername : Z → Address → M E (Z * Z * (Address * Z));
  n_send : Z → bytes → Z → M E (Z * Z);
  n_sendto : Z → bytes → Z → Address → M E (Z * Z);
  n_sendmsg : Z → list bytes → option Address → Z → M E (Z * Z);
  n_recv : Z → Z → Z → M E (Z * Z);
  n_recvfrom : Z → Z → Z → Address → M E (Z * Z);
  n_recvmsg : Z → list Z → option Address → Z → M E (Z * Z);
  n_buffer : E → bytes;
  n_cancelEvent : Z → Z → M E bool
}.

(** The object and the thread that runs its method. *)
Record on_sock (E : Type) := OnSock { s_obj : Socket; s_thr : thread E }.
Arguments OnSock {E}. Arguments s_obj {E}. Arguments s_thr {E}.

Section socket.
Context (host : byte_order) {E : Type} `{KernelOps E} `{WaitOps E} `{NetOps E}.
Abbreviation ST := (on_sock E).

Definition thr {A} (m : M (thread E) A) : M ST A := λ s,
  match m (s_thr s) with
  | Ret a t => Ret a (OnSock (s_obj s) t)
  | Throw x t => Throw x (OnSock (s_obj s) t)
  | Crash f => Crash f
  end.
(** A method of another object on the same thread. *)
Definition with_obj {A} (o : Socket) (m : M ST A) : M ST (A * Socket) := λ s,
  match m (OnSock o (s_thr s)) with
  | Ret a s' => Ret (a, s_obj s') (OnSock (s_obj s) (s_thr s'))
  | Throw x s' => Throw x (OnSock (s_obj s) (s_thr s'))
  | Crash f => Crash f
  end.
Definition obj {A} (f : Socket → A) : M ST A := gets (λ s, f (s_obj s)).
Definition update (f : Socket → Socket) : M ST () := modify (λ s, OnSock (f (s_obj s)) (s_thr s)).

Definition set_sock (v : Z) (o : Socket) : Socket :=
  mkSocket v (m_family o) (m_type o) (m_protocol o) (m_isConnected o) (m_localAddress o) (m_remoteAddress o).
Definition set_connected (v : bool) (o : Socket) : Socket :=
  mkSocket (m_sock o) (m_family o) (m_type o) (m_protocol o) v (m_localAddress o) (m_remoteAddress o).
Definition set_local (v : option Address) (o : Socket) : Socket :=
  mkSocket (m_sock o) (m_family o) (m_type o) (m_protocol o) (m_isConnected o) v (m_remoteAddress o).
Definition set_remote (v : option Address) (o : Socket) : Socket :=
  mkSocket (m_sock o) (m_family o) (m_type o) (m_protocol o) (m_isConnected o) (m_localAddress o) v.

Definition new_Socket (family type protocol : Z) : Socket := mkSocket (-1) family type protocol false None None.

(** ** Options *)

Definition getOption (level option : Z) : M ST (bool * Z) :=
  s ← obj m_sock;
  r ← thr (getsockopt s level option);
  mret (r.1 =? 0, r.2).
Definition setOption (level option : Z) (tv : Z * Z) (value : bytes) : M ST bool :=
  s ← obj m_sock;
  r ← thr (setsockopt s level option tv value);
  mret (r =? 0).
Definition setOption_int (level option value : Z) : M ST bool := setOption level option (0, 0) (mem_of host 4 value).
Definition setOption_tv (level option : Z) (tv : Z * Z) : M ST bool :=
  setOption level option tv (mem_of host 8 tv.1 ++ mem_of host 8 tv.2).

Definition get_timeout (type : Z) : M ST Z :=
  s ← obj m_sock;
  ctx ← thr (FdManager_get s false);
  match ctx with Some c => mret (i64 (getTimeout type c)) | None => mret (-1) end.
Definition getSendTimeout : M ST Z := get_timeout SO_SNDTIMEO.
Definition getRecvTimeout : M ST Z := get_timeout SO_RCVTIMEO.

(** [struct timeval tv{int(v / 1000), int(v % 1000 * 1000)}]. *)
Definition timeval_of (v : Z) : Z * Z := (i32 (v `quot` 1000), i32 ((v `rem` 1000) * 1000)).
Definition setSendTimeout (v : Z) : M ST () := _ ← setOption_tv SOL_SOCKET SO_SNDTIMEO (timeval_of v); mret tt.
Definition setRecvTimeout (v : Z) : M ST () := _ ← setOption_tv SOL_SOCKET SO_RCVTIMEO (timeval_of v); mret tt.

Definition isValid : M ST bool := obj (λ o, negb (m_sock o =? -1)).

Definition initSock : M ST () :=
  _ ← setOption_int SOL_SOCKET SO_REUSEADDR 1;
  t ← obj m_type;
  if t =? SOCK_STREAM then _ ← setOption_int IPPROTO_TCP TCP_NODELAY 1; mret tt else mret tt.

Definition newSock : M ST () :=
  o ← obj id;
  fd ← thr (Hook.socket (m_family o) (m_type o) (m_protocol o));
  update (set_sock fd);;
  if negb (fd =? -1) then initSock else mret tt.

(** ** Addresses *)

Definition blank (family : Z) : Address :=
  if family =? AF_INET then IPv4Address (new_IPv4Address host 0 0)
  else if family =? AF_INET6 then IPv6Address new_IPv6Address
  else if family =? AF_UNIX then new_UnixAddress
  else UnknownAddress (new_UnknownAddress family).

Definition ask_name (fn : Z → Address → M E (Z * Z * (Address * Z))) : M ST (option Address) :=
  o ← obj id;
  r ← thr (on_env (fn (m_sock o) (blank (m_family o))));
  (if r.1.1 =? -1 then thr (set_errno r.1.2) else mret tt);;
  mret (if negb (r.1.1 =? 0) then None
        else Some (if m_family o =? AF_UNIX then setAddrLen r.2.2 r.2.1 else r.2.1)).

Definition getRemoteAddress : M ST Address :=
  o ← obj id;
  match m_remoteAddress o with
  | Some a => mret a
  | None =>
      r ← ask_name n_getpeername;
      match r with
      | None => mret (UnknownAddress (new_UnknownAddress (m_family o)))
      | Some a => update (set_remote (Some a));; mret a
      end
  end.
Definition getLocalAddress : M ST Address :=
  o ← obj id;
  match m_localAddress o with
  | Some a => mret a
  | None =>
      r ← ask_name n_getsockname;
      match r with
      | None => mret (UnknownAddress (new_UnknownAddress (m_family o)))
      | Some a => update (set_local (Some a));; mret a
      end
  end.

(** ** Life *)

Definition close : M ST bool :=
  o ← obj id;
  if negb (m_isConnected o) && (m_sock o =? -1) then mret true else
  update (set_connected false);;
  (if negb (m_sock o =? -1) then _ ← thr (Hook.close (m_sock o)); update (set_sock (-1)) else mret tt);;
  mret false.

Definition init (sock : Z) : M ST bool :=
  ctx ← thr (FdManager_get sock false);
  match ctx with
  | Some c =>
      if m_isSocket c && negb (m_isClosed c) then
        update (set_sock sock);; update (set_connected true);;
        initSock;; _ ← getLocalAddress; _ ← getRemoteAddress; mret true
      else mret false
  | None => mret false
  end.

(** The result of [::accept] on the descriptor [fd]. *)
Definition accepted (newsock : Z) : M ST (option Socket) :=
  o ← obj id;
  if newsock =? -1 then mret None else
  r ← with_obj (new_Socket (m_family o) (m_type o) (m_protocol o)) (init newsock);
  mret (if (r.1 : bool) then Some r.2 else None).
Definition accept (fuel : nat) : M ST (option Socket) :=
  fd ← obj m_sock;
  newsock ← thr (Hook.accept fuel fd (n_accept fd));
  accepted newsock.

(** The first lines of [bind] and [connect]: is there a descriptor, now? *)
Definition ensure : M ST bool :=
  v ← isValid; if (v : bool) then mret true else newSock;; isValid.

Definition bind (addr : Address) : M ST bool :=
  v ← ensure;
  if negb (v : bool) then mret false else
  o ← obj id;
  if negb (getFamily addr =? m_family o) then mret false else
  r ← thr (call (n_bind (m_sock o) addr));
  if negb (r =? 0) then mret false else
  _ ← getLocalAddress; mret true.

Definition connect (addr : Address) (timeout_ms : Z) : M ST bool :=
  update (set_remote (Some addr));;
  v ← ensure;
  if negb (v : bool) then mret false else
  o ← obj id;
  if negb (getFamily addr =? m_family o) then mret false else
  r ← thr (if timeout_ms =? no_timeout then Hook.connect (m_sock o) (n_connect (m_sock o) addr)
           else connect_with_timeout (m_sock o) (n_connect (m_sock o) addr) timeout_ms);
  if negb (r =? 0) then _ ← close; mret false else
  update (set_connected true);;
  _ ← getRemoteAddress; _ ← getLocalAddress; mret true.

Definition reconnect (timeout_ms : Z) : M ST bool :=
  o ← obj id;
  match m_remoteAddress o with
  | None => mret false
  | Some a => update (set_local None);; connect a timeout_ms
  end.

Definition listen (backlog : Z) : M ST bool :=
  o ← obj id;
  if m_sock o =? -1 then mret false else
  r ← thr (call (n_listen (m_sock o) backlog)); mret (r =? 0).

(** ** Transfer: an [int] is made of the [ssize_t] of the call *)

Definition if_connected (m : Z → M (thread E) Z) : M ST Z :=
  o ← obj id;
  if m_isConnected o then r ← thr (m (m_sock o)); mret (i32 r) else mret (-1).

Definition send (fuel : nat) (buffer : bytes) (flags : Z) : M ST Z :=
  if_connected (λ s, hooked_write fuel s (n_send s buffer flags)).
Definition send_vec (fuel : nat) (buffers : list bytes) (flags : Z) : M ST Z :=
  if_connected (λ s, hooked_write fuel s (n_sendmsg s buffers None flags)).
Definition sendTo (fuel : nat) (buffer : bytes) (to : Address) (flags : Z) : M ST Z :=
  if_connected (λ s, hooked_write fuel s (n_sendto s buffer flags to)).
Definition sendTo_vec (fuel : nat) (buffers : list bytes) (to : Address) (flags : Z) : M ST Z :=
  if_connected (λ s, hooked_write fuel s (n_sendmsg s buffers (Some to) flags)).
Definition recv (fuel : nat) (length_ flags : Z) : M ST Z :=
  if_connected (λ s, hooked_read fuel s (n_recv s length_ flags)).
Definition recv_vec (fuel : nat) (buffers : list Z) (flags : Z) : M ST Z :=
  if_connected (λ s, hooked_read fuel s (n_recvmsg s buffers None flags)).
Definition recvFrom (fuel : nat) (length_ : Z) (from : Address) (flags : Z) : M ST Z :=
  if_connected (λ s, hooked_read fuel s (n_recvfrom s length_ flags from)).
Definition recvFrom_vec (fuel : nat) (buffers : list Z) (from : Address) (flags : Z) : M ST Z :=
  if_connected (λ s, hooked_read fuel s (n_recvmsg s buffers (Some from) flags)).

Definition getError : M ST Z :=
  r ← getOption SOL_SOCKET SO_ERROR;
  if (r.1 : bool) then mret r.2 else thr (gets t_errno).

(** ** Cancelling, printing, construction *)

Definition cancelEvent (event : Z) : M ST bool :=
  p ← gets (λ s, io_present (t_env (s_thr s)));
  if negb (p : bool) then crash NullDeref else
  fd ← obj m_sock; thr (on_env (n_cancelEvent fd event)).
Definition cancelRead : M ST bool := cancelEvent READ.
Definition cancelWrite : M ST bool := cancelEvent WRITE.
Definition cancelAccept : M ST bool := cancelEvent READ.
Definition cancelAll : M ST bool :=
  p ← gets (λ s, io_present (t_env (s_thr s)));
  if negb (p : bool) then crash NullDeref else
  fd ← obj m_sock; thr (on_env (io_cancelAll fd)).

Definition dump_address (label : bytes) (a : option Address) : M ST bytes :=
  match a with
  | Some a => t ← toString host a; mret (label ++ t)
  | None => mret []
  end.
Definition dump : M ST bytes :=
  o ← obj id;
  l ← dump_address (str " local_address=") (m_localAddress o);
  r ← dump_address (str " remote_address=") (m_remoteAddress o);
  mret (str "[Socket sock=" ++ show_Z (m_sock o) ++
        str " is_connected=" ++ (if m_isConnected o then str "1" else str "0") ++
        str " family=" ++ show_Z (m_family o) ++ str " type=" ++ show_Z (m_type o) ++
        str " protocol=" ++ show_Z (m_protocol o) ++ l ++ r ++ str "]").

Definition CreateTCP (address : Address) : Socket := new_Socket (getFamily address) SOCK_STREAM 0.
Definition CreateTCPSocket : Socket := new_Socket AF_INET SOCK_STREAM 0.
Definition CreateTCPSocket6 : Socket := new_Socket AF_INET6 SOCK_STREAM 0.
Definition CreateUnixTCPSocket : Socket := new_Socket AF_UNIX SOCK_STREAM 0.
Definition CreateUnixUDPSocket : Socket := new_Socket AF_UNIX SOCK_DGRAM 0.
(** The rest of a UDP constructor, on the new object. *)
Definition create_udp : M ST () := newSock;; update (set_connected true).
Definition CreateUDP (address : Address) : M ST ((() * Socket)) :=
  with_obj (new_Socket (getFamily address) SOCK_DGRAM 0) create_udp.
Definition CreateUDPSocket : M ST (() * Socket) := with_obj (new_Socket AF_INET SOCK_DGRAM 0) create_udp.
Definition CreateUDPSocket6 : M ST (() * Socket) := with_obj (new_Socket AF_INET6 SOCK_DGRAM 0) create_udp.

(** [Socket::~Socket]. *)
Definition delete_Socket : M ST () := _ ← close; mret tt.

(** [SocketStream] over a [Socket]. *)
#[global] Instance socket_ops (fuel : nat) : SocketOps ST := {
  sk_isConnected s := m_isConnected (s_obj s);
  sk_recv n := r ← recv fuel n 0; b ← gets (λ s, n_buffer (t_env (s_thr s))); mret (r, take (Z.to_nat r) b);
  sk_send b := send fuel b 0;
  sk_close := _ ← close; mret tt
}.
End socket.

(** ** Reasoning about the object

    [ht P m Q]: when the object satisfies [P] and [m] returns [r], the object
    satisfies [Q r] afterwards, whatever happens to the thread. *)
Section triples.
Context {host : byte_order} {E : Type} `{KernelOps E} `{WaitOps E} `{NetOps E}.
Abbreviation ST := (on_sock E).

Definition ht {A} (P : Socket → Prop) (m : M ST A) (Q : A → Socket → Prop) : Prop :=
  ∀ s r s', P (s_obj s) → m s = Ret r s' → Q r (s_obj s').

Lemma ht_mret {A} P (a : A) : ht P (mret a) (λ r o, r = a ∧ P o).
Proof. by intros s r s' HP [= <- <-]. Qed.
Lemma ht_bind {A B} P (m : M ST A) (k : A → M ST B) R Q :
  ht P m R → (∀ a, ht (R a) (k a) Q) → ht P (m ≫= k) Q.
Proof. intros Hm Hk s r s' HP Hr. apply bind_Ret_inv in Hr as (a&s1&Hr1&Hr2). by eapply Hk; [eapply Hm|]. Qed.
Lemma ht_thr {A} P (m : M (thread E) A) : ht P (thr m) (λ _, P).
Proof. intros s r s' HP. unfold thr. destruct (m (s_thr s)); [|done..]. by intros [= <- <-]. Qed.
Lemma ht_obj {A} P (f : Socket → A) : ht P (obj f) (λ r o, P o ∧ r = f o).
Proof. by intros s r s' HP [= <- <-]. Qed.
Lemma ht_gets {A} P (f : ST → A) : ht P (gets f) (λ _, P).
Proof. by intros s r s' HP [= <- <-]. Qed.
Lemma ht_update (P Q : Socket → Prop) f : (∀ o, P o → Q (f o)) → ht P (update f) (λ _, Q).
Proof. intros Hf s r s' HP [= <- <-]. by apply Hf. Qed.
Lemma ht_crash {A} P f (Q : A → Socket → Prop) : ht P (crash f) Q.
Proof. by intros s r s' _. Qed.
Lemma ht_with_obj {A} P (o : Socket) (m : M ST A) Q :
  ht (λ o', o' = o) m Q → ht P (with_obj o m) (λ r o', Q r.1 r.2 ∧ P o').
Proof.
  intros Hm s r s' HP. unfold with_obj. destruct (m _) as [a s1|x s1|f] eqn:Em; [|done..]. intros [= <- <-].
  split; [|done]. by eapply (Hm (OnSock o (s_thr s))).
Qed.
Lemma ht_conseq {A} (P P' : Socket → Prop) (m : M ST A) (Q Q' : A → Socket → Prop) :
  ht P' m Q' → (∀ o, P o → P' o) → (∀ r o, Q' r o → Q r o) → ht P m Q.
Proof. intros Hm HP HQ s r s' HPs Hr. by eapply HQ, Hm; [apply HP|]. Qed.
Lemma ht_post {A} (P : Socket → Prop) (m : M ST A) (Q Q' : A → Socket → Prop) :
  ht P m Q' → (∀ r o, Q' r o → Q r o) → ht P m Q.
Proof. intros Hm HQ s r s' HPs Hr. by eapply HQ, Hm. Qed.
(** Facts about the object before a step. *)
Lemma ht_pure {A} (P : Socket → Prop) (φ : Prop) (m : M ST A) Q : (φ → ht P m Q) → ht (λ o, P o ∧ φ) m Q.
Proof. intros Hm s r s' [HP Hφ]. by apply Hm. Qed.
Lemma ht_at {A} (P : Socket → Prop) (m : M ST A) Q :
  (∀ o, P o → ht (λ o', o' = o) m Q) → ht P m Q.
Proof. intros Hm s r s' HP. by eapply (Hm (s_obj s)). Qed.

(** What may happen to the object of [m]: a thread operation. *)
Definition idle {A} (m : M ST A) : Prop := ∀ P, ht P m (λ _, P).
Lemma idle_thr {A} (m : M (thread E) A) : idle (thr m).
Proof. intros P. apply ht_thr. Qed.
Lemma idle_mret {A} (a : A) : idle (mret a).
Proof. by intros P s r s' HP [= _ <-]. Qed.
Lemma idle_obj {A} (f : Socket → A) : idle (obj f).
Proof. by intros P s r s' HP [= _ <-]. Qed.
Lemma idle_bind {A B} (m : M ST A) (k : A → M ST B) : idle m → (∀ a, idle (k a)) → idle (m ≫= k).
Proof. intros Hm Hk P. eapply ht_bind; [apply Hm|]. intros a. apply Hk. Qed.
Lemma idle_if {A} (b : bool) (m m' : M ST A) : idle m → idle m' → idle (if b then m else m').
Proof. by destruct b. Qed.
End triples.

Create HintDb idle discriminated.
#[export] Hint Resolve idle_thr idle_mret idle_obj idle_bind idle_if : idle.

Section socket_facts.
Context {host : byte_order} {E : Type} `{KernelOps E} `{WaitOps E} `{NetOps E}.
Abbreviation ST := (on_sock E).

Lemma idle_setOption level option tv value : idle (setOption level option tv value : M ST bool).
Proof. unfold setOption. eauto 8 with idle. Qed.
#[local] Hint Resolve idle_setOption : idle.
Lemma idle_initSock : idle (initSock host : M ST ()).
Proof. unfold initSock, setOption_int. eauto 12 with idle. Qed.
Lemma idle_if_connected m : idle (if_connected m : M ST Z).
Proof. unfold if_connected. apply idle_bind; [apply idle_obj|]. intros o. eauto 8 with idle. Qed.

Lemma idle_cancelAll : idle (cancelAll : M ST bool).
Proof.
  intros P. unfold cancelAll. eapply ht_bind; [apply ht_gets|]. intros p. destruct (negb p); [apply ht_crash|].
  assert (idle (fd ← obj m_sock; thr (on_env (io_cancelAll fd)) : M ST bool)) as Hi by eauto with idle. apply Hi.
Qed.
Lemma newSock_ht o0 : ht (λ o, o = o0) (newSock host : M ST ()) (λ _ o, ∃ fd, o = set_sock fd o0).
Proof.
  unfold newSock. eapply ht_bind; [apply ht_obj|]. intros o.
  eapply ht_bind; [apply ht_thr|]. intros fd. eapply ht_bind.
  - apply (ht_update _ (λ o', ∃ fd, o' = set_sock fd o0)). intros o' [-> _]. by exists fd.
  - intros []. destruct (negb (fd =? -1)); [apply idle_initSock|apply idle_mret].
Qed.

Lemma idle_ask_name fn : idle (ask_name host fn : M ST (option Address)).
Proof.
  unfold ask_name. apply idle_bind; [apply idle_obj|]. intros o. apply idle_bind; [apply idle_thr|]. intros r.
  eauto with idle.
Qed.
Lemma getLocalAddress_ht o0 : ht (λ o, o = o0) (getLocalAddress host : M ST Address)
  (λ r o, o = o0 ∧ (m_localAddress o0 = Some r ∨ m_localAddress o0 = None) ∨
          m_localAddress o0 = None ∧ o = set_local (Some r) o0).
Proof.
  unfold getLocalAddress. eapply ht_bind; [apply ht_obj|]. intros o. apply ht_at. intros o1 [-> ->]. simpl.
  destruct (m_localAddress o0) as [a|] eqn:Ea.
  - eapply ht_post; [apply ht_mret|]. intros r o [-> ->]. left. by split; [|left].
  - eapply ht_bind; [apply idle_ask_name|]. intros [a|].
    + eapply ht_bind; [apply (ht_update _ (λ o', o' = set_local (Some a) o0)); by intros ? ->|].
      intros []. eapply ht_post; [apply ht_mret|]. intros r o [-> ->]. by right.
    + eapply ht_post; [apply ht_mret|]. intros r o [-> ->]. left. by split; [|right].
Qed.
Lemma getRemoteAddress_ht o0 : ht (λ o, o = o0) (getRemoteAddress host : M ST Address)
  (λ r o, o = o0 ∧ (m_remoteAddress o0 = Some r ∨ m_remoteAddress o0 = None) ∨
          m_remoteAddress o0 = None ∧ o = set_remote (Some r) o0).
Proof.
  unfold getRemoteAddress. eapply ht_bind; [apply ht_obj|]. intros o. apply ht_at. intros o1 [-> ->]. simpl.
  destruct (m_remoteAddress o0) as [a|] eqn:Ea.
  - eapply ht_post; [apply ht_mret|]. intros r o [-> ->]. left. by split; [|left].
  - eapply ht_bind; [apply idle_ask_name|]. intros [a|].
    + eapply ht_bind; [apply (ht_update _ (λ o', o' = set_remote (Some a) o0)); by intros ? ->|].
      intros []. eapply ht_post; [apply ht_mret|]. intros r o [-> ->]. by right.
    + eapply ht_post; [apply ht_mret|]. intros r o [-> ->]. left. by split; [|right].
Qed.

(** ** What each method does to the object *)

Definition kind (o : Socket) : Z * Z * Z := (m_family o, m_type o, m_protocol o).
Definition closed (o : Socket) : Socket := set_sock (-1) (set_connected false o).

Lemma close_ht o0 : ht (λ o, o = o0) (close : M ST bool)
  (λ r o, o = closed o0 ∧ r = negb (m_isConnected o0) && (m_sock o0 =? -1)).
Proof.
  unfold close. eapply ht_bind; [apply ht_obj|]. intros o. apply ht_at. intros o1 [-> ->]. unfold id.
  destruct o0 as [fd fam ty pr con loc rem]. simpl.
  destruct (negb con && (fd =? -1)) eqn:Eb.
  - apply andb_true_iff in Eb as [->%negb_true_iff ->%Z.eqb_eq].
    eapply ht_post; [apply ht_mret|]. by intros r o [-> ->].
  - eapply ht_bind; [apply (ht_update _ (λ o, o = mkSocket fd fam ty pr false loc rem)); by intros ? ->|]. intros [].
    eapply (ht_bind _ _ _ (λ _ o, o = mkSocket (-1) fam ty pr false loc rem));
      [|intros []; eapply ht_post; [apply ht_mret|by intros r o [-> Ho]]].
    destruct (Z.eqb_spec fd (-1)) as [->|Hfd]; simpl.
    + eapply ht_post; [apply ht_mret|]. by intros r o [_ ->].
    + eapply ht_bind; [apply ht_thr|]. intros r. apply ht_update. by intros ? ->.
Qed.

Lemma ensure_ht o0 : ht (λ o, o = o0) (ensure host : M ST bool)
  (λ r o, r = negb (m_sock o =? -1) ∧ (o = o0 ∧ m_sock o0 ≠ -1 ∨ m_sock o0 = -1 ∧ ∃ fd, o = set_sock fd o0)).
Proof.
  unfold ensure, isValid. eapply ht_bind; [apply ht_obj|]. intros v. apply ht_at. intros o1 [-> ->].
  destruct (Z.eqb_spec (m_sock o0) (-1)) as [He|He]; simpl.
  - eapply ht_bind; [apply newSock_ht|]. intros []. eapply ht_post; [apply ht_obj|].
    intros r o [[fd ->] ->]. split; [done|]. right. split; [done|]. by exists fd.
  - eapply ht_post; [apply ht_mret|]. intros r o [-> ->]. rewrite (proj2 (Z.eqb_neq _ _)) by done.
    split; [done|]. by left.
Qed.

(** What [bind] and [connect] keep of the object. *)
Definition grown (o o' : Socket) : Prop :=
  kind o' = kind o ∧ (m_sock o ≠ -1 → m_sock o' = m_sock o) ∧
  (∀ a, m_localAddress o = Some a → m_localAddress o' = Some a).
Lemma grown_refl o : grown o o.
Proof. done. Qed.
Lemma grown_sock o fd : m_sock o = -1 → grown o (set_sock fd o).
Proof. done. Qed.
Lemma grown_local o o' a : grown o o' → m_localAddress o' = None → grown o (set_local (Some a) o').
Proof.
  intros (Hk&Hs&Hl) Hn. split; [done|]. split; [done|]. intros b Hb. apply Hl in Hb. congruence.
Qed.

Lemma bind_ht addr o0 : ht (λ o, o = o0) (bind host addr : M ST bool)
  (λ r o, grown o0 o ∧ m_isConnected o = m_isConnected o0 ∧ m_remoteAddress o = m_remoteAddress o0 ∧
          (r = true → m_sock o ≠ -1 ∧ getFamily addr = m_family o0)).
Proof.
  unfold bind. eapply ht_bind; [apply ensure_ht|]. intros v. apply ht_at. intros o1 [-> Ho].
  assert (grown o0 o1 ∧ m_isConnected o1 = m_isConnected o0 ∧ m_remoteAddress o1 = m_remoteAddress o0 ∧
    m_family o1 = m_family o0) as (Hg&Hc&Hr&Hf).
  { destruct Ho as [[-> _]|[He [fd ->]]]; [done|]. by split; [apply grown_sock|]. }
  destruct (Z.eqb_spec (m_sock o1) (-1)) as [|Hv]; simpl.
  { eapply ht_post; [apply ht_mret|]. by intros r o [-> ->]. }
  eapply ht_bind; [apply ht_obj|]. intros o. apply ht_at. intros o2 [-> ->]. unfold id.
  destruct (Z.eqb_spec (getFamily addr) (m_family o1)) as [Ha|]; simpl.
  2: { eapply ht_post; [apply ht_mret|]. by intros r o [-> ->]. }
  eapply ht_bind; [apply ht_thr|]. intros r. destruct (negb (r =? 0)).
  { eapply ht_post; [apply ht_mret|]. by intros r' o [-> ->]. }
  eapply ht_bind; [apply getLocalAddress_ht|]. intros a. eapply ht_post; [apply ht_mret|].
  intros r' o [-> [[-> _]|[Hn ->]]]; (split; [first [exact Hg|by apply grown_local]|]);
    (split; [done|]); (split; [done|]); intros _; (split; [done|]); congruence.
Qed.

Lemma getRemote_known o0 a : m_remoteAddress o0 = Some a →
  ht (λ o, o = o0) (getRemoteAddress host : M ST Address) (λ _ o, o = o0).
Proof.
  intros Ha. eapply ht_post; [apply getRemoteAddress_ht|]. intros r o [[-> _]|[Hn _]]; [done|congruence].
Qed.

Lemma connect_ht addr to o0 : ht (λ o, o = o0) (connect host addr to : M ST bool)
  (λ r o, kind o = kind o0 ∧ m_remoteAddress o = Some addr ∧
    (∀ a, m_localAddress o0 = Some a → m_localAddress o = Some a) ∧
    if (r : bool)
    then m_isConnected o = true ∧ m_sock o ≠ -1 ∧ getFamily addr = m_family o0
    else m_sock o = -1 ∧ (m_sock o0 ≠ -1 → m_isConnected o = false) ∧ (m_isConnected o = true → m_isConnected o0 = true) ∨
         m_sock o ≠ -1 ∧ m_isConnected o = m_isConnected o0 ∧ getFamily addr ≠ m_family o0).
Proof.
  unfold connect. eapply ht_bind.
  { apply (ht_update _ (λ o, o = set_remote (Some addr) o0)). by intros ? ->. }
  intros []. eapply ht_bind; [apply ensure_ht|]. intros v. apply ht_at. intros o1 [-> Ho].
  assert (grown o0 o1 ∧ m_isConnected o1 = m_isConnected o0 ∧ m_remoteAddress o1 = Some addr ∧
    m_family o1 = m_family o0 ∧ (m_sock o1 = -1 → m_sock o0 = -1)) as (Hg&Hc&Hr&Hf&Hs).
  { destruct Ho as [[-> Hs]|[He [fd ->]]]; [done|].
    split; [split; [done|]; split; [by intros []|done]|]. done. }
  destruct Hg as (Hk&Hsk&Hl).
  destruct (Z.eqb_spec (m_sock o1) (-1)) as [Hv|Hv]; simpl.
  { eapply ht_post; [apply ht_mret|]. intros r o [-> ->]. split_and!; try done. left. split_and!; [done| |congruence].
    intros Hne. by rewrite Hs in Hne. }
  eapply ht_bind; [apply ht_obj|]. intros o. apply ht_at. intros o2 [-> ->]. unfold id.
  destruct (Z.eqb_spec (getFamily addr) (m_family o1)) as [Ha|Ha]; simpl.
  2: { eapply ht_post; [apply ht_mret|]. intros r o [-> ->]. split_and!; try done. right. split_and!; [done..|]. congruence. }
  eapply ht_bind; [apply ht_thr|]. intros r. destruct (negb (r =? 0)).
  { eapply ht_bind; [apply close_ht|]. intros c. apply ht_at. intros o3 [-> _].
    eapply ht_post; [apply ht_mret|]. intros r' o [-> ->]. split_and!; try done. by left. }
  eapply ht_bind.
  { apply (ht_update _ (λ o, o = set_connected true o1)). by intros ? ->. }
  intros []. eapply ht_bind; [by eapply getRemote_known|]. intros a.
  eapply ht_bind; [apply getLocalAddress_ht|]. intros b. eapply ht_post; [apply ht_mret|].
  intros r' o [-> [[-> _]|[Hn ->]]]; split_and!; try done; try congruence.
  intros a' Ha'. apply Hl in Ha'. simpl in Hn. congruence.
Qed.

Lemma init_ht sock o0 : ht (λ o, o = o0) (init host sock : M ST bool)
  (λ r o, kind o = kind o0 ∧ if (r : bool) then m_isConnected o = true ∧ m_sock o = sock ∧ sock ≠ -1 else o = o0).
Proof.
  unfold init. destruct (Z.eqb_spec sock (-1)) as [->|Hs].
  { intros s r s' Hs Hr. apply bind_Ret_inv in Hr as (c&s1&Hc&Hr). unfold thr, FdManager_get in Hc.
    simpl in Hc. injection Hc as <- <-. injection Hr as <- <-. split; [by rewrite <- Hs|exact Hs]. }
  eapply ht_bind; [apply ht_thr|]. intros [c|].
  2: { eapply ht_post; [apply ht_mret|]. by intros r o [-> ->]. }
  destruct (m_isSocket c && negb (m_isClosed c)).
  2: { eapply ht_post; [apply ht_mret|]. by intros r o [-> ->]. }
  eapply ht_bind; [apply (ht_update _ (λ o, o = set_sock sock o0)); by intros ? ->|]. intros [].
  eapply ht_bind; [apply (ht_update _ (λ o, o = set_connected true (set_sock sock o0))); by intros ? ->|]. intros [].
  eapply ht_bind; [apply idle_initSock|]. intros [].
  eapply ht_bind; [apply getLocalAddress_ht|]. intros a. apply ht_at. intros o1 Ho1.
  eapply ht_bind; [apply getRemoteAddress_ht|]. intros b. eapply ht_post; [apply ht_mret|].
  intros r o [-> Ho].
  assert (kind o1 = kind o0 ∧ m_isConnected o1 = true ∧ m_sock o1 = sock) as (Hk&Hc&Hf)
    by (by destruct Ho1 as [[-> _]|[_ ->]]).
  by destruct Ho as [[-> _]|[_ ->]].
Qed.

Lemma accepted_ht newsock o0 : ht (λ o, o = o0) (accepted host newsock : M ST (option Socket))
  (λ r o, o = o0 ∧ ∀ c, r = Some c → kind c = kind o0 ∧ m_isConnected c = true ∧ m_sock c = newsock ∧ newsock ≠ -1).
Proof.
  unfold accepted. eapply ht_bind; [apply ht_obj|]. intros o. apply ht_at. intros o1 [-> ->]. unfold id.
  destruct (newsock =? -1); [eapply ht_post; [apply ht_mret|]; by intros r o [-> ->]|].
  eapply ht_bind; [apply ht_with_obj, init_ht|]. intros [b c]. apply ht_at. simpl. intros o2 [Hc ->].
  eapply ht_post; [apply ht_mret|]. intros r o [-> ->]. split; [done|]. destruct b; [|done].
  intros c' [= <-]. by destruct Hc as (?&?&?&?).
Qed.

Lemma accept_ht fuel o0 : ht (λ o, o = o0) (accept host fuel : M ST (option Socket))
  (λ r o, o = o0 ∧ ∀ c, r = Some c → kind c = kind o0 ∧ m_isConnected c = true ∧ m_sock c ≠ -1).
Proof.
  unfold accept. eapply ht_bind; [apply ht_obj|]. intros fd. apply ht_at. intros o1 [-> ->].
  eapply ht_bind; [apply ht_thr|]. intros n. eapply ht_post; [apply accepted_ht|].
  intros r o [-> Hc]. split; [done|]. intros c Hr. destruct (Hc c Hr) as (?&?&->&?). done.
Qed.

Lemma idle_listen n : idle (listen n : M ST bool).
Proof.
  unfold listen. apply idle_bind; [apply idle_obj|]. intros o.
  destruct (m_sock o =? -1); [apply idle_mret|]. apply idle_bind; [apply idle_thr|]. intros r. apply idle_mret.
Qed.

(** ** The life of a socket *)

Inductive method : ∀ A, M ST A → Prop :=
  | m_bind addr : method _ (bind host addr)
  | m_connect addr to : method _ (connect host addr to)
  | m_reconnect to : method _ (reconnect host to)
  | m_listen n : method _ (listen n)
  | m_close : method _ close
  | m_accept fuel : method _ (accept host fuel)
  | m_local : method _ (getLocalAddress host)
  | m_remote : method _ (getRemoteAddress host)
  | m_setOption level option tv value : method _ (setOption level option tv value)
  | m_transfer m : method _ (if_connected m).

(** A socket some calls of its methods lead to, from its construction or from the
    [accept] of another; the threads that make the calls may change in between. *)
Inductive reachable : Socket → Prop :=
  | reach_new family type protocol : reachable (new_Socket family type protocol)
  | reach_accepted fuel s c s' : reachable (s_obj s) → accept host fuel s = Ret (Some c) s' → reachable c
  | reach_call A (m : M ST A) s r s' : reachable (s_obj s) → method A m → m s = Ret r s' → reachable (s_obj s').

Definition sound (o : Socket) : Prop := m_isConnected o = true → m_sock o ≠ -1.

Lemma connect_sound addr to o0 : sound o0 → ht (λ o, o = o0) (connect host addr to : M ST bool) (λ _, sound).
Proof.
  intros Hs. eapply ht_post; [apply connect_ht|]. intros [|] o (_&_&_&Ho); unfold sound in *; [tauto|].
  destruct Ho as [(He&Hc1&Hc2)|(Hne&_)]; [|tauto]. intros Hc. destruct (decide (m_sock o0 = -1)) as [Hz|Hz].
  - by destruct (Hs (Hc2 Hc)).
  - by rewrite Hc1 in Hc.
Qed.

Lemma method_sound A (m : M ST A) : method A m → ∀ o0, sound o0 → ht (λ o, o = o0) m (λ _, sound).
Proof.
  intros [addr|addr to|to|n| |fuel| | |level option tv value|m'] o0 Hs.
  - eapply ht_post; [apply bind_ht|]. intros r o ((_&Hsk&_)&Hc&_&_). unfold sound. rewrite Hc. intros Ht.
    rewrite Hsk; by apply Hs.
  - by apply connect_sound.
  - unfold reconnect. eapply ht_bind; [apply ht_obj|]. intros o. apply ht_at. intros o1 [-> ->]. unfold id.
    destruct (m_remoteAddress o0) as [a|].
    + eapply ht_bind; [apply (ht_update _ (λ o, o = set_local None o0)); by intros ? ->|]. intros [].
      by apply connect_sound.
    + eapply ht_post; [apply ht_mret|]. by intros r o [_ ->].
  - eapply ht_post; [apply idle_listen|]. by intros r o ->.
  - eapply ht_post; [apply close_ht|]. by intros r o [-> _].
  - eapply ht_post; [apply accept_ht|]. by intros r o [-> _].
  - eapply ht_post; [apply getLocalAddress_ht|]. by intros r o [[-> _]|[_ ->]].
  - eapply ht_post; [apply getRemoteAddress_ht|]. by intros r o [[-> _]|[_ ->]].
  - eapply ht_post; [apply idle_setOption|]. by intros r o ->.
  - eapply ht_post; [apply idle_if_connected|]. by intros r o ->.
Qed.

Lemma reachable_sound o : reachable o → sound o.
Proof.
  induction 1 as [| fuel s c s' _ IH Hr|A m s r s' _ IH Hm Hr]; [done| |].
  - destruct (accept_ht fuel (s_obj s) s _ _ eq_refl Hr) as [_ Hc]. destruct (Hc c eq_refl) as (_&_&Hne). by intros _.
  - by apply (method_sound A m Hm (s_obj s) IH s r s').
Qed.


(** The outcome of [connect] on any socket: when it answers [true] the socket
    is connected, has a descriptor of the family of the address, and the remote
    address is the one given; when it answers [false] either the socket has no
    descriptor and is not connected any more, or the family differs, and then
    nothing but the remote address and a new descriptor changed.  A local address
    known before stays. *)
Theorem connect_outcome addr to (s : ST) r s' (Hs : reachable (s_obj s)) (Hr : connect host addr to s = Ret r s') :
  let o := s_obj s in let o' := s_obj s' in
  kind o' = kind o ∧ m_remoteAddress o' = Some addr ∧
  (∀ a, m_localAddress o = Some a → m_localAddress o' = Some a) ∧
  if (r : bool) then m_isConnected o' = true ∧ m_sock o' ≠ -1 ∧ getFamily addr = m_family o
  else m_sock o' = -1 ∧ m_isConnected o' = false ∨
       m_sock o' ≠ -1 ∧ m_isConnected o' = m_isConnected o ∧ getFamily addr ≠ m_family o.
Proof.
  intros o o'. destruct (connect_ht addr to o s r s' eq_refl Hr) as (Hk&Hre&Hl&Ho). split_and!; [done..|].
  destruct r; [done|]. destruct Ho as [(He&H2&H3)|Ho]; [left|by right]. split; [done|].
  destruct (m_isConnected (s_obj s')) eqn:Ec; [|done]. pose proof (H2 (reachable_sound _ Hs (H3 eq_refl))) as Hbad. discriminate Hbad.
Qed.
End socket_facts.

(** ** Timeouts *)

Lemma timeval_ms v : signed_in 64 v →
  let tv := timeval_of v in
  i64 (u64 (i64 (tv.1 * 1000 + tv.2 `quot` 1000))) = i32 (v `quot` 1000) * 1000 + v `rem` 1000.
Proof.
  intros Hv tv. unfold tv, timeval_of. simpl.
  pose proof (Z.rem_bound_abs v 1000 ltac:(lia)).
  assert (i32 ((v `rem` 1000) * 1000) = (v `rem` 1000) * 1000) as ->.
  { apply swrap_id; [lia|]. unfold signed_in. lia. }
  rewrite Z.quot_mul by lia. pose proof (swrap_range 32 (v `quot` 1000) ltac:(lia)) as Hr.
  assert (signed_in 64 (i32 (v `quot` 1000) * 1000 + v `rem` 1000)) as Hs by (unfold signed_in in *; lia).
  rewrite swrap_wrap by lia. rewrite (swrap_id 64 _ ltac:(lia) Hs). by apply swrap_id; [lia|].
Qed.

Section timeouts.
Context {host : byte_order} {E : Type} `{KernelOps E} `{WaitOps E} `{NetOps E}.
Abbreviation ST := (on_sock E).

(** The two timeouts of a socket. *)
Definition set_timeout (type v : Z) : M ST () := if type =? SO_RCVTIMEO then setRecvTimeout host v else setSendTimeout host v.

Lemma get_timeout_eq type (s : ST) c :
  fds_ok (s_thr s) → 0 ≤ m_sock (s_obj s) → fd_lookup (t_fds (s_thr s)) (m_sock (s_obj s)) = Some c →
  get_timeout type s = Ret (i64 (getTimeout type c)) s.
Proof.
  intros Hok Hp Hl. unfold get_timeout, obj. rewrite bind_gets. unfold thr. cbv [mbind M_bind].
  rewrite (get_false _ _ Hok Hp), Hl. by destruct s.
Qed.

Lemma setsockopt_timeout (t : thread E) fd type tv b c r e' :
  t_hook_enable t = true → fds_ok t → 0 ≤ fd → fd_lookup (t_fds t) fd = Some c →
  type = SO_RCVTIMEO ∨ type = SO_SNDTIMEO → k_setsockopt fd SOL_SOCKET type b (t_env t) = Ret r e' →
  setsockopt fd SOL_SOCKET type tv b t =
    Ret r.1 (Thread true (if r.1 =? -1 then r.2 else t_errno t)
      (alter (fmap (setTimeout type (u64 (i64 (tv.1 * 1000 + tv.2 `quot` 1000))))) (Z.to_nat fd) (t_fds t)) e').
Proof.
  intros Hh Hok Hp Hl Htype Hr. unfold setsockopt, is_hook_enable. rewrite bind_gets, Hh, Z.eqb_refl.
  replace ((type =? SO_RCVTIMEO) || (type =? SO_SNDTIMEO)) with true by (by destruct Htype as [->| ->]). cbn [andb].
  rewrite bind_assoc. mstep (get_false fd t Hok Hp). rewrite Hl. unfold on_ctx. rewrite bind_assoc, bind_gets.
  unfold set_fds. rewrite bind_modify, Hh. set (t1 := Thread _ _ _ _). destruct r as [n x].
  by rewrite (call_eq _ t1 n x e' Hr).
Qed.

Lemma getTimeout_set type other v c :
  type = SO_RCVTIMEO ∨ type = SO_SNDTIMEO → other = SO_RCVTIMEO ∨ other = SO_SNDTIMEO →
  getTimeout other (setTimeout type v c) = if other =? type then v else getTimeout other c.
Proof. by intros [->| ->] [->| ->]. Qed.

(** A timeout in milliseconds set on a socket the manager knows is read back
    as it was set as long as its seconds fit in an [int], and otherwise with its
    seconds cut to 32 bits; the timeout of the other direction, and the other
    sockets, keep theirs. *)
Theorem timeout_round_trip (s : ST) type v c
    (Hset : ∀ fd level opt b e, ∃ r e', k_setsockopt fd level opt b e = Ret r e')
    (Hh : t_hook_enable (s_thr s) = true) (Hok : fds_ok (s_thr s)) (Hp : 0 ≤ m_sock (s_obj s))
    (Hl : fd_lookup (t_fds (s_thr s)) (m_sock (s_obj s)) = Some c)
    (Htype : type = SO_RCVTIMEO ∨ type = SO_SNDTIMEO) (Hv : signed_in 64 v) :
  ∃ s', set_timeout type v s = Ret tt s' ∧ s_obj s' = s_obj s ∧
    get_timeout type s' = Ret (i32 (v `quot` 1000) * 1000 + v `rem` 1000) s' ∧
    (signed_in 32 (v `quot` 1000) → get_timeout type s' = Ret v s') ∧
    (∀ other, other ≠ type → other = SO_RCVTIMEO ∨ other = SO_SNDTIMEO →
      get_timeout other s' = Ret (i64 (getTimeout other c)) s') ∧
    ∀ fd, 0 ≤ fd → fd ≠ m_sock (s_obj s) → fd_lookup (t_fds (s_thr s')) fd = fd_lookup (t_fds (s_thr s)) fd.
Proof.
  set (fd := m_sock (s_obj s)) in *. set (tv := timeval_of v).
  destruct (Hset fd SOL_SOCKET type (mem_of host 8 tv.1 ++ mem_of host 8 tv.2) (t_env (s_thr s))) as (r&e'&Hr).
  set (w := i32 (v `quot` 1000) * 1000 + v `rem` 1000).
  pose proof (setsockopt_timeout (s_thr s) fd type tv _ c r e' Hh Hok Hp Hl Htype Hr) as Hcall.
  set (t' := Thread _ _ _ e') in Hcall. exists (OnSock (s_obj s) t').
  assert (∀ fd', 0 ≤ fd' → fd_lookup (t_fds t') fd' =
    if decide (fd' = fd) then Some (setTimeout type (u64 (i64 (tv.1 * 1000 + tv.2 `quot` 1000))) c)
    else fd_lookup (t_fds (s_thr s)) fd') as Hlk.
  { intros fd' Hp'. unfold t'. cbn [t_fds]. rewrite fd_lookup_alter by done. by rewrite Hl. }
  assert (fds_ok t') as Hok' by (unfold fds_ok, t'; cbn [t_fds]; by rewrite length_alter).
  assert (∀ other, get_timeout other (OnSock (s_obj s) t') =
    Ret (i64 (getTimeout other (setTimeout type (u64 (i64 (tv.1 * 1000 + tv.2 `quot` 1000))) c))) (OnSock (s_obj s) t')) as Hget.
  { intros other. apply get_timeout_eq; [done..|]. cbn [s_obj s_thr]. fold fd. by rewrite Hlk, decide_True. }
  assert (get_timeout type (OnSock (s_obj s) t') = Ret w (OnSock (s_obj s) t')) as Hw.
  { rewrite Hget, getTimeout_set, Z.eqb_refl by done. pose proof (timeval_ms v Hv) as Hms. cbv zeta in Hms. fold tv w in Hms. by rewrite Hms. }
  split_and!.
  - assert (setOption_tv host SOL_SOCKET type tv s = Ret (r.1 =? 0) (OnSock (s_obj s) t')) as Hs'.
    { unfold setOption_tv, setOption, obj. rewrite bind_gets. fold fd. unfold thr. cbv [mbind M_bind]. by rewrite Hcall. }
    unfold set_timeout, setRecvTimeout, setSendTimeout. fold tv.
    destruct Htype as [->| ->]; [change (SO_RCVTIMEO =? SO_RCVTIMEO) with true|change (SO_SNDTIMEO =? SO_RCVTIMEO) with false];
      cbv iota; by mstep Hs'.
  - done.
  - exact Hw.
  - intros Hs. rewrite Hw. f_equal. unfold w. rewrite swrap_id by (lia || done). rewrite Z.mul_comm. symmetry. apply Z.quot_rem'.
  - intros other Hne Hother. rewrite Hget, getTimeout_set by done. by rewrite (proj2 (Z.eqb_neq _ _)).
  - intros fd' Hp' Hne. cbn [s_thr]. by rewrite Hlk, decide_False.
Qed.
End timeouts.

(** ** A scripted network

    [Hook.world] with the socket calls: names depend on the descriptor, so that
    one can tell them apart. *)
#[local] Existing Instance world_kernel.
#[local] Existing Instance world_wait.

Definition v4 (port : Z) : Address := IPv4Address (new_IPv4Address MEGALO_LITTLE_ENDIAN 0x7f000001 port).

#[local] Instance world_net : NetOps world := {
  n_bind _ _ := mret (0, 0);
  n_listen _ _ := mret (0, 0);
  n_accept _ := w_call;
  n_connect _ _ := w_call;
  n_getsockname fd _ := mret ((0, 0), (v4 fd, 16));
  n_getpeername _ _ := mret ((-1, 107), (v4 0, 16));
  n_send _ _ _ := w_call;
  n_sendto _ _ _ _ := w_call;
  n_sendmsg _ _ _ _ := w_call;
  n_recv _ _ _ := w_call;
  n_recvfrom _ _ _ _ := w_call;
  n_recvmsg _ _ _ _ := w_call;
  n_buffer _ := [];
  n_cancelEvent _ _ := mret true
}.

Definition LE : byte_order := MEGALO_LITTLE_ENDIAN.
Definition on_new (o : Socket) (answers : list (Z * Z)) : on_sock world := OnSock o (thread0 answers []).
Definition tcp_connected : on_sock world :=
  match connect LE (v4 80) no_timeout (on_new CreateTCPSocket [(7, 0); (0, 0)]) with
  | Ret _ s => s
  | _ => on_new CreateTCPSocket []
  end.


Lemma connect_outcome_witness :
  m_remoteAddress (s_obj tcp_connected) = Some (v4 80) ∧ m_isConnected (s_obj tcp_connected) = true.
Proof.
  assert (connect LE (v4 80) no_timeout (on_new CreateTCPSocket [(7, 0); (0, 0)]) = Ret true tcp_connected) as Hr
    by reflexivity.
  destruct (connect_outcome (v4 80) no_timeout (on_new CreateTCPSocket [(7, 0); (0, 0)]) true tcp_connected
    (reach_new _ _ _) Hr) as (_&Ha&_&Hc&_).
  by split.
Defined.

Lemma timeout_witness : ∃ s',
  set_timeout (host := LE) SO_RCVTIMEO 1500 tcp_connected = Ret tt s' ∧ get_timeout SO_RCVTIMEO s' = Ret 1500 s'.
Proof.
  destruct (timeout_round_trip (host := LE) tcp_connected SO_RCVTIMEO 1500
    (mkFdCtx true true true false false 7 no_timeout no_timeout)) as (s'&Hs&_&_&Hg&_).
  - intros. by eexists _, _.
  - reflexivity.
  - apply Nat.leb_le. reflexivity.
  - apply Z.leb_le. reflexivity.
  - reflexivity.
  - by left.
  - unfold signed_in. lia.
  - exists s'. split; [exact Hs|]. apply Hg. change (1500 `quot` 1000) with 1. unfold signed_in. lia.
Defined.

(** ** At the edges *)

(** A datagram socket counts as connected even when [socket] failed. *)
Example udp_without_descriptor :
  match CreateUDPSocket (E := world) LE (on_new CreateTCPSocket [(-1, 24)]) with
  | Ret r _ => (m_sock r.2, m_isConnected r.2)
  | _ => (0, false)
  end = (-1, true).
Proof. by vm_compute. Qed.

(** A second connection of a socket reports the local address of the first. *)
Example stale_local_address :
  match (_ ← close; connect LE (v4 81) no_timeout)
          (OnSock (s_obj tcp_connected) (thread0 [(8, 0); (0, 0)] [])) with
  | Ret _ s => (m_sock (s_obj s), m_localAddress (s_obj s), m_remoteAddress (s_obj s))
  | _ => (0, None, None)
  end = (8, Some (v4 7), Some (v4 81)).
Proof. by vm_compute. Qed.

(** The seconds of a timeout of 2^31 seconds or more wrap. *)
Example long_timeout_wraps :
  match (setRecvTimeout LE 2147483648000;; getRecvTimeout) tcp_connected with
  | Ret v _ => v | _ => 0 end = -2147483648000.
Proof. by vm_compute. Qed.
