(* ===== verification/TcpServer.v ===== *)
(** * The TCP server (megalo/tcp_server.h, megalo/tcp_server.cc)

    The sockets are objects of a store, [heap]; [m_socks], the scheduled tasks
    and the accepting fibers hold references to them, and an object is closed
    when the last reference goes ([unref]).  The two I/O managers are the
    queues of what was scheduled on them.  [startAccept] runs in fibers: one
    that waits in [accept] has read the descriptor already, and other calls may
    run before it goes on, so its loop is a machine of two places. *)
From stdpp Require Import relations.
From S2P Require Import Prelude Bytes Util Address Hook Stream Socket.

Inductive task := StartAccept (sock : nat) | CloseAll.
Inductive place := AtTest | InAccept (fd : Z).

Record TcpServer (E : Type) := mkTcpServer {
  heap : list Socket;
  ts_thr : thread E;
  m_socks : list nat;
  m_recvTimeout : Z;
  m_isStop : bool;
  accept_queue : list task;           (* scheduled on [m_acceptWorker] *)
  fibers : list (nat * place);        (* running [startAccept] *)
  worker_queue : list nat             (* clients scheduled on [m_worker] *)
}.
Arguments mkTcpServer {E}. Arguments heap {E}. Arguments ts_thr {E}. Arguments m_socks {E}.
Arguments m_recvTimeout {E}. Arguments m_isStop {E}. Arguments accept_queue {E}.
Arguments fibers {E}. Arguments worker_queue {E}.

Section server.
Context (host : byte_order) {E : Type} `{KernelOps E} `{WaitOps E} `{NetOps E}.
Abbreviation TS := (TcpServer E).

Definition set_heap (h : list Socket) (t : thread E) (s : TS) : TS :=
  mkTcpServer h t (m_socks s) (m_recvTimeout s) (m_isStop s) (accept_queue s) (fibers s) (worker_queue s).
Definition set_socks (l : list nat) : M TS () := modify (λ s,
  mkTcpServer (heap s) (ts_thr s) l (m_recvTimeout s) (m_isStop s) (accept_queue s) (fibers s) (worker_queue s)).
Definition set_isStop (b : bool) : M TS () := modify (λ s,
  mkTcpServer (heap s) (ts_thr s) (m_socks s) (m_recvTimeout s) b (accept_queue s) (fibers s) (worker_queue s)).
Definition set_queue (q : list task) : M TS () := modify (λ s,
  mkTcpServer (heap s) (ts_thr s) (m_socks s) (m_recvTimeout s) (m_isStop s) q (fibers s) (worker_queue s)).
Definition set_fibers (f : list (nat * place)) : M TS () := modify (λ s,
  mkTcpServer (heap s) (ts_thr s) (m_socks s) (m_recvTimeout s) (m_isStop s) (accept_queue s) f (worker_queue s)).
Definition set_worker (q : list nat) : M TS () := modify (λ s,
  mkTcpServer (heap s) (ts_thr s) (m_socks s) (m_recvTimeout s) (m_isStop s) (accept_queue s) (fibers s) q).
Definition setTimeout (v : Z) : M TS () := modify (λ s,
  mkTcpServer (heap s) (ts_thr s) (m_socks s) v (m_isStop s) (accept_queue s) (fibers s) (worker_queue s)).

(** A method of socket [i], a call of the thread, a new object. *)
Definition run_on {A} (i : nat) (m : M (on_sock E) A) : M TS A := λ s,
  match heap s !! i with
  | None => Crash NullDeref
  | Some o =>
      match m (OnSock o (ts_thr s)) with
      | Ret a r => Ret a (set_heap (<[i := s_obj r]> (heap s)) (s_thr r) s)
      | Throw x r => Throw x (set_heap (<[i := s_obj r]> (heap s)) (s_thr r) s)
      | Crash f => Crash f
      end
  end.
Definition run_thr {A} (m : M (thread E) A) : M TS A := λ s,
  match m (ts_thr s) with
  | Ret a t => Ret a (set_heap (heap s) t s)
  | Throw x t => Throw x (set_heap (heap s) t s)
  | Crash f => Crash f
  end.
Definition alloc (o : Socket) : M TS nat := λ s,
  Ret (length (heap s)) (set_heap (heap s ++ [o]) (ts_thr s) s).

(** [~Socket] of the sockets [l] that nothing refers to. *)
Definition task_ref (i : nat) (t : task) : bool := match t with StartAccept j => i =? j | CloseAll => false end%nat.
Definition referenced (i : nat) (s : TS) : bool :=
  existsb (Nat.eqb i) (m_socks s) || existsb (task_ref i) (accept_queue s) ||
  existsb (λ f, i =? f.1)%nat (fibers s) || existsb (Nat.eqb i) (worker_queue s).
Fixpoint unref (l : list nat) : M TS () :=
  match l with
  | [] => mret tt
  | i :: l =>
      b ← gets (referenced i);
      (if b : bool then mret tt else _ ← run_on i close; mret tt);;
      unref l
  end.

Definition new_TcpServer (t : thread E) (read_timeout : Z) : TS :=
  mkTcpServer [] t [] read_timeout true [] [] [].

(** ** bind *)

Definition bind_one (addr : Address) : M TS bool :=
  sock ← alloc (CreateTCP addr);
  b ← run_on sock (Socket.bind host addr);
  if negb (b : bool) then unref [sock];; mret false else
  l ← run_on sock (listen SOMAXCONN);
  if negb (l : bool) then unref [sock];; mret false else
  socks ← gets m_socks; set_socks (socks ++ [sock]);; mret true.

Fixpoint bind_loop (addrs fails : list Address) : M TS (list Address) :=
  match addrs with
  | [] => mret fails
  | addr :: addrs =>
      b ← bind_one addr;
      bind_loop addrs (if (b : bool) then fails else fails ++ [addr])
  end.

Definition clear_socks : M TS () :=
  socks ← gets m_socks; set_socks [];; unref socks.

(** The answer and [fails], which the caller passes in. *)
Definition bind (addrs fails : list Address) : M TS (bool * list Address) :=
  fails ← bind_loop addrs fails;
  match fails with
  | [] => mret (true, fails)
  | _ => clear_socks;; mret (false, fails)
  end.
Definition bind_addr (addr : Address) : M TS bool := r ← bind [addr] []; mret r.1.

(** ** start and stop *)

Definition start : M TS bool :=
  b ← gets m_isStop;
  if negb (b : bool) then mret true else
  set_isStop false;;
  socks ← gets m_socks;
  q ← gets accept_queue;
  set_queue (q ++ map StartAccept socks);; mret true.

Definition stop : M TS () :=
  set_isStop true;;
  q ← gets accept_queue; set_queue (q ++ [CloseAll]).

Fixpoint close_loop (l : list nat) : M TS () :=
  match l with
  | [] => mret tt
  | i :: l => _ ← run_on i cancelAll; _ ← run_on i close; close_loop l
  end.
(** What [stop] schedules. *)
Definition close_all : M TS () :=
  socks ← gets m_socks; close_loop socks;; clear_socks.

Fixpoint delete_loop (l : list nat) : M TS () :=
  match l with [] => mret tt | i :: l => _ ← run_on i close; delete_loop l end.
Definition delete_TcpServer : M TS () :=
  socks ← gets m_socks; delete_loop socks;; clear_socks.

(** ** startAccept: the two places of its loop *)

Definition at_test (sock : nat) : M TS (option place) :=
  b ← gets m_isStop;
  if (b : bool) then mret None else
  fd ← run_on sock (obj m_sock); mret (Some (InAccept fd)).

Definition after_accept (sock : nat) (newsock : Z) : M TS place :=
  client ← run_on sock (accepted host newsock);
  match client with
  | Some c =>
      client ← alloc c;
      v ← gets m_recvTimeout;
      run_on client (setRecvTimeout host v);;
      q ← gets worker_queue; set_worker (q ++ [client]);; mret AtTest
  | None => mret AtTest
  end.
Definition in_accept (fuel : nat) (sock : nat) (fd : Z) : M TS place :=
  newsock ← run_thr (Hook.accept fuel fd (n_accept fd)); after_accept sock newsock.

(** A step of the accepting manager: it takes a task, or lets fiber [k] run to
    its next wait. *)
Definition take_task (k : nat) : M TS () :=
  q ← gets accept_queue;
  match q !! k with
  | None => mret tt
  | Some t =>
      set_queue (delete k q);;
      match t with
      | StartAccept sock => f ← gets fibers; set_fibers (f ++ [(sock, AtTest)])
      | CloseAll => close_all
      end
  end.
Definition run_fiber (fuel k : nat) : M TS () :=
  f ← gets fibers;
  match f !! k with
  | None => mret tt
  | Some (sock, AtTest) =>
      p ← at_test sock;
      match p with
      | Some p => set_fibers (<[k := (sock, p)]> f)
      | None => set_fibers (delete k f);; unref [sock]
      end
  | Some (sock, InAccept fd) =>
      p ← in_accept fuel sock fd;
      f ← gets fibers; set_fibers (<[k := (sock, p)]> f)
  end.

(** The worker takes a client; [handle] is the virtual [handleClient]. *)
Definition run_client (handle : M (on_sock E) ()) : M TS () :=
  q ← gets worker_queue;
  match q with
  | [] => mret tt
  | client :: q => run_on client handle;; set_worker q;; unref [client]
  end.

(** ** toString *)

Fixpoint dump_socks (pfx : bytes) (l : list nat) : M TS bytes :=
  match l with
  | [] => mret []
  | i :: l => t ← run_on i (dump host); r ← dump_socks pfx l; mret (pfx ++ t ++ [chr 10] ++ r)
  end.
(** The type and the name of the server and the names of its managers, where
    there is one, are arguments. *)
Definition toString (m_type m_name : bytes) (worker accept : option bytes) (prefix : bytes) : M TS bytes :=
  v ← gets m_recvTimeout;
  let head := prefix ++ str "[type=" ++ m_type ++ str " name=" ++ m_name ++
    str " worker=" ++ default [] worker ++ str " accept=" ++ default [] accept ++
    str " recv_timeout=" ++ show_Z v ++ str "]" ++ [chr 10] in
  let pfx := match prefix with [] => str "    " | _ => prefix end in
  socks ← gets m_socks;
  r ← dump_socks pfx socks;
  mret (head ++ r).
End server.

Section server_facts.
Context {host : byte_order} {E : Type} `{KernelOps E} `{WaitOps E} `{NetOps E}.
Abbreviation TS := (TcpServer E).

Lemma run_on_inv {A} i (m : M (on_sock E) A) (s : TS) a s' : run_on i m s = Ret a s' →
  ∃ o r, heap s !! i = Some o ∧ m (OnSock o (ts_thr s)) = Ret a r ∧ s' = set_heap (<[i := s_obj r]> (heap s)) (s_thr r) s.
Proof.
  unfold run_on. destruct (heap s !! i) as [o|]; [|done]. destruct (m _) as [a' r|x r|f] eqn:Em; [|done..].
  intros [= <- <-]. by exists o, r.
Qed.

(** Everything but the objects and the thread. *)
Definition frame (s : TS) := (m_socks s, m_recvTimeout s, m_isStop s, accept_queue s, fibers s, worker_queue s).
Lemma frame_set_heap h t (s : TS) : frame (set_heap h t s) = frame s.
Proof. done. Qed.
Lemma frame_eq (s s' : TS) : frame s' = frame s → s' = set_heap (heap s') (ts_thr s') s.
Proof. destruct s, s'. unfold frame, set_heap. simpl. by intros [= -> -> -> -> -> ->]. Qed.
Lemma referenced_frame (s s' : TS) i : frame s' = frame s → referenced i s' = referenced i s.
Proof. intros Hf. by rewrite (frame_eq s s' Hf). Qed.

(** [run_on] changes one object, as its triple says. *)
Lemma run_on_ht {A} i (m : M (on_sock E) A) (s : TS) a s' o Q :
  run_on i m s = Ret a s' → heap s !! i = Some o → ht (λ o', o' = o) m Q →
  ∃ o', Q a o' ∧ heap s' = <[i := o']> (heap s) ∧ frame s' = frame s.
Proof.
  intros Hr Ho Hm. apply run_on_inv in Hr as (o1&r&Ho1&Hr&->). rewrite Ho in Ho1. injection Ho1 as <-.
  exists (s_obj r). split; [|done]. exact (Hm (OnSock o (ts_thr s)) a r eq_refl Hr).
Qed.
Lemma run_on_some {A} i (m : M (on_sock E) A) (s : TS) a s' : run_on i m s = Ret a s' → ∃ o, heap s !! i = Some o.
Proof. intros (o&_&Ho&_)%run_on_inv. by exists o. Qed.

Lemma closed_idemp o : closed (closed o) = closed o.
Proof. done. Qed.

(** The objects [close] was called on. *)
Definition close_those (P : nat → bool) (h : list Socket) : list Socket := imap (λ i o, if P i then closed o else o) h.
Lemma lookup_close_those P h i : close_those P h !! i = (λ o, if P i then closed o else o) <$> h !! i.
Proof. unfold close_those. apply list_lookup_imap. Qed.
Lemma length_close_those P h : length (close_those P h) = length h.
Proof. unfold close_those. apply length_imap. Qed.

Lemma unref_spec l (s s' : TS) : unref l s = Ret tt s' →
  frame s' = frame s ∧ heap s' = close_those (λ i, bool_decide (i ∈ l) && negb (referenced i s)) (heap s).
Proof.
  revert s. induction l as [|i l IH]; intros s Hr; cbn [unref] in Hr.
  - injection Hr as <-. split; [done|]. apply list_eq. intros j. rewrite lookup_close_those.
    rewrite (bool_decide_eq_false_2 (j ∈ [])) by apply not_elem_of_nil. simpl. by destruct (heap s !! j).
  - rewrite bind_gets in Hr. apply bind_Ret_inv in Hr as ([]&s1&Hr1&Hr). apply IH in Hr as [Hf Hh].
    assert (frame s1 = frame s ∧ heap s1 = close_those (λ j, bool_decide (j = i) && negb (referenced j s)) (heap s)) as [Hf1 Hh1].
    { destruct (referenced i s) eqn:Ei.
      - injection Hr1 as <-. split; [done|]. apply list_eq. intros j. rewrite lookup_close_those.
        destruct (heap s !! j); [|done]. simpl. case_bool_decide; [subst j; by rewrite Ei|done].
      - apply bind_Ret_inv in Hr1 as (b&s2&Hr1&Hr2). injection Hr2 as <-.
        destruct (run_on_some _ _ _ _ _ Hr1) as (o&Ho).
        destruct (run_on_ht _ _ _ _ _ o _ Hr1 Ho (close_ht o)) as (o'&[-> _]&Hh'&Hf'). split; [done|].
        apply list_eq. intros j. rewrite Hh', lookup_close_those. case_bool_decide as Hj.
        + subst j. rewrite Ei, list_lookup_insert_eq by (by eapply lookup_lt_Some). by rewrite Ho.
        + rewrite list_lookup_insert_ne by done. by destruct (heap s !! j). }
    split; [congruence|]. apply list_eq. intros j. rewrite Hh, Hh1, !lookup_close_those.
    rewrite (referenced_frame s s1) by done.
    destruct (heap s !! j) as [o|]; [|done]. simpl. f_equal.
    destruct (referenced j s); [by rewrite !andb_false_r|]. rewrite !andb_true_r.
    destruct (decide (j = i)) as [->|Hne].
    + rewrite (bool_decide_eq_true_2 (i = i)), (bool_decide_eq_true_2 (i ∈ i :: l)) by (done || by left).
      by case_bool_decide.
    + rewrite (bool_decide_eq_false_2 (j = i)) by done. by rewrite (bool_decide_ext (j ∈ i :: l) (j ∈ l)) by set_solver.
Qed.

(** Nothing refers to objects that do not exist. *)
Definition wf (s : TS) : Prop := ∀ i, referenced i s = true → (i < length (heap s))%nat.

Lemma bind_alloc {A} o (k : nat → M TS A) (s : TS) :
  (alloc o ≫= k) s = k (length (heap s)) (set_heap (heap s ++ [o]) (ts_thr s) s).
Proof. done. Qed.

Lemma bind_one_spec addr (s : TS) b s' : wf s → bind_one host addr s = Ret b s' →
  ∃ o, heap s' = heap s ++ [o] ∧ kind o = (getFamily addr, SOCK_STREAM, 0) ∧ m_isConnected o = false ∧
    (b = true ↔ m_sock o ≠ -1) ∧
    frame s' = (if b then m_socks s ++ [length (heap s)] else m_socks s,
                m_recvTimeout s, m_isStop s, accept_queue s, fibers s, worker_queue s).
Proof.
  intros Hwf Hr. unfold bind_one in Hr. rewrite bind_alloc in Hr. set (n := length (heap s)) in *.
  set (s0 := set_heap _ _ s) in Hr.
  assert (heap s0 !! n = Some (CreateTCP addr)) as Hn by (unfold s0, n; simpl; by apply list_lookup_middle).
  assert (referenced n s = false) as Href.
  { destruct (referenced n s) eqn:En; [|done]. apply Hwf in En. unfold n in En. lia. }
  assert (∀ o, <[n := o]> (heap s ++ [CreateTCP addr]) = heap s ++ [o]) as Hins.
  { intros o. unfold n. replace (length (heap s)) with (length (heap s) + 0)%nat by lia. by rewrite insert_app_r. }
  assert (∀ o s1 s2, heap s1 = heap s ++ [o] → frame s1 = frame s → kind o = (getFamily addr, SOCK_STREAM, 0) →
    (unref [n];; mret false) s1 = Ret b s2 →
    ∃ o, heap s2 = heap s ++ [o] ∧ kind o = (getFamily addr, SOCK_STREAM, 0) ∧ m_isConnected o = false ∧
    (b = true ↔ m_sock o ≠ -1) ∧
    frame s2 = (if b then m_socks s ++ [n] else m_socks s,
                m_recvTimeout s, m_isStop s, accept_queue s, fibers s, worker_queue s)) as Hdrop.
  { intros o s1 s2 Hh Hf Hk Hu. apply bind_Ret_inv in Hu as ([]&s3&Hu&Hu2). injection Hu2 as <- <-.
    apply unref_spec in Hu as [Hf2 Hh2]. exists (closed o). split_and!; try done.
    - rewrite Hh2, Hh. unfold close_those. rewrite imap_app. simpl. f_equal.
      + apply list_eq. intros j. rewrite list_lookup_imap. destruct (heap s !! j) eqn:Ej; [|done]. simpl.
        rewrite bool_decide_eq_false_2; [done|]. intros ->%list_elem_of_singleton.
        apply lookup_lt_Some in Ej. unfold n in Ej. lia.
      + rewrite Nat.add_0_r, (referenced_frame s s1) by done. fold n. rewrite Href, bool_decide_eq_true_2; [done|by left].
    - by rewrite Hf2, Hf. }
  apply bind_Ret_inv in Hr as (b1&s1&Hr1&Hr).
  destruct (run_on_ht _ _ _ _ _ _ _ Hr1 Hn (bind_ht addr _)) as (o1&(Hg&Hc&_&Hv)&Hh1&Hf1).
  rewrite Hins in Hh1. destruct Hg as (Hk&_&_).
  destruct b1; cbn [negb] in Hr; [|by eapply Hdrop; [exact Hh1| |exact Hk|exact Hr]].
  apply bind_Ret_inv in Hr as (b2&s2&Hr2&Hr).
  assert (heap s1 !! n = Some o1) as Hn1 by (rewrite Hh1; by apply list_lookup_middle).
  destruct (run_on_ht _ _ _ _ _ _ _ Hr2 Hn1 (idle_listen _ _)) as (o2&->&Hh2&Hf2).
  rewrite Hh1 in Hh2. rewrite list_insert_id in Hh2 by (by apply list_lookup_middle).
  destruct b2; cbn [negb] in Hr; [|eapply Hdrop; [exact Hh2|by rewrite Hf2, Hf1|exact Hk|exact Hr]].
  rewrite bind_gets in Hr. unfold set_socks in Hr. rewrite bind_modify in Hr. injection Hr as <- <-.
  exists o1. split_and!; try done.
  - split; [|done]. intros _. by apply Hv.
  - rewrite (frame_eq s1 s2 Hf2), (frame_eq s s1 Hf1). done.
Qed.

(** The identities of the sockets that were bound and listen. *)
Fixpoint picked (n : nat) (bs : list bool) : list nat :=
  match bs with
  | [] => []
  | b :: bs => (if b then [n] else []) ++ picked (S n) bs
  end.
Fixpoint failed (addrs : list Address) (bs : list bool) : list Address :=
  match addrs, bs with
  | a :: addrs, b :: bs => (if b : bool then [] else [a]) ++ failed addrs bs
  | _, _ => []
  end.

(** One new object per address: [b] says whether it listens. *)
Definition made (addr : Address) (b : bool) (o : Socket) : Prop :=
  kind o = (getFamily addr, SOCK_STREAM, 0) ∧ m_isConnected o = false ∧ (b = true ↔ m_sock o ≠ -1).

Lemma picked_lt n bs i : i ∈ picked n bs → (n ≤ i < n + length bs)%nat.
Proof.
  revert n. induction bs as [|[|] bs IH]; intros n; simpl; [by intros ?%not_elem_of_nil|..].
  - intros [->|Hi]%elem_of_cons; [lia|]. apply IH in Hi. lia.
  - intros Hi%IH. lia.
Qed.

Definition others (s : TS) := (m_recvTimeout s, m_isStop s, accept_queue s, fibers s, worker_queue s).

Lemma bind_loop_spec addrs fails (s : TS) fails' s' : wf s → bind_loop host addrs fails s = Ret fails' s' →
  ∃ bs os, length bs = length addrs ∧ heap s' = heap s ++ os ∧ Forall3 made addrs bs os ∧
    fails' = fails ++ failed addrs bs ∧ m_socks s' = m_socks s ++ picked (length (heap s)) bs ∧
    others s' = others s.
Proof.
  revert fails s. induction addrs as [|addr addrs IH]; intros fails s Hwf Hr; cbn [bind_loop] in Hr.
  - injection Hr as <- <-. exists [], []. rewrite !app_nil_r. split_and!; try done. constructor.
  - apply bind_Ret_inv in Hr as (b&s1&Hr1&Hr).
    apply (bind_one_spec addr s b s1 Hwf) in Hr1 as (o&Hh&Hk&Hc&Hb&Hf).
    assert (wf s1) as Hwf1.
    { intros i Hi. rewrite Hh, length_app. simpl. unfold referenced in Hi. unfold frame in Hf. injection Hf as Hs _ _ Hq Hfb Hw.
      rewrite Hs, Hq, Hfb, Hw in Hi. destruct (Nat.eq_dec i (length (heap s))) as [->|Hne]; [lia|].
      enough (i < length (heap s))%nat by lia. apply Hwf. unfold referenced.
      destruct b; [|done]. rewrite existsb_app in Hi. simpl in Hi. rewrite (proj2 (Nat.eqb_neq i _)) in Hi by done.
      by rewrite !orb_false_r in Hi. }
    apply (IH _ s1 Hwf1) in Hr as (bs&os&Hl&Hh2&Hm&Hfl&Hs&Ho).
    unfold frame in Hf. injection Hf as Hs1 Hrt Hst Hq Hfb Hw.
    exists (b :: bs), (o :: os). split_and!.
    + simpl. by rewrite Hl.
    + by rewrite Hh2, Hh, <- app_assoc.
    + by constructor.
    + rewrite Hfl. simpl. destruct b; [done|]. by rewrite <- app_assoc.
    + rewrite Hs, Hs1, Hh, length_app. simpl. rewrite Nat.add_1_r. destruct b; [by rewrite <- app_assoc|done].
    + rewrite Ho. unfold others. by rewrite Hrt, Hst, Hq, Hfb, Hw.
Qed.

Lemma failed_nil addrs bs : length bs = length addrs → failed addrs bs = [] ↔ bs = replicate (length addrs) true.
Proof.
  revert addrs. induction bs as [|b bs IH]; intros [|a addrs]; simpl; [done..|]. intros [= Hl].
  destruct b; simpl; [|by split]. rewrite IH by done. split; [by intros ->|by intros [= ->]].
Qed.
Lemma picked_all n k : picked n (replicate k true) = seq n k.
Proof. revert n. induction k as [|k IH]; intros n; simpl; [done|]. by rewrite IH. Qed.

Lemma picked_lookup n bs i : bs !! i = Some true → (n + i)%nat ∈ picked n bs.
Proof.
  revert n i. induction bs as [|b bs IH]; intros n [|i] Hb; simpl in *; [done|done| |].
  - injection Hb as ->. rewrite Nat.add_0_r. by left.
  - apply elem_of_app. right. replace (n + S i)%nat with (S n + i)%nat by lia. by apply IH.
Qed.

(** Referred to by a fiber or a task. *)
Definition held (i : nat) (s : TS) : bool :=
  existsb (task_ref i) (accept_queue s) || existsb (λ f, i =? f.1)%nat (fibers s) ||
  existsb (Nat.eqb i) (worker_queue s).
Lemma held_referenced i (s : TS) : held i s = true → referenced i s = true.
Proof.
  unfold held, referenced. intros Hh. rewrite <- !orb_assoc in *. rewrite Hh. apply orb_true_r.
Qed.
Lemma held_others (s s' : TS) i : others s' = others s → held i s' = held i s.
Proof. unfold others, held. by intros [= _ _ -> -> ->]. Qed.

Lemma clear_socks_spec (s s' : TS) : clear_socks s = Ret tt s' →
  m_socks s' = [] ∧ others s' = others s ∧
  heap s' = close_those (λ i, bool_decide (i ∈ m_socks s) && negb (held i s)) (heap s).
Proof.
  intros Hr. unfold clear_socks in Hr. rewrite bind_gets in Hr. unfold set_socks in Hr. rewrite bind_modify in Hr.
  apply unref_spec in Hr as [Hf Hh]. unfold frame in Hf. injection Hf as -> F2 F3 F4 F5 F6. split_and!; [done| |done].
  unfold others. by rewrite F2, F3, F4, F5, F6.
Qed.


(** ** Stopping *)

Definition task_weight (t : task) : nat := match t with StartAccept _ => 2 | CloseAll => 1 end.
Definition place_weight (p : place) : nat := match p with AtTest => 1 | InAccept _ => 2 end.
Definition weight (s : TS) : nat :=
  sum_list_with task_weight (accept_queue s) + sum_list_with (λ f, place_weight f.2) (fibers s).
(** The fibers inside [accept]. *)
Definition waiting (s : TS) : nat := sum_list_with (λ f, (place_weight f.2 - 1)%nat) (fibers s).

(** A step of the accepting manager. *)
Definition acc_step (fuel : nat) (s s' : TS) : Prop :=
  ∃ k, (k < length (accept_queue s))%nat ∧ take_task k s = Ret tt s' ∨
       (k < length (fibers s))%nat ∧ run_fiber host fuel k s = Ret tt s'.

Lemma close_loop_spec l (s s' : TS) : close_loop l s = Ret tt s' →
  frame s' = frame s ∧ heap s' = close_those (λ i, bool_decide (i ∈ l)) (heap s).
Proof.
  revert s. induction l as [|i l IH]; intros s Hr; cbn [close_loop] in Hr.
  - injection Hr as <-. split; [done|]. apply list_eq. intros j. rewrite lookup_close_those.
    rewrite (bool_decide_eq_false_2 (j ∈ [])) by apply not_elem_of_nil. by destruct (heap s !! j).
  - apply bind_Ret_inv in Hr as (b&s1&Hr1&Hr). apply bind_Ret_inv in Hr as (b2&s2&Hr2&Hr).
    apply IH in Hr as [Hf Hh]. destruct (run_on_some _ _ _ _ _ Hr1) as (o&Ho).
    destruct (run_on_ht _ _ _ _ _ o _ Hr1 Ho (idle_cancelAll _)) as (o1&->&Hh1&Hf1).
    rewrite list_insert_id in Hh1 by done. rewrite <- Hh1 in Ho.
    destruct (run_on_ht _ _ _ _ _ o _ Hr2 Ho (close_ht o)) as (o2&[-> _]&Hh2&Hf2).
    split; [congruence|]. apply list_eq. intros j. rewrite Hh, Hh2, lookup_close_those, lookup_close_those, <- Hh1.
    destruct (decide (j = i)) as [->|Hne].
    + rewrite list_lookup_insert_eq by (by eapply lookup_lt_Some). rewrite Ho. simpl. f_equal.
      rewrite (bool_decide_eq_true_2 (i ∈ i :: l)) by left. by case_bool_decide.
    + rewrite list_lookup_insert_ne by done. destruct (heap s1 !! j); [|done]. simpl. f_equal.
      by rewrite (bool_decide_ext (j ∈ i :: l) (j ∈ l)) by set_solver.
Qed.

(** Everything of [l] is closed. *)
Definition all_closed (l : list nat) (s : TS) : Prop := ∀ i, i ∈ l → ∃ o, heap s !! i = Some o ∧ closed o = o.

Lemma close_all_spec (s s' : TS) : close_all s = Ret tt s' →
  m_socks s' = [] ∧ others s' = others s ∧ length (heap s') = length (heap s) ∧
  (∀ i, i ∉ m_socks s → heap s' !! i = heap s !! i) ∧
  (∀ l, all_closed l s → all_closed l s') ∧ ((∀ i, i ∈ m_socks s → (i < length (heap s))%nat) → all_closed (m_socks s) s').
Proof.
  intros Hr. unfold close_all in Hr. rewrite bind_gets in Hr. apply bind_Ret_inv in Hr as ([]&s1&Hr1&Hr).
  apply close_loop_spec in Hr1 as [Hf Hh]. apply clear_socks_spec in Hr as (Hs&Ho&Hh2).
  assert (∀ i o, heap s !! i = Some o → ∃ o', heap s' !! i = Some o' ∧
    (o' = o ∨ o' = closed o) ∧ (i ∈ m_socks s → o' = closed o)) as Hc.
  { intros i o Hi. rewrite Hh2, lookup_close_those, Hh, lookup_close_those, Hi. simpl. eexists. split; [done|].
    split; [repeat case_bool_decide; repeat case_match; simpl; auto|].
    intros Hi2. rewrite (bool_decide_eq_true_2 _ Hi2). by case_match. }
  assert (m_socks s1 = m_socks s) as Hs1 by (by rewrite (frame_eq s s1 Hf)).
  split_and!; [done| | | | |].
  - rewrite Ho. by rewrite (frame_eq s s1 Hf).
  - by rewrite Hh2, Hh, !length_close_those.
  - intros i Hi. rewrite Hh2, Hh, !lookup_close_those, Hs1, (bool_decide_eq_false_2 _ Hi). simpl. by destruct (heap s !! i).
  - intros l Hl i Hi. destruct (Hl i Hi) as (o&Ho1&Hcl). destruct (Hc i o Ho1) as (o'&Ho'&[->| ->]&_);
      [by exists o|]. exists (closed o). by split.
  - intros Hlt i Hi. destruct (lookup_lt_is_Some_2 (heap s) i (Hlt i Hi)) as [o Ho1].
    destruct (Hc i o Ho1) as (o'&Ho'&_&Heq). exists o'. rewrite (Heq Hi) in Ho' |- *. by split.
Qed.

Lemma sum_delete {A} (f : A → nat) l k x : l !! k = Some x →
  sum_list_with f l = (f x + sum_list_with f (delete k l))%nat.
Proof. intros Hk. by rewrite (delete_Permutation l k x Hk) at 1. Qed.
Lemma sum_insert {A} (f : A → nat) l k x y : l !! k = Some x →
  (f x + sum_list_with f (<[k := y]> l) = f y + sum_list_with f l)%nat.
Proof.
  revert k. induction l as [|z l IH]; intros [|k] Hk; simpl in *; [done|done|injection Hk as ->; lia|].
  specialize (IH k Hk). unfold insert in IH. lia.
Qed.

Lemma run_thr_inv {A} (m : M (thread E) A) (s : TS) a s' : run_thr m s = Ret a s' → ∃ t, s' = set_heap (heap s) t s.
Proof. unfold run_thr. destruct (m (ts_thr s)); [|done..]. intros [= <- <-]. by eexists. Qed.

(** What the loop of a fiber does to the rest of the server. *)
Lemma in_accept_spec fuel sock fd (s : TS) p s' : in_accept host fuel sock fd s = Ret p s' →
  p = AtTest ∧ m_socks s' = m_socks s ∧ m_recvTimeout s' = m_recvTimeout s ∧ m_isStop s' = m_isStop s ∧
  accept_queue s' = accept_queue s ∧ fibers s' = fibers s ∧
  (heap s' = heap s ∧ worker_queue s' = worker_queue s ∨
   ∃ c, heap s' = heap s ++ [c] ∧ worker_queue s' = worker_queue s ++ [length (heap s)] ∧
     m_isConnected c = true ∧ m_sock c ≠ -1).
Proof.
  intros Hr. unfold in_accept, after_accept in Hr. apply bind_Ret_inv in Hr as (n&s1&Hr1&Hr).
  apply run_thr_inv in Hr1 as (t&->). apply bind_Ret_inv in Hr as (c&s2&Hr2&Hr).
  destruct (run_on_some _ _ _ _ _ Hr2) as (o&Ho).
  destruct (run_on_ht _ _ _ _ _ o _ Hr2 Ho (accepted_ht n o)) as (o'&[-> Hc]&Hh&Hf).
  rewrite list_insert_id in Hh by done. cbn [heap set_heap] in Hh.
  rewrite (frame_eq _ _ Hf), Hh in Hr. clear Hf Hr2. destruct c as [c|].
  2: { injection Hr as <- <-. split_and!; try done. by left. }
  destruct (Hc c eq_refl) as (_&Hcc&Hcs&Hne). rewrite bind_alloc, bind_gets in Hr. cbn [heap set_heap] in Hr.
  apply bind_Ret_inv in Hr as ([]&s3&Hr3&Hr).
  assert (idle (setRecvTimeout host (m_recvTimeout s) : M (on_sock E) ())) as Hi.
  { unfold setRecvTimeout, setOption_tv. apply idle_bind; [apply idle_setOption|]. intros b. apply idle_mret. }
  assert ((heap s ++ [c]) !! length (heap s) = Some c) as Hn by (by apply list_lookup_middle).
  destruct (run_on_ht _ _ _ _ _ c _ Hr3 Hn (Hi (λ o', o' = c))) as (c'&->&Hh3&Hf3).
  rewrite list_insert_id in Hh3 by (simpl; by apply list_lookup_middle). cbn [heap set_heap] in Hh3.
  rewrite bind_gets in Hr. unfold set_worker in Hr. rewrite bind_modify in Hr. injection Hr as <- <-.
  rewrite (frame_eq _ _ Hf3). cbn. rewrite Hh3. split_and!; try done. right. exists c. by subst n.
Qed.

(** While the server is stopped: the sockets [l] it had are closed, or will be by
    a task in the queue. *)
Definition draining (l : list nat) (s : TS) : Prop :=
  m_isStop s = true ∧ (∀ i, i ∈ m_socks s → (i < length (heap s))%nat) ∧
  (CloseAll ∈ accept_queue s ∧ m_socks s = l ∨ m_socks s = [] ∧ all_closed l s).

Lemma all_closed_those l P (s s' : TS) : heap s' = close_those P (heap s) → all_closed l s → all_closed l s'.
Proof.
  intros Hh Hl i Hi. destruct (Hl i Hi) as (o&Ho&Hc). rewrite Hh, lookup_close_those, Ho. simpl. eexists. split; [done|].
  by destruct (P i).
Qed.
Lemma all_closed_app l k (s s' : TS) : heap s' = heap s ++ k → all_closed l s → all_closed l s'.
Proof.
  intros Hh Hl i Hi. destruct (Hl i Hi) as (o&Ho&Hc). exists o. split; [|done]. rewrite Hh. by apply lookup_app_l_Some.
Qed.

(** What a step of a stopped server comes to. *)
Definition drains (l : list nat) (s s' : TS) : Prop :=
  draining l s' ∧ (weight s' < weight s)%nat ∧
  (length (worker_queue s') + waiting s' ≤ length (worker_queue s) + waiting s)%nat.

Lemma take_task_drains l k (s s' : TS) : draining l s → (k < length (accept_queue s))%nat →
  take_task k s = Ret tt s' → drains l s s'.
Proof.
  intros (Hst&Hlt&Hd) Hk Hr. unfold take_task in Hr. rewrite bind_gets in Hr.
  destruct (accept_queue s !! k) as [t|] eqn:Et; [|by apply lookup_ge_None_1 in Et; lia].
  pose proof (sum_delete task_weight _ _ _ Et) as Hw. unfold set_queue in Hr. rewrite bind_modify in Hr.
  set (s1 := mkTcpServer _ _ _ _ _ _ _ _) in Hr. destruct t as [i|]; simpl in Hw.
  - rewrite bind_gets in Hr. injection Hr as <-. split; [split; [done|split; [done|]]|].
    + cbn. destruct Hd as [[Hin Hs]|Hd]; [left|by right]. split; [|done].
      rewrite (delete_Permutation _ _ _ Et) in Hin. apply elem_of_cons in Hin as [|Hin]; done.
    + unfold weight, waiting. cbn [accept_queue fibers worker_queue]. rewrite !sum_list_with_app. simpl. lia.
  - apply close_all_spec in Hr as (Hs&Ho&_&_&Hkeep&Hall). injection Ho as O1 O2 O3 O4 O5. split; [split; [|split]|].
    + rewrite O2. exact Hst.
    + rewrite Hs. by intros i ?%not_elem_of_nil.
    + right. split; [done|]. destruct Hd as [[_ <-]|[_ Hc]]; [by apply Hall|by apply Hkeep].
    + unfold weight, waiting. rewrite O3, O4, O5. cbn. lia.
Qed.

Lemma run_fiber_drains l fuel k (s s' : TS) : draining l s → (k < length (fibers s))%nat →
  run_fiber host fuel k s = Ret tt s' → drains l s s'.
Proof.
  intros (Hst&Hlt&Hd) Hk Hr. unfold run_fiber in Hr. rewrite bind_gets in Hr.
  destruct (fibers s !! k) as [[i p]|] eqn:Et; [|by apply lookup_ge_None_1 in Et; lia].
  destruct p as [|fd].
  - pose proof (sum_delete (λ f, place_weight f.2) _ _ _ Et) as Hw.
    pose proof (sum_delete (λ f, (place_weight f.2 - 1)%nat) _ _ _ Et) as Hw2. simpl in Hw, Hw2.
    unfold at_test in Hr. rewrite bind_assoc, bind_gets, Hst, bind_mret in Hr.
    unfold set_fibers in Hr. rewrite bind_modify in Hr. apply unref_spec in Hr as [Hf Hh].
    injection Hf as F1 F2 F3 F4 F5 F6. split; [split; [|split]|].
    + by rewrite F3.
    + rewrite F1, Hh, length_close_those. exact Hlt.
    + rewrite F1, F4. cbn. destruct Hd as [Hd|[Hs Hc]]; [by left|right]. split; [done|].
      eapply all_closed_those; [exact Hh|]. exact Hc.
    + unfold weight, waiting. rewrite F4, F5, F6. cbn. lia.
  - pose proof (sum_insert (λ f, place_weight f.2) _ _ _ (i, AtTest) Et) as Hw.
    pose proof (sum_insert (λ f, (place_weight f.2 - 1)%nat) _ _ _ (i, AtTest) Et) as Hw2. simpl in Hw, Hw2.
    apply bind_Ret_inv in Hr as (p&s1&Hr1&Hr). apply in_accept_spec in Hr1 as (->&F1&F2&F3&F4&F5&Hc).
    assert (∃ os, heap s1 = heap s ++ os ∧ (length (worker_queue s1) ≤ length (worker_queue s) + 1)%nat) as (os&Hh&Hq).
    { destruct Hc as [[-> ->]|(c&->&->&_)]; [exists []; rewrite app_nil_r|exists [c]; rewrite length_app];
        (split; [done|]); simpl; lia. }
    rewrite bind_gets in Hr. injection Hr as <-. unfold drains, draining, weight, waiting.
    cbn [m_isStop m_socks heap accept_queue fibers worker_queue]. rewrite F1, F3, F4, F5. split; [split; [done|split]|].
    + intros j Hj. rewrite Hh, length_app. apply Hlt in Hj. lia.
    + destruct Hd as [Hd|[Hs Hcl]]; [by left|right]. split; [done|]. eapply all_closed_app; [exact Hh|exact Hcl].
    + split; [|]; lia.
Qed.

Lemma acc_step_drains l fuel (s s' : TS) : draining l s → acc_step fuel s s' → drains l s s'.
Proof. intros Hd (k&[[Hk Hr]|[Hk Hr]]); [by eapply take_task_drains|by eapply run_fiber_drains]. Qed.

Lemma acc_steps_drain l fuel n (s s' : TS) : nsteps (acc_step fuel) n s s' → draining l s →
  draining l s' ∧ (n + weight s' ≤ weight s)%nat ∧
  (length (worker_queue s') + waiting s' ≤ length (worker_queue s) + waiting s)%nat.
Proof.
  induction 1 as [s|n s s1 s' Hs _ IH]; intros Hd; [done|].
  destruct (acc_step_drains l fuel s s1 Hd Hs) as (Hd1&Hw&Hq). destruct (IH Hd1) as (?&?&?). split; [done|]. lia.
Qed.


(** ** Every reachable server *)

Definition listening (i : nat) (s : TS) : Prop :=
  i ∈ m_socks s ∨ StartAccept i ∈ accept_queue s ∨ ∃ p, (i, p) ∈ fibers s.

Lemma existsb_elem {A} (f : A → bool) l : existsb f l = true ↔ ∃ x, x ∈ l ∧ f x = true.
Proof. rewrite existsb_exists. by setoid_rewrite list_elem_of_In. Qed.

Lemma referenced_spec i (s : TS) : referenced i s = true ↔ listening i s ∨ i ∈ worker_queue s.
Proof.
  unfold referenced, listening. rewrite !orb_true_iff, !existsb_elem. split.
  - intros [[[(j&Hj&->%Nat.eqb_eq)|([j|]&Hj&Ht)]|([j p]&Hj&->%Nat.eqb_eq)]|(j&Hj&->%Nat.eqb_eq)]; [auto|..|by auto].
    + apply Nat.eqb_eq in Ht as ->. auto.
    + done.
    + left. right. right. by exists p.
  - intros [[Hi|[Hi|(p&Hi)]]|Hi]; [left; left; left|left; left; right|left; right|right];
      eexists; (split; [exact Hi|]); simpl; apply Nat.eqb_refl.
Qed.

(** No object is missing; a client waits for one worker, which is all that refers
    to it, connected and with a descriptor. *)
Definition inv (s : TS) : Prop :=
  (∀ i, listening i s → (i < length (heap s))%nat ∧ i ∉ worker_queue s) ∧ NoDup (worker_queue s) ∧
  ∀ c, c ∈ worker_queue s → ∃ o, heap s !! c = Some o ∧ m_isConnected o = true ∧ m_sock o ≠ -1.

Lemma inv_wf s : inv s → wf s.
Proof.
  intros (Hl&_&Hc) i [Hi|Hi]%referenced_spec; [by apply Hl|]. destruct (Hc i Hi) as (o&Ho&_). by eapply lookup_lt_Some.
Qed.

Lemma inv_mono (s s' : TS) : inv s → worker_queue s' = worker_queue s → (length (heap s) ≤ length (heap s'))%nat →
  (∀ i, listening i s' → listening i s ∨ (length (heap s) ≤ i < length (heap s'))%nat) →
  (∀ c, c ∈ worker_queue s → heap s' !! c = heap s !! c) → inv s'.
Proof.
  intros (Hl&Hn&Hc) Hw Hlen Hnew Hkeep. unfold inv. rewrite Hw. split; [|split; [done|]].
  - intros i [Hi|Hi]%Hnew; [destruct (Hl i Hi); split; [lia|done]|]. split; [lia|].
    intros Hq. destruct (Hc i Hq) as (o&Ho&_). apply lookup_lt_Some in Ho. lia.
  - intros c Hq. rewrite (Hkeep c Hq). by apply Hc.
Qed.

Lemma held_worker c (s : TS) : c ∈ worker_queue s → held c s = true.
Proof.
  intros Hc. unfold held. apply orb_true_iff. right. apply existsb_elem. exists c. split; [done|apply Nat.eqb_refl].
Qed.

Lemma bind_inv addrs fails (s : TS) r s' : inv s → bind host addrs fails s = Ret r s' → inv s'.
Proof.
  intros Hi Hr. unfold bind in Hr. apply bind_Ret_inv in Hr as (fl&s1&Hr1&Hr).
  apply (bind_loop_spec addrs fails s fl s1 (inv_wf s Hi)) in Hr1 as (bs&os&Hl&Hh&Hm&_&Hs&Ho).
  injection Ho as O1 O2 O3 O4 O5. pose proof Hm as Hlen. apply Forall3_length_lr in Hlen.
  assert (∀ c, c ∈ worker_queue s → heap s1 !! c = heap s !! c) as Hkeep.
  { intros c Hc. destruct Hi as (_&_&Hi). destruct (Hi c Hc) as (o&Hco&_). rewrite Hh, Hco. by apply lookup_app_l_Some. }
  assert (inv s1) as Hi1.
  { apply (inv_mono s); [done..|rewrite Hh, length_app; lia| |done].
    unfold listening. rewrite Hs, O3, O4. intros i [[?|Hp]%elem_of_app|?]; [auto| |auto].
    apply picked_lt in Hp. right. rewrite Hh, length_app. lia. }
  destruct fl as [|a fl]; [injection Hr as _ <-; exact Hi1|].
  apply bind_Ret_inv in Hr as ([]&s2&Hr2&Hr). injection Hr as _ <-. clear Hkeep.
  apply clear_socks_spec in Hr2 as (Hs2&Ho2&Hh2). injection Ho2 as P1 P2 P3 P4 P5.
  apply (inv_mono s1); [done..|by rewrite Hh2, length_close_those| |].
  - unfold listening. rewrite Hs2, P3, P4. intros i [Hn|?]; [by apply not_elem_of_nil in Hn|auto].
  - intros c Hc. rewrite Hh2, lookup_close_those, (held_worker c s1 Hc), andb_false_r. by destruct (heap s1 !! c).
Qed.

Lemma inv_frame (s s' : TS) : inv s → worker_queue s' = worker_queue s → heap s' = heap s →
  (∀ i, listening i s' → listening i s) → inv s'.
Proof.
  intros Hi Hw Hh Hl. apply (inv_mono s); [done..|by rewrite Hh|intros i Hj; left; by apply Hl|by rewrite Hh].
Qed.

Lemma server_start_inv (s : TS) r s' : inv s → start s = Ret r s' → inv s'.
Proof.
  intros Hi Hr. unfold start in Hr. rewrite bind_gets in Hr. destruct (m_isStop s); [|by injection Hr as _ <-].
  injection Hr as _ <-. apply (inv_frame s); [done..|]. unfold listening. cbn.
  intros i [?|[[?|Hin]%elem_of_app|?]]; [auto|auto| |auto]. left. apply list_elem_of_fmap in Hin as (j&[= ->]&?). done.
Qed.
Lemma server_stop_inv (s s' : TS) : inv s → stop s = Ret tt s' → inv s'.
Proof.
  intros Hi Hr. unfold stop, set_isStop in Hr. rewrite bind_modify, bind_gets in Hr. injection Hr as <-.
  apply (inv_frame s); [done..|]. unfold listening. cbn.
  intros i [?|[[?|Hin%list_elem_of_singleton]%elem_of_app|?]]; [auto|auto|done|auto].
Qed.

Lemma take_task_inv k (s s' : TS) : inv s → take_task k s = Ret tt s' → inv s'.
Proof.
  intros Hi Hr. unfold take_task in Hr. rewrite bind_gets in Hr.
  destruct (accept_queue s !! k) as [t|] eqn:Et; [|by injection Hr as <-].
  assert (∀ t', t' ∈ delete k (accept_queue s) → t' ∈ accept_queue s) as Hdel.
  { intros t' Ht. rewrite (delete_Permutation _ _ _ Et). by right. }
  unfold set_queue in Hr. rewrite bind_modify in Hr. set (s1 := mkTcpServer _ _ _ _ _ _ _ _) in Hr.
  destruct t as [i|].
  - rewrite bind_gets in Hr. injection Hr as <-. apply (inv_frame s); [done..|]. unfold listening. cbn.
    intros j [?|[Hq|(p&[Hp|Hp%list_elem_of_singleton]%elem_of_app)]]; [auto|auto|eauto|].
    injection Hp as -> _. right. left. by eapply list_elem_of_lookup_2.
  - assert (inv s1) as Hi1.
    { apply (inv_frame s); [done..|]. unfold listening. cbn. intros j [?|[?|?]]; auto. }
    apply close_all_spec in Hr as (Hs&Ho&Hlen&Hkeep&_). injection Ho as O1 O2 O3 O4 O5.
    apply (inv_mono s1); [done..|by rewrite Hlen| |].
    + unfold listening. rewrite Hs, O3, O4. intros j [Hn|?]; [by apply not_elem_of_nil in Hn|auto].
    + intros c Hc. apply Hkeep. intros Hm. destruct Hi1 as (Hi1&_). destruct (Hi1 c (or_introl Hm)). done.
Qed.

Lemma run_fiber_inv fuel k (s s' : TS) : inv s → run_fiber host fuel k s = Ret tt s' → inv s'.
Proof.
  intros Hi Hr. unfold run_fiber in Hr. rewrite bind_gets in Hr.
  destruct (fibers s !! k) as [[i p]|] eqn:Et; [|by injection Hr as <-].
  assert (listening i s) as Hli by (right; right; exists p; by eapply list_elem_of_lookup_2).
  assert (∀ j q p', (j, q) ∈ <[k := (i, p')]> (fibers s) → listening j s) as Hins.
  { intros j q p' Hj. apply list_elem_of_lookup_1 in Hj as (m&Hm). apply list_lookup_insert_Some in Hm as
      [(_&[= <- _]&_)|(_&Hm)]; [done|]. right. right. exists q. by eapply list_elem_of_lookup_2. }
  destruct p as [|fd].
  - apply bind_Ret_inv in Hr as (o&s1&Hr1&Hr). unfold at_test in Hr1. rewrite bind_gets in Hr1.
    assert (frame s1 = frame s ∧ heap s1 = heap s) as [Hf Hh].
    { destruct (m_isStop s); [by injection Hr1 as _ <-|]. apply bind_Ret_inv in Hr1 as (fd&s2&Hr1&Hr2).
      injection Hr2 as _ <-. destruct (run_on_some _ _ _ _ _ Hr1) as (o'&Ho').
      destruct (run_on_ht _ _ _ _ _ o' _ Hr1 Ho' (idle_obj m_sock _)) as (o2&->&Hh&Hf).
      split; [done|]. by rewrite Hh, list_insert_id. }
    assert (inv s1) as Hi1.
    { rewrite (frame_eq s s1 Hf), Hh. by apply (inv_frame s). }
    destruct o as [p|].
    + unfold set_fibers in Hr. injection Hr as <-. apply (inv_frame s1); [done..|].
      unfold listening. cbn. intros j Hj. rewrite (frame_eq s s1 Hf). cbn. rewrite (frame_eq s s1 Hf) in Hj. cbn in Hj.
      destruct Hj as [?|[?|(q&Hq)]]; [auto|auto|]. by apply Hins in Hq.
    + unfold set_fibers in Hr. rewrite bind_modify in Hr. apply unref_spec in Hr as [Hf2 Hh2]. injection Hf2 as F1 F2 F3 F4 F5 F6.
      apply (inv_mono s1); [done..|by rewrite Hh2, length_close_those| |].
      * unfold listening. rewrite F1, F4, F5. cbn. rewrite (frame_eq s s1 Hf). cbn.
        intros j [?|[?|(q&Hq)]]; [auto|auto|]. left. right. right. exists q.
        rewrite (delete_Permutation _ _ _ Et). by right.
      * intros c Hc. rewrite Hh2, lookup_close_those. cbn [heap].
        rewrite (proj2 (referenced_spec c _)) by (right; exact Hc). rewrite andb_false_r. by destruct (heap s1 !! c).
  - apply bind_Ret_inv in Hr as (p&s1&Hr1&Hr). apply in_accept_spec in Hr1 as (->&F1&F2&F3&F4&F5&Hc).
    rewrite bind_gets in Hr. injection Hr as <-. rewrite F5.
    set (s2 := mkTcpServer _ _ _ _ _ _ _ _).
    assert (∀ j, listening j s2 → listening j s) as Hl2.
    { unfold listening at 1, s2. cbn. rewrite F1, F4. intros j [?|[?|(q&Hq)]]; [by left|by right; left|].
      by apply Hins in Hq. }
    destruct Hc as [[Hh Hw]|(c&Hh&Hw&Hcc&Hcs)]; [by apply (inv_frame s)|].
    destruct Hi as (Hi1&Hi2&Hi3). unfold inv, s2. cbn [heap worker_queue]. rewrite Hh, Hw, length_app. split; [|split].
    + intros j Hj. destruct (Hi1 j (Hl2 j Hj)) as [Hj1 Hj2]. split; [lia|].
      intros [?| ->%list_elem_of_singleton]%elem_of_app; [done|lia].
    + apply NoDup_app. split; [done|]. split; [|apply NoDup_singleton]. intros j Hj ->%list_elem_of_singleton.
      destruct (Hi3 _ Hj) as (o&Ho&_). apply lookup_lt_Some in Ho. lia.
    + intros j [Hj| ->%list_elem_of_singleton]%elem_of_app.
      * destruct (Hi3 j Hj) as (o&Ho&?). exists o. split; [|done]. by apply lookup_app_l_Some.
      * exists c. split; [by apply list_lookup_middle|done].
Qed.

Lemma run_client_inv handle (s s' : TS) : inv s → run_client handle s = Ret tt s' → inv s'.
Proof.
  intros Hi Hr. unfold run_client in Hr. rewrite bind_gets in Hr.
  destruct (worker_queue s) as [|c q] eqn:Eq; [by injection Hr as <-|].
  destruct Hi as (Hi1&Hi2&Hi3). rewrite Eq in Hi2, Hi3. apply NoDup_cons in Hi2 as [Hcq Hq].
  apply bind_Ret_inv in Hr as ([]&s1&Hr1&Hr). apply run_on_inv in Hr1 as (o&r&Ho&_&->).
  unfold set_worker in Hr. rewrite bind_modify in Hr. apply unref_spec in Hr as [Hf Hh].
  injection Hf as F1 F2 F3 F4 F5 F6. cbn in F1, F4, F5, F6. cbn [heap set_heap] in Hh.
  assert (length (heap s') = length (heap s)) as Hlen by (by rewrite Hh, length_close_those, length_insert).
  unfold inv. rewrite F6, Hlen. split; [|split; [done|]].
  - unfold listening. rewrite F1, F4, F5. intros i Hli. destruct (Hi1 i Hli) as [? Hni]. split; [done|].
    rewrite Eq in Hni. intros Hin. apply Hni. by right.
  - intros d Hd. destruct (Hi3 d) as (od&Hod&?); [by right|]. exists od. split; [|done].
    rewrite Hh, lookup_close_those, list_lookup_insert_ne by (by intros ->). rewrite Hod. simpl.
    rewrite bool_decide_eq_false_2; [done|]. by intros ->%list_elem_of_singleton.
Qed.

(** The states a server gets into: calls of its methods, steps of the accepting
    manager, clients served in any way by a worker. *)
Inductive served (fuel : nat) : TS → Prop :=
  | served_new t v : served fuel (new_TcpServer t v)
  | served_bind s addrs fails r s' : served fuel s → bind host addrs fails s = Ret r s' → served fuel s'
  | served_start s r s' : served fuel s → start s = Ret r s' → served fuel s'
  | served_stop s s' : served fuel s → stop s = Ret tt s' → served fuel s'
  | served_timeout s v s' : served fuel s → setTimeout v s = Ret tt s' → served fuel s'
  | served_accept s s' : served fuel s → acc_step fuel s s' → served fuel s'
  | served_client s handle s' : served fuel s → run_client handle s = Ret tt s' → served fuel s'.

(** C31. In every state a server gets into, no socket it refers to is gone, and a
    client waiting for a worker waits once, is connected with a descriptor, and
    is referred to by neither the list of sockets, a task nor a fiber. *)
Theorem server_invariant fuel (s : TS) (Hs : served fuel s) :
  wf s ∧ NoDup (worker_queue s) ∧
  ∀ c, c ∈ worker_queue s → ¬ listening c s ∧ ∃ o, heap s !! c = Some o ∧ m_isConnected o = true ∧ m_sock o ≠ -1.
Proof.
  assert (inv s) as Hi.
  { induction Hs as [t v|s addrs fails r s' _ IH Hr|s r s' _ IH Hr|s s' _ IH Hr|s v s' _ IH Hr|s s' _ IH (k&[[_ Hr]|[_ Hr]])
      |s handle s' _ IH Hr].
    - split; [|split; [constructor|by intros c ?%not_elem_of_nil]].
      intros i [Hn|[Hn|(p&Hn)]]; by apply not_elem_of_nil in Hn.
    - by eapply bind_inv.
    - by eapply server_start_inv.
    - by eapply server_stop_inv.
    - injection Hr as <-. by apply (inv_frame s).
    - by eapply take_task_inv.
    - by eapply run_fiber_inv.
    - by eapply run_client_inv. }
  split; [by apply inv_wf|]. destruct Hi as (Hl&Hn&Hc). split; [done|]. intros c Hcq. split; [|by apply Hc].
  intros Hli. by destruct (Hl c Hli).
Qed.
End server_facts.

(** ** A scripted server *)
#[local] Existing Instance world_kernel.
#[local] Existing Instance world_wait.
#[local] Existing Instance world_net.

Definition state {S A} (d : S) (r : res S A) : S := match r with Ret _ s => s | _ => d end.
(** Descriptors 7 to 11 are open when needed. *)
Definition some_flags : Z → option N := λ fd, if (7 <=? fd) && (fd <=? 11) then Some 2%N else None.
Definition server0 (answers : list (Z * Z)) : TcpServer world :=
  new_TcpServer (Thread true 0 new_FdManager (World some_flags answers [] 0 [] [] 0)) 120000.
(** Listening on two ports. *)
Definition bound (answers : list (Z * Z)) : TcpServer world :=
  state (server0 []) (bind LE [v4 80; v4 81] [] (server0 ((7, 0) :: (9, 0) :: answers))).

Lemma server0_wf answers : wf (server0 answers).
Proof. by intros i Hi. Qed.


(** The states of two runs, evaluated. *)
Definition bound1 : TcpServer world := Eval vm_compute in bound [(11, 0)].
Definition stopped1 : TcpServer world := Eval vm_compute in state (server0 []) (stop bound1).
Definition drained1 : TcpServer world := Eval vm_compute in state (server0 []) (take_task 0 stopped1).
Definition started1 : TcpServer world := Eval vm_compute in state (server0 []) (start bound1).
Definition begun1 : TcpServer world := Eval vm_compute in state (server0 []) (take_task 0 started1).
Definition waiting1 : TcpServer world := Eval vm_compute in state (server0 []) (run_fiber LE 5 0 begun1).
Definition accepted1 : TcpServer world := Eval vm_compute in state (server0 []) (run_fiber LE 5 0 waiting1).


Lemma server_invariant_witness :
  worker_queue accepted1 = [2%nat] ∧ ∃ o, heap accepted1 !! 2%nat = Some o ∧ m_isConnected o = true.
Proof.
  split; [reflexivity|].
  assert (served (host := LE) 5 accepted1) as Hs.
  { apply (served_accept 5 waiting1); [|exists 0%nat; right; split; [by apply Nat.ltb_lt|by vm_compute]].
    apply (served_accept 5 begun1); [|exists 0%nat; right; split; [by apply Nat.ltb_lt|by vm_compute]].
    apply (served_accept 5 started1); [|exists 0%nat; left; split; [by apply Nat.ltb_lt|by vm_compute]].
    apply (served_start 5 bound1 true); [|by vm_compute].
    apply (served_bind 5 (server0 [(7, 0); (9, 0); (11, 0)]) [v4 80; v4 81] [] (true, [])); [apply served_new|].
    by vm_compute. }
  destruct (server_invariant (host := LE) 5 accepted1 Hs) as (_&_&Hc).
  destruct (Hc 2%nat) as (_&o&Ho&Hco&_); [by left|]. by exists o.
Defined.

Definition run_all (l : list (M (TcpServer world) ())) (s : TcpServer world) : TcpServer world :=
  foldl (λ s m, state (server0 []) (m s)) s l.

(** [start] after [stop], before the accepting manager ran: the listeners are
    closed under their fibers, whose loops go on for ever with [accept] on no
    descriptor. *)
Definition restarted : TcpServer world :=
  run_all [(_ ← start; mret tt); take_task 0; stop; (_ ← start; mret tt); take_task 1] (bound [(-1, EBADF)]).
Example restart_spins :
  (m_isStop restarted, m_socks restarted, fibers restarted) = (false, [], [(0%nat, AtTest)]) ∧
  fibers (run_all [run_fiber LE 5 0] restarted) = [(0%nat, InAccept (-1))] ∧
  fibers (run_all [run_fiber LE 5 0; run_fiber LE 5 0] restarted) = [(0%nat, AtTest)].
Proof. split_and!; by vm_compute. Qed.

(** A caller that passes a vector with an address in it is told of a failure
    although all was bound, and the listeners are gone. *)
Example fails_not_empty :
  match bind LE [v4 80] [v4 99] (server0 [(7, 0)]) with
  | Ret r s => (r, m_socks s, m_sock <$> heap s)
  | _ => ((true, []), [], [])
  end = ((false, [v4 99]), [], [-1]).
Proof. by vm_compute. Qed.

(** A bound server describes itself and its sockets. *)
Example described :
  match (_ ← bind LE [v4 80] []; toString LE (str "tcp") (str "megalo/1.0.0") (Some (str "w")) None []) (server0 [(7, 0)]) with
  | Ret t _ => t
  | _ => []
  end = str "[type=tcp name=megalo/1.0.0 worker=w accept= recv_timeout=120000]" ++ [chr 10] ++
        str "    [Socket sock=7 is_connected=0 family=2 type=1 protocol=0 local_address=127.0.0.1:7]" ++ [chr 10].
Proof. vm_compute. reflexivity. Qed.
