(* ===== verification/Servlet.v ===== *)
(** * Servlets (megalo/http/servlet.h, megalo/http/servlet.cc)

    A handler runs on the request, the response and the session it is given,
    which it may change ([exchange]).  [m_datas] is a map from paths to
    servlets, [m_globs] a list in the order of insertion; a servlet pointer may
    be null.  [fnmatch] of the C library is a parameter. *)
From S2P Require Import Prelude Bytes Util Http.
From stdpp Require Import gmap.
#[local] Open Scope Z_scope.

Section servlet.
Context {T : Type}.

Record exchange := Exchange { ex_session : T; ex_request : HttpRequest; ex_response : HttpResponse }.
Definition on_response (f : HttpResponse → HttpResponse) : M exchange () :=
  modify (λ e, Exchange (ex_session e) (ex_request e) (f (ex_response e))).

Definition handler : Type := M exchange Z.

(** The classes that derive from [Servlet]; [UserServlet] is a class of the
    client. *)
Inductive Servlet :=
  | FunctionServlet (m_cb : option handler)
  | NotFoundServlet
  | UserServlet (h : handler).

Definition HttpStatus_NOT_FOUND : Z := 404.
Definition RSP_BODY : bytes :=
  str "<html><head><title>404 Not Found</title></head><body><center><h1>404 Not Found</h1></center><hr><center>megalo/1.0.0</center></body></html>".

Definition NotFoundServlet_handle : handler :=
  on_response (rs_setStatus HttpStatus_NOT_FOUND);;
  on_response (rs_setHeader (str "Content-type") (str "text/html"));;
  on_response (rs_setHeader (str "Server") (str "megalo/1.0.0"));;
  on_response (rs_setBody RSP_BODY);;
  mret 0.

Definition servlet_handle (slt : Servlet) : handler :=
  match slt with
  | FunctionServlet (Some cb) => cb
  | FunctionServlet None => throw bad_function_call
  | NotFoundServlet => NotFoundServlet_handle
  | UserServlet h => h
  end.

Record ServletDispatch := mkDispatch {
  m_datas : gmap bytes (option Servlet);
  m_globs : list (bytes * option Servlet);
  m_default : option Servlet
}.

Definition new_ServletDispatch : ServletDispatch := mkDispatch ∅ [] (Some NotFoundServlet).

Definition addServlet (uri : bytes) (slt : option Servlet) (s : ServletDispatch) : ServletDispatch :=
  mkDispatch (<[uri := slt]> (m_datas s)) (m_globs s) (m_default s).
Definition addServlet_cb (uri : bytes) (cb : option handler) (s : ServletDispatch) : ServletDispatch :=
  addServlet uri (Some (FunctionServlet cb)) s.

(** The loop that erases the first element of that name. *)
Fixpoint erase_glob (uri : bytes) (l : list (bytes * option Servlet)) : list (bytes * option Servlet) :=
  match l with
  | [] => []
  | x :: l => if bool_decide (x.1 = uri) then l else x :: erase_glob uri l
  end.

Definition addGlobServlet (uri : bytes) (slt : option Servlet) (s : ServletDispatch) : ServletDispatch :=
  mkDispatch (m_datas s) (erase_glob uri (m_globs s) ++ [(uri, slt)]) (m_default s).
Definition addGlobServlet_cb (uri : bytes) (cb : option handler) (s : ServletDispatch) : ServletDispatch :=
  addGlobServlet uri (Some (FunctionServlet cb)) s.

Definition delServlet (uri : bytes) (s : ServletDispatch) : ServletDispatch :=
  mkDispatch (delete uri (m_datas s)) (m_globs s) (m_default s).
Definition delGlobServlet (uri : bytes) (s : ServletDispatch) : ServletDispatch :=
  mkDispatch (m_datas s) (erase_glob uri (m_globs s)) (m_default s).
Definition setDefault (v : option Servlet) (s : ServletDispatch) : ServletDispatch :=
  mkDispatch (m_datas s) (m_globs s) v.

Definition getServlet (uri : bytes) (s : ServletDispatch) : option Servlet :=
  match m_datas s !! uri with Some p => p | None => None end.
Definition getGlobServlet (uri : bytes) (s : ServletDispatch) : option Servlet :=
  match List.find (λ x, bool_decide (x.1 = uri)) (m_globs s) with Some x => x.2 | None => None end.

(** [fnmatch pattern string]: does the pattern match? *)
Definition getMatchServlet (fnmatch : bytes → bytes → bool) (uri : bytes) (s : ServletDispatch) :
    option Servlet :=
  match m_datas s !! uri with
  | Some p => p
  | None =>
      match List.find (λ x, fnmatch (cstr x.1) (cstr uri)) (m_globs s) with
      | Some x => x.2
      | None => m_default s
      end
  end.

(** [ServletDispatch::handle]. *)
Definition dispatch_handle (fnmatch : bytes → bytes → bool) (s : ServletDispatch) : handler :=
  uri ← gets (λ e, m_path (ex_request e));
  match getMatchServlet fnmatch uri s with
  | Some slt => _ ← servlet_handle slt; mret 0
  | None => mret 0
  end.

(** ** Routing *)

Inductive route_op :=
  | OpAdd (uri : bytes) (slt : option Servlet) | OpAddGlob (uri : bytes) (slt : option Servlet)
  | OpDel (uri : bytes) | OpDelGlob (uri : bytes) | OpDefault (v : option Servlet).

Definition route_exec (o : route_op) (s : ServletDispatch) : ServletDispatch :=
  match o with
  | OpAdd u p => addServlet u p s
  | OpAddGlob u p => addGlobServlet u p s
  | OpDel u => delServlet u s
  | OpDelGlob u => delGlobServlet u s
  | OpDefault v => setDefault v s
  end.
Definition route_run (l : list route_op) : ServletDispatch :=
  fold_left (λ s o, route_exec o s) l new_ServletDispatch.

(** The reference: the last word said about an exact path, and the patterns in
    the order in which they were last added. *)
Fixpoint exact_of (uri : bytes) (l : list route_op) (p : option (option Servlet)) :
    option (option Servlet) :=
  match l with
  | [] => p
  | OpAdd u q :: l => exact_of uri l (if bool_decide (u = uri) then Some q else p)
  | OpDel u :: l => exact_of uri l (if bool_decide (u = uri) then None else p)
  | _ :: l => exact_of uri l p
  end.
Definition names (u : bytes) (o : route_op) : bool :=
  match o with OpAddGlob v _ | OpDelGlob v => bool_decide (u = v) | _ => false end.
Fixpoint globs_of (l : list route_op) : list (bytes * option Servlet) :=
  match l with
  | [] => []
  | OpAddGlob u p :: l => if existsb (names u) l then globs_of l else (u, p) :: globs_of l
  | _ :: l => globs_of l
  end.
Definition default_of (l : list route_op) : option Servlet :=
  fold_left (λ d o, match o with OpDefault v => v | _ => d end) l (Some NotFoundServlet).

Lemma erase_glob_notin u l : u ∉ l.*1 → erase_glob u l = l.
Proof.
  induction l as [|x l IH]; simpl; [done|]. rewrite not_elem_of_cons. intros [Hx Hl].
  rewrite bool_decide_eq_false_2 by done. by rewrite IH.
Qed.

Lemma erase_glob_filter u l : NoDup l.*1 → erase_glob u l = filter (λ x, x.1 ≠ u) l.
Proof.
  induction l as [|x l IH]; simpl; [done|]. intros [Hx Hl]%NoDup_cons. rewrite filter_cons.
  case_bool_decide as Hu.
  - rewrite decide_False by (intros H; by apply H). subst u. rewrite <- IH by done.
    symmetry. by apply erase_glob_notin.
  - by rewrite decide_True, IH.
Qed.

Lemma filter_nodup u (l : list (bytes * option Servlet)) :
  NoDup l.*1 → NoDup (filter (λ x, x.1 ≠ u) l).*1.
Proof.
  induction l as [|x l IH]; simpl; [done|]. intros [Hx Hl]%NoDup_cons. rewrite filter_cons.
  case_decide; [|by apply IH]. apply NoDup_cons. split; [|by apply IH].
  intros (y&Hy&Hin)%list_elem_of_fmap. apply Hx. rewrite Hy. apply list_elem_of_fmap.
  apply list_elem_of_filter in Hin as [_ Hin]. by exists y.
Qed.

Lemma erase_glob_nodup u l : NoDup l.*1 → NoDup (erase_glob u l).*1 ∧ u ∉ (erase_glob u l).*1.
Proof.
  intros Hnd. rewrite erase_glob_filter by done. split.
  - by apply filter_nodup.
  - intros (x&->&Hx)%list_elem_of_fmap. apply list_elem_of_filter in Hx as [Hx _]. done.
Qed.

Lemma globs_of_snoc l o :
  globs_of (l ++ [o]) =
    match o with
    | OpAddGlob u p => filter (λ x, x.1 ≠ u) (globs_of l) ++ [(u, p)]
    | OpDelGlob u => filter (λ x, x.1 ≠ u) (globs_of l)
    | _ => globs_of l
    end.
Proof.
  induction l as [|x l IH]; simpl.
  { by destruct o. }
  destruct x as [u p|u p|u|u|v]; try done. rewrite existsb_app. simpl. rewrite orb_false_r, IH.
  destruct (existsb (names u) l) eqn:E; simpl; [done|].
  destruct o as [u' p'|u' p'|u'|u'|v']; simpl; rewrite ?filter_cons; try done; simpl;
    case_bool_decide as Hu; simpl; try (rewrite decide_False by naive_solver; done);
    by rewrite decide_True by done.
Qed.

Lemma route_run_globs l : m_globs (route_run l) = globs_of l ∧ NoDup (globs_of l).*1.
Proof.
  unfold route_run. induction l as [|o l [IH Hnd]] using rev_ind; [split; [done|constructor]|].
  rewrite fold_left_app, globs_of_snoc. simpl. set (s := fold_left _ l _) in *.
  pose proof (erase_glob_nodup) as He.
  destruct o as [u p|u p|u|u|v]; simpl; rewrite ?IH; try done.
  - rewrite erase_glob_filter by done. split; [done|]. destruct (He u _ Hnd) as [H1 H2].
    rewrite erase_glob_filter in H1, H2 by done. rewrite fmap_app. apply NoDup_app.
    split; [done|]. split; [|apply NoDup_singleton]. simpl. set_solver.
  - rewrite erase_glob_filter by done. split; [done|]. destruct (He u _ Hnd) as [H1 _].
    by rewrite erase_glob_filter in H1.
Qed.

Lemma route_run_exact uri l : ∀ s p, m_datas s !! uri = p →
  m_datas (fold_left (λ s o, route_exec o s) l s) !! uri = exact_of uri l p.
Proof.
  induction l as [|o l IH]; intros s p Hp; simpl; [done|].
  destruct o as [u q|u q|u|u|v]; apply IH; simpl; try done; case_bool_decide as Hu.
  - subst. by rewrite lookup_insert_eq.
  - by rewrite lookup_insert_ne.
  - subst. by rewrite lookup_delete_eq.
  - by rewrite lookup_delete_ne.
Qed.

Lemma route_run_default l : ∀ s,
  m_default (fold_left (λ s o, route_exec o s) l s) =
    fold_left (λ d o, match o with OpDefault v => v | _ => d end) l (m_default s).
Proof. induction l as [|o l IH]; intros s; simpl; [done|]. rewrite IH. by destruct o. Qed.

(** C8. Routing: after any sequence of additions and deletions a path is
    served by what was last added for that exact path and not deleted, else by
    the first pattern that matches it in the order the patterns were last
    added, else by the default; and [getGlobServlet] of a pattern is the
    servlet it was last added with. *)
Theorem routing_refines_history (fnmatch : bytes → bytes → bool) (l : list route_op) (uri : bytes) :
  getMatchServlet fnmatch uri (route_run l) =
    match exact_of uri l None with
    | Some p => p
    | None =>
        match List.find (λ x, fnmatch (cstr x.1) (cstr uri)) (globs_of l) with
        | Some x => x.2
        | None => default_of l
        end
    end ∧
  ∀ p, (uri, p) ∈ globs_of l → getGlobServlet uri (route_run l) = p.
Proof.
  destruct (route_run_globs l) as [Hg Hnd]. split.
  - unfold getMatchServlet. rewrite Hg. unfold route_run at 1 2.
    rewrite (route_run_exact uri l _ None) by done. by rewrite route_run_default.
  - intros p Hp. unfold getGlobServlet. rewrite Hg. clear Hg.
    induction (globs_of l) as [|[u q] g IH]; [by apply elem_of_nil in Hp|]. simpl in *.
    apply NoDup_cons in Hnd as [Hu Hnd]. apply elem_of_cons in Hp as [[= -> ->]|Hp].
    + by rewrite bool_decide_eq_true_2.
    + rewrite bool_decide_eq_false_2; [by apply IH|]. intros ->. apply Hu.
      apply list_elem_of_fmap. by exists (uri, p).
Qed.

(** A path that nothing serves is answered by the 404 page. *)
Lemma not_found_response fnmatch s e :
  getMatchServlet fnmatch (m_path (ex_request e)) s = Some NotFoundServlet →
  ∃ e', dispatch_handle fnmatch s e = Ret 0 e' ∧ ex_session e' = ex_session e ∧
    ex_request e' = ex_request e ∧ rs_status (ex_response e') = 404 ∧ rs_body (ex_response e') = RSP_BODY.
Proof.
  intros Hm. unfold dispatch_handle. rewrite bind_gets, Hm. eexists. split; [reflexivity|]. done.
Qed.
End servlet.
Arguments exchange T : clear implicits.
Arguments handler T : clear implicits.
Arguments Servlet T : clear implicits.
Arguments ServletDispatch T : clear implicits.

Definition ex_routes : list (route_op (T := unit)) :=
  [OpAddGlob (str "/a*") (Some NotFoundServlet); OpAdd (str "/a/b") None; OpAddGlob (str "/*") None;
   OpAddGlob (str "/a*") (Some (FunctionServlet None)); OpDel (str "/a/b")].

(** The pattern that was added again has moved behind the general one, which
    now hides it. *)
Lemma routing_witness :
  getMatchServlet (λ _ _, true) (str "/a*") (route_run ex_routes) = None ∧
  getGlobServlet (str "/a*") (route_run ex_routes) = Some (FunctionServlet None).
Proof.
  split.
  - exact (proj1 (routing_refines_history (λ _ _, true) ex_routes (str "/a*"))).
  - apply (proj2 (routing_refines_history (λ _ _, true) ex_routes (str "/a*"))).
    right. left.
Defined.
