(* ===== verification/HttpServer.v ===== *)
(** * HTTP sessions and the server (megalo/http/http_session.cc, http_server.cc)

    [HttpSession] is a stream: [recvRequest] and [sendResponse] are written
    against the operations of [StreamOps], the parser of [HttpParser] and the
    loops of [Stream].  Memory that the code leaves uninitialised is an
    argument: [fresh] is what the read buffer holds, [prior] what the parser's
    memory holds.  [can_alloc] tells which sizes [new] provides, and
    [boost::lexical_cast] is a parameter.  [recvRequest] reads at least one byte
    per round, so [fuel] above the number of bytes the peer sends is enough.
    The session's destructor ([Stream.delete_SocketStream]) is not part of
    [handleClient]: a handler may keep the session. *)
From S2P Require Import Prelude Bytes Util Http HttpDfa HttpParser Stream Servlet.

Section session.
Context {T : Type} `{StreamOps T}.
Context (lexical_cast : bytes → option Z) (can_alloc : Z → bool).
Context (buff_size : Z) (fresh : bytes) (prior : http_parser).

(** Run a method of another object. *)
Definition with_object {S A} (m : M S A) (o : S) : M T (A * S) := λ t,
  match m o with
  | Ret a o => Ret (a, o) t
  | Throw e _ => Throw e t
  | Crash f => Crash f
  end.

Lemma with_object_ret {S A} (m : M S A) o a o' t : m o = Ret a o' → with_object m o t = Ret (a, o') t.
Proof. unfold with_object. by intros ->. Qed.

(** The loop of [recvRequest]: the parser, the buffer and the number of bytes
    in it that follow the headers, or nothing when the session was closed. *)
Fixpoint recv_loop (fuel : nat) (data : bytes) (offset : Z) (parser : HttpRequestParser) :
    M T (option (HttpRequestParser * bytes * Z)) :=
  match fuel with
  | 0%nat => crash Diverges
  | S fuel =>
      r ← st_read (u64 (buff_size - offset));
      let len := r.1 in
      if len <=? 0 then st_close;; mret None else
      let data := splice (Z.to_nat offset) r.2 data in
      if 2 ^ 31 <=? len + offset then crash SignedOverflow else
      let len := len + offset in
      x ← with_object (execute data (u64 len)) parser;
      let '((nparse, data), parser) := x in
      if hasError parser then st_close;; mret None else
      let offset := i32 (u64 (len - nparse)) in
      if offset =? i32 buff_size then st_close;; mret None else
      if negb (isFinished parser =? 0) then mret (Some (parser, data, offset))
      else recv_loop fuel data offset parser
  end.

(** The body, for a positive [length]: what is in the buffer and the rest from
    the stream. *)
Definition recv_body (data : bytes) (offset length_ : Z) : M T (option bytes) :=
  if negb (can_alloc length_) then throw bad_alloc else
  let len := if offset <=? length_ then offset else i32 length_ in
  let part := take (Z.to_nat len) data in
  let left := length_ - offset in
  if 0 <? left then
    r ← readFixSize left;
    if r.1 <=? 0 then st_close;; mret None
    else mret (Some (part ++ r.2 ++
           replicate (Z.to_nat (length_ - Z.of_nat (length part) - Z.of_nat (length r.2))) (chr 0)))
  else mret (Some part).

Definition recvRequest (fuel : nat) : M T (option HttpRequest) :=
  if negb (can_alloc buff_size) then throw bad_alloc else
  o ← recv_loop fuel fresh 0 (new_HttpRequestParser prior);
  match o with
  | None => mret None
  | Some (parser, data, offset) =>
      let length_ := i64 (getContentLength lexical_cast parser) in
      if 0 <? length_ then
        b ← recv_body data offset length_;
        mret (match b with None => None | Some body => Some (init (setBody body (m_data parser))) end)
      else mret (Some (init (m_data parser)))
  end.

Definition sendResponse (rsp : HttpResponse) : M T Z := writeFixSize (rs_dump rsp).

(** ** HttpServer::handleClient *)

Context (fnmatch : bytes → bytes → bool).

Definition with_session {A} (m : M (exchange T) A) (req : HttpRequest) (rsp : HttpResponse) :
    M T (HttpResponse) := λ t,
  match m (Exchange t req rsp) with
  | Ret _ e => Ret (ex_response e) (ex_session e)
  | Throw x e => Throw x (ex_session e)
  | Crash f => Crash f
  end.

Fixpoint serve_loop (fuel : nat) (m_isKeepalive : bool) (m_dispatch : ServletDispatch T) : M T () :=
  match fuel with
  | 0%nat => crash Diverges
  | S f =>
      o ← recvRequest fuel;
      match o with
      | None => mret tt
      | Some req =>
          let rsp := new_HttpResponse (m_version req) (m_close req || negb m_isKeepalive) in
          rsp ← with_session (dispatch_handle fnmatch m_dispatch) req rsp;
          _ ← sendResponse rsp;
          if m_isKeepalive then serve_loop f m_isKeepalive m_dispatch else mret tt
      end
  end.

Definition handleClient (fuel : nat) (m_isKeepalive : bool) (m_dispatch : ServletDispatch T) : M T () :=
  serve_loop fuel m_isKeepalive m_dispatch;; st_close.
End session.

(** ** The parser seen from outside *)

(** Code without an unbounded loop. *)
Definition bounded {S A} (m : M S A) : Prop := ∀ s, m s ≠ Crash Diverges.

Lemma bounded_bind {S A B} (m : M S A) (k : A → M S B) :
  bounded m → (∀ a, bounded (k a)) → bounded (m ≫= k).
Proof.
  intros Hm Hk s. cbv [mbind M_bind]. specialize (Hm s).
  destruct (m s); [apply Hk|discriminate|congruence].
Qed.

Lemma bounded_if {S A} (b : bool) (m k : M S A) : bounded m → bounded k → bounded (if b then m else k).
Proof. by destruct b. Qed.

Lemma bounded_string {S} mem a n : bounded (mem_string (S := S) mem a n).
Proof. intros s. unfold mem_string. by repeat case_match. Qed.

Lemma bounded_action mem p a : bounded (run_action mem p a).
Proof.
  unfold run_action, on_http_field, on_request_method, on_fragment, on_query_string, on_http_version,
    on_request_path, LEN.
  apply bounded_bind; [by intros ?|]. intros q.
  destruct a; cbv zeta; repeat first [apply bounded_if | apply bounded_bind; [|intros ?]];
    first [apply bounded_string | by intros ?].
Qed.

Lemma bounded_actions mem p l : bounded (run_actions mem p l).
Proof.
  induction l as [|a l IH]; simpl; [by intros ?|]. apply bounded_bind; [apply bounded_action|done].
Qed.

Lemma bounded_machine mem l : ∀ cs p, bounded (machine mem l cs p).
Proof.
  induction l as [|c l IH]; intros cs p; [by intros ?|].
  cbn [machine]. apply bounded_bind; [by intros ?|]. intros relaxed.
  destruct (case_of _ _ _) as [j|]; [|by intros ?]. destruct (target j) as [acts n].
  apply bounded_if; [by intros ?|]. apply bounded_bind; [apply bounded_actions|]. intros _.
  apply bounded_if; [by intros ?|apply IH].
Qed.

Lemma bounded_massert {S} (b : bool) : bounded (massert (S := S) b).
Proof. intros s. by destruct b. Qed.

Lemma bounded_execute mem len : bounded (execute mem len).
Proof.
  unfold execute, http_parser_execute. apply bounded_bind; [|by intros ? ?].
  apply bounded_if; [by intros ?|].
  repeat (apply bounded_bind; [first [apply bounded_massert|apply bounded_machine|by intros ?]|intros ?]).
  by intros ?.
Qed.

(** What a call that returns reports is at most what it was given. *)
Lemma execute_reports mem len s n mem' s' :
  0 < len → execute mem len s = Ret (n, mem') s' → 0 ≤ n ≤ len.
Proof.
  intros Hlen H. unfold execute in H. apply bind_Ret_inv in H as (r&s1&H&H').
  injection H' as <- _ _. unfold http_parser_execute in H.
  rewrite (proj2 (Z.eqb_neq len 0)) in H by lia. rewrite bind_gets in H.
  apply bind_Ret_inv in H as (?&?&[_ ->]%massert_inv&H).
  apply bind_Ret_inv in H as ([cs c]&s2&Hm&H).
  apply bind_Ret_inv in H as (?&?&[_ ->]%massert_inv&H). unfold on_parser in H.
  rewrite bind_modify, bind_gets in H. simpl in H.
  apply bind_Ret_inv in H as (u4&s4&[H4%Z.leb_le ->]%massert_inv&H).
  do 4 apply bind_Ret_inv in H as (?&?&[_ ->]%massert_inv&H).
  injection H as <- _. split; [|done]. by apply wrap_range.
Qed.

(** ** What recvRequest does on any stream *)

Section session_laws.
Context {T : Type} `{StreamLaws T}.
Context (lexical_cast : bytes → option Z) (can_alloc : Z → bool).
Context (buff_size : Z) (fresh : bytes) (prior : http_parser).
Context (Hbuff : 0 < buff_size < 2 ^ 31).

#[local] Abbreviation recv_loop := (recv_loop buff_size).
#[local] Abbreviation recv_body := (recv_body can_alloc).
#[local] Abbreviation recvRequest := (recvRequest lexical_cast can_alloc buff_size fresh prior).

(** A run that ends sends nothing and takes from the peer; [k] bytes at least
    if it gives a result, of which [P] holds. *)
Definition receives {A} (P : A → Prop) (k : nat) (r : res T (option A)) (s : T) : Prop :=
  match r with
  | Ret o s' => st_ok s' ∧ st_out s' = st_out s ∧
      match o with
      | Some a => P a ∧ (length (st_in s') + k ≤ length (st_in s))%nat
      | None => (length (st_in s') ≤ length (st_in s))%nat
      end
  | Throw _ _ => True
  | Crash f => f ≠ Diverges
  end.

Lemma receives_close {A} P k s s0 :
  st_ok s → st_out s = st_out s0 → (length (st_in s) ≤ length (st_in s0))%nat →
  receives P k ((st_close;; mret (@None A)) s) s0.
Proof.
  intros Hok Ho Hi. destruct (law_close s Hok) as (s'&Hc&Hok'&Hi'&Ho'). rewrite (bind_ret _ _ _ _ _ Hc).
  simpl. split; [done|]. split; [congruence|]. by rewrite Hi'.
Qed.

Lemma recv_loop_receives fuel : ∀ data offset parser s, st_ok s →
  0 ≤ offset < buff_size → (length (st_in s) < fuel)%nat →
  receives (λ x, 0 ≤ x.2) 1 (recv_loop fuel data offset parser s) s.
Proof.
  induction fuel as [|fuel IH]; intros data offset parser s Hok Ho Hf; [lia|]. cbn [HttpServer.recv_loop].
  rewrite (wrap_id 64) by (unfold unsigned_in; lia).
  destruct (law_read (buff_size - offset) s Hok) as (r&d&s1&Hr&Hok1&Hout&Hin&Hd&Hrn&_); [lia|].
  mstep Hr. cbn [fst snd]. assert (length (st_in s) = length d + length (st_in s1))%nat as Hl
    by (by rewrite Hin, length_app).
  destruct (Z.leb_spec r 0) as [Hr0|Hr0]; [apply receives_close; [done|done|lia]|].
  rewrite (proj2 (Z.leb_gt (2 ^ 31) _)) by lia.
  unfold with_object at 1. cbv [mbind M_bind].
  pose proof (bounded_execute (splice (Z.to_nat offset) d data) (u64 (r + offset)) parser) as Hb.
  destruct (execute _ _ parser) as [[n data'] parser'| |f] eqn:He; [|done|by intros ->].
  rewrite wrap_id in He by (unfold unsigned_in; lia).
  apply execute_reports in He; [|lia].
  destruct (hasError parser'); [apply receives_close; [done|done|lia]|].
  rewrite (wrap_id 64) by (unfold unsigned_in; lia). rewrite (swrap_id 32) by (unfold signed_in; lia).
  rewrite (swrap_id 32 buff_size) by (unfold signed_in; lia).
  destruct (Z.eqb_spec (r + offset - n) buff_size) as [|Hne]; [apply receives_close; [done|done|lia]|].
  destruct (negb _); [simpl; split_and!; done || lia|].
  specialize (IH data' (r + offset - n) parser' s1 Hok1 ltac:(lia) ltac:(lia)).
  unfold receives in *. destruct (recv_loop fuel _ _ _ s1) as [o s2| |]; [|done..].
  destruct IH as (Hok2&Ho2&Hi2). split; [done|]. split; [congruence|]. destruct o; intuition lia.
Qed.

Lemma recv_body_receives data offset length_ s :
  st_ok s → length_ < 2 ^ 63 → 0 ≤ offset → receives (λ _, True) 0 (recv_body data offset length_ s) s.
Proof.
  intros Hok Hl Ho. unfold HttpServer.recv_body. destruct (negb _); [done|]. cbv zeta.
  destruct (Z.ltb_spec 0 (length_ - offset)) as [Hleft|Hleft]; [|by simpl; split_and!; try lia].
  unfold readFixSize. cbv zeta. rewrite (swrap_id 64) by (unfold signed_in; lia).
  destruct (read_loop_ok (Z.to_nat (length_ - offset)) [] (length_ - offset) s)
    as (o&d&s1&Hr&Hok1&Hout&Hin&_); [done..|].
  rewrite bind_assoc. mstep Hr. rewrite bind_mret. cbn [fst snd].
  assert (length (st_in s) = length d + length (st_in s1))%nat as Hlen by (by rewrite Hin, length_app).
  case_match; [apply receives_close; [done|done|lia]|]. simpl. split_and!; done || lia.
Qed.

Lemma recvRequest_receives fuel s :
  st_ok s → (length (st_in s) < fuel)%nat → receives (λ _, True) 1 (recvRequest fuel s) s.
Proof.
  intros Hok Hf. unfold HttpServer.recvRequest. destruct (negb _); [done|].
  pose proof (recv_loop_receives fuel fresh 0 (new_HttpRequestParser prior) s Hok ltac:(lia) Hf) as Hl.
  cbv [mbind M_bind]. destruct (recv_loop fuel _ _ _ s) as [o s1| |]; [|done..].
  destruct Hl as (Hok1&Ho&Hi). destruct o as [[[parser data] offset]|]; [|done].
  destruct Hi as [Hoff Hi]. cbn [snd] in Hoff.
  set (len := i64 _). destruct (Z.ltb_spec 0 len) as [Hpos|Hpos]; [|done].
  assert (len < 2 ^ 63) as Hlen by (apply (swrap_range 64); lia).
  pose proof (recv_body_receives data offset len s1 Hok1 Hlen Hoff) as Hb.
  destruct (recv_body _ _ _ s1) as [b s2| |]; [|done..].
  destruct Hb as (Hok2&Ho2&Hi2). destruct b; simpl; (split; [done|]); (split; [congruence|]); [split; [done|]|]; lia.
Qed.

(** ** A conversation *)

Context (fnmatch : bytes → bytes → bool) (m_isKeepalive : bool) (m_dispatch : ServletDispatch T).
#[local] Abbreviation serve_loop :=
  (serve_loop lexical_cast can_alloc buff_size fresh prior fnmatch).
#[local] Abbreviation handleClient :=
  (handleClient lexical_cast can_alloc buff_size fresh prior fnmatch).

(** The servlets return and leave the session to the server. *)
Definition well_behaved : Prop :=
  ∀ e, ∃ x e', dispatch_handle fnmatch m_dispatch e = Ret x e' ∧ ex_session e' = ex_session e.

(** What may be sent for a request: the dispatcher ran on it with a new
    response of its version, and a prefix of the text of the result was
    written. *)
Definition answers (req : HttpRequest) (out : bytes) : Prop :=
  ∃ t x e k,
    dispatch_handle fnmatch m_dispatch
      (Exchange t req (new_HttpResponse (m_version req) (m_close req || negb m_isKeepalive))) = Ret x e ∧
    out = take k (rs_dump (ex_response e)).

(** Requests received one after the other, each answered before the next is
    read. *)
Inductive conversation : T → list (HttpRequest * bytes) → T → Prop :=
  | conversation_end s s' : st_out s' = st_out s → conversation s [] s'
  | conversation_step fuel s req s1 out s2 l s3 :
      recvRequest fuel s = Ret (Some req) s1 → st_out s1 = st_out s → answers req out →
      st_in s2 = st_in s1 → st_out s2 = st_out s1 ++ out → conversation s2 l s3 →
      conversation s ((req, out) :: l) s3.

Lemma conversation_out s l s' : conversation s l s' → st_out s' = st_out s ++ concat l.*2.
Proof.
  induction 1 as [s s' ->|fuel s req s1 out s2 l s3 _ Ho1 _ _ Ho _ ->]; simpl.
  - by rewrite app_nil_r.
  - by rewrite Ho, Ho1, app_assoc.
Qed.

(** One answer. *)
Lemma serve_answer req s : st_ok s → well_behaved →
  ∃ out s1 s2 rsp r,
    with_session (dispatch_handle fnmatch m_dispatch) req
      (new_HttpResponse (m_version req) (m_close req || negb m_isKeepalive)) s = Ret rsp s1 ∧
    sendResponse rsp s1 = Ret r s2 ∧
    answers req out ∧ st_ok s2 ∧ st_in s2 = st_in s ∧ st_out s2 = st_out s ++ out.
Proof.
  intros Hok Hw.
  destruct (Hw (Exchange s req (new_HttpResponse (m_version req) (m_close req || negb m_isKeepalive))))
    as (x&e&He&Hs).
  destruct (write_loop_ok (length (rs_dump (ex_response e))) (rs_dump (ex_response e)) (ex_session e))
    as (o&k&s'&Hr&Hok'&Hi&Ho&_); [by rewrite Hs|done|].
  exists (take k (rs_dump (ex_response e))), (ex_session e), s', (ex_response e). eexists.
  unfold with_session, sendResponse, writeFixSize. rewrite He. mstep Hr. split; [done|].
  split; [reflexivity|]. rewrite Hs in Hi, Ho. split; [by exists s, x, e, k|]. by split_and!.
Qed.

(** The server's side of a connection. *)
Lemma handle_client_ok fuel s (Hok : st_ok s) (Hw : well_behaved) (Hf : (length (st_in s) < fuel)%nat) :
  match handleClient fuel m_isKeepalive m_dispatch s with
  | Ret _ s' => st_ok s' ∧ ∃ l, conversation s l s' ∧ st_out s' = st_out s ++ concat l.*2 ∧
      (m_isKeepalive = false → (length l ≤ 1)%nat)
  | Throw _ _ => True
  | Crash f => f ≠ Diverges
  end.
Proof.
  assert (match handleClient fuel m_isKeepalive m_dispatch s with
    | Ret _ s' => st_ok s' ∧ ∃ l, conversation s l s' ∧ (m_isKeepalive = false → (length l ≤ 1)%nat)
    | Throw _ _ => True | Crash f => f ≠ Diverges end) as Hl.
  2: { destruct (handleClient _ _ _ s) as [u s'| |]; [|done..]. destruct Hl as (Hok'&l&Hc&Hl).
    split; [done|]. exists l. split; [done|]. split; [by apply conversation_out|done]. }
  revert s Hok Hf. unfold HttpServer.handleClient.
  induction fuel as [|fuel IH]; intros s Hok Hf; [lia|]. cbn [HttpServer.serve_loop].
  rewrite bind_assoc. cbv [mbind M_bind].
  pose proof (recvRequest_receives (S fuel) s Hok Hf) as Hr.
  destruct (recvRequest (S fuel) s) as [[req|] s1| |f] eqn:Er; [| |done..].
  2: { destruct Hr as (Hok1&Ho&_). destruct (law_close s1 Hok1) as (s2&Hc&Hok2&_&Ho2). simpl. rewrite Hc.
    split; [done|]. exists []. split; [constructor; congruence|simpl; lia]. }
  destruct Hr as (Hok1&Ho&_&Hi). cbv zeta.
  destruct (serve_answer req s1 Hok1 Hw) as (out&s2&s3&rsp&r&Hh&Hsend&Ha&Hok3&Hin&Hout). rewrite Hh, Hsend.
  assert (∀ l s', conversation s3 l s' → conversation s ((req, out) :: l) s') as Hstep
    by (intros l s' Hc; by apply (conversation_step (S fuel) s req s1 out s3)).
  destruct m_isKeepalive eqn:Ek.
  - specialize (IH s3 Hok3 ltac:(rewrite Hin; lia)). cbv [mbind M_bind] in IH.
    destruct (serve_loop fuel _ _ s3) as [u s4| |]; [|done..].
    destruct (st_close s4) as [u' s5| |]; [|done..]. destruct IH as (Hok5&l&Hc&_).
    split; [done|]. exists ((req, out) :: l). split; [by apply Hstep|done].
  - simpl. destruct (law_close s3 Hok3) as (s4&Hc&Hok4&_&Ho4). rewrite Hc. split; [done|].
    exists [(req, out)]. split; [|simpl; lia]. by apply Hstep, conversation_end.
Qed.

End session_laws.

(** ** A request and its body *)

Section recv_request.
Context {T : Type} `{StreamLaws T}.
Context (lexical_cast : bytes → option Z) (can_alloc : Z → bool).
Context (buff_size : Z) (fresh : bytes) (prior : http_parser).

(** The length of the body that the headers announce, an [int64_t]. *)
Definition announced (hs : list (bytes * bytes)) : Z :=
  i64 (default 0 (last_value (str "content-length") None hs ≫= lexical_cast)).

Lemma content_length_announced s m path query frag v hs :
  m_data s = parsed_request m path query frag v hs (new_HttpRequest 17 true) →
  i64 (getContentLength lexical_cast s) = announced hs.
Proof.
  intros Hd. unfold getContentLength, getAs, announced. rewrite Hd.
  destruct (parsed_request_fields m path query frag v hs (str "content-length"))
    as (_&_&_&_&_&_&_&Hf).
  rewrite <- Hf. by destruct (map_find _ _).
Qed.

(** [recv_body] on a buffer that starts with the [post] bytes after the
    headers. *)
Lemma recv_body_spec data post L s :
  st_ok s → take (length post) data = post → 0 < L < 2 ^ 31 → can_alloc L = true →
  ∃ b s', recv_body can_alloc data (Z.of_nat (length post)) L s = Ret b s' ∧ st_ok s' ∧ st_out s' = st_out s ∧
    match b with
    | Some body => body = take (Z.to_nat L) (post ++ st_in s) ∧ Z.of_nat (length body) = L ∧
        st_in s' = drop (Z.to_nat L - length post) (st_in s)
    | None => Z.of_nat (length post) < L
    end.
Proof.
  intros Hok Hpost HL Hca. unfold recv_body. rewrite Hca. cbn [negb]. cbv zeta.
  destruct (Z.leb_spec (Z.of_nat (length post)) L) as [Hle|Hgt].
  - rewrite Nat2Z.id, Hpost.
    destruct (Z.ltb_spec 0 (L - Z.of_nat (length post))) as [Hlt|Hge].
    + destruct (readFixSize_ok (L - Z.of_nat (length post)) s) as (r&d&s1&Hr&Hok1&Ho&Hi&Hd); [done|lia|].
      mstep Hr. cbn [fst snd]. destruct Hd as [[-> Hd]|[Hr0 Hd]].
      * rewrite (proj2 (Z.leb_gt _ _)) by lia. eexists _, s1. split; [reflexivity|]. split; [done|]. split; [done|].
        replace (Z.to_nat _) with 0%nat by lia. simpl replicate. rewrite app_nil_r, Hi, length_app.
        split_and!; [|lia|by replace (Z.to_nat L - length post)%nat with (length d) by lia; rewrite drop_app_length].
        rewrite app_assoc. symmetry.
        replace (Z.to_nat L) with (length (post ++ d)) by (rewrite length_app; lia). apply take_app_length.
      * rewrite (proj2 (Z.leb_le _ _)) by lia. destruct (law_close s1 Hok1) as (s2&Hc&Hok2&_&Ho2). mstep Hc.
        exists None, s2. split; [reflexivity|]. split; [done|]. split; [congruence|lia].
    + exists (Some post), s. split; [reflexivity|]. split; [done|]. split; [done|].
      replace (Z.to_nat L) with (length post) by lia. rewrite take_app_length, Nat.sub_diag.
      split_and!; done || lia.
  - rewrite swrap_id by (done || unfold signed_in; lia). rewrite (proj2 (Z.ltb_ge 0 _)) by lia.
    eexists _, s. split; [reflexivity|]. split; [done|]. split; [done|].
    assert (take (Z.to_nat L) data = take (Z.to_nat L) post) as ->
      by (rewrite <- Hpost, take_take; f_equal; lia).
    rewrite take_app_le by lia. split; [done|]. split; [rewrite length_take; lia|].
    by replace (Z.to_nat L - length post)%nat with 0%nat by lia.
Qed.

Lemma recv_request_ok fuel s s1 m path query frag v hs post (Hok : st_ok s)
    (Hbuff : 0 < buff_size < 2 ^ 31) (Hfresh : Z.of_nat (length fresh) = buff_size)
    (Hca : ∀ n, n < 2 ^ 31 → can_alloc n = true) (Hhd : p_header_done prior = false)
    (Hm : parseable m) (Hp : path_ok path = true) (Hq : opt_ok query = true)
    (Hf : opt_ok frag = true) (Hv : v = 16 ∨ v = 17) (Hhs : Forall (λ x, field_ok x = true) hs)
    (HL : announced hs < 2 ^ 31)
    (Hread : let t := request_text m path query frag v hs ++ post in
       st_read buff_size s = Ret (Z.of_nat (length t), t) s1) :
  ∃ o s', recvRequest lexical_cast can_alloc buff_size fresh prior (S fuel) s = Ret o s' ∧
    st_ok s' ∧ st_out s' = st_out s ∧
    match o with
    | Some req =>
        ∃ body, req = init (setBody body (parsed_request m path query frag v hs (new_HttpRequest 17 true))) ∧
          body = take (Z.to_nat (announced hs)) (post ++ st_in s1) ∧
          Z.of_nat (length body) = Z.max 0 (announced hs) ∧
          st_in s' = drop (Z.to_nat (announced hs) - length post) (st_in s1)
    | None => Z.of_nat (length post) < announced hs
    end.
Proof.
  cbv zeta in Hread. set (t := request_text m path query frag v hs) in *.
  assert (0 < length t)%nat as Ht by (unfold t, request_text; rewrite length_app, length_cons; lia).
  destruct (law_read buff_size s Hok) as (r&d&s1'&Hr&Hok1&Ho&_&_&Hle&_); [lia|]. rewrite Hread in Hr.
  injection Hr as <- <- <-.
  assert (splice 0 (t ++ post) fresh = (t ++ post) ++ drop (length (t ++ post)) fresh) as Hmem by done.
  destruct (execute_request (splice 0 (t ++ post) fresh) post (drop (length (t ++ post)) fresh)
    m path query frag v hs prior) as (mem'&p&He&Htk&_&Hfin&Herr&Hd); try done.
  { rewrite length_splice; lia. }
  fold t in He. unfold recvRequest. rewrite (Hca buff_size) by lia. cbn [negb recv_loop].
  rewrite Z.sub_0_r, wrap_id by (unfold unsigned_in; lia). rewrite bind_assoc. mstep Hread. cbn [fst snd].
  rewrite (proj2 (Z.leb_gt _ 0)) by (rewrite length_app; lia).
  rewrite Z.add_0_r, (proj2 (Z.leb_gt (2 ^ 31) _)) by lia.
  rewrite (wrap_id 64 (Z.of_nat _)) by (unfold unsigned_in; lia).
  rewrite bind_assoc. mstep (with_object_ret _ _ _ _ s1 He). cbv beta iota.
  rewrite Herr. replace (_ - Z.of_nat (length t)) with (Z.of_nat (length post))
    by (rewrite length_app; lia).
  rewrite length_app in Hle.
  rewrite (wrap_id 64) by (unfold unsigned_in; lia). rewrite (swrap_id 32 (Z.of_nat _)) by (unfold signed_in; lia).
  rewrite (swrap_id 32 buff_size) by (unfold signed_in; lia).
  rewrite (proj2 (Z.eqb_neq _ buff_size)) by lia. rewrite Hfin. cbn [negb Z.eqb]. rewrite bind_mret.
  cbv zeta. rewrite (content_length_announced p m path query frag v hs Hd), Hd.
  destruct (Z.ltb_spec 0 (announced hs)) as [Hpos|Hneg].
  - destruct (recv_body_spec mem' post (announced hs) s1) as (b&s2&Hb&Hok2&Ho2&Hbody); [done|done|lia|apply Hca; lia|].
    mstep Hb. eexists _, s2. split; [reflexivity|]. split; [done|]. split; [congruence|].
    destruct b as [body|]; [|done]. exists body. split; [done|].
    rewrite Z.max_r by lia. done.
  - eexists _, s1. split; [reflexivity|]. split; [done|]. split; [done|]. exists [].
    replace (Z.to_nat (announced hs)) with 0%nat by lia. rewrite Z.max_l by lia. split_and!; try done.
    f_equal. destruct (parsed_request_fields m path query frag v hs []) as (_&_&_&_&_&Hbd&_).
    destruct (parsed_request _ _ _ _ _ _ _). simpl in *. by rewrite <- Hbd.
Qed.

End recv_request.

(** ** Examples *)

(** Decimal numbers, as [boost::lexical_cast<uint64_t>] reads them. *)
Definition ex_cast (b : bytes) : option Z :=
  if bool_decide (b ≠ []) && forallb (λ c, (48 <=? code c) && (code c <=? 57)) b
  then Some (digits_value b) else None.

Definition ex_alloc (n : Z) : bool := n <? 2 ^ 40.
Definition ex_fresh : bytes := replicate 100 (chr 0).
Definition ex_post_text : bytes :=
  request_text POST (str "/a") None None 17 [(str "content-length", str "6")].

(** Part of the body comes with the headers. *)
Definition ex_session : SocketStream wire :=
  mkSocketStream (Some (Wire [ex_post_text ++ str "ab"; str "cde"; str "fgh"] [] 10 true)) true.


(** A connection that asks for two pages and then stops. *)
Definition ex_get : bytes := request_text GET (str "/x") None None 17 [(str "connection", str "close")].
Definition ex_client : SocketStream wire :=
  mkSocketStream (Some (Wire [ex_get; ex_get] [] 1000 true)) true.
Definition ex_handle (keepalive : bool) : res (SocketStream wire) () :=
  handleClient ex_cast ex_alloc 100 ex_fresh zero_memory (λ _ _, false) 200 keepalive
    new_ServletDispatch ex_client.
Definition ex_404 : bytes :=
  rs_dump (rs_setBody RSP_BODY (rs_setHeader (str "Server") (str "megalo/1.0.0")
    (rs_setHeader (str "Content-type") (str "text/html") (rs_setStatus 404 (new_HttpResponse 17 true))))).


(** The request asks to close the connection; the loop looks at [m_isKeepalive]
    alone and goes on. *)
Example keepalive_ignores_close :
  match ex_handle true with Ret _ s' => st_out s' = ex_404 ++ ex_404 | _ => False end.
Proof. vm_compute. reflexivity. Qed.

(** A request whose headers come in two segments stops the process. *)
Example split_headers_abort :
  recvRequest ex_cast ex_alloc 100 ex_fresh zero_memory 9
    (mkSocketStream (Some (Wire [take 36 ex_get; drop 36 ex_get] [] 10 true)) true) = Crash AssertFailed.
Proof. vm_compute. reflexivity. Qed.

(** Two requests in one segment: the second is lost. *)
Example pipelined_request_lost :
  match recvRequest ex_cast ex_alloc 200 (replicate 200 (chr 0)) zero_memory 9
    (mkSocketStream (Some (Wire [ex_get ++ ex_get] [] 10 true)) true) with
  | Ret (Some _) s' => st_in s' = []
  | _ => False
  end.
Proof. vm_compute. reflexivity. Qed.
