(* ===== verification/HttpExchange.v ===== *)
(** * A request and its answer (megalo/http)

    The parts put together: a client writes a request with
    [HttpRequest::dump], the server's session receives it, the dispatcher finds
    the servlet, the session writes the response, and the client reads it with
    [HttpResponseParser].  Nothing is modelled here; the definitions are those
    of Http, HttpParser, HttpClientParser, Servlet and HttpServer. *)
From S2P Require Import Prelude Bytes Util Http HttpDfa HttpClientDfa HttpClientParser HttpParser Stream Servlet HttpServer.

(** What the servlet sees of a request without a body. *)
Definition same_request (r req : HttpRequest) : Prop :=
  m_method req = m_method r ∧ m_path req = m_path r ∧ m_query req = m_query r ∧
  m_fragment req = m_fragment r ∧ m_version req = m_version r ∧ m_body req = [] ∧ m_close req = m_close r ∧
  ∀ key def, is_connection key = false → getHeader key def req = getHeader key def r.

(** What the client sees of a response without a body. *)
Definition same_response (rsp seen : HttpResponse) : Prop :=
  rs_version seen = rs_version rsp ∧ rs_status seen = rs_status rsp ∧ rs_reason seen = dump_reason rsp ∧
  rs_getHeader (str "connection") [] seen = (if rs_close rsp then str "close" else str "keep-alive") ∧
  ∀ key def, is_set_cookie key = false → is_connection key = false →
    rs_getHeader key def seen = rs_getHeader key def rsp.

(** Requests that [dump] writes as a text that can be read. *)
Record sendable (r : HttpRequest) : Prop := {
  send_method : parseable (m_method r);
  send_path : path_ok (m_path r) = true;
  send_query : uri_text query_char (m_query r) = true;
  send_fragment : uri_text query_char (m_fragment r) = true;
  send_version : m_version r = 16 ∨ m_version r = 17;
  send_body : m_body r = [];
  send_websocket : m_websocket r = false;
  send_order : map_wf (m_headers r);
  send_fields : Forall (λ x, field_ok x = true) (m_headers r);
  send_length : map_find (str "content-length") (m_headers r) = None
}.
Record replyable (rsp : HttpResponse) : Prop := {
  reply_size : Z.of_nat (length (rs_dump rsp)) < 2 ^ 31 - 1;
  reply_version : rs_version rsp = 16 ∨ rs_version rsp = 17;
  reply_status : 0 ≤ rs_status rsp < 2 ^ 31;
  reply_body : rs_body rsp = [];
  reply_websocket : rs_websocket rsp = false;
  reply_reason : forallb text_char (rs_reason rsp) = true;
  reply_order : map_wf (rs_headers rsp);
  reply_fields : Forall (λ x, rs_field_ok x = true) (rs_headers rsp);
  reply_cookies : Forall (λ i, rs_field_ok (str "Set-Cookie", i) = true) (rs_cookies rsp)
}.

(** [init] looks at the [connection] header alone. *)
Lemma init_spec r :
  m_method (init r) = m_method r ∧ m_path (init r) = m_path r ∧ m_query (init r) = m_query r ∧
  m_fragment (init r) = m_fragment r ∧ m_version (init r) = m_version r ∧ m_body (init r) = m_body r ∧
  m_headers (init r) = m_headers r ∧
  m_close (init r) = (let conn := getHeader (str "connection") [] r in
    if bool_decide (conn = []) then m_close r else negb (strcasecmp conn (str "keep-alive") =? 0)).
Proof.
  unfold init. cbv zeta. case_bool_decide; [done|]. by destruct (strcasecmp _ _ =? 0).
Qed.

Lemma request_seen r : sendable r →
  same_request r (init (setBody [] (parsed_request (m_method r) (m_path r) (some_if (m_query r))
    (some_if (m_fragment r)) (m_version r) (dump_fields r) (new_HttpRequest 17 true)))).
Proof.
  intros Hr. set (q := parsed_request _ _ _ _ _ _ _).
  assert (∀ key, _) as Hfields by (intros key; exact (parsed_request_fields (m_method r) (m_path r) (some_if (m_query r))
    (some_if (m_fragment r)) (m_version r) (dump_fields r) key)).
  destruct (Hfields []) as (H1&H2&H3&H4&H5&_). fold q in H1, H2, H3, H4, H5.
  assert (∀ key def, getHeader key def (setBody [] q) =
    if is_connection key then (if m_close r then str "close" else str "keep-alive") else getHeader key def r) as Hh.
  { intros key def. unfold getHeader. change (m_headers (setBody [] q)) with (m_headers q). rewrite !map_get_find.
    destruct (Hfields key) as (_&_&_&_&_&_&_&Hk). fold q in Hk. rewrite Hk, dump_fields_value by apply Hr.
    by rewrite (send_websocket r Hr). }
  destruct (init_spec (setBody [] q)) as (I1&I2&I3&I4&I5&I6&I7&I8).
  assert (∀ l, default [] (some_if l) = l) as Hsome by (by intros [|]). rewrite Hsome in H3, H4.
  split_and!; [by rewrite I1|by rewrite I2|by rewrite I3|by rewrite I4|by rewrite I5|by rewrite I6| |].
  - rewrite I8, Hh. change (is_connection (str "connection")) with true. cbv iota zeta. by destruct (m_close r).
  - intros key def Hk. unfold getHeader. rewrite I7. fold (getHeader key def (setBody [] q)). by rewrite Hh, Hk.
Qed.

Lemma response_seen rsp prior : replyable rsp → ∃ mem' s,
  HttpClientParser.execute (rs_dump rsp ++ [chr 0]) (Z.of_nat (length (rs_dump rsp))) false (new_HttpResponseParser prior) =
    Ret (Z.of_nat (length (rs_dump rsp)), mem') s ∧
  HttpClientParser.isFinished s = 1 ∧ HttpClientParser.hasError s = false ∧ same_response rsp (rp_data s).
Proof.
  intros Hr. destruct (dump_read_back rsp prior) as (mem'&s&He&Hf&Herr&Hv&Hs&Hre&Hh); try apply Hr.
  exists mem', s. do 3 (split; [done|]). unfold same_response. split_and!; try done.
  - rewrite Hh by done. by rewrite (reply_websocket rsp Hr).
  - intros key def Hc Hk. rewrite Hh, Hk by done. by rewrite andb_false_r.
Qed.

Section exchange.
Context {T : Type} `{StreamLaws T}.
Context (lexical_cast : bytes → option Z) (can_alloc : Z → bool).
Context (buff_size : Z) (fresh : bytes) (prior : http_parser) (fnmatch : bytes → bytes → bool).
Context (Hbuff : 0 < buff_size < 2 ^ 31) (Hfresh : Z.of_nat (length fresh) = buff_size).
Context (Hca : ∀ n, n < 2 ^ 31 → can_alloc n = true) (Hhd : p_header_done prior = false).

(** The session receives the request that was dumped. *)
Lemma dumped_received fuel s s1 r : st_ok s → sendable r →
  st_read buff_size s = Ret (Z.of_nat (length (dump r)), dump r) s1 →
  ∃ req s', recvRequest lexical_cast can_alloc buff_size fresh prior (S fuel) s = Ret (Some req) s' ∧
    same_request r req ∧ st_ok s' ∧ st_out s' = st_out s ∧ st_in s' = st_in s1.
Proof.
  intros Hok Hr Hread. pose proof (dump_request_text r (send_body r Hr) (send_version r Hr)) as Hd.
  assert (announced lexical_cast (dump_fields r) = 0) as Hann.
  { unfold announced. pose proof (dump_fields_value r (str "content-length")) as Hv.
    destruct (last_value (str "content-length") None (dump_fields r)) as [v|]; [|done].
    pose proof (Hv [] (send_order r Hr)) as H1. pose proof (Hv [chr 0] (send_order r Hr)) as H2.
    rewrite (send_websocket r Hr), (send_length r Hr) in H1, H2. change (is_connection (str "content-length")) with false in H1, H2.
    cbn in H1, H2. congruence. }
  destruct (recv_request_ok lexical_cast can_alloc buff_size fresh prior fuel s s1 (m_method r) (m_path r)
    (some_if (m_query r)) (some_if (m_fragment r)) (m_version r) (dump_fields r) []) as (o&s'&Ho&Hok'&Hout&Hreq);
    [done..|apply Hr|apply Hr|apply some_if_ok, Hr|apply some_if_ok, Hr|apply Hr|apply dump_fields_ok, Hr|lia
    |by rewrite app_nil_r, <- Hd|].
  rewrite Hann in Hreq. destruct o as [req|]; [|simpl in Hreq; lia]. destruct Hreq as (body&->&->&_&Hin).
  eexists _, s'. split; [exact Ho|]. split; [by apply request_seen|]. split; [done|]. split; [done|]. by rewrite Hin.
Qed.

(** A page asked for and served. *)
Lemma page_served_ok fuel s s1 (r : HttpRequest) (m_dispatch : ServletDispatch T) slt
    (serve : HttpRequest → HttpResponse → HttpResponse) (prior' : httpclient_parser)
    (Hok : st_ok s) (Hr : sendable r)
    (Hread : st_read buff_size s = Ret (Z.of_nat (length (dump r)), dump r) s1)
    (Hroute : getMatchServlet fnmatch (m_path r) m_dispatch = Some slt)
    (Hserve : ∀ t req rsp, ∃ x, servlet_handle slt (Exchange t req rsp) = Ret x (Exchange t req (serve req rsp)))
    (Hreply : ∀ req, same_request r req → replyable (serve req (new_HttpResponse (m_version r) true))) :
  ∃ req s2 out, same_request r req ∧
    handleClient lexical_cast can_alloc buff_size fresh prior fnmatch (S fuel) false m_dispatch s = Ret tt s2 ∧
    st_ok s2 ∧ st_in s2 = st_in s1 ∧ st_out s2 = st_out s ++ out ∧
    let rsp := serve req (new_HttpResponse (m_version r) true) in
    out `prefix_of` rs_dump rsp ∧
    (out = rs_dump rsp → ∃ mem' p,
      HttpClientParser.execute (out ++ [chr 0]) (Z.of_nat (length out)) false (new_HttpResponseParser prior') =
        Ret (Z.of_nat (length out), mem') p ∧
      HttpClientParser.isFinished p = 1 ∧ HttpClientParser.hasError p = false ∧ same_response rsp (rp_data p)).
Proof.
  destruct (dumped_received fuel s s1 r Hok Hr Hread) as (req&s'&Hrecv&Hreq&Hok'&Hout&Hin).
  set (rsp := serve req (new_HttpResponse (m_version r) true)).
  assert (∃ x, dispatch_handle fnmatch m_dispatch (Exchange s' req (new_HttpResponse (m_version req) true)) =
    Ret x (Exchange s' req rsp)) as (x&Hx).
  { assert (m_path req = m_path r ∧ m_version req = m_version r) as [Hp Hv] by (by destruct Hreq as (_&?&_&_&?&_)).
    unfold dispatch_handle. rewrite bind_gets. cbn [ex_request]. rewrite Hp, Hroute.
    destruct (Hserve s' req (new_HttpResponse (m_version req) true)) as (y&Hy). exists 0.
    rewrite (bind_ret _ _ _ _ _ Hy). by rewrite Hv. }
  destruct (write_loop_ok (length (rs_dump rsp)) (rs_dump rsp) s') as (o&k&s3&Hw&Hok3&Hwi&Hwo&_); [done..|].
  destruct (law_close s3 Hok3) as (s4&Hc&Hok4&Hci&Hco).
  exists req, s4, (take k (rs_dump rsp)). split; [done|]. split; [|split; [done|split; [congruence|split; [congruence|split]]]].
  - unfold handleClient. cbn [serve_loop]. rewrite bind_assoc. mstep Hrecv. cbv zeta. rewrite orb_true_r, bind_assoc.
    rewrite (bind_ret (with_session _ _ _) _ s' rsp s').
    2: { unfold with_session. by rewrite Hx. }
    unfold sendResponse, writeFixSize. rewrite !bind_assoc. mstep Hw. rewrite bind_mret, bind_mret. exact Hc.
  - exists (drop k (rs_dump rsp)). by rewrite take_drop.
  - intros ->. by apply response_seen, Hreply.
Qed.

End exchange.

(** ** Examples *)

(** A servlet that sends the client elsewhere. *)
Definition go_home (req : HttpRequest) (rsp : HttpResponse) : HttpResponse := setRedirect (str "/home") rsp.
Definition redirect : Servlet (SocketStream wire) :=
  FunctionServlet (Some (e ← gets id; on_response (go_home (ex_request e));; mret 0)).
Definition ex_page : HttpRequest :=
  Request GET 17 true false 0 (str "/x") (str "a=b") [] [] [(str "Accept", str "*/*")] [] [].
Definition ex_conn : SocketStream wire := mkSocketStream (Some (Wire [dump ex_page] [] 1000 true)) true.
Definition ex_routes : ServletDispatch (SocketStream wire) := addServlet (str "/x") (Some redirect) new_ServletDispatch.


(** The page the server has for unknown paths has a body, and its own client
    cannot read it: the empty line that ends the headers is missing. *)
Example not_found_unreadable :
  match HttpClientParser.execute (ex_404 ++ [chr 0]) (Z.of_nat (length ex_404)) false (new_HttpResponseParser zero_client) with
  | Ret _ s => HttpClientParser.isFinished s ≠ 1
  | _ => False
  end.
Proof. by vm_compute. Qed.
