(* ===== verification/Connection.v ===== *)
(** * Connections (megalo/socket_stream.cc on megalo/socket.cc on megalo/hook.cc)

    A [SocketStream] over a [Socket] whose calls are the hooked ones, on an
    environment that answers the original functions.  What the environment promises
    is [NetLaws]: calls are not interrupted, a call that would block says [EAGAIN] a
    bounded number of times in a row, bytes are delivered in order, and waiting
    loses none.  Such a stream satisfies [StreamLaws], so that what is proved
    of streams, sessions and servers holds of it. *)
From S2P Require Import Prelude Bytes ByteArray Util Address Hook Http HttpDfa HttpParser HttpClientDfa HttpClientParser.
From S2P Require Import Stream StreamArray Socket Servlet HttpServer HttpExchange.
#[local] Open Scope Z_scope.

(** ** What the environment promises *)

(** [net_ok] are the states it gets into; [net_in] is what the peer of a
    descriptor has still to deliver, [net_out] what it was sent; [net_delay] is how
    often the next call may still have to be repeated. *)
Class NetLaws (E : Type) `{KernelOps E} `{WaitOps E} `{NetOps E} := {
  net_ok : E → Prop;
  net_in : E → Z → bytes;
  net_out : E → Z → bytes;
  net_delay : E → nat;
  net_patience : nat;
  net_kept (e e' : E) := net_ok e' ∧ ∀ fd, net_in e' fd = net_in e fd ∧ net_out e' fd = net_out e fd;
  (* an operation that moves no bytes and makes no call take longer *)
  net_quiet A (m : M E A) := ∀ e, net_ok e → ∃ a e', m e = Ret a e' ∧ net_kept e e' ∧ (net_delay e' ≤ net_delay e)%nat;
  law_delay e : net_ok e → (net_delay e < net_patience)%nat;
  law_present e : net_ok e → io_present e = true;
  law_quiet_arm to fd ev : net_quiet Z (io_addConditionTimer to fd ev);
  law_quiet_disarm i : net_quiet () (io_cancelTimer i);
  law_quiet_add fd ev : net_quiet (Z * Z) (io_addEvent fd ev);
  law_quiet_yield : net_quiet (Z * Z) io_yield;
  law_quiet_cancel fd : net_quiet bool (io_cancelAll fd);
  law_quiet_close fd : net_quiet (Z * Z) (k_close fd);
  law_recv fd n flags e : net_ok e → 0 < n →
    ∃ r x e', n_recv fd n flags e = Ret (r, x) e' ∧ net_ok e' ∧
      (∀ fd', net_out e' fd' = net_out e fd' ∧ (fd' ≠ fd → net_in e' fd' = net_in e fd')) ∧
      (r = -1 ∧ x ≠ EINTR ∧ net_in e' fd = net_in e fd ∧ (x = EAGAIN → net_delay e' < net_delay e)%nat ∨
       0 ≤ r ≤ n ∧ r < 2 ^ 31 ∧ ∃ d, take (Z.to_nat r) (n_buffer e') = d ∧ Z.of_nat (length d) = r ∧
         net_in e fd = d ++ net_in e' fd);
  law_send fd b flags e : net_ok e → b ≠ [] →
    ∃ r x e', n_send fd b flags e = Ret (r, x) e' ∧ net_ok e' ∧
      (∀ fd', net_in e' fd' = net_in e fd' ∧ (fd' ≠ fd → net_out e' fd' = net_out e fd')) ∧
      (r = -1 ∧ x ≠ EINTR ∧ net_out e' fd = net_out e fd ∧ (x = EAGAIN → net_delay e' < net_delay e)%nat ∨
       0 ≤ r ≤ Z.of_nat (length b) ∧ r < 2 ^ 31 ∧ net_out e' fd = net_out e fd ++ take (Z.to_nat r) b);
  law_recvmsg fd l flags e : l ≠ [] → n_recvmsg fd l None flags e = n_recv fd (foldr Z.add 0 l) flags e;
  law_sendmsg fd l flags e : l ≠ [] → n_sendmsg fd l None flags e = n_send fd (concat l) flags e
}.

(** ** A hooked call *)

Section calls.
Context {E : Type} `{NetLaws E}.

Lemma kept_refl e : net_ok e → net_kept e e.
Proof. done. Qed.
Lemma kept_trans e1 e2 e3 : net_kept e1 e2 → net_kept e2 e3 → net_kept e1 e3.
Proof.
  intros [_ K1] [Ho K2]. split; [done|]. intros fd. destruct (K1 fd), (K2 fd). split; congruence.
Qed.

(** A call of the original function: it fails and moves nothing, or [Q] says what
    it did. *)
Definition served (fn : M E (Z * Z)) (Q : Z → E → E → Prop) : Prop := ∀ e, net_ok e →
  ∃ r x e', fn e = Ret (r, x) e' ∧ net_ok e' ∧
    (r = -1 ∧ x ≠ EINTR ∧ net_kept e e' ∧ (x = EAGAIN → net_delay e' < net_delay e)%nat ∨ r ≠ -1 ∧ Q r e e').

Lemma waits_some fd event to er e : net_ok e →
  ∃ w x e', waits fd event to er e w x e' ∧ net_kept e e' ∧ (net_delay e' ≤ net_delay e)%nat.
Proof.
  intros Ho. pose proof (law_present e Ho) as Hp.
  assert (∃ o e1, arms fd event to e o e1 ∧ net_kept e e1 ∧ (net_delay e1 ≤ net_delay e)%nat) as (o&e1&Ha&K1&D1).
  { destruct (decide (to = no_timeout)) as [Ht|Ht]; [exists None, e; split_and!; [by constructor|done|lia]|].
    destruct (law_quiet_arm to fd event e Ho) as (i&e1&Hi&K1&D1). exists (Some i), e1. split_and!; [by constructor|done|lia]. }
  assert (∀ e2, net_ok e2 → ∃ e3, disarms e2 o e3 ∧ net_kept e2 e3 ∧ (net_delay e3 ≤ net_delay e2)%nat) as Hd.
  { intros e2 Ho2. destruct o as [i|]; [|exists e2; split_and!; [by constructor|done|lia]].
    destruct (law_quiet_disarm i e2 Ho2) as ([]&e3&Hi&K&D). exists e3. split_and!; [by constructor|done|lia]. }
  destruct (law_quiet_add fd event e1 (proj1 K1)) as ([rt y]&e2&He&K2&D2).
  destruct (decide (rt = 0)) as [->|Hrt].
  - destruct (law_quiet_yield e2 (proj1 K2)) as ([c x]&e3&Hy&K3&D3). destruct (Hd e3 (proj1 K3)) as (e4&Hd4&K4&D4).
    exists (Woken c), x, e4. split; [by eapply waits_woken|].
    split; [exact (kept_trans _ _ _ (kept_trans _ _ _ (kept_trans _ _ _ K1 K2) K3) K4)|lia].
  - destruct (Hd e2 (proj1 K2)) as (e3&Hd3&K3&D3). eexists Refused, _, e3.
    split; [by eapply waits_refused|]. split; [exact (kept_trans _ _ _ (kept_trans _ _ _ K1 K2) K3)|lia].
Qed.

(** What comes of a hooked call, seen from outside. *)
Definition outcome (Q : Z → E → E → Prop) (r : Z) (e e' : E) : Prop :=
  net_ok e' ∧ (r = -1 ∧ net_kept e e' ∨ r ≠ -1 ∧ ∃ e1, net_kept e e1 ∧ Q r e1 e').

Lemma answers_some fn Q fd event to : served fn Q → ∀ d er e, net_ok e → (net_delay e ≤ d)%nat →
  ∃ k n x e', Hook.answers fn fd event to k er e n x e' ∧ (k ≤ d)%nat ∧ outcome Q n e e'.
Proof.
  intros Hfn. induction d as [|d IH]; intros er e Ho Hd; destruct (Hfn e Ho) as (r&x&e1&Hr&Ho1&[(->&Hx&K&Hlt)|[Hne HQ]]).
  2, 4: exists 0%nat, r, er, e1; split; [by apply (answered _ _ _ _ _ _ _ x)|split; [lia|split; [done|right; split; [done|by exists e]]]].
  all: destruct (decide (x = EAGAIN)) as [->|Hne];
    [|exists 0%nat, (-1), x, e1; split; [by apply failed|split; [lia|split; [done|by left]]]].
  { specialize (Hlt eq_refl). lia. }
  specialize (Hlt eq_refl). destruct (waits_some fd event to EAGAIN e1 Ho1) as (w&y&e2&Hw&K2&D2).
  pose proof (kept_trans _ _ _ K K2) as K02.
  destruct w as [|c]; [|destruct (decide (c = 0)) as [->|Hc]].
  - exists 0%nat, (-1), y, e2. split; [by eapply refused|]. split; [lia|]. split; [apply K2|by left].
  - destruct (IH y e2 (proj1 K2)) as (k&n&z&e3&Ha&Hk&Ho3&Hout); [lia|]. exists (S k), n, z, e3.
    split; [by eapply answers_later|]. split; [lia|]. split; [done|].
    destruct Hout as [[-> K3]|[Hn (e4&K4&HQ)]]; [left; split; [done|by eapply kept_trans]|].
    right. split; [done|]. exists e4. split; [by eapply kept_trans|done].
  - exists 0%nat, (-1), c, e2. split; [by eapply timed_out|]. split; [lia|]. split; [apply K2|by left].
Qed.

Lemma do_io_served fuel fd fn Q event so (t : thread E) : served fn Q → net_ok (t_env t) → fds_ok t → 0 ≤ fd →
  (net_patience ≤ fuel)%nat → ∃ r x e', do_io fuel fd fn event so t = Ret r (Thread (t_hook_enable t) x (t_fds t) e') ∧
    outcome Q r (t_env t) e'.
Proof.
  intros Hfn Ho Hok Hfd Hfuel.
  assert (∃ r x e', call fn t = Ret r (Thread (t_hook_enable t) x (t_fds t) e') ∧ outcome Q r (t_env t) e') as Hcall.
  { destruct (Hfn _ Ho) as (r&x&e'&Hr&Ho'&Hres). eexists r, _, e'. split; [exact (call_eq _ _ _ _ _ Hr)|]. split; [done|].
    destruct Hres as [(->&_&K&_)|[Hne HQ]]; [by left|right; split; [done|by exists (t_env t)]]. }
  unfold do_io, is_hook_enable. rewrite bind_gets. destruct (t_hook_enable t) eqn:Hh; [|done]. cbn [negb].
  mstep (get_false fd t Hok Hfd). destruct (fd_lookup (t_fds t) fd) as [c|]; [|done].
  destruct (m_isClosed c).
  { exists (-1), EBADF, (t_env t). split; [by rewrite <- Hh|]. split; [done|by left]. }
  destruct (negb (m_isSocket c) || m_userNonblock c); [done|].
  destruct (answers_some fn Q fd event (getTimeout so c) Hfn (net_delay (t_env t)) (t_errno t) (t_env t) Ho)
    as (k&n&x&e'&Ha&Hk&Hout); [done|].
  pose proof (law_delay _ Ho). pose proof (retry_answers _ _ _ _ _ _ _ _ _ _ Ha (fuel - S k) (t_hook_enable t) (t_fds t)) as Hr.
  replace (S k + (fuel - S k))%nat with fuel in Hr by lia. exists n, x, e'. split; [|done].
  rewrite Hh in Hr. destruct t as [b er l e]. simpl in Hh. by subst b.
Qed.
End calls.

(** ** A connected stream *)

Section connection.
Context {E : Type} `{NetLaws E} (fuel : nat) (Hfuel : (net_patience ≤ fuel)%nat) (fd : Z) (Hfd : 0 ≤ fd).
Abbreviation K := (on_sock E).
#[local] Instance conn_ops : SocketOps K := socket_ops fuel.
Implicit Types (k : K) (s : SocketStream K).

(** The socket has the descriptor [fd], or none once it was closed. *)
Definition sock_ok k : Prop :=
  net_ok (t_env (s_thr k)) ∧ fds_ok (s_thr k) ∧ (m_sock (s_obj k) = fd ∨ m_sock (s_obj k) = -1) ∧
  (m_isConnected (s_obj k) = true → m_sock (s_obj k) = fd).
Definition conn_ok s : Prop := match m_socket s with Some k => sock_ok k | None => True end.
Definition conn_in s : bytes := match m_socket s with Some k => net_in (t_env (s_thr k)) fd | None => [] end.
Definition conn_out s : bytes := match m_socket s with Some k => net_out (t_env (s_thr k)) fd | None => [] end.

Definition received n : Z → E → E → Prop := λ r e e', 0 ≤ r ≤ n ∧ r < 2 ^ 31 ∧
  (∀ fd', net_out e' fd' = net_out e fd') ∧
  ∃ d, take (Z.to_nat r) (n_buffer e') = d ∧ Z.of_nat (length d) = r ∧ net_in e fd = d ++ net_in e' fd.
Definition sent b : Z → E → E → Prop := λ r e e', 0 ≤ r ≤ Z.of_nat (length b) ∧ r < 2 ^ 31 ∧
  (∀ fd', net_in e' fd' = net_in e fd') ∧ net_out e' fd = net_out e fd ++ take (Z.to_nat r) b.

Lemma recv_served n flags : 0 < n → served (n_recv fd n flags) (received n).
Proof.
  intros Hn e Ho. destruct (law_recv fd n flags e Ho Hn) as (r&x&e'&Hr&Ho'&Hfr&Hres). exists r, x, e'. split; [done|]. split; [done|].
  destruct Hres as [(->&Hx&Hi&Hd)|(Hr0&Hr1&Hd)]; [left|right].
  - split_and!; [done|done| |done]. split; [done|]. intros fd'. destruct (Hfr fd') as [-> Hne]. split; [|done].
    destruct (decide (fd' = fd)) as [->|]; auto.
  - split; [lia|]. split; [done|]. split; [done|]. split; [|done]. intros fd'. apply Hfr.
Qed.
Lemma send_served b flags : b ≠ [] → served (n_send fd b flags) (sent b).
Proof.
  intros Hb e Ho. destruct (law_send fd b flags e Ho Hb) as (r&x&e'&Hr&Ho'&Hfr&Hres). exists r, x, e'. split; [done|]. split; [done|].
  destruct Hres as [(->&Hx&Hi&Hd)|(Hr0&Hr1&Hd)]; [left|right].
  - split_and!; [done|done| |done]. split; [done|]. intros fd'. destruct (Hfr fd') as [-> Hne]. split; [done|].
    destruct (decide (fd' = fd)) as [->|]; auto.
  - split; [lia|]. split; [done|]. split; [done|]. split; [|done]. intros fd'. apply Hfr.
Qed.

(** A transfer on the connected socket. *)
Lemma transfer_ok (m : Z → M (thread E) Z) fn Q event so k : sock_ok k → m_isConnected (s_obj k) = true →
  m fd = do_io fuel fd fn event so → served fn Q → (∀ r e e', Q r e e' → 0 ≤ r < 2 ^ 31) →
  ∃ r t', if_connected m k = Ret r (OnSock (s_obj k) t') ∧ sock_ok (OnSock (s_obj k) t') ∧ outcome Q r (t_env (s_thr k)) (t_env t').
Proof.
  intros (Ho&Hf&Hs&Hc) Hcon Hm Hfn Hrange. unfold if_connected, obj. rewrite bind_gets. unfold id. rewrite Hcon, (Hc Hcon), Hm.
  destruct (do_io_served fuel fd fn Q event so (s_thr k) Hfn Ho Hf Hfd Hfuel) as (r&x&e'&Hr&Hout).
  assert (thr (do_io fuel fd fn event so) k = Ret r (OnSock (s_obj k) (Thread (t_hook_enable (s_thr k)) x (t_fds (s_thr k)) e'))) as Ht
    by (unfold thr; by rewrite Hr).
  eexists (i32 r), _. split; [by mstep Ht|]. split; [split; [apply Hout|done]|].
  rewrite swrap_id; [done|done|]. unfold signed_in. destruct Hout as [_ [[-> _]|(_&e1&_&HQ)]]; [lia|]. apply Hrange in HQ. lia.
Qed.

Lemma recv_ok n k : 0 < n → sock_ok k → m_isConnected (s_obj k) = true → ∃ r d k',
  sk_recv n k = Ret (r, d) k' ∧ sock_ok k' ∧ net_out (t_env (s_thr k')) fd = net_out (t_env (s_thr k)) fd ∧
  net_in (t_env (s_thr k)) fd = d ++ net_in (t_env (s_thr k')) fd ∧ Z.of_nat (length d) = Z.max 0 r ∧ r ≤ n ∧ signed_in 32 r.
Proof.
  intros Hn Hk Hc.
  destruct (transfer_ok (λ v : Z, hooked_read fuel v (n_recv v n 0)) (n_recv fd n 0) (received n) READ SO_RCVTIMEO k) as (r&t'&Hr&Hk'&_&Hout);
    [done|done|done|by apply recv_served|intros ? ? ? (?&?&_); lia|].
  eexists r, _, _. split; [unfold sk_recv; cbn [conn_ops socket_ops]; unfold recv; mstep Hr; by rewrite bind_gets|].
  split; [done|]. cbn [s_thr s_obj]. destruct Hout as [[-> K]|(Hne&e1&K&(Hr0&Hr1&Hs&d&Hd&Hl&Hin))].
  - destruct K as [_ K]. destruct (K fd) as [-> ->]. simpl. unfold signed_in. split_and!; done || lia.
  - destruct K as [_ K]. destruct (K fd) as [Hi Ho]. rewrite Hd. unfold signed_in. split_and!; [by rewrite Hs|congruence|lia..].
Qed.
Lemma send_ok b k : b ≠ [] → sock_ok k → m_isConnected (s_obj k) = true → ∃ r k',
  sk_send b k = Ret r k' ∧ sock_ok k' ∧ net_in (t_env (s_thr k')) fd = net_in (t_env (s_thr k)) fd ∧
  net_out (t_env (s_thr k')) fd = net_out (t_env (s_thr k)) fd ++ take (Z.to_nat r) b ∧
  r ≤ Z.of_nat (length b) ∧ signed_in 32 r.
Proof.
  intros Hb Hk Hc.
  destruct (transfer_ok (λ v : Z, hooked_write fuel v (n_send v b 0)) (n_send fd b 0) (sent b) WRITE SO_SNDTIMEO k) as (r&t'&Hr&Hk'&_&Hout);
    [done|done|done|by apply send_served|intros ? ? ? (?&?&_); lia|].
  eexists r, _. split; [exact Hr|]. split; [done|]. cbn [s_thr s_obj].
  destruct Hout as [[-> K]|(Hne&e1&K&(Hr0&Hr1&Hs&Hout))].
  - destruct K as [_ K]. destruct (K fd) as [-> ->]. simpl. rewrite app_nil_r. unfold signed_in. split_and!; done || lia.
  - destruct K as [_ K]. destruct (K fd) as [Hi Ho]. unfold signed_in. split_and!; [by rewrite Hs|by rewrite Hout, Ho|lia..].
Qed.

Lemma call_quiet (m : M E (Z * Z)) (t : thread E) : net_quiet _ m → net_ok (t_env t) → fds_ok t →
  ∃ r t', call m t = Ret r t' ∧ net_kept (t_env t) (t_env t') ∧ fds_ok t'.
Proof.
  intros Hm Ho Hf. destruct (Hm _ Ho) as ([r x]&e'&Hr&K&_). eexists r, _. split; [exact (call_eq _ _ _ _ _ Hr)|done].
Qed.
Lemma hook_close_ok (t : thread E) : net_ok (t_env t) → fds_ok t →
  ∃ r t', Hook.close fd t = Ret r t' ∧ net_kept (t_env t) (t_env t') ∧ fds_ok t'.
Proof.
  intros Ho Hf. pose proof (λ t, call_quiet (k_close fd) t (law_quiet_close fd)) as Hcall.
  unfold Hook.close, is_hook_enable. rewrite bind_gets. destruct (t_hook_enable t); [|by apply Hcall]. cbn [negb].
  mstep (get_false fd t Hf Hfd). destruct (fd_lookup (t_fds t) fd); [|by apply Hcall].
  rewrite bind_gets, (law_present _ Ho), bind_assoc. destruct (law_quiet_cancel fd _ Ho) as (b&e1&Hb&K1&_).
  mstep (on_env_eq _ t _ _ Hb). rewrite bind_mret. set (t1 := Thread _ _ _ _).
  destruct (del_ret fd t1) as (t2&Hd&Hf2&He2&_); [exact Hf|done|]. mstep Hd.
  destruct (Hcall t2) as (r&t3&Hr&K3&Hf3); [rewrite He2; apply K1|done|]. exists r, t3. split; [done|]. split; [|done].
  rewrite He2 in K3. exact (kept_trans _ _ _ K1 K3).
Qed.
Lemma close_ok k : sock_ok k → ∃ k', sk_close k = Ret tt k' ∧ sock_ok k' ∧
  net_in (t_env (s_thr k')) fd = net_in (t_env (s_thr k)) fd ∧ net_out (t_env (s_thr k')) fd = net_out (t_env (s_thr k)) fd.
Proof.
  intros (Ho&Hf&Hs&Hc). unfold sk_close. cbn [conn_ops socket_ops]. unfold close, obj. rewrite bind_assoc, bind_gets. unfold id.
  destruct (negb _ && _); [exists k; rewrite bind_mret; by split_and!|].
  unfold update. rewrite !bind_assoc, bind_modify. cbn [s_obj s_thr].
  destruct Hs as [Hs|Hs]; rewrite Hs.
  - rewrite (proj2 (Z.eqb_neq fd (-1))) by lia. cbn [negb]. rewrite bind_assoc.
    destruct (hook_close_ok (s_thr k) Ho Hf) as (r&t'&Hr&[Ho' K]&Hf').
    assert (thr (Hook.close fd) (OnSock (set_connected false (s_obj k)) (s_thr k)) = Ret r (OnSock (set_connected false (s_obj k)) t')) as Ht
      by (unfold thr; cbn [s_thr s_obj]; by rewrite Hr).
    rewrite bind_assoc. mstep Ht. rewrite bind_modify, bind_mret. eexists. split; [reflexivity|]. cbn [s_thr]. split; [|apply K].
    split; [done|]. split; [done|]. split; [by right|done].
  - cbn [negb Z.eqb]. eexists. split; [reflexivity|]. cbn [s_thr]. split; [|done].
    split; [done|]. split; [done|]. split; [by right|done].
Qed.

(** A stream over hooked calls is a stream. *)
#[local] Program Instance connection_laws : StreamLaws (SocketStream K) := {
  st_ok := conn_ok; st_in := conn_in; st_out := conn_out
}.
Next Obligation.
  intros n [[k|] own] Hok Hn; unfold st_read; cbn [socket_stream_ops]; unfold ss_read; rewrite bind_gets; cbn [isConnected m_socket].
  2: { exists (-1), [], (mkSocketStream None own). unfold signed_in. simpl. split_and!; done || lia. }
  destruct (sk_isConnected k) eqn:Hc; cbn [negb].
  - destruct (recv_ok n k Hn Hok Hc) as (r&d&k'&Hr&Hok'&Ho&Hi&Hl&Hrn&Hs). exists r, d, (mkSocketStream (Some k') own).
    split; [unfold on_socket; cbn [m_socket]; by rewrite Hr|]. by split_and!.
  - exists (-1), [], (mkSocketStream (Some k) own). unfold signed_in. simpl. split_and!; done || lia.
Qed.
Next Obligation.
  intros b [[k|] own] Hok Hb; unfold st_write; cbn [socket_stream_ops]; unfold ss_write; rewrite bind_gets; cbn [isConnected m_socket].
  2: { exists (-1), (mkSocketStream None own). unfold signed_in. simpl. split_and!; done || lia. }
  destruct (sk_isConnected k) eqn:Hc; cbn [negb].
  - destruct (send_ok b k Hb Hok Hc) as (r&k'&Hr&Hok'&Hi&Ho&Hl&Hs). exists r, (mkSocketStream (Some k') own).
    split; [unfold on_socket; cbn [m_socket]; by rewrite Hr|]. by split_and!.
  - exists (-1), (mkSocketStream (Some k) own). unfold signed_in. simpl. rewrite app_nil_r. split_and!; done || lia.
Qed.
Next Obligation.
  intros [[k|] own] Hok; unfold st_close; cbn [socket_stream_ops]; unfold ss_close; rewrite bind_gets; cbn [m_socket].
  - destruct (close_ok k Hok) as (k'&Hr&Hok'&Hi&Ho). exists (mkSocketStream (Some k') own).
    split; [|by split_and!]. rewrite bool_decide_eq_true_2 by (by eexists). unfold on_socket. cbn [m_socket]. by rewrite Hr.
  - exists (mkSocketStream None own). by rewrite bool_decide_eq_false_2 by (by intros [? ?]).
Qed.

(** ** Lists of buffers *)

#[local] Instance conn_vec : SocketVec K := {
  sk_recv_vec l := r ← recv_vec fuel l 0; b ← gets (λ k, n_buffer (t_env (s_thr k))); mret (r, take (Z.to_nat r) b);
  sk_send_vec l := send_vec fuel l 0
}.

Lemma call_ext (fn fn' : M E (Z * Z)) (t : thread E) : (∀ e, fn e = fn' e) → call fn t = call fn' t.
Proof. intros Hfn. unfold call, on_env. cbv [mbind M_bind]. by rewrite Hfn. Qed.
Lemma bind_ext {S A B} (m m' : M S A) (h h' : A → M S B) t : m t = m' t → (∀ a t, h a t = h' a t) → (m ≫= h) t = (m' ≫= h') t.
Proof. intros Hm Hh. cbv [mbind M_bind]. rewrite Hm. by destruct (m' t). Qed.
Lemma eintr_ext f n (fn fn' : M E (Z * Z)) (t : thread E) : (∀ e, fn e = fn' e) → eintr_loop f fn n t = eintr_loop f fn' n t.
Proof.
  intros Hfn. revert t. induction f as [|f IH]; intros t; cbn [eintr_loop]; apply bind_ext; try done.
  intros e t'. destruct (_ && _); [|done]. apply bind_ext; [by apply call_ext|done].
Qed.
Lemma do_io_ext (fn fn' : M E (Z * Z)) f v event so (t : thread E) : (∀ e, fn e = fn' e) →
  do_io f v fn event so t = do_io f v fn' event so t.
Proof.
  intros Hfn. assert (∀ to f t, retry f fn v event to t = retry f fn' v event to t) as Hr.
  { intros to f'. induction f' as [|f' IH]; intros t'; [done|]. cbn [retry]. apply bind_ext; [by apply call_ext|]. intros n t1.
    apply bind_ext; [by apply eintr_ext|]. intros _ t2. apply bind_ext; [done|]. intros e t3. destruct (_ && _); [|done].
    apply bind_ext; [done|]. intros [|c] t4; [done|]. by destruct (negb (c =? 0)). }
  unfold do_io. apply bind_ext; [done|]. intros b t1. destruct (negb b); [by apply call_ext|].
  apply bind_ext; [done|]. intros [c|] t2; [|by apply call_ext]. destruct (m_isClosed c); [done|].
  destruct (_ || _); [by apply call_ext|apply Hr].
Qed.

#[local] Instance connection_vec_laws : SocketVecLaws K.
Proof.
  split; intros l k Hl.
  - unfold sk_recv_vec, sk_recv. cbn [conn_vec conn_ops socket_ops]. apply bind_ext; [|done]. unfold recv_vec, recv, if_connected.
    apply bind_ext; [done|]. intros o k1. destruct (m_isConnected o); [|done]. apply bind_ext; [|done]. unfold thr, hooked_read.
    rewrite (do_io_ext _ (n_recv (m_sock o) (foldr Z.add 0 l) 0)); [done|]. intros e. by apply law_recvmsg.
  - unfold sk_send_vec, sk_send. cbn [conn_vec conn_ops socket_ops]. unfold send_vec, send, if_connected.
    apply bind_ext; [done|]. intros o k1. destruct (m_isConnected o); [|done]. apply bind_ext; [|done]. unfold thr, hooked_write.
    rewrite (do_io_ext _ (n_send (m_sock o) (concat l) 0)); [done|]. intros e. by apply law_sendmsg.
Qed.

(** ** Servers and arrays on connections *)

(** [readFixSize] into an array: what went into the array and what is still to
    come make up what the peer sends. *)
Theorem hooked_read_into_array (h : nat → nat → byte) n s b (Hs : conn_ok s) (Hwf : wf b) (Hn : 0 ≤ n < 2 ^ 31)
    (Hroom : m_position b + n + m_baseSize b < LIMIT) :
  ∃ r d s' b', ba_readFixSize h n (mkEndpoint s b) = Ret r (mkEndpoint s' b') ∧ conn_ok s' ∧ conn_in s = d ++ conn_in s' ∧
    data b' = splice (Z.to_nat (m_position b)) d (data b) ∧ (0 < r → Z.of_nat (length d) = n).
Proof.
  assert (i64 n = n ∧ i32 n = n) as [H64 H32] by (split; apply swrap_id; unfold signed_in; lia).
  assert (st_ok s) as Hok by exact Hs. unfold ba_readFixSize, fix_size. cbv zeta. rewrite H64, H32.
  destruct (read_loops h (Z.to_nat n) n s b [] (Nat.le_refl _) Hok Hwf) as (o&d&s'&b'&Hr&Hba&_&Ht); [lia|].
  destruct (read_loop_ok (Z.to_nat n) [] n s Hok) as (o'&d'&s''&Hr'&Hok'&_&Hin&Hod); [done|].
  rewrite Hr in Hr'. injection Hr' as <- <- <-. eexists _, d, s', b'. split; [by mstep Hba|]. split; [exact Hok'|]. split; [exact Hin|].
  destruct Ht as (_&Hd&_). split; [exact Hd|]. destruct o as [len|]; [|lia]. destruct Hod as (?&?&_). rewrite swrap_id by done. lia.
Qed.

Context (lexical_cast : bytes → option Z) (can_alloc : Z → bool).
Context (buff_size : Z) (fresh : bytes) (prior : http_parser) (fnmatch : bytes → bytes → bool).

(** The server's side of a connection over hooked calls: for servlets that return and
    leave the session alone, with fuel above the number of bytes the peer sends
    [handleClient] ends, however often its calls would have blocked, and what the
    kernel was given to send is one (possibly cut) answer per request received, in order. *)
Theorem connection_served f (m_isKeepalive : bool) (m_dispatch : ServletDispatch (SocketStream K)) s
    (Hbuff : 0 < buff_size < 2 ^ 31) (Hs : conn_ok s) (Hw : well_behaved fnmatch m_dispatch)
    (Hf : (length (conn_in s) < f)%nat) :
  match handleClient lexical_cast can_alloc buff_size fresh prior fnmatch f m_isKeepalive m_dispatch s with
  | Ret _ s' => conn_ok s' ∧ ∃ l : list (HttpRequest * bytes),
      conversation lexical_cast can_alloc buff_size fresh prior fnmatch m_isKeepalive m_dispatch s l s' ∧
      conn_out s' = conn_out s ++ concat l.*2 ∧ (m_isKeepalive = false → (length l ≤ 1)%nat)
  | Throw _ _ => True
  | Crash f => f ≠ Diverges
  end.
Proof. exact (handle_client_ok lexical_cast can_alloc buff_size fresh prior Hbuff fnmatch m_isKeepalive m_dispatch f s Hs Hw Hf). Qed.

(** The first read of a session, when the bytes come after [j] waits. *)
Lemma first_read k own c n text j x e' : t_hook_enable (s_thr k) = true → blocking_socket (s_thr k) fd c →
  m_isConnected (s_obj k) = true → m_sock (s_obj k) = fd → Z.of_nat (length text) < 2 ^ 31 →
  Hook.answers (n_recv fd n 0) fd READ (getTimeout SO_RCVTIMEO c) j (t_errno (s_thr k)) (t_env (s_thr k))
    (Z.of_nat (length text)) x e' →
  take (length text) (n_buffer e') = text → (j < fuel)%nat →
  st_read n (mkSocketStream (Some k) own) =
    Ret (Z.of_nat (length text), text) (mkSocketStream (Some (OnSock (s_obj k) (Thread true x (t_fds (s_thr k)) e'))) own).
Proof.
  intros Hh Hb Hc Hs Hlen Ha Ht Hj. unfold st_read. cbn [socket_stream_ops]. unfold ss_read. rewrite bind_gets.
  cbn [isConnected m_socket]. unfold sk_isConnected. cbn [conn_ops socket_ops]. rewrite Hc. cbn [negb].
  unfold on_socket. cbn [m_socket]. unfold sk_recv. cbn [conn_ops socket_ops]. unfold recv, if_connected, obj.
  rewrite bind_assoc, bind_gets. unfold id. rewrite Hc, Hs, bind_assoc.
  assert (thr (hooked_read fuel fd (n_recv fd n 0)) k =
    Ret (Z.of_nat (length text)) (OnSock (s_obj k) (Thread true x (t_fds (s_thr k)) e'))) as Hr.
  { unfold thr, hooked_read. rewrite (do_io_retry fuel (s_thr k) fd c) by done.
    pose proof (retry_answers _ _ _ _ _ _ _ _ _ _ Ha (fuel - S j) (t_hook_enable (s_thr k)) (t_fds (s_thr k))) as Hr.
    replace (S j + (fuel - S j))%nat with fuel in Hr by lia. destruct (s_thr k) as [b er l e]. simpl in *. subst b. by rewrite Hr. }
  mstep Hr. rewrite bind_mret, bind_gets. cbn [s_thr t_env]. rewrite swrap_id by (done || unfold signed_in; lia).
  by rewrite Nat2Z.id, Ht.
Qed.

End connection.

(** ** A network

    One peer, on the descriptor 7, whose bytes come in segments with calls in between
    that would block; the kernel takes [nt_window] bytes at a time. *)
Record net := Net { nt_script : list (option bytes); nt_out : bytes; nt_window : nat; nt_buffer : bytes }.
Definition nt_blocks (e : net) : nat := length (filter (λ o, o = None) (nt_script e)).

#[local] Instance net_kernel : KernelOps net := {
  k_fstat _ := mret (Some true); k_getfl _ := mret (2, 0); k_setfl _ _ := mret (0, 0); k_fcntl _ _ _ := mret (0, 0);
  k_fionbio _ _ := mret (0, 0); k_setsockopt _ _ _ _ := mret (0, 0); k_getsockopt _ _ _ := mret ((0, 0), 0);
  k_socket _ _ _ := mret (7, 0); k_close _ := mret (0, 0); k_sleep _ := mret (0, 0); k_usleep _ := mret (0, 0);
  k_nanosleep _ _ := mret (0, 0)
}.
#[local] Instance net_wait : WaitOps net := {
  io_present _ := true; io_addTimer _ := mret tt; io_addConditionTimer _ _ _ := mret 1; io_cancelTimer _ := mret tt;
  io_addEvent _ _ := mret (0, 0); io_yield := mret (0, 0); io_cancelAll _ := mret true
}.
Definition nt_recv (fd n : Z) : M net (Z * Z) := λ e,
  if negb (fd =? 7) then Ret (-1, EBADF) e else
  match nt_script e with
  | [] => Ret (0, 0) (Net [] (nt_out e) (nt_window e) [])
  | None :: l => Ret (-1, EAGAIN) (Net l (nt_out e) (nt_window e) (nt_buffer e))
  | Some seg :: l =>
      let k := Z.to_nat (Z.min n (2 ^ 31 - 1)) in
      Ret (Z.of_nat (length (take k seg)), 0) 
        (Net (if bool_decide (drop k seg = []) then l else Some (drop k seg) :: l) (nt_out e) (nt_window e) (take k seg))
  end.
Definition nt_send (fd : Z) (b : bytes) : M net (Z * Z) := λ e,
  if negb (fd =? 7) then Ret (-1, EBADF) e else
  let k := Nat.min (length b) (Nat.min (nt_window e) (Z.to_nat (2 ^ 31 - 1))) in
  Ret (Z.of_nat k, 0) (Net (nt_script e) (nt_out e ++ take k b) (nt_window e) (nt_buffer e)).
#[local] Instance net_ops : NetOps net := {
  n_bind _ _ := mret (0, 0); n_listen _ _ := mret (0, 0); n_accept _ := mret (7, 0); n_connect _ _ := mret (0, 0);
  n_getsockname _ a := mret ((0, 0), (a, 16)); n_getpeername _ a := mret ((0, 0), (a, 16));
  n_send fd b _ := nt_send fd b; n_sendto fd b _ _ := nt_send fd b; n_sendmsg fd l _ _ := nt_send fd (concat l);
  n_recv fd n _ := nt_recv fd n; n_recvfrom fd n _ _ := nt_recv fd n; n_recvmsg fd l _ _ := nt_recv fd (foldr Z.add 0 l);
  n_buffer := nt_buffer; n_cancelEvent _ _ := mret true
}.

#[local] Program Instance net_laws : NetLaws net := {
  net_ok e := (nt_blocks e < 8)%nat;
  net_in e fd := if fd =? 7 then concat (omap id (nt_script e)) else [];
  net_out e fd := if fd =? 7 then nt_out e else [];
  net_delay := nt_blocks;
  net_patience := 8
}.
Solve Obligations with try solve [intros; eexists _, _; split; [reflexivity|split; [split; [eassumption|done]|lia]]].
Next Obligation. done. Qed.
Next Obligation. done. Qed.
Next Obligation.
  intros fd n flags [script out win buf] Ho Hn. unfold n_recv. cbn [net_ops]. unfold nt_recv. cbn [nt_script nt_out nt_window nt_buffer].
  destruct (Z.eqb_spec fd 7) as [->|Hne]; cbn [negb].
  2: { eexists (-1), _, _. split; [reflexivity|]. split; [done|]. split; [done|]. left. by split_and!. }
  destruct script as [|[seg|] l].
  - eexists _, _, _. split; [reflexivity|]. split; [done|]. split; [done|]. right. split; [lia|]. split; [lia|]. by exists [].
  - set (k := Z.to_nat (Z.min n (2 ^ 31 - 1))). eexists _, _, _. split; [reflexivity|].
    assert (∀ l', l' = (if bool_decide (drop k seg = []) then l else Some (drop k seg) :: l) →
      length (filter (λ o : option bytes, o = None) l') = length (filter (λ o : option bytes, o = None) l) ∧
      drop k seg ++ concat (omap id l) = concat (omap id l')) as Hl.
    { intros l' ->. case_bool_decide as Hd; [by rewrite Hd|]. by rewrite filter_cons_False. }
    destruct (Hl _ eq_refl) as [Hf Hc]. unfold nt_blocks in *. cbn [nt_script nt_buffer nt_out] in *. rewrite Hf.
    rewrite filter_cons_False in Ho by done. split; [exact Ho|].
    split; [intros fd'; split; [done|]; intros Hfd'; by rewrite (proj2 (Z.eqb_neq fd' 7))|]. right.
    pose proof (length_take seg k) as Hk. split; [lia|]. split; [lia|]. exists (take k seg).
    split; [by rewrite Nat2Z.id, firstn_all|]. split; [done|].
    simpl. by rewrite <- Hc, app_assoc, take_drop.
  - eexists (-1), EAGAIN, _. split; [reflexivity|]. unfold nt_blocks in *. cbn [nt_script] in *. rewrite filter_cons_True in * by done.
    simpl in Ho. split; [lia|]. split; [done|]. left. split_and!; [done|done|done|simpl; lia].
Qed.
Next Obligation.
  intros fd b flags [script out win buf] Ho Hb. unfold n_send. cbn [net_ops]. unfold nt_send. cbn [nt_script nt_out nt_window nt_buffer].
  destruct (Z.eqb_spec fd 7) as [->|Hne]; cbn [negb].
  2: { eexists (-1), _, _. split; [reflexivity|]. split; [done|]. split; [done|]. left. by split_and!. }
  eexists _, _, _. split; [reflexivity|]. split; [done|].
  split; [intros fd'; split; [done|]; intros Hfd'; cbn [nt_out]; by rewrite (proj2 (Z.eqb_neq fd' 7))|]. right.
  cbn [nt_out]. simpl. rewrite Nat2Z.id. split_and!; [lia..|done].
Qed.
Next Obligation. done. Qed.
Next Obligation. done. Qed.

(** A connected socket with the descriptor 7. *)
Definition net_thread (script : list (option bytes)) : thread net :=
  match Hook.socket 2 1 0 (Thread true 0 new_FdManager (Net script [] 1000 [])) with
  | Ret _ t => t
  | _ => Thread true 0 new_FdManager (Net script [] 1000 [])
  end.
Definition net_sock (script : list (option bytes)) : on_sock net :=
  OnSock (set_connected true (set_sock 7 CreateTCPSocket)) (net_thread script).
(** The request comes after two waits. *)
Definition slow_page : list (option bytes) := [None; None; Some (Http.dump ex_page)].
Definition net_redirect : Servlet (SocketStream (on_sock net)) :=
  FunctionServlet (Some (e ← gets id; on_response (go_home (ex_request e));; mret 0)).
Definition net_routes : ServletDispatch (SocketStream (on_sock net)) := addServlet (str "/x") (Some net_redirect) new_ServletDispatch.
#[local] Instance net_socket : SocketOps (on_sock net) := socket_ops 8.

Lemma net_sock_ok script : (length (filter (λ o : option bytes, o = None) script) < 8)%nat → sock_ok 7 (net_sock script).
Proof. intros Hs. split; [exact Hs|]. split; [by apply Nat.leb_le; vm_compute|]. split; [by left|done]. Qed.

