(* ===== verification/Settings.v ===== *)
(** * Settings that follow the configuration (megalo/http/http_parser.cc, megalo/hook.cc)

    The limits of the HTTP parsers and the timeout of [connect] are statics,
    each with a configuration variable and a listener that copies a new value
    into it.  The constructors of [_RequestSizeIniter] and [_HookIniter] run
    before [main]; here those of http_parser.cc come first.  [boost::lexical_cast]
    is a parameter. *)
From S2P Require Import Prelude Bytes Util Config.
#[local] Open Scope Z_scope.

(** The types of the variables. *)
Inductive number := Int | Uint64.
#[export] Instance number_eq_dec : EqDecision number.
Proof. solve_decision. Defined.

Inductive setting := RequestBuffer | RequestBody | ResponseBuffer | ResponseBody | ConnectTimeout.
#[export] Instance setting_eq_dec : EqDecision setting.
Proof. solve_decision. Defined.

(** The statics. *)
Record statics := mkStatics {
  s_http_request_buffer_size : Z;
  s_http_request_max_body_size : Z;
  s_http_response_buffer_size : Z;
  s_http_response_max_body_size : Z;
  s_connect_timeout : Z
}.
Definition zeroed : statics := mkStatics 0 0 0 0 (u64 (-1)).
Definition static (k : setting) (w : statics) : Z :=
  match k with
  | RequestBuffer => s_http_request_buffer_size w
  | RequestBody => s_http_request_max_body_size w
  | ResponseBuffer => s_http_response_buffer_size w
  | ResponseBody => s_http_response_max_body_size w
  | ConnectTimeout => s_connect_timeout w
  end.
Definition set_static (k : setting) (v : Z) (w : statics) : statics :=
  let '(mkStatics a b c d e) := w in
  match k with
  | RequestBuffer => mkStatics v b c d e
  | RequestBody => mkStatics a v c d e
  | ResponseBuffer => mkStatics a b v d e
  | ResponseBody => mkStatics a b c v e
  | ConnectTimeout => mkStatics a b c d (u64 v)
  end.

Definition name_of (k : setting) : bytes :=
  match k with
  | RequestBuffer => str "http.request.buffer_size"
  | RequestBody => str "http.request.max_body_size"
  | ResponseBuffer => str "http.response.buffer_size"
  | ResponseBody => str "http.response.max_body_size"
  | ConnectTimeout => str "tcp.connect.timeout"
  end.
Definition text_of (k : setting) : bytes :=
  match k with
  | RequestBuffer => str "http request buffer size"
  | RequestBody => str "http request max body size"
  | ResponseBuffer => str "http response buffer size"
  | ResponseBody => str "http response max body size"
  | ConnectTimeout => str "tcp connect timeout"
  end.
Definition type_of (k : setting) : number := match k with ConnectTimeout => Int | _ => Uint64 end.
Definition default_of (k : setting) : Z :=
  match k with RequestBuffer | ResponseBuffer => 4 * 1024 | RequestBody | ResponseBody => 64 * 1024 * 1024 | ConnectTimeout => 5000 end.

(** The listeners. *)
Definition listener (k : setting) (old_value new_value : Z) : M statics () := modify (set_static k new_value).

Section settings.
Context {N : Type} `{YamlOps N} `{Castable number Z}.
Abbreviation C := (config (T := number) (V := Z) (W := statics)).

Definition lookup (k : setting) : M C nat := Lookup (type_of k) (name_of k) (default_of k) (text_of k).

(** [_RequestSizeIniter]: all values first, then the listeners. *)
Definition copy (k : setting) (i : nat) : M C () := v ← getValue i; on_world (modify (set_static k v)).
Definition RequestSizeIniter : M C () :=
  a ← lookup RequestBuffer; b ← lookup RequestBody; c ← lookup ResponseBuffer; d ← lookup ResponseBody;
  copy RequestBuffer a;; copy RequestBody b;; copy ResponseBuffer c;; copy ResponseBody d;;
  _ ← addListener a (listener RequestBuffer);
  _ ← addListener b (listener RequestBody);
  _ ← addListener c (listener ResponseBuffer);
  _ ← addListener d (listener ResponseBody);
  mret tt.

(** [_HookIniter] only adds its listener. *)
Definition HookIniter : M C () :=
  e ← lookup ConnectTimeout; _ ← addListener e (listener ConnectTimeout); mret tt.

(** Before any of them ran. *)
Definition before_main : C := mkConfig [] [] (λ _, 0) zeroed.

Definition GetHttpRequestBufferSize : M C Z := w ← gets world; mret (s_http_request_buffer_size w).
Definition GetHttpRequestMaxBodySize : M C Z := w ← gets world; mret (s_http_request_max_body_size w).
Definition GetHttpResponseBufferSize : M C Z := w ← gets world; mret (s_http_response_buffer_size w).
Definition GetHttpResponseMaxBodySize : M C Z := w ← gets world; mret (s_http_response_max_body_size w).

(** ** The registry after them *)

(** The numbers of the listeners, which are counted per type. *)
Definition listener_id (k : setting) : Z :=
  match k with RequestBuffer | ConnectTimeout => 1 | RequestBody => 2 | ResponseBuffer => 3 | ResponseBody => 4 end.
Definition settings : list (setting * Z) :=
  map (λ k, (k, listener_id k)) [RequestBuffer; RequestBody; ResponseBuffer; ResponseBody; ConnectTimeout].
Definition var_of (f : setting → Z) (p : setting * Z) : ConfigVar (T := number) (V := Z) (W := statics) :=
  mkConfigVar (name_of p.1) (text_of p.1) (type_of p.1) (f p.1) [(p.2, listener p.1)].
Definition place (k : setting) : nat :=
  match k with RequestBuffer => 0 | RequestBody => 1 | ResponseBuffer => 2 | ResponseBody => 3 | ConnectTimeout => 4 end.
Definition registry_of (l : list (setting * Z)) (f : setting → Z) (w : statics) (ids : number → Z) : C :=
  mkConfig (map (var_of f) l) (map (λ p, (name_of p.1, place p.1)) l) ids w.
Definition registry : (setting → Z) → statics → (number → Z) → C := registry_of settings.

(** A static is the value of its variable; that of [connect] from the first
    change on. *)
Definition follows (f : setting → Z) (w : statics) (k : setting) : Prop :=
  match k with
  | ConnectTimeout => static k w = u64 (f k) ∨ static k w = u64 (-1) ∧ f k = default_of k
  | _ => static k w = f k
  end.
Definition in_step (c : C) : Prop := ∃ f w ids, c = registry f w ids ∧ ∀ k, follows f w k.

Lemma lookup_new k (c : C) : find_var (name_of k) (datas c) = None →
  lookup k c = Ret (length (vars c)) (mkConfig
    (vars c ++ [mkConfigVar (name_of k) (text_of k) (type_of k) (default_of k) []])
    (assign_var (name_of k) (length (vars c)) (datas c)) (s_fun_id c) (world c)).
Proof.
  intros Hf. unfold lookup, Lookup, create. rewrite bind_gets. unfold id. rewrite Hf.
  assert (valid_name (name_of k) = true) as Hv by (destruct k; by vm_compute). rewrite Hv. cbn [negb].
  rewrite bind_gets, bind_modify. unfold new_ConfigVar. by rewrite (valid_lower _ Hv).
Qed.
Lemma copy_ok k i (c : C) x : vars c !! i = Some x →
  copy k i c = Ret tt (mkConfig (vars c) (datas c) (s_fun_id c) (set_static k (m_val x) (world c))).
Proof. intros Hx. unfold copy, getValue, the_var. rewrite !bind_assoc, bind_gets, Hx. done. Qed.
Lemma addListener_ok i cb (c : C) x : vars c !! i = Some x →
  addListener i cb c = Ret (u64 (s_fun_id c (m_type x) + 1)) (mkConfig
    (alter (with_cbs (m_cbs x ++ [(u64 (s_fun_id c (m_type x) + 1), cb)])) i (vars c)) (datas c)
    (λ t, if decide (t = m_type x) then u64 (s_fun_id c (m_type x) + 1) else s_fun_id c t) (world c)).
Proof. intros Hx. unfold addListener, the_var. rewrite !bind_assoc, bind_gets, Hx. done. Qed.

Ltac one_step := cbn [vars datas s_fun_id world app length].

Lemma start_in_step : ∃ ids, (RequestSizeIniter;; HookIniter) before_main = Ret tt (registry default_of
  (mkStatics (4 * 1024) (64 * 1024 * 1024) (4 * 1024) (64 * 1024 * 1024) (u64 (-1))) ids).
Proof.
  eexists. unfold RequestSizeIniter, HookIniter, before_main. rewrite !bind_assoc.
  do 4 (erewrite bind_ret by (apply lookup_new; vm_compute; reflexivity); one_step; rewrite ?bind_assoc).
  do 4 (erewrite bind_ret by (apply copy_ok; reflexivity); one_step; rewrite ?bind_assoc).
  do 4 (erewrite bind_ret by (apply addListener_ok; reflexivity); one_step; rewrite ?bind_assoc).
  rewrite bind_mret.
  erewrite bind_ret by (apply lookup_new; vm_compute; reflexivity); one_step.
  erewrite bind_ret by (apply addListener_ok; reflexivity); one_step.
  unfold registry, registry_of. reflexivity.
Qed.

(** ** Changes *)

Definition set_value (k : setting) (v : Z) (f : setting → Z) : setting → Z := λ j, if decide (j = k) then v else f j.
Lemma static_set k v w j :
  static j (set_static k v w) = if decide (j = k) then match k with ConnectTimeout => u64 v | _ => v end else static j w.
Proof. destruct w, k, j; reflexivity. Qed.

Context (eqb_spec : ∀ a b, val_eqb a b = true ↔ a = b).

Lemma var_at k f w ids : vars (registry f w ids) !! place k = Some (var_of f (k, listener_id k)).
Proof. by destruct k. Qed.
Lemma setValue_registry k v f w ids : setValue (place k) v (registry f w ids) =
  Ret tt (if decide (f k = v) then registry f w ids else registry (set_value k v f) (set_static k v w) ids).
Proof.
  rewrite (setValue_spec _ v _ _ (set_static k v w) (var_at k f w ids)) by (by eexists). cbn [m_val var_of fst].
  destruct (decide (f k = v)) as [E|E].
  - by rewrite (proj2 (eqb_spec _ _) E).
  - destruct (val_eqb (f k) v) eqn:Eb; [by apply eqb_spec in Eb|]. by destruct k.
Qed.

Lemma follows_set k v f w : (∀ j, follows f w j) → f k ≠ v → ∀ j, follows (set_value k v f) (set_static k v w) j.
Proof.
  intros Hf Hne j. specialize (Hf j). unfold follows, set_value in *. rewrite static_set.
  destruct j, k; try exact Hf; try done; by left.
Qed.
Lemma setValue_in_step i v : keeps in_step (setValue i v).
Proof.
  intros c (f&w&ids&->&Hf). destruct (decide (i < 5)%nat) as [Hi|Hi].
  - assert (∃ k, i = place k) as [k ->].
    { destruct i as [|[|[|[|[|]]]]]; [by exists RequestBuffer|by exists RequestBody|by exists ResponseBuffer
      |by exists ResponseBody|by exists ConnectTimeout|lia]. }
    rewrite setValue_registry. destruct (decide (f k = v)) as [E|E]; [by exists f, w, ids|].
    exists (set_value k v f), (set_static k v w), ids. split; [done|by apply follows_set].
  - unfold setValue, the_var. rewrite !bind_assoc, bind_gets. by rewrite lookup_ge_None_2 by (simpl; lia).
Qed.
Lemma fromString_in_step i s : keeps in_step (fromString i s).
Proof.
  intros c Hc. unfold fromString.
  assert (keeps in_step (x ← the_var i; match from_str (m_type x) s with Casted v => setValue i v | CastThrows e => throw e end)) as Hk.
  { apply keeps_bind; [apply keeps_the_var|]. intros x. destruct (from_str _ s); [apply setValue_in_step|apply keeps_throw]. }
  specialize (Hk c Hc). cbv beta in *. revert Hk. destruct ((x ← the_var i; match from_str (m_type x) s with Casted v => setValue i v | CastThrows e => throw e end) c)
    as [a c'|[] c'|]; done.
Qed.

(** What a program does with the settings. *)
Inductive reached : C → Prop :=
  | reached_start c : (RequestSizeIniter;; HookIniter) before_main = Ret tt c → reached c
  | reached_set c i v c' : reached c → setValue i v c = Ret tt c' → reached c'
  | reached_text c i s b c' : reached c → (fromString i s c = Ret b c' ∨ ∃ e, fromString i s c = Throw e c') → reached c'
  | reached_load c fuel root c' : reached c →
      (LoadFromYaml fuel root c = Ret tt c' ∨ ∃ e, LoadFromYaml fuel root c = Throw e c') → reached c'.

Lemma reached_in_step c : reached c → in_step c.
Proof.
  induction 1 as [c Hr|c i v c' _ IH Hr|c i s b c' _ IH Hr|c fuel root c' _ IH Hr].
  - destruct start_in_step as [ids Hs]. rewrite Hs in Hr. injection Hr as <-.
    eexists _, _, _. split; [reflexivity|]. intros []; [exact eq_refl..|right; split; exact eq_refl].
  - pose proof (setValue_in_step i v c IH) as Hk. by rewrite Hr in Hk.
  - pose proof (fromString_in_step i s c IH) as Hk. by destruct Hr as [Hr|[e Hr]]; rewrite Hr in Hk.
  - pose proof (keeps_load in_step fuel root fromString_in_step c IH) as Hk.
    by destruct Hr as [Hr|[e Hr]]; rewrite Hr in Hk.
Qed.

(** After any values set and any documents loaded, whether or not loading
    threw, every limit of the parsers is the value of its variable, a change is
    in force at once and touches no other, and the timeout of [connect] is that of its variable from
    the first change on. *)
Theorem settings_in_force (c : C) (Hc : reached c) (k : setting) :
  ∃ x, find_var (name_of k) (datas c) = Some (place k) ∧ vars c !! place k = Some x ∧ m_type x = type_of k ∧
    (if decide (k = ConnectTimeout)
     then static k (world c) = u64 (m_val x) ∨ static k (world c) = u64 (-1) ∧ m_val x = default_of k
     else static k (world c) = m_val x) ∧
    ∀ v, v ≠ m_val x → ∃ c', setValue (place k) v c = Ret tt c' ∧
      static k (world c') = (if decide (k = ConnectTimeout) then u64 v else v) ∧
      ∀ j, j ≠ k → static j (world c') = static j (world c).
Proof.
  destruct (reached_in_step c Hc) as (f&w&ids&->&Hf). specialize (Hf k).
  eexists. split; [by destruct k|]. split; [apply var_at|]. split; [done|]. split; [by destruct k|].
  intros v Hv. eexists. split; [apply setValue_registry|].
  rewrite decide_False by (intros E; apply Hv; rewrite <- E; by destruct k). cbn [world registry registry_of].
  split.
  - rewrite static_set, decide_True by done. by destruct k.
  - intros j Hj. by rewrite static_set, decide_False.
Qed.
End settings.

(** ** With trees for documents and decimal numbers *)

#[local] Existing Instance Config.tree_yaml.
#[local] Instance number_castable : Castable number Z := {
  from_str _ s := match read_int s with Some v => Casted v | None => CastThrows bad_lexical_cast end;
  to_str _ v := Casted (show_Z v);
  val_eqb := Z.eqb
}.

(** The document [http: request: buffer_size: 100]. *)
Definition small_buffers : tree :=
  mapping [(str "http", mapping [(str "request", mapping [(str "buffer_size", scalar (str "100"))])])].
Definition at_start : config (T := number) (V := Z) (W := statics) :=
  match (RequestSizeIniter;; HookIniter) before_main with Ret _ c => c | _ => before_main end.
Definition reloaded : config (T := number) (V := Z) (W := statics) :=
  match LoadFromYaml 4 small_buffers at_start with Ret _ c => c | _ => at_start end.

Lemma at_start_reached : reached (N := tree) at_start.
Proof.
  apply reached_start. destruct start_in_step as [ids Hs]. unfold at_start. by rewrite Hs.
Qed.
Lemma reloaded_reached : reached (N := tree) reloaded.
Proof.
  apply (reached_load at_start 4 small_buffers); [apply at_start_reached|]. left. unfold reloaded.
  assert (∃ c, LoadFromYaml 4 small_buffers at_start = Ret tt c) as [c Hc].
  { destruct start_in_step as [ids Hs]. unfold at_start. rewrite Hs. eexists. reflexivity. }
  by rewrite Hc.
Qed.
Lemma settings_witness :
  ∃ c', setValue (place ConnectTimeout) (-1) reloaded = Ret tt c' ∧ static ConnectTimeout (world c') = 2 ^ 64 - 1.
Proof.
  destruct (@settings_in_force tree _ number_castable Z.eqb_eq reloaded reloaded_reached ConnectTimeout) as (x&_&Hx&_&_&Hs).
  destruct (Hs (-1)) as (c'&Hc&Hv&_).
  - assert (m_val <$> vars reloaded !! place ConnectTimeout = Some 5000) as Hv by (by vm_compute).
    rewrite Hx in Hv. injection Hv as ->. done.
  - exists c'. split; [exact Hc|]. rewrite Hv. reflexivity.
Defined.
Example document_in_force :
  (static RequestBuffer (world reloaded), static ResponseBuffer (world reloaded)) = (100, 4096).
Proof. by vm_compute. Qed.
